(** * diodes: a shallow embedding of the framing code of the transfer tools

    The development follows the layout of the repository.

    Part I, the embedding:
    - [Py], [Seq], [Struct]: the Python notions the sources rely on
      (exceptions, byte values, slices, [zip], [struct.pack]);
    - [Vle]: [enc_vle] (vx/vxt.py) and [dec_vle] (vx/vxr.py);
    - [Mux]: the debug joiner (ax/dbg/mux.py);
    - [Volume], [Axt], [Axr]: the audio transmitter and receiver
      (ax/axt.py, ax/axr.py);
    - [Base64], [Crc32], [Kxt]: the base64 and gzip stages of the keyboard
      transmitter (kx/kxt.py), with [Gunzip] and [Stored] to read a gzip
      stream back;
    - [Bits], [Vxt], [Vxr]: figment assignment and frame checksum of the
      dotmatrix transmitter (vx/vxt.py), checksum test and assembler of the
      dotmatrix receiver (vx/vxr.py);
    - [Demux]: the debug splitter (ax/dbg/demux.py);
    - [VxtFrame], [VxtScreen]: the bits of a frame, the screen they make
      and the key loop of the dotmatrix transmitter ([gen_frame],
      [calibration_boxes], [rasterize], [run]);
    - [VxrMain]: the decode loop of the dotmatrix receiver;
    - [KxtMain]: the typing queue and the line loop of the keyboard
      transmitter ([Typist.put], the loop of [main]);
    - [AudioSpec], [AsmSpec], [FrameSpec], [XferSpec], [WireSpec],
      [CaptureSpec], [ScreenSpec], [TypeSpec]: notions that only the
      statements use.

    Third-party code is a parameter of what uses it: the SHA-512 of hashlib,
    the raw-deflate compressor of zlib, the UTF-8 decoder, the files behind
    the names of a file list, and the file system of the receiver, which
    says whether a directory can be made, a file opened for writing or
    given a time stamp.  Loops the sources bound by their data run on a
    budget computed from the data; a loop that runs dry gives [Timeout],
    which no property below takes for a result: a loop that does not end is
    one that runs dry on every budget.

    Part II, the properties. *)

From Stdlib Require Import ZArith List Lia Bool.
From Stdlib Require Import Strings.Byte Strings.String.
From stdpp Require Import gmap list.

Local Open Scope Z_scope.

(* ===================================================================== *)
(** * Part I: the embedding                                                *)
(* ===================================================================== *)

(** ** Python notions shared by all the tools *)
Module Py.

(** The exceptions the modelled code can raise. *)
Inductive exn : Type :=
| ValueError
| TypeError
| StructError
| IndexError
| IsADirectoryError
| PyException (tag : Z)
| SystemExit (code : Z).

(** Outcome of running a piece of code: a value, an uncaught exception, or
    the loop budget of the model ran out before the code was done. *)
Inductive res (A : Type) : Type :=
| Ok (a : A)
| Raise (e : exn)
| Timeout.

Arguments Ok {A} a.
Arguments Raise {A} e.
Arguments Timeout {A}.

Definition bind {A B : Type} (m : res A) (k : A -> res B) : res B :=
  match m with
  | Ok a => k a
  | Raise e => Raise e
  | Timeout => Timeout
  end.

(** A byte as the integer Python hands out when iterating over [bytes]. *)
Definition Z_of_byte (b : byte) : Z := Z.of_N (Byte.to_N b).

(** [bytearray.append(v)] and [bytes([v])]: only 0..255 is accepted. *)
Definition u8 (v : Z) : res byte :=
  if (v <? 0) then Raise ValueError
  else match Byte.of_N (Z.to_N v) with
       | Some b => Ok b
       | None => Raise ValueError
       end.

(** The byte with value [z mod 256]. *)
Definition byte_of_Z (z : Z) : byte :=
  match Byte.of_N (Z.to_N (z mod 256)) with
  | Some b => b
  | None => x00
  end.

(** [len(x)] as a Python integer. *)
Definition len {A : Type} (l : list A) : Z := Z.of_nat (length l).

End Py.

Import Py.

Notation "'let*' x := m 'in' k" := (Py.bind m (fun x => k))
  (at level 10, x name, m at level 100, k at level 200).
Notation "'let*' ' p := m 'in' k" := (Py.bind m (fun x => match x with p => k end))
  (at level 10, p pattern, m at level 100, k at level 200).

(** ** Variable-length integers (vx/vxt.py [enc_vle], vx/vxr.py [dec_vle]) *)
Module Vle.

(** The [while value >= 0x80] loop of [enc_vle]; [ret] is the bytearray. *)
Fixpoint enc_vle_loop (fuel : nat) (value : Z) (ret : list byte) : res (list byte) :=
  match fuel with
  | O => Timeout
  | S fuel' =>
      if 0x80 <=? value then
        let (value', octet) := Z.div_eucl value 0x80 in
        let* b := u8 (octet + 0x80) in
        enc_vle_loop fuel' value' (ret ++ [b])
      else
        let* b := u8 value in
        Ok (ret ++ [b])
  end.

(** [enc_vle(value)]: the loop runs once per 7 bits of [value]. *)
Definition enc_vle (value : Z) : res (list byte) :=
  enc_vle_loop (S (Z.to_nat (Z.log2 value))) value [].

(** [dec_vle(buf)] over an iterator: returns [(value, bytes eaten)] and what
    is left of the iterator, which the callers go on reading from. *)
Fixpoint dec_vle_loop (buf : list byte) (vret vpow nate : Z) : (Z * Z) * list byte :=
  match buf with
  | [] => ((-1, 0), [])
  | b :: rest =>
      let v := Z_of_byte b in
      let nate := nate + 1 in
      if v <? 0x80 then ((Z.lor vret (Z.shiftl v vpow), nate), rest)
      else
        let vret := Z.lor vret (Z.shiftl (v - 0x80) vpow) in
        let vpow := vpow + 7 in
        if 63 <=? vpow then ((-1, 0), rest)
        else dec_vle_loop rest vret vpow nate
  end.

Definition dec_vle_it (it : list byte) : (Z * Z) * list byte :=
  dec_vle_loop it 0 0 0.

Definition dec_vle (buf : list byte) : Z * Z := fst (dec_vle_it buf).

End Vle.

(** ** Sequence helpers of Python used by the audio tools *)
Module Seq.

(** [buf[-n:]] for [n > 0]: the last [n] items, all of them when fewer. *)
Definition py_tail {A : Type} (n : nat) (l : list A) : list A :=
  drop (length l - n) l.

(** [buf[:-n]] for [n > 0]: all but the last [n] items. *)
Definition py_init {A : Type} (n : nat) (l : list A) : list A :=
  take (length l - n) l.

(** [buf[k::step]]: the items at positions [k], [k + step], ...; the counter
    [k] is the distance to the next item taken. *)
Fixpoint every {A : Type} (step k : nat) (l : list A) : list A :=
  match l with
  | [] => []
  | x :: r =>
      match k with
      | O => x :: every step (step - 1) r
      | S k' => every step k' r
      end
  end.

(** [zip( *ls )]: the tuples of the i-th items, as long as every list has one. *)
Fixpoint zip_star {A : Type} (ls : list (list A)) : list (list A) :=
  match ls with
  | [] => []
  | l :: ls' =>
      match ls' with
      | [] => (fun x => [x]) <$> l
      | _ :: _ => zip_with cons l (zip_star ls')
      end
  end.

(** [[y for x in zip( *ls ) for y in x]] *)
Definition mux_bytes {A : Type} (ls : list (list A)) : list A :=
  concat (zip_star ls).

End Seq.

(** ** The debug joiner (ax/dbg/mux.py) *)
Module Mux.

(** [f.read(1024)] on a regular file: the chunk and the unread rest. *)
Definition read (f : list byte) : list byte * list byte :=
  (take 1024 f, drop 1024 f).

(** The inner [for n in range(nf)] loop: [None] stands for [bs = None]
    followed by [break], which leaves only the [for] loop. *)
Fixpoint read_round (fs : list (list byte)) (bs : list (list byte))
  : option (list (list byte)) * list (list byte) :=
  match fs with
  | [] => (Some bs, [])
  | f :: fs' =>
      let '(b, f') := read f in
      match b with
      | [] => (None, f' :: fs')
      | _ :: _ =>
          let '(r, fs'') := read_round fs' (bs ++ [b]) in
          (r, f' :: fs'')
      end
  end.

(** The outer [while True] loop; it has no exit of its own.  The result is
    what was written to standard output and how the script ended. *)
Fixpoint mux_loop (fuel : nat) (fs : list (list byte)) (out : list byte)
  : list byte * res unit :=
  match fuel with
  | O => (out, Timeout)
  | S fuel' =>
      match read_round fs [] with
      | (None, _) => (out, Raise TypeError)      (* zip( *None ) *)
      | (Some bs, fs') => mux_loop fuel' fs' (out ++ Seq.mux_bytes bs)
      end
  end.

(** The script on the [nf] opened files: every completed round takes at
    least one byte of the first file. *)
Definition mux (files : list (list byte)) : list byte * res unit :=
  mux_loop (S (length (hd [] files))) files [].

End Mux.

(** Exit status of the interpreter: 0 when the script runs to its end, the
    code given to [sys.exit], 1 after an uncaught exception. *)
Definition exit_status {A : Type} (r : res A) : option Z :=
  match r with
  | Ok _ => Some 0
  | Raise (SystemExit c) => Some c
  | Raise _ => Some 1
  | Timeout => None
  end.

(** ** The receiver's volume meter (ax/axr.py, [A.run], the input loop) *)
Module Volume.
Section Meter.

(** Peak amplitudes are floats in the source; only their order is used, so
    the meter is written over any type with a maximum and the two
    comparisons against the threshold 0.1. *)
Context {sample : Type}.
Variable smax : sample -> sample -> sample.
Variable above_01 : sample -> bool.   (* [x > 0.1] *)
Variable below_01 : sample -> bool.   (* [x < 0.1] *)





End Meter.
End Volume.

(** ** [struct.pack(">HH", a, b)] and [struct.unpack(">HH", buf)] *)
Module Struct.

Definition pack_HH (a b : Z) : res (list byte) :=
  if (0 <=? a) && (a <? 65536) && (0 <=? b) && (b <? 65536) then
    let* a1 := u8 (a / 256) in
    let* a0 := u8 (a mod 256) in
    let* b1 := u8 (b / 256) in
    let* b0 := u8 (b mod 256) in
    Ok [a1; a0; b1; b0]
  else Raise StructError.

Definition unpack_HH (buf : list byte) : res (Z * Z) :=
  match buf with
  | [a1; a0; b1; b0] =>
      Ok (Z_of_byte a1 * 256 + Z_of_byte a0, Z_of_byte b1 * 256 + Z_of_byte b0)
  | _ => Raise StructError
  end.

End Struct.

(** ** The audio transmitter (ax/axt.py, [A.run]) *)
Module Axt.

Definition zeros (n : nat) : list byte := replicate n x00.

(** The priming pad written to every encoder before the data. *)
Definition pad : list byte := zeros 64 ++ [xff].

(** [struct.pack(">HH", 0xCADE, len(b)) + b] *)
Definition frame (b : list byte) : res (list byte) :=
  let* h := Struct.pack_HH 0xCADE (len b) in Ok (h ++ b).

(** One buffer for each channel, prefixed with magic and chunk length, and
    written to the channel's encoder; [chans] holds what every encoder has
    been given so far. *)
Definition send (nch : nat) (buf : list byte) (chans : list (list byte))
  : res (list (list byte)) :=
  let bufs := (fun n => Seq.every nch n buf) <$> seq 0 nch in
  let* framed :=
    foldr (fun b acc => let* f := frame b in let* fs := acc in Ok (f :: fs))
          (Ok []) bufs in
  Ok (zip_with app chans framed).

(** The [while True] loop of [run]; [reads] lists what the successive
    [sys.stdin.buffer.read((32767 - 4) * nch)] calls return before the end
    of input, after which every read returns [b""]. *)
Fixpoint tx_loop (nch : nat) (reads : list (list byte)) (rem : list byte)
    (chans : list (list byte)) : res (list (list byte)) :=
  match reads with
  | [] =>
      match rem with
      | [] => Ok chans                             (* not buf, not rem: break *)
      | _ :: _ => send nch rem chans               (* final iteration, then break *)
      end
  | buf :: reads' =>
      match buf with
      | [] =>
          match rem with
          | [] => Ok chans
          | _ :: _ => let* chans' := send nch rem chans in tx_loop nch reads' [] chans'
          end
      | _ :: _ =>
          let buf := rem ++ buf in
          let n := (length buf mod nch)%nat in
          let '(rem', buf') :=
            match n with
            | O => ([], buf)
            | S _ => (Seq.py_tail n buf, Seq.py_init n buf)
            end in
          let* chans' := send nch buf' chans in
          tx_loop nch reads' rem' chans'
      end
  end.

(** What each encoder has received when [run] closes its input. *)
Definition run (nch : nat) (reads : list (list byte)) : res (list (list byte)) :=
  let* chans := tx_loop nch reads [] (replicate nch pad) in
  Ok ((fun c => c ++ zeros 128) <$> chans).

End Axt.

(** ** The audio receiver (ax/axr.py, [A.rd], [A.emit], the end of [A.run]) *)
Module Axr.

Record state : Type := mkState {
  dec : list (list byte);       (* per channel: decoded bytes not yet emitted *)
  padding : list bool;          (* per reader thread: still before the 0xFF *)
  emitted : Z;
  out : list byte               (* written to standard output *)
}.

Definition init (nch : nat) : state :=
  mkState (replicate nch []) (replicate nch true) 0 [].

(** [buf.lstrip(b"\x00")] *)
Fixpoint lstrip0 (buf : list byte) : list byte :=
  match buf with
  | x00 :: r => lstrip0 r
  | _ => buf
  end.

(** One chunk read by the reader thread of a channel: the new [padding]
    flag and the bytes appended to the channel buffer, if any. *)
Definition rd_chunk (padding : bool) (buf : list byte) : bool * option (list byte) :=
  if padding then
    match lstrip0 buf with
    | xff :: r => (false, Some r)
    | _ => (true, None)
    end
  else (false, Some buf).

(** The header checks of [emit], channel after channel: [None] stands for
    [return False]. *)
Fixpoint check_frames (dec : list (list byte)) : res (option (list Z)) :=
  match dec with
  | [] => Ok (Some [])
  | buf :: rest =>
      if len buf <? 4 then Ok None
      else
        let* '(magic, sz) := Struct.unpack_HH (take 4 buf) in
        if negb (magic =? 0xCADE) then
          if sz =? 0 then Ok None else Raise (SystemExit 1)
        else if len buf <? sz + 4 then Ok None
        else
          let* r := check_frames rest in
          Ok (cons sz <$> r)
  end.

(** [for n in range(1, len(bufs))]: a channel shorter than the one before
    it gets four zero bytes. *)
Fixpoint pad_short (prev : list byte) (rest : list (list byte)) : list (list byte) :=
  match rest with
  | [] => []
  | b :: r =>
      let b' := if len b <? len prev then b ++ Axt.zeros 4 else b in
      b' :: pad_short b' r
  end.

Definition sum (l : list Z) : Z := foldr Z.add 0 l.

(** [emit()]: the returned flag and the new state. *)
Definition emit (st : state) : res (bool * state) :=
  let* r := check_frames (dec st) in
  match r with
  | None => Ok (false, st)
  | Some szs =>
      let bufs := zip_with (fun x sz => take (Z.to_nat sz) (drop 4 x)) (dec st) szs in
      let dec' := zip_with (fun x sz => drop (Z.to_nat (sz + 4)) x) (dec st) szs in
      let st' := mkState dec' (padding st) (emitted st) (out st) in
      match bufs with
      | [] => Raise IndexError
      | b0 :: rest =>
          match b0 with
          | [] => Ok (false, st')
          | _ :: _ =>
              let bufs' := b0 :: pad_short b0 rest in
              let data := take (Z.to_nat (sum szs)) (Seq.mux_bytes bufs') in
              Ok (true, mkState dec' (padding st) (emitted st + len b0) (out st ++ data))
          end
      end
  end.

(** What happens to the receiver between two instants: the reader thread of
    channel [ch] gets the chunk [b :: chunk] from its decoder (an empty read
    ends the thread and is no event), or [emit] is called. *)
Inductive event : Type :=
| Recv (ch : nat) (b : byte) (chunk : list byte)
| Emit.

Definition step (st : state) (ev : event) : res state :=
  match ev with
  | Recv ch b chunk =>
      match padding st !! ch with
      | None => Ok st
      | Some p =>
          let '(p', fwd) := rd_chunk p (b :: chunk) in
          let dec' := match fwd with
                      | Some buf => alter (fun d => d ++ buf) ch (dec st)
                      | None => dec st
                      end in
          Ok (mkState dec' (<[ch := p']> (padding st)) (emitted st) (out st))
      end
  | Emit => let* '(_, st') := emit st in Ok st'
  end.

Fixpoint run_events (st : state) (evs : list event) : res state :=
  match evs with
  | [] => Ok st
  | ev :: evs' => let* st' := step st ev in run_events st' evs'
  end.

(** The final loop of [run]: retry [emit] until 21 calls in a row fail. *)
Fixpoint drain (fuel : nat) (st : state) (spins : Z) : res state :=
  match fuel with
  | O => Timeout
  | S fuel' =>
      let* '(b, st') := emit st in
      if (b : bool) then drain fuel' st' 0
      else
        let spins := spins + 1 in
        if 20 <? spins then Ok st' else drain fuel' st' spins
  end.

(** The receiver over a schedule of deliveries and [emit] calls, followed
    by the final loop; every successful [emit] of the final loop takes at
    least four bytes out of a channel buffer. *)
Definition run (nch : nat) (evs : list event) : res state :=
  let* st := run_events (init nch) evs in
  drain (22 + length (concat (dec st))) st 0.

(** The bytes the decoder of channel [ch] hands over in a schedule. *)
Fixpoint delivered (ch : nat) (evs : list event) : list byte :=
  match evs with
  | [] => []
  | Recv c b chunk :: evs' =>
      if Nat.eqb c ch then (b :: chunk) ++ delivered ch evs' else delivered ch evs'
  | Emit :: evs' => delivered ch evs'
  end.

End Axr.

(** ** Notions used to state the audio round trip *)
Module AudioSpec.

(** The channel frame header for a payload of [n] bytes. *)
Definition hdr (n : Z) : list byte :=
  [xca; xde; byte_of_Z (n / 256); byte_of_Z n].

(** The frame channel [c] of two gets for the buffer [buf] of one iteration. *)
Definition fr (c : nat) (buf : list byte) : list byte :=
  hdr (len (Seq.every 2 c buf)) ++ Seq.every 2 c buf.

Definition frames (c : nat) (bufs : list (list byte)) : list byte :=
  concat (fr c <$> bufs).

(** A read returns between 1 and (32767 - 4) * 2 bytes. *)
Definition read_ok (c : list byte) : Prop := c <> [] /\ len c <= 65526.

(** A buffer whose two payloads fit the 16-bit length field. *)
Definition small (buf : list byte) : Prop := len buf <= 65535.

(** No two buffers in a row are empty. *)
Fixpoint calm (bufs : list (list byte)) : Prop :=
  match bufs with
  | [] => True
  | b1 :: r =>
      match r with
      | [] => True
      | b2 :: _ => (b1 = [] -> b2 <> []) /\ calm r
      end
  end.

(** The first buffer, if there is one, is not empty. *)
Definition head_full (bufs : list (list byte)) : Prop :=
  match bufs with
  | [] => True
  | b :: _ => b <> []
  end.

(** Channel [c] is ready for [emit] when its buffer holds the whole next
    frame. *)
Definition ready (c : nat) (d : list byte) (bufs : list (list byte)) : bool :=
  match bufs with
  | [] => false
  | buf :: _ => (4 + length (Seq.every 2 c buf) <=? length d)%nat
  end.

(** What channel [c] still has to hand over and what its buffer holds,
    against the buffers [bufs] not emitted yet. *)
Definition chan_rel (c : nat) (p : bool) (d raw : list byte)
    (bufs : list (list byte)) : Prop :=
  (p = true /\ d = [] /\
   exists k, (k <= 64)%nat /\
     raw = Axt.zeros k ++ xff :: (frames c bufs ++ Axt.zeros 128))
  \/ (p = false /\ d ++ raw = frames c bufs ++ Axt.zeros 128).

End AudioSpec.

(** ** Library functions used by the keyboard transmitter *)

(** [base64.b64encode], the standard alphabet with padding. *)
Module Base64.

Definition alphabet : list byte :=
  list_byte_of_string
    "ABCDEFGHIJKLMNOPQRSTUVWXYZabcdefghijklmnopqrstuvwxyz0123456789+/".

Definition b64char (n : Z) : byte := nth (Z.to_nat n) alphabet x41.

(** The 24 bits of a group, first byte in the high bits. *)
Definition group (a b c : Z) : Z := a * 65536 + b * 256 + c.

Fixpoint b64encode (s : list byte) : list byte :=
  match s with
  | [] => []
  | [a] =>
      let n := group (Z_of_byte a) 0 0 in
      [b64char (n / 262144); b64char (n / 4096 mod 64); x3d; x3d]
  | [a; b] =>
      let n := group (Z_of_byte a) (Z_of_byte b) 0 in
      [b64char (n / 262144); b64char (n / 4096 mod 64); b64char (n / 64 mod 64); x3d]
  | a :: b :: c :: r =>
      let n := group (Z_of_byte a) (Z_of_byte b) (Z_of_byte c) in
      [b64char (n / 262144); b64char (n / 4096 mod 64);
       b64char (n / 64 mod 64); b64char (n mod 64)] ++ b64encode r
  end.

End Base64.

(** [zlib.crc32(buf, crc)]: the CRC-32 of gzip, continued from [crc]. *)
Module Crc32.

Definition crc_bit (c : Z) : Z :=
  if Z.testbit c 0 then Z.lxor (Z.shiftr c 1) 0xEDB88320 else Z.shiftr c 1.

Definition crc_byte (c : Z) (b : byte) : Z :=
  Nat.iter 8 crc_bit (Z.lxor c (Z_of_byte b)).

Definition crc32 (buf : list byte) (crc : Z) : Z :=
  Z.lxor (fold_left crc_byte buf (Z.lxor crc 0xFFFFFFFF)) 0xFFFFFFFF.

End Crc32.

(** ** The stream stages of the keyboard transmitter (kx/kxt.py) *)
Module Kxt.

(** A stage consumes and yields chunks; [None] is the end marker. *)
Definition stream : Type := list (option (list byte)).

(** [struct.pack("<L", v)] *)
Definition le32 (v : Z) : list byte :=
  [byte_of_Z v; byte_of_Z (v / 256); byte_of_Z (v / 65536); byte_of_Z (v / 16777216)].

Definition pack_L (v : Z) : res (list byte) :=
  if (0 <=? v) && (v <? 4294967296) then Ok (le32 v) else Raise StructError.

(** [struct.pack("<2L", a, b)] *)
Definition pack_2L (a b : Z) : res (list byte) :=
  let* x := pack_L a in let* y := pack_L b in Ok (x ++ y).

(** *** [StreamBase64.collect] *)



(** *** [StreamGzip.collect] *)
Section Gzip.

(** [zlib.compressobj(9, DEFLATED, -MAX_WBITS, DEF_MEM_LEVEL, 0)]: the
    raw-deflate compressor of the zlib library, with its two methods. *)
Context {zstate : Type}.
Variable z_new : zstate.
Variable z_compress : zstate -> list byte -> zstate * list byte.
Variable z_flush : zstate -> list byte.

(** The [for buf in self.src_gen] loop and the trailer after it. *)
Fixpoint gz_loop (src : stream) (pk : zstate) (crc length : Z) : res stream :=
  match src with
  | [] | None :: _ =>
      let* tr := pack_2L crc (Z.land length 0xFFFFFFFF) in
      Ok [Some (z_flush pk ++ tr); None]
  | Some buf :: src' =>
      let '(pk', outbuf) := z_compress pk buf in
      let crc := Z.land (Crc32.crc32 buf crc) 0xFFFFFFFF in
      let length := length + len buf in
      match outbuf with
      | [] => gz_loop src' pk' crc length
      | _ :: _ => let* rest := gz_loop src' pk' crc length in Ok (Some outbuf :: rest)
      end
  end.

(** [collect()], with [now] for [int(time.time())]. *)
Definition StreamGzip (now : Z) (src : stream) : res stream :=
  let* t := pack_L now in
  let header := [x1f; x8b; x08; x00] ++ t ++ [x02; xff] in
  let* rest := gz_loop src z_new (Crc32.crc32 [] 0) 0 in
  Ok (Some header :: rest).

(** Everything the compressor puts out for a sequence of chunks. *)
Fixpoint z_stream (pk : zstate) (chunks : list (list byte)) : list byte :=
  match chunks with
  | [] => z_flush pk
  | buf :: chunks' =>
      let '(pk', outbuf) := z_compress pk buf in outbuf ++ z_stream pk' chunks'
  end.

End Gzip.

(** The bytes of a stream, end markers left out. *)
Definition bytes_of (s : stream) : list byte := concat (omap id s).

End Kxt.

(** ** A gzip reader after RFC 1952, over any inflater *)
Module Gunzip.

Definition le32_val (b0 b1 b2 b3 : byte) : Z :=
  Z_of_byte b0 + Z_of_byte b1 * 256 + Z_of_byte b2 * 65536 + Z_of_byte b3 * 16777216.

(** Skip a zero-terminated field (FNAME, FCOMMENT). *)
Fixpoint skip_zstring (s : list byte) : option (list byte) :=
  match s with
  | [] => None
  | x00 :: r => Some r
  | _ :: r => skip_zstring r
  end.

(** The optional header fields selected by the flag byte. *)
Definition skip_optional (flg : Z) (s : list byte) : option (list byte) :=
  if negb (Z.land flg 0xE0 =? 0) then None
  else
    s1 ← (if Z.testbit flg 2 then
            match s with
            | l0 :: l1 :: r =>
                let xlen := Z.to_nat (Z_of_byte l0 + Z_of_byte l1 * 256) in
                if (xlen <=? length r)%nat then Some (drop xlen r) else None
            | _ => None
            end
          else Some s);
    s2 ← (if Z.testbit flg 3 then skip_zstring s1 else Some s1);
    s3 ← (if Z.testbit flg 4 then skip_zstring s2 else Some s2);
    if Z.testbit flg 1 then
      match s3 with _ :: _ :: r => Some r | _ => None end
    else Some s3.

(** A file of one member: header, deflate data, CRC-32 and size of the
    uncompressed data; [inflate] returns the data and what follows the
    end of the deflate stream. *)
Definition gunzip (inflate : list byte -> option (list byte * list byte))
    (s : list byte) : option (list byte) :=
  match s with
  | id1 :: id2 :: cm :: flg :: _ :: _ :: _ :: _ :: _ :: _ :: r =>
      if Byte.eqb id1 x1f && Byte.eqb id2 x8b && Byte.eqb cm x08 then
        body ← skip_optional (Z_of_byte flg) r;
        '(data, rest) ← inflate body;
        match rest with
        | [c0; c1; c2; c3; s0; s1; s2; s3] =>
            if (le32_val c0 c1 c2 c3 =? Crc32.crc32 data 0)
               && (le32_val s0 s1 s2 s3 =? len data mod 4294967296)
            then Some data else None
        | _ => None
        end
      else None
  | _ => None
  end.

End Gunzip.

(** ** Deflate with stored blocks only (RFC 1951, 3.2.4), a compressor and
    its inflater to run the gzip stage on *)
Module Stored.

(** One stored block per chunk, never the last one. *)
Definition compress (pk : unit) (buf : list byte) : unit * list byte :=
  (pk, [x00; byte_of_Z (len buf); byte_of_Z (len buf / 256);
        byte_of_Z (255 - len buf); byte_of_Z (255 - len buf / 256)] ++ buf).

(** The last block is an empty stored block. *)
Definition flush (pk : unit) : list byte := [x01; x00; x00; xff; xff].

Fixpoint inflate_loop (fuel : nat) (s : list byte) (acc : list byte)
  : option (list byte * list byte) :=
  match fuel with
  | O => None
  | S fuel' =>
      match s with
      | h :: l0 :: l1 :: n0 :: n1 :: r =>
          let n := Z_of_byte l0 + Z_of_byte l1 * 256 in
          if negb (Z_of_byte h <=? 1) then None
          else if negb (Z_of_byte n0 + Z_of_byte n1 * 256 =? 65535 - n) then None
          else if (length r <? Z.to_nat n)%nat then None
          else if Z_of_byte h =? 1 then Some (acc ++ take (Z.to_nat n) r, drop (Z.to_nat n) r)
          else inflate_loop fuel' (drop (Z.to_nat n) r) (acc ++ take (Z.to_nat n) r)
      | _ => None
      end
  end.

Definition inflate (s : list byte) : option (list byte * list byte) :=
  inflate_loop (length s) s [].

End Stored.

(** ** Bit strings of the dotmatrix tools (vx/vxt.py, vx/vxr.py) *)
Module Bits.

(** [bin(x)[2:].zfill(8)]: the eight bits of a byte, high bit first. *)
Definition bits_of_byte (b : byte) : list bool :=
  let v := Z_of_byte b in
  [Z.testbit v 7; Z.testbit v 6; Z.testbit v 5; Z.testbit v 4;
   Z.testbit v 3; Z.testbit v 2; Z.testbit v 1; Z.testbit v 0].

(** [bstr2bits] of vxr.py, [bstr2bitstr] as a list of bits. *)
Definition bstr2bits (buf : list byte) : list bool :=
  concat (bits_of_byte <$> buf).

(** [int(bits, 2)] for a string of eight bits. *)
Definition byte_of_bits (b7 b6 b5 b4 b3 b2 b1 b0 : bool) : byte :=
  byte_of_Z (Z.b2z b7 * 128 + Z.b2z b6 * 64 + Z.b2z b5 * 32 + Z.b2z b4 * 16
             + Z.b2z b3 * 8 + Z.b2z b2 * 4 + Z.b2z b1 * 2 + Z.b2z b0).

(** [bits2bstr]: the bytes of the complete groups of eight bits. *)
Fixpoint bits2bstr (bits : list bool) : list byte :=
  match bits with
  | b7 :: b6 :: b5 :: b4 :: b3 :: b2 :: b1 :: b0 :: r =>
      byte_of_bits b7 b6 b5 b4 b3 b2 b1 b0 :: bits2bstr r
  | _ => []
  end.

(** The bits as the characters ['0'] and ['1'], UTF-8 encoded. *)
Definition ascii_bits (bits : list bool) : list byte :=
  (fun x : bool => if x then x31 else x30) <$> bits.

(** [binascii.hexlify] *)
Definition hexdigit (n : Z) : byte :=
  nth (Z.to_nat n) (list_byte_of_string "0123456789abcdef") x30.

Definition hexlify (buf : list byte) : list byte :=
  concat ((fun b => [hexdigit (Z_of_byte b / 16); hexdigit (Z_of_byte b mod 16)]) <$> buf).

(** The value of a hexadecimal digit (used to read [hexlify] back). *)
Definition digit_val (c : byte) : Z :=
  let v := Z_of_byte c in if v <? 58 then v - 48 else v - 87.

End Bits.

(** ** The dotmatrix transmitter (vx/vxt.py) *)
Module Vxt.

(** [bstr2bits] of vxt.py, with its size limit of 700 * 400 / 8 bytes. *)
Definition bstr2bits (buf : list byte) : res (list bool) :=
  if 35000 <? len buf then Raise (PyException 0) else Ok (Bits.bstr2bits buf).

(** A figment: the dictionary of a file with its header length under
    ["len"], or the dictionary [{"len": sz, "pl": True}] of its payload.
    Two figments are equal as Python dictionaries when they are equal here. *)
Inductive fig : Type :=
| Header (fn : list byte) (sz ts flen : Z)
| Payload (flen : Z).

Definition fig_len (f : fig) : Z :=
  match f with Header _ _ _ l => l | Payload l => l end.

Definition list_eqb {A : Type} (eqb : A -> A -> bool) : list A -> list A -> bool :=
  fix go l1 l2 :=
    match l1, l2 with
    | [], [] => true
    | x :: r1, y :: r2 => eqb x y && go r1 r2
    | _, _ => false
    end.

Definition fig_eqb (a b : fig) : bool :=
  match a, b with
  | Header fn1 sz1 ts1 l1, Header fn2 sz2 ts2 l2 =>
      list_eqb Byte.eqb fn1 fn2 && (sz1 =? sz2) && (ts1 =? ts2) && (l1 =? l2)
  | Payload l1, Payload l2 => l1 =? l2
  | _, _ => false
  end.

(** [self.figs.index(x)]: the first position holding a figment equal to [x]. *)
Fixpoint index (figs : list fig) (x : fig) : res nat :=
  match figs with
  | [] => Raise ValueError
  | f :: r => if fig_eqb f x then Ok O else let* i := index r x in Ok (S i)
  end.

(** An entry of a frame: the figment object, named by its place in
    [self.figs], the bit range shown, and the bit offset in the frame. *)
Record chunk : Type := mkChunk {
  c_fig : nat;
  bit1 : Z;
  bit2 : Z;
  ofs : Z
}.

Record file : Type := mkFile { f_fn : list byte; f_sz : Z; f_ts : Z }.

(** What [__init__] sets up and never changes. *)
Record config : Type := mkConfig {
  figs : list fig;
  header0 : list byte;
  nbits : Z
}.

(** The stored file name of [gen_header]: no drive prefix, forward
    slashes, no leading slash. *)
Definition strip_drive (fn : list byte) : list byte :=
  match fn with
  | _ :: x3a :: x5c :: r => r          (* rfn.find(b":\\") == 1 *)
  | _ => fn
  end.

Fixpoint lstrip_slash (fn : list byte) : list byte :=
  match fn with
  | x2f :: r => lstrip_slash r
  | _ => fn
  end.

Definition rel_name (fn : list byte) : list byte :=
  lstrip_slash ((fun c => if Byte.eqb c x5c then x2f else c) <$> strip_drive fn).

(** [gen_header(fo, fake_csum)] with the checksum to put in. *)
Definition gen_header (fo : file) (csum : list byte) : res (list byte) :=
  let rfn := rel_name (f_fn fo) in
  let* a := Vle.enc_vle (f_sz fo) in
  let* b := Vle.enc_vle (f_ts fo) in
  let* c := Vle.enc_vle (len rfn) in
  Ok (a ++ b ++ csum ++ c ++ rfn).

(** The loop of [__init__] over the files. *)
Fixpoint make_figs (files : list file) : res (list fig) :=
  match files with
  | [] => Ok []
  | fo :: r =>
      let* header := gen_header fo (replicate 16 x78) in
      let* rest := make_figs r in
      Ok (Header (f_fn fo) (f_sz fo) (f_ts fo) (len header) :: Payload (f_sz fo) :: rest)
  end.

(** [Vxt(ar, files)] on a terminal of [w] by [h] cells. *)
Definition init (files : list file) (w h : Z) (halfs : bool) : res config :=
  let* fg := make_figs files in
  let* v := Vle.enc_vle 1 in
  let* nf := Vle.enc_vle (len files) in
  let* nb := Vle.enc_vle (foldr Z.add 0 (f_sz <$> files)) in
  Ok (mkConfig fg (v ++ nf ++ nb) ((w * h - 1) * (if halfs then 2 else 1))).

(** The [while bits_spent < self.nbits and fig_idx < len(self.figs)] loop
    of [get_frame_info]. *)
Fixpoint fill (fuel : nat) (cfg : config) (bits_spent : Z) (fig_idx : nat)
    (fig_bit : Z) (displayed : list chunk) : res (list chunk) :=
  match fuel with
  | O => Timeout
  | S fuel' =>
      if (bits_spent <? nbits cfg) && (fig_idx <? length (figs cfg))%nat then
        let bits_left := nbits cfg - bits_spent in
        match figs cfg !! fig_idx with
        | None => Raise IndexError
        | Some fg =>
            if fig_len fg * 8 <=? fig_bit then
              fill fuel' cfg bits_spent (S fig_idx) 0 displayed
            else
              let b1 := fig_bit in
              let b2 := b1 + bits_left in
              let b2 := if fig_len fg * 8 <? b2 then fig_len fg * 8 else b2 in
              fill fuel' cfg (bits_spent + (b2 - b1)) fig_idx b2
                   (displayed ++ [mkChunk fig_idx b1 b2 bits_spent])
        end
      else Ok displayed
  end.

(** [get_frame_info] once the earlier frames have been looked after;
    [frames] is [self.frames], returned with the result. *)
Definition frame_info_body (cfg : config) (nframe : nat) (frames : list (list chunk))
  : res (option (list chunk) * list (list chunk)) :=
  if (nframe <? length frames)%nat then Ok (frames !! nframe, frames)
  else
    let* vframe := Vle.enc_vle (Z.of_nat nframe) in
    let bits_spent := (4 + len vframe) * 8 in
    let* '(bits_spent, fig_idx, fig_bit) :=
      match nframe with
      | O => Ok (bits_spent + len (header0 cfg) * 8, O, 0)
      | S prev =>
          match frames !! prev with
          | None => Raise IndexError
          | Some pframe =>
              match last pframe with
              | None => Raise IndexError
              | Some c =>
                  match figs cfg !! c_fig c with
                  | None => Raise IndexError
                  | Some fg => let* i := index (figs cfg) fg in Ok (bits_spent, i, bit2 c)
                  end
              end
          end
      end in
    let* displayed :=
      fill (S (Z.to_nat (nbits cfg) + length (figs cfg))) cfg bits_spent fig_idx fig_bit [] in
    match displayed with
    | [] => Ok (None, frames)                          (* end of stream *)
    | _ :: _ => Ok (Some displayed, frames ++ [displayed])
    end.

Fixpoint get_frame_info (cfg : config) (nframe : nat) (frames : list (list chunk))
  : res (option (list chunk) * list (list chunk)) :=
  match nframe with
  | O => frame_info_body cfg O frames
  | S prev =>
      let* frames' :=
        if (len frames - 1 <? Z.of_nat nframe)
        then let* '(_, fr) := get_frame_info cfg prev frames in Ok fr
        else Ok frames in
      frame_info_body cfg nframe frames'
  end.

Section Checksum.
(** [hashlib.sha512(m).digest()] *)
Variable sha512 : list byte -> list byte.

(** The end of [gen_frame]: zero padding up to the capacity [cap] of the
    screen, then the checksum in front. *)
Definition seal_frame (cap : Z) (bits : list bool) : res (list bool) :=
  let pad := cap - (len bits + 4 * 8) in
  let bits := bits ++ replicate (Z.to_nat pad) false in
  let hashbuf := Bits.ascii_bits bits in
  let* csum := bstr2bits (take 4 (sha512 hashbuf)) in
  Ok (csum ++ bits).

End Checksum.

End Vxt.

(** ** The dotmatrix receiver (vx/vxr.py) *)
Module Vxr.

Local Instance byte_eq_dec : EqDecision byte := Byte.byte_eq_dec.

Section Receiver.
(** [hashlib.sha512(m).digest()] *)
Variable sha512 : list byte -> list byte.

(** *** The checksum test of the decode loop of [main] *)

Inductive verdict : Type :=
| BadChecksum (frameno : Z)                 (* warn and [continue] *)
| Checked (frameno : Z) (bits : list bool). (* goes on to the frame number test *)

(** From [ofs = 4 * 8] to the [continue] after the warning; [bits] is the
    string of sampled bits. *)
Definition check_frame (bits : list bool) : verdict :=
  let ofs := 32%nat in
  let cksum := Bits.hexlify (Bits.bits2bstr (take ofs bits)) in
  let '(frameno, ofs2) := Vle.dec_vle (Bits.bits2bstr (take 64 (drop ofs bits))) in
  let cksum2 := Bits.hexlify (take 4 (sha512 (Bits.ascii_bits (drop ofs bits)))) in
  let bits' := drop (ofs + Z.to_nat ofs2 * 8) bits in
  if bool_decide (cksum = cksum2) then Checked frameno bits' else BadChecksum frameno.

(** *** The assembler *)

Record open_file : Type := mkPayload {
  p_fn : list byte;
  p_sz : Z;
  p_ts : Z;
  p_cksum : list byte;
  p_fo : list byte              (* what has been written to the open file *)
}.

(** A file the receiver is done with: the path it gave to [open], the bytes
    it wrote, the time it gave to [os.utime].  A list of these is a record
    of what the receiver has done to the file system, not of what the file
    system holds: a later file written to the path of an earlier one
    replaces it there. *)
Definition written_file : Type := list byte * list byte * Z.

(** The file system of the receiver.  [os.makedirs], [open] and [os.utime]
    are calls into the operating system, and whether one succeeds or raises
    is for the file system to say; its answer may depend on what the
    receiver has done to it before, the files written so far.  [open_wb]
    answers [Ok] when [open(fn, "wb")] returns a regular file, new or
    truncated to nothing: of such a file [tell()] is the number of bytes
    written since, and reading it again after [close()] gives these bytes. *)
Record filesystem : Type := mkFilesystem {
  makedirs : list written_file -> list byte -> res unit;  (* os.makedirs(name, exist_ok=True) *)
  open_wb : list written_file -> list byte -> res unit;   (* open(fn, "wb") *)
  utime : list written_file -> list byte -> Z -> res unit (* os.utime(fn, (ts, ts)) *)
}.

Variable os : filesystem.

Record state : Type := mkState {
  buf : list byte;
  remainder : list bool;
  next_frame : Z;
  frametab : gmap Z (list byte * list bool);
  fig_no : Z;
  files_total : option Z;
  bytes_total : option Z;
  files_done : Z;
  bytes_done : Z;
  payload : option open_file;
  files_written : list written_file
    (* not a field of the class: the files written, verified and closed so
       far, in this order *)
}.

Definition init : state :=
  mkState [] [] 0 ∅ 0 None None 0 0 None [].

(** Truth value of [self.files_total] and [self.bytes_total]: [None] and 0
    are false. *)
Definition truthy (v : option Z) : bool :=
  match v with
  | None => false
  | Some n => negb (n =? 0)
  end.

(** [_realign]: move the frames that are next in line into [buf]. *)
Fixpoint realign (fuel : nat) (st : state) : state :=
  match fuel with
  | O => st
  | S fuel' =>
      match frametab st !! next_frame st with
      | None => st
      | Some (frame_data, frame_remainder) =>
          let bits := remainder st ++ Bits.bstr2bits frame_data ++ frame_remainder in
          let bstr := Bits.bits2bstr bits in
          realign fuel'
            (mkState (buf st ++ bstr) (drop (length bstr * 8) bits)
                     (next_frame st + 1) (delete (next_frame st) (frametab st))
                     (fig_no st) (files_total st) (bytes_total st)
                     (files_done st) (bytes_done st) (payload st) (files_written st))
      end
  end.

Definition _realign (st : state) : state := realign (size (frametab st)) st.

(** [bytes(next(it) for _ in range(n))]: [None] when the iterator runs dry
    (the [RuntimeError] caught by [_process]). *)
Definition take_exact (n : Z) (it : list byte) : option (list byte * list byte) :=
  if (Z.to_nat n <=? length it)%nat
  then Some (take (Z.to_nat n) it, drop (Z.to_nat n) it) else None.

(** [fn.rsplit(b"/", 1)[0]]: what stands before the last slash, all of [fn]
    when it has none. *)
Fixpoint rsplit1 (fn : list byte) : option (list byte) :=
  match fn with
  | [] => None
  | c :: r =>
      match rsplit1 r with
      | Some d => Some (c :: d)
      | None => if bool_decide (c = x2f) then Some [] else None
      end
  end.

Definition dirname (fn : list byte) : list byte := default fn (rsplit1 fn).

Definition with_buf (st : state) (b : list byte) : state :=
  mkState b (remainder st) (next_frame st) (frametab st) (fig_no st)
          (files_total st) (bytes_total st) (files_done st) (bytes_done st)
          (payload st) (files_written st).

(** Figment 0 of [_process]: the stream header. *)
Definition process_stream_header (st : state) : res (bool * state) :=
  let it := buf st in
  let '((vx_ver, ate), it) := Vle.dec_vle_it it in
  let pos := ate in
  if negb (vx_ver =? 1) then Raise (PyException 1)
  else
    let '((ft, ate), it) := Vle.dec_vle_it it in
    let pos := pos + ate in
    let '((bt, ate), it) := Vle.dec_vle_it it in
    let pos := pos + ate in
    Ok (true,
        mkState (drop (Z.to_nat pos) (buf st)) (remainder st) (next_frame st)
                (frametab st) (fig_no st + 1) (Some ft) (Some bt)
                (files_done st) (bytes_done st) (payload st) (files_written st)).

(** Odd figments of [_process]: a file header. *)
Definition process_file_header (st : state) : res (bool * state) :=
  let it := buf st in
  let '((sz, ate), it) := Vle.dec_vle_it it in
  let pos := ate in
  if ate =? 0 then Ok (false, st) else
  let '((ts, ate), it) := Vle.dec_vle_it it in
  let pos := pos + ate in
  if ate =? 0 then Ok (false, st) else
  match take_exact 16 it with
  | None => Ok (false, st)
  | Some (cksum, it) =>
      let pos := pos + 16 in
      let '((fn_len, ate), it) := Vle.dec_vle_it it in
      let pos := pos + ate in
      if ate =? 0 then Ok (false, st) else
      match take_exact fn_len it with
      | None => Ok (false, st)
      | Some (fn, it) =>
          let pos := pos + fn_len in
          let fn := list_byte_of_string "inc/" ++ fn in
          let* _ := makedirs os (files_written st) (dirname fn) in
          let* _ := open_wb os (files_written st) fn in
          Ok (true,
              mkState (drop (Z.to_nat pos) (buf st)) (remainder st) (next_frame st)
                      (frametab st) (fig_no st + 1) (files_total st) (bytes_total st)
                      (files_done st) (bytes_done st)
                      (Some (mkPayload fn sz ts cksum [])) (files_written st))
      end
  end.

(** The [while self.buf] loop of the payload figments. *)
Fixpoint write_payload (fuel : nat) (b : list byte) (done : Z) (p : open_file)
  : res (list byte * Z * open_file) :=
  match fuel with
  | O => Timeout
  | S fuel' =>
      match b with
      | [] => Ok (b, done, p)
      | _ :: _ =>
          let remains := p_sz p - len (p_fo p) in
          if remains <=? 0 then Ok (b, done, p)
          else
            let data := take (Z.to_nat remains) b in
            let written := len data in
            if written =? 0 then Raise (PyException 2)
            else write_payload fuel' (drop (Z.to_nat written) b) (done + written)
                   (mkPayload (p_fn p) (p_sz p) (p_ts p) (p_cksum p) (p_fo p ++ data))
      end
  end.

(** Even figments of [_process]: the payload of the open file. *)
Definition process_payload (st : state) : res (bool * state) :=
  match payload st with
  | None => Raise TypeError
  | Some p =>
      let* '(b, done, p) := write_payload (S (length (buf st))) (buf st) (bytes_done st) p in
      if p_sz p <=? len (p_fo p) then
        let cksum2 := take 16 (sha512 (p_fo p)) in
        if negb (bool_decide (p_cksum p = cksum2)) then Raise (PyException 3)
        else
          let* _ := utime os (files_written st) (p_fn p) (p_ts p) in
          Ok (true,
              mkState b (remainder st) (next_frame st) (frametab st) (fig_no st + 1)
                      (files_total st) (bytes_total st) (files_done st + 1) done
                      (Some p) (files_written st ++ [(p_fn p, p_fo p, p_ts p)]))
      else
        Ok (false,
            mkState b (remainder st) (next_frame st) (frametab st) (fig_no st)
                    (files_total st) (bytes_total st) (files_done st) done
                    (Some p) (files_written st))
  end.

(** [_process] *)
Definition _process (st : state) : res (bool * state) :=
  let st := _realign st in
  if fig_no st =? 0 then process_stream_header st
  else if negb (truthy (files_total st)) then Raise (PyException 4)
  else if fig_no st mod 2 =? 1 then process_file_header st
  else process_payload st.

(** The [while True] loop of [put]. *)
Fixpoint put_loop (fuel : nat) (st : state) : res (bool * state) :=
  match fuel with
  | O => Timeout
  | S fuel' =>
      if truthy (bytes_total st)
         && match bytes_total st with Some bt => bt <=? bytes_done st | None => false end
      then Ok (true, st)
      else
        let* '(more, st') := _process st in
        if (more : bool) then put_loop fuel' st' else Ok (false, st')
  end.

(** [put(nframe, data)] *)
Definition put (fuel : nat) (st : state) (nframe : Z) (data : list bool)
  : res (bool * state) :=
  if nframe <? next_frame st then Ok (false, st)
  else
    let bstr := Bits.bits2bstr data in
    let remains := drop (length bstr * 8) data in
    put_loop fuel
      (mkState (buf st) (remainder st) (next_frame st)
               (<[nframe := (bstr, remains)]> (frametab st)) (fig_no st)
               (files_total st) (bytes_total st) (files_done st) (bytes_done st)
               (payload st) (files_written st)).

(** A run of [put] calls, as the decode loop makes them: it stops at the
    first call that returns [True] or raises. *)
Fixpoint puts (fuel : nat) (st : state) (calls : list (Z * list bool))
  : list (res (bool * state)) :=
  match calls with
  | [] => []
  | (nframe, data) :: calls' =>
      let r := put fuel st nframe data in
      r :: match r with
           | Ok (false, st') => puts fuel st' calls'
           | _ => []
           end
  end.

End Receiver.
End Vxr.

(** ** Notions used to state the properties of the assembler *)
Module AsmSpec.



(** A file system that takes every call. *)
Definition willing : Vxr.filesystem :=
  Vxr.mkFilesystem (fun _ _ => Ok tt) (fun _ _ => Ok tt) (fun _ _ _ => Ok tt).

End AsmSpec.

(** ** Notions used to state how frames follow each other *)
Module FrameSpec.

(** The bit position in the stream of figments at which figment [i] starts. *)
Definition offset (cfg : Vxt.config) (i : nat) : Z :=
  8 * foldr Z.add 0 (Vxt.fig_len <$> take i (Vxt.figs cfg)).

Definition total_bits (cfg : Vxt.config) : Z :=
  offset cfg (length (Vxt.figs cfg)).

Definition start (cfg : Vxt.config) (c : Vxt.chunk) : Z :=
  offset cfg (Vxt.c_fig c) + Vxt.bit1 c.

Definition stop (cfg : Vxt.config) (c : Vxt.chunk) : Z :=
  offset cfg (Vxt.c_fig c) + Vxt.bit2 c.

(** A chunk names a figment and a non-empty bit range inside it. *)
Definition chunk_ok (cfg : Vxt.config) (c : Vxt.chunk) : Prop :=
  exists fg,
    Vxt.figs cfg !! Vxt.c_fig c = Some fg
    /\ 0 <= Vxt.bit1 c < Vxt.bit2 c /\ Vxt.bit2 c <= Vxt.fig_len fg * 8.

(** The chunks cover the stream from position [p] on, one after the other,
    without gap or overlap. *)
Fixpoint chain (cfg : Vxt.config) (p : Z) (cs : list Vxt.chunk) : Prop :=
  match cs with
  | [] => True
  | c :: r => chunk_ok cfg c /\ start cfg c = p /\ chain cfg (stop cfg c) r
  end.

(** Where a chain that starts at [p] ends. *)
Fixpoint chain_end (cfg : Vxt.config) (p : Z) (cs : list Vxt.chunk) : Z :=
  match cs with
  | [] => p
  | c :: r => chain_end cfg (stop cfg c) r
  end.

(** What [self.frames] holds between two calls: frames that are not empty
    and cover the stream from its first bit on. *)
Definition frames_inv (cfg : Vxt.config) (frames : list (list Vxt.chunk)) : Prop :=
  Forall (fun f => f <> []) frames /\ chain cfg 0 (concat frames).

(** The bits a frame spends before its first chunk: checksum, frame number
    and, in frame 0, the stream header. *)
Definition overhead (cfg : Vxt.config) (nframe : nat) (vframe : list byte) : Z :=
  (4 + len vframe) * 8
  + match nframe with O => len (Vxt.header0 cfg) * 8 | S _ => 0 end.

End FrameSpec.

(** ** The debug splitter (ax/dbg/demux.py) *)
Module Demux.

(** [for n in range(nf): f[n].write(buf[n::nf])]; [f] holds what has been
    written to each of the [nf] files. *)
Definition write (nf : nat) (buf : list byte) (f : list (list byte)) : list (list byte) :=
  zip_with app f ((fun n => Seq.every nf n buf) <$> seq 0 nf).

(** The [while True] loop; [reads] lists what the successive
    [sys.stdin.buffer.read(4096)] calls return before the end of input,
    after which every read returns [b""].  The number of files is positive
    (with [nf = 0] the first [len(buf) % nf] stops the script). *)
Fixpoint demux_loop (nf : nat) (reads : list (list byte)) (rem : list byte)
    (f : list (list byte)) : list (list byte) :=
  match reads with
  | [] =>
      match rem with
      | [] => f                                    (* not buf, not rem: break *)
      | _ :: _ => write nf rem f                   (* buf = rem, then break *)
      end
  | buf :: reads' =>
      match buf with
      | [] =>
          match rem with
          | [] => f
          | _ :: _ => demux_loop nf reads' [] (write nf rem f)
          end
      | _ :: _ =>
          let buf := rem ++ buf in
          let skip := (length buf mod nf)%nat in
          let '(rem', buf') :=
            match skip with
            | O => ([], buf)
            | S _ => (Seq.py_tail skip buf, Seq.py_init skip buf)
            end in
          demux_loop nf reads' rem' (write nf buf' f)
      end
  end.

(** The script: the contents of the files [tag0], [tag1], ... at the end. *)
Definition demux (nf : nat) (reads : list (list byte)) : list (list byte) :=
  demux_loop nf reads [] (replicate nf []).

End Demux.

(** ** Notions used to state what the assembler restores *)
Module XferSpec.
Section Xfer.
(** [hashlib.sha512(m).digest()] *)
Variable sha512 : list byte -> list byte.

(** A file as the transmitter has it: the entry of its file list and the
    content on disk. *)
Definition sent : Type := Vxt.file * list byte.

(** The checksum field of a file header: [hasher.digest()[:16]]. *)
Definition csum (x : sent) : list byte := take 16 (sha512 x.2).

(** The header figment as [gen_frame] sends it: [gen_header(fig, False)]. *)
Definition header (x : sent) : res (list byte) := Vxt.gen_header x.1 (csum x).

(** The figments of the files, one after the other: header, then content. *)
Fixpoint body (fls : list sent) : res (list byte) :=
  match fls with
  | [] => Ok []
  | x :: r => let* h := header x in let* t := body r in Ok (h ++ x.2 ++ t)
  end.

(** The name under which the receiver stores a file. *)
Definition name (x : sent) : list byte :=
  list_byte_of_string "inc/" ++ Vxt.rel_name (Vxt.f_fn x.1).

(** What the receiver records of a file that has arrived whole: the path
    it was written to, its content and its time stamp. *)
Definition entry (x : sent) : Vxr.written_file :=
  (name x, x.2, Vxt.f_ts x.1).

Definition sizes (fls : list sent) : Z :=
  foldr Z.add 0 ((fun x : sent => Vxt.f_sz x.1) <$> fls).

(** The file is as long as its entry says and its numbers fit a VLE. *)
Definition wf (x : sent) : Prop :=
  Vxt.f_sz x.1 = len x.2 /\ len x.2 < 2 ^ 63
  /\ 0 <= Vxt.f_ts x.1 < 2 ^ 63
  /\ len (Vxt.rel_name (Vxt.f_fn x.1)) < 2 ^ 63.

(** The file system of the receiver takes the file [x] once the files
    [done] have been written: the directory of its path can be made, the
    path opened for writing and, later, given the time stamp of [x]. *)
Definition takes (os : Vxr.filesystem) (done : list sent) (x : sent) : Prop :=
  Vxr.makedirs os (entry <$> done) (Vxr.dirname (name x)) = Ok tt
  /\ Vxr.open_wb os (entry <$> done) (name x) = Ok tt
  /\ Vxr.utime os (entry <$> done) (name x) (Vxt.f_ts x.1) = Ok tt.

(** It takes each of the files [live] when its turn comes. *)
Definition served (os : Vxr.filesystem) (live : list sent) : Prop :=
  forall done x todo, live = done ++ x :: todo -> takes os done x.

(** The fields of the assembler that the files received so far determine. *)
Definition common (st : Vxr.state) (done : list sent) (nfiles total extra : Z) : Prop :=
  Vxr.frametab st = ∅
  /\ Vxr.files_total st = Some nfiles /\ nfiles <> 0
  /\ Vxr.bytes_total st = Some total
  /\ Vxr.bytes_done st = sizes done + extra
  /\ Vxr.files_done st = len done
  /\ Vxr.files_written st = entry <$> done.

(** Where the assembler stands in the stream of the files [live] followed
    by [rest]: before the header of a file, or [j] bytes into its content.
    [unfed] is the part of the stream the assembler has not been given. *)
Definition at_header (live rest : list sent) (junk : list byte) (nfiles total : Z)
    (st : Vxr.state) (unfed : list byte) (done todo : list sent) : Prop :=
  live = done ++ todo
  /\ common st done nfiles total 0
  /\ Vxr.fig_no st = 2 * len done + 1
  /\ exists b, body (todo ++ rest) = Ok b /\ Vxr.buf st ++ unfed = b ++ junk.

Definition at_payload (live rest : list sent) (junk : list byte) (nfiles total : Z)
    (st : Vxr.state) (unfed : list byte) (done : list sent) (x : sent)
    (todo : list sent) (j : nat) : Prop :=
  live = done ++ x :: todo
  /\ common st done nfiles total (Z.of_nat j)
  /\ Vxr.fig_no st = 2 * len done + 2
  /\ Vxr.payload st
     = Some (Vxr.mkPayload (name x) (Vxt.f_sz x.1) (Vxt.f_ts x.1) (csum x) (take j x.2))
  /\ (j <= length x.2)%nat
  /\ exists b, body (todo ++ rest) = Ok b
               /\ Vxr.buf st ++ unfed = drop j x.2 ++ b ++ junk.

(** The assembler waits for more data: it holds a part of the next header,
    or has written all it was given to the open file, which needs more. *)
Definition waiting (live rest : list sent) (junk : list byte) (nfiles total : Z)
    (st : Vxr.state) (unfed : list byte) : Prop :=
  (exists done x todo h,
     at_header live rest junk nfiles total st unfed done (x :: todo)
     /\ header x = Ok h /\ (length (Vxr.buf st) < length h)%nat)
  \/ (exists done x todo j,
        at_payload live rest junk nfiles total st unfed done x todo j
        /\ (j < length x.2)%nat /\ Vxr.buf st = []).

(** [st1] is [st] with the bytes [a] added to the buffer; the fields of the
    frame table apart, nothing else differs. *)
Definition fed (st : Vxr.state) (a : list byte) (st1 : Vxr.state) : Prop :=
  Vxr.buf st1 = Vxr.buf st ++ a
  /\ Vxr.frametab st1 = Vxr.frametab st
  /\ Vxr.fig_no st1 = Vxr.fig_no st
  /\ Vxr.files_total st1 = Vxr.files_total st
  /\ Vxr.bytes_total st1 = Vxr.bytes_total st
  /\ Vxr.files_done st1 = Vxr.files_done st
  /\ Vxr.bytes_done st1 = Vxr.bytes_done st
  /\ Vxr.payload st1 = Vxr.payload st
  /\ Vxr.files_written st1 = Vxr.files_written st.

(** The calls of [put] for frames that arrive in order, numbered from [k]. *)
Fixpoint calls_from (k : Z) (frames : list (list bool)) : list (Z * list bool) :=
  match frames with
  | [] => []
  | d :: r => (k, d) :: calls_from (k + 1) r
  end.

(** How a call of [put] ends on a stream of well-formed files: it asks for
    more and waits, or it reports the transfer complete with the files
    [live] written. *)
Definition settled (live rest : list sent) (junk : list byte) (nfiles total : Z)
    (unfed : list byte) (r : res (bool * Vxr.state)) : Prop :=
  (exists st, r = Ok (false, st) /\ waiting live rest junk nfiles total st unfed)
  \/ (exists st, r = Ok (true, st)
        /\ Vxr.files_written st = entry <$> live
        /\ Vxr.files_done st = len live
        /\ Vxr.bytes_done st = total).

End Xfer.
End XferSpec.

(** ** The dotmatrix transmitter: the bits of a frame (vx/vxt.py,
    [gen_frame]) *)
Module VxtFrame.

(** A slice index brought into the range of a sequence of [n] items. *)
Definition norm (n i : Z) : Z :=
  if i <? 0 then Z.max 0 (i + n) else Z.min i n.

(** [l[a:b]] for any two integers. *)
Definition slice {A : Type} (a b : Z) (l : list A) : list A :=
  let a := norm (len l) a in
  let b := norm (len l) b in
  take (Z.to_nat (b - a)) (drop (Z.to_nat a) l).

(** [l[i]] for any integer. *)
Definition item {A : Type} (l : list A) (i : Z) : res A :=
  let j := if i <? 0 then i + len l else i in
  if j <? 0 then Raise IndexError
  else match l !! Z.to_nat j with
       | Some x => Ok x
       | None => Raise IndexError
       end.

Section Gen.
(** [hashlib.sha512(m).digest()] *)
Variable sha512 : list byte -> list byte.
(** The files behind the names of the file list: the content of a regular
    file, [None] for a name that cannot be opened. *)
Variable fs : list byte -> option (list byte).

(** [open(fn, "rb")] followed by reads up to the end of the file. *)
Definition open_rb (fn : list byte) : res (list byte) :=
  match fs fn with
  | Some content => Ok content
  | None => Raise (PyException 5)               (* the OSError of [open] *)
  end.

(** [gen_header(fig, False)] for the figment of a file: the checksum is
    that of the file, computed when first asked for and then kept in the
    figment. *)
Definition real_header (fn : list byte) (sz ts : Z) : res (list byte) :=
  let* content := open_rb fn in
  Vxt.gen_header (Vxt.mkFile fn sz ts) (take 16 (sha512 content)).

(** The body of the [for chunk in inf] loop: the bits a chunk adds.  A read
    from a regular file returns all that was asked for unless the file
    ends; the message of the read error asks the payload figment for a
    file name it does not have. *)
Definition chunk_bits (cfg : Vxt.config) (c : Vxt.chunk) : res (list bool) :=
  match Vxt.figs cfg !! Vxt.c_fig c with
  | None => Raise IndexError
  | Some (Vxt.Header fn sz ts _) =>
      let* buf := real_header fn sz ts in
      let* bits := Vxt.bstr2bits buf in
      Ok (slice (Vxt.bit1 c) (Vxt.bit2 c) bits)
  | Some (Vxt.Payload flen) =>
      let byte1 := Vxt.bit1 c / 8 in
      let trunc1 := Vxt.bit1 c mod 8 in
      let byte2 := Z.quot (Vxt.bit2 c + 7) 8 in        (* int((bit2 + 7) / 8) *)
      let byte2 := if flen <? byte2 then flen else byte2 in
      let* i := Vxt.index (Vxt.figs cfg) (Vxt.Payload flen) in
      let* metafig := item (Vxt.figs cfg) (Z.of_nat i - 1) in
      match metafig with
      | Vxt.Payload _ => Raise (PyException 6)         (* KeyError: 'fn' *)
      | Vxt.Header fn _ _ _ =>
          let* content := open_rb fn in
          if byte1 <? 0 then Raise ValueError          (* negative seek position *)
          else
            let need := byte2 - byte1 in
            let rest := drop (Z.to_nat byte1) content in
            let buf := if need <? 0 then rest else take (Z.to_nat need) rest in
            if len buf <? need then Raise (PyException 6)   (* KeyError: 'fn' *)
            else
              let* bits := Vxt.bstr2bits buf in
              Ok (slice 0 (Vxt.bit2 c - Vxt.bit1 c) (slice trunc1 (len bits) bits))
      end
  end.

Fixpoint chunks_bits (cfg : Vxt.config) (inf : list Vxt.chunk) (bits : list bool)
  : res (list bool) :=
  match inf with
  | [] => Ok bits
  | c :: r => let* b := chunk_bits cfg c in chunks_bits cfg r (bits ++ b)
  end.

(** [gen_frame(nframe)]; [frames] is [self.frames], returned with the
    result. *)
Definition gen_frame (cfg : Vxt.config) (nframe : nat) (frames : list (list Vxt.chunk))
  : res (option (list bool) * list (list Vxt.chunk)) :=
  let* '(inf, frames') := Vxt.get_frame_info cfg nframe frames in
  match inf with
  | None | Some [] => Ok (None, frames')
  | Some inf =>
      let* v := Vle.enc_vle (Z.of_nat nframe) in
      let* bits := Vxt.bstr2bits v in
      let* bits :=
        match nframe with
        | O => let* h := Vxt.bstr2bits (Vxt.header0 cfg) in Ok (bits ++ h)
        | S _ => Ok bits
        end in
      let* bits := chunks_bits cfg inf bits in
      let* fr := Vxt.seal_frame sha512 (Vxt.nbits cfg) bits in
      Ok (Some fr, frames')
  end.

(** The frames [run] asks [gen_frame] for while the user steps forward
    with [d]: frame [nframe], the one after it, and so on, up to the first
    that is [None]; [self.frames] is kept from one call to the next. *)
Fixpoint frames_from (cfg : Vxt.config) (fuel nframe : nat) (frames : list (list Vxt.chunk))
  : res (list (list bool)) :=
  match fuel with
  | O => Timeout
  | S fuel' =>
      let* '(fr, frames') := gen_frame cfg nframe frames in
      match fr with
      | None => Ok []
      | Some bits =>
          let* r := frames_from cfg fuel' (S nframe) frames' in
          Ok (bits :: r)
      end
  end.

End Gen.
End VxtFrame.

(** ** The decode loop of the receiver (vx/vxr.py, [main]) *)
Module VxrMain.
Section Loop.
(** [hashlib.sha512(m).digest()] *)
Variable sha512 : list byte -> list byte.
Variable os : Vxr.filesystem.

(** The two tests a capture goes through, the checksum and then the frame
    number; [bits] is what was sampled from the capture.  [None] is the
    [continue] of either test: the frame is dropped.  What passes both is
    the frame number and the bits for [asm.put]. *)
Definition accepted (asm : Vxr.state) (bits : list bool) : option (Z * list bool) :=
  match Vxr.check_frame sha512 bits with
  | Vxr.BadChecksum _ => None
  | Vxr.Checked frameno bits' =>
      if frameno =? Vxr.next_frame asm then Some (frameno, bits') else None
  end.

(** One turn of the loop, from the checksum test on. *)
Definition on_capture (fuel : nat) (asm : Vxr.state) (bits : list bool)
  : res (bool * Vxr.state) :=
  match accepted asm bits with
  | None => Ok (false, asm)
  | Some (frameno, bits') => Vxr.put sha512 os fuel asm frameno bits'
  end.

(** The loop over the captures; it returns at the first [put] that
    returns [True]. *)
Fixpoint decode (fuel : nat) (asm : Vxr.state) (captures : list (list bool))
  : res (bool * Vxr.state) :=
  match captures with
  | [] => Ok (false, asm)
  | bits :: r =>
      let* '(fin, asm') := on_capture fuel asm bits in
      if fin then Ok (true, asm') else decode fuel asm' r
  end.

End Loop.
End VxrMain.
(** ** Notions used to state what a frame carries *)
Module WireSpec.
Section Wire.
Variable sha512 : list byte -> list byte.

(** The bytes of the figments, figment by figment. *)
Fixpoint pieces (fls : list XferSpec.sent) : res (list (list byte)) :=
  match fls with
  | [] => Ok []
  | x :: r =>
      let* h := XferSpec.header sha512 x in
      let* t := pieces r in
      Ok (h :: x.2 :: t)
  end.

(** The bits [p], [p + 1], ..., [e - 1] of the stream of figments [b]. *)
Definition span (b : list byte) (p e : Z) : list bool :=
  take (Z.to_nat (e - p)) (drop (Z.to_nat p) (Bits.bstr2bits b)).

(** The bits of frame [n] that follow the checksum, for the part
    [p .. e - 1] of the stream: frame number, stream header in frame 0,
    data. *)
Definition payload_bits (cfg : Vxt.config) (n : nat) (v b : list byte) (p e : Z)
  : list bool :=
  Bits.bstr2bits v
  ++ match n with O => Bits.bstr2bits (Vxt.header0 cfg) | S _ => [] end
  ++ span b p e.

(** The frame number as it stands in a frame. *)
Definition vle_of (n : nat) : list byte :=
  match Vle.enc_vle (Z.of_nat n) with Ok v => v | _ => [] end.

(** Frame [n] with the part [p .. e - 1] of the stream [b]: checksum,
    [payload_bits], zeros up to the size of the screen. *)
Definition frame (cfg : Vxt.config) (n : nat) (b : list byte) (p e : Z) : list bool :=
  let bits := payload_bits cfg n (vle_of n) b p e in
  let body := bits ++ replicate (Z.to_nat (Vxt.nbits cfg - (len bits + 32))) false in
  Bits.bstr2bits (take 4 (sha512 (Bits.ascii_bits body))) ++ body.

(** What follows the frame number in that frame. *)
Definition data (cfg : Vxt.config) (n : nat) (b : list byte) (p e : Z) : list bool :=
  drop (32 + 8 * length (vle_of n)) (frame cfg n b p e).

(** Where the frames of a frame table end in the stream. *)
Definition upto (cfg : Vxt.config) (frames : list (list Vxt.chunk)) (n : nat) : Z :=
  FrameSpec.chain_end cfg 0 (concat (take n frames)).

(** The number of bits of a list of chunks. *)
Definition size (cs : list Vxt.chunk) : Z :=
  foldr Z.add 0 ((fun c => Vxt.bit2 c - Vxt.bit1 c) <$> cs).

(** No frame of the table holds more than the screen shows, and a frame
    that leaves room ends the stream. *)
Definition frames_sized (cfg : Vxt.config) (frames : list (list Vxt.chunk)) : Prop :=
  forall k inf vf,
    frames !! k = Some inf ->
    Vle.enc_vle (Z.of_nat k) = Ok vf ->
    FrameSpec.overhead cfg k vf + size inf <= Vxt.nbits cfg
    /\ (FrameSpec.overhead cfg k vf + size inf < Vxt.nbits cfg ->
        upto cfg frames (S k) = FrameSpec.total_bits cfg).

End Wire.
End WireSpec.

(** ** What the receiver gets to see *)
Module CaptureSpec.
Section Captures.
(** [hashlib.sha512(m).digest()] *)
Variable sha512 : list byte -> list byte.

(** [captured k screens caps]: the captures [caps] were taken while the
    transmitter showed the frames [screens], of which the first has the
    number [k], one after the other.  Each frame is captured intact by the
    time the assembler waits for it; before that the receiver may capture
    anything that does not pass for the frame it waits for (a garbled
    screen, a frame it has had already), and anything at all once the
    last frame has been captured. *)
Inductive captured : Z -> list (list bool) -> list (list bool) -> Prop :=
| captured_end (k : Z) (caps : list (list bool)) :
    captured k [] caps
| captured_frame (k : Z) (f : list bool) (screens caps : list (list bool)) :
    captured (k + 1) screens caps ->
    captured k (f :: screens) (f :: caps)
| captured_other (k : Z) (screens : list (list bool)) (c : list bool)
    (caps : list (list bool)) :
    (forall d, Vxr.check_frame sha512 c <> Vxr.Checked k d) ->
    captured k screens caps ->
    captured k screens (c :: caps).

End Captures.
End CaptureSpec.

(** ** The dotmatrix transmitter: what is on the screen (vx/vxt.py,
    [calibration_boxes], [rasterize], [run]) *)
Module VxtScreen.

(** Text is the list of its code points. *)
Definition text : Type := list Z.

Definition SP : Z := 32.          (* " " *)
Definition FULL : Z := 9608.      (* U+2588, full block *)
Definition UPPER : Z := 9600.     (* U+2580, upper half block *)
Definition LOWER : Z := 9604.     (* U+2584, lower half block *)

(** [s * n] for a text and any integer. *)
Definition times (s : text) (n : Z) : text := concat (replicate (Z.to_nat n) s).

(** [range(a, b, step)] *)
Definition py_range (a b step : Z) : res (list Z) :=
  if step =? 0 then Raise ValueError
  else
    let n := if 0 <? step then (b - a + step - 1) / step
             else (a - b - step - 1) / (- step) in
    Ok ((fun i => a + Z.of_nat i * step) <$> seq 0 (Z.to_nat n)).

(** [ln.replace(a, b)] for single characters. *)
Definition replace (a b : Z) (ln : text) : text :=
  (fun c => if c =? a then b else c) <$> ln.

(** [calibration_boxes(w, h, use_halfblocks)] *)
Definition calibration_boxes (w h : Z) (use_halfblocks : bool) : list text :=
  let scr :=
    [ times [SP] w;
      [SP] ++ times [FULL] (w - 2) ++ [SP];
      [SP; FULL; SP; SP; SP; FULL] ++ times [SP] (w - 13)
        ++ [SP; FULL; SP; SP; SP; FULL; SP];
      [SP; FULL; SP; LOWER; SP; FULL] ++ times [SP] (w - 13)
        ++ [SP; FULL; SP; UPPER; SP; FULL; SP];
      [SP; FULL; SP; SP; SP; FULL] ++ times [SP] (w - 13)
        ++ [SP; FULL; SP; SP; SP; FULL; SP];
      [SP; FULL; FULL; FULL; FULL; FULL]
        ++ VxtFrame.slice 0 (w - 13) (times [SP; FULL] w)
        ++ [SP; FULL; FULL; FULL; FULL; FULL; SP] ] in
  let scr :=
    scr ++ ((fun n : nat =>
               if Z.of_nat n mod 2 =? 0
               then [SP; FULL] ++ times [SP] (w - 4) ++ [FULL; SP]
               else [SP; FULL; SP; SP; SP; FULL] ++ times [SP] (w - 8) ++ [FULL; SP])
            <$> seq 0 (Z.to_nat (h - 9))) in
  let scr := scr ++ [[SP; FULL] ++ times [SP] (w - 4) ++ [FULL; SP]] in
  let scr := scr ++ [[SP] ++ times [FULL] (w - 2) ++ [SP]] in
  let scr := scr ++ [times [SP] (w - 1)] in
  if negb use_halfblocks
  then alter (fun ln => replace UPPER SP (replace LOWER SP ln)) 3%nat scr
  else scr.

(** [while rows and not rows[-1]: rows.pop()], on the reversed list. *)
Fixpoint pop_empty_rev {A : Type} (rows : list (list A)) : list (list A) :=
  match rows with
  | [] :: r => pop_empty_rev r
  | _ => rows
  end.

Definition pop_empty {A : Type} (rows : list (list A)) : list (list A) :=
  reverse (pop_empty_rev (reverse rows)).

(** The cell of one bit, and of an upper and a lower bit. *)
Definition cell (x : bool) : Z := if x then FULL else SP.

Definition cell2 (v1 v2 : bool) : Z :=
  if v1 && v2 then FULL else if v1 then UPPER else if v2 then LOWER else SP.

(** [rasterize] from [fullw_bits] on: the screen for the bits of a frame,
    on a terminal of [w] by [h] cells. *)
Definition screen (w h : Z) (halfs : bool) (bits : list bool) : res text :=
  let y_mul := if halfs then 2 else 1 in
  let fullw_bits := (w * (h - 1)) * y_mul in
  let* range_fullwidth := py_range 0 fullw_bits w in
  let* range_sans_one := py_range fullw_bits (fullw_bits + w * 2) (w - 1) in
  let rows1 := (fun x => VxtFrame.slice x (x + w) bits) <$> range_fullwidth in
  let rows2 := (fun x => VxtFrame.slice x (x + w - 1) bits) <$> range_sans_one in
  let rows := pop_empty (rows1 ++ rows2) in
  if negb halfs then Ok (concat ((fun row : list bool => cell <$> row) <$> rows))
  else
    Ok (concat ((fun rr : list bool * list bool =>
                   (fun vv : bool * bool => cell2 vv.1 vv.2) <$> zip rr.1 rr.2)
                  <$> zip (Seq.every 2 0 rows) (Seq.every 2 1 rows))).

Section Run.
(** [hashlib.sha512(m).digest()] *)
Variable sha512 : list byte -> list byte.
(** The files behind the names of the file list. *)
Variable fs : list byte -> option (list byte).
(** The transmitter: its figments and the terminal size and mode it was
    made for. *)
Variables (cfg : Vxt.config) (w h : Z) (halfs : bool).

(** [rasterize(frameno)]; [frames] is [self.frames], returned with the
    result. *)
Definition rasterize (frameno : nat) (frames : list (list Vxt.chunk))
  : res (text * list (list Vxt.chunk)) :=
  let* '(bits, frames') := VxtFrame.gen_frame sha512 fs cfg frameno frames in
  match bits with
  | None | Some [] => Ok ([], frames')
  | Some bits => let* scr := screen w h halfs bits in Ok (scr, frames')
  end.

(** What [draw] is called with: the lines of the calibration screen, or
    the screen of a frame. *)
Inductive shown : Type :=
| Cali (lines : list text)
| Frame (scr : text).

(** The variables of [run], with [self.frames] and what has been drawn. *)
Record nav : Type := mkNav {
  cur_frame : Z;
  pend : Z * option text;
  frames : list (list Vxt.chunk);
  drawn : list shown
}.

(** [run] up to its loop. *)
Definition start : nav :=
  mkNav (-1) (-1, None) [] [Cali (calibration_boxes w h halfs)].

(** One turn of the loop of [run] for a key that does not end it. *)
Definition turn (k : string) (st : nav) : res nav :=
  let cur := if String.eqb k "a" then Z.max (cur_frame st - 1) 0 else cur_frame st in
  let cur := if String.eqb k "d" then cur + 1 else cur in
  if cur <? 0 then Ok (mkNav cur (pend st) (frames st) (drawn st))
  else
    let* '(scr, fr) :=
      if fst (pend st) =? cur then Ok (snd (pend st), frames st)
      else
        let* '(s, fr) := rasterize (Z.to_nat cur) (frames st) in
        Ok (Some s, fr) in
    match scr with
    | None | Some [] => Ok (mkNav (cur - 1) (pend st) fr (drawn st))
    | Some s =>
        let out := drawn st ++ [Frame s] in
        if String.eqb k "d" then
          let* '(s', fr') := rasterize (Z.to_nat (cur + 1)) fr in
          Ok (mkNav cur (cur + 1, Some s') fr' out)
        else Ok (mkNav cur (pend st) fr out)
    end.

(** The loop of [run] over the keys [getch] returns; it ends at ctrl-c or
    [k], or here when the keys are used up. *)
Fixpoint turns (keys : list string) (st : nav) : res nav :=
  match keys with
  | [] => Ok st
  | k :: r =>
      if String.eqb k (String (Ascii.ascii_of_nat 3) EmptyString) || String.eqb k "k"
      then Ok st
      else let* st' := turn k st in turns r st'
  end.

Definition run (keys : list string) : res nav := turns keys start.

End Run.
End VxtScreen.

(** ** Notions used to state what the screen shows *)
Module ScreenSpec.

(** The rows of bits of a screen: rows of the width of the terminal, then
    one row, or two with half blocks, that leave the last cell free. *)
Definition rows (w h : Z) (halfs : bool) (bits : list bool) : list (list bool) :=
  let W := Z.to_nat w in
  let Y := if halfs then 2%nat else 1%nat in
  let F := Z.to_nat (w * (h - 1) * (if halfs then 2 else 1)) in
  ((fun i => take W (drop (i * W) bits)) <$> seq 0 (Z.to_nat (h - 1) * Y))
  ++ ((fun j => take (W - 1) (drop (F + j * (W - 1)) bits)) <$> seq 0 Y).

(** Where a key takes the transmitter that has [n] frames to show and
    stands at frame [cur] ([-1]: the calibration screen), and the frame it
    draws, if any: [a] steps back, [d] steps forward, any other key
    stays. *)
Definition move (n cur : Z) (k : string) : Z * list Z :=
  let c := if String.eqb k "a" then Z.max (cur - 1) 0 else cur in
  let c := if String.eqb k "d" then c + 1 else c in
  if c <? 0 then (c, [])
  else if c <? n then (c, [c])
  else (c - 1, []).

(** The frames drawn for a sequence of keys, up to ctrl-c or [k]. *)
Fixpoint visits (n cur : Z) (keys : list string) : list Z :=
  match keys with
  | [] => []
  | k :: r =>
      if String.eqb k (String (Ascii.ascii_of_nat 3) EmptyString) || String.eqb k "k"
      then []
      else (move n cur k).2 ++ visits n (move n cur k).1 r
  end.

(** The screen of a frame, empty where [rasterize] fails. *)
Definition screen_of (w h : Z) (halfs : bool) (bits : list bool) : VxtScreen.text :=
  match VxtScreen.screen w h halfs bits with Ok scr => scr | _ => [] end.

(** The state of [run] between two keys, for the frame table [final] of
    all the frames and their screens [scrs]: [self.frames] holds the first
    frames of the table, among them the one on the screen, and the screen
    put aside is the screen of its frame. *)
Definition nav_ok (final : list (list Vxt.chunk)) (scrs : list VxtScreen.text)
    (st : VxtScreen.nav) : Prop :=
  exists m : nat,
    (m <= length final)%nat
    /\ VxtScreen.frames st = take m final
    /\ -1 <= VxtScreen.cur_frame st
    /\ VxtScreen.cur_frame st + 1 <= Z.of_nat m
    /\ (VxtScreen.pend st = (-1, None)
        \/ exists j : nat,
             (j <= length final)%nat
             /\ (S j `min` length final <= m)%nat
             /\ VxtScreen.pend st = (Z.of_nat j, Some (nth j scrs []))).

End ScreenSpec.

(** ** The keyboard transmitter: what is typed (kx/kxt.py, [Typist.put] and
    the loop of [main] over the stream) *)
Module KxtMain.

(** Text is the list of its code points. *)
Definition text : Type := list Z.

Definition NL : Z := 10.        (* "\n" *)
Definition CR : Z := 13.        (* "\r" *)

(** [t.split(sep)] for a separator of one character. *)
Fixpoint split (sep : Z) (t : text) : list text :=
  match t with
  | [] => [[]]
  | c :: r =>
      if c =? sep then [] :: split sep r
      else match split sep r with
           | x :: xs => (c :: x) :: xs
           | [] => [[c]]
           end
  end.

(** [Typist.put(txt, crlf)]; [q] lists what has been put into the queue
    of the typing thread. *)
Definition put (q : list text) (txt : text) (crlf : bool) : res (list text) :=
  let txt := if crlf then txt ++ [NL] else txt in
  let lines := split NL txt in
  let q := q ++ ((fun ln => ln ++ [NL]) <$> Seq.py_init 1 lines) in
  let* txt := VxtFrame.item lines (-1) in
  match txt with
  | [] => Ok q
  | _ :: _ => Ok (q ++ [txt])
  end.

(** [for ln in lines: kbd.put(ln)] *)
Fixpoint put_all (q : list text) (lines : list text) : res (list text) :=
  match lines with
  | [] => Ok q
  | ln :: r => let* q := put q ln true in put_all q r
  end.

(** The [while len(buf) >= wrap] loop. *)
Fixpoint wrap_loop (fuel : nat) (wrap : Z) (linepre linepost : text) (buf : text)
    (q : list text) : res (text * list text) :=
  match fuel with
  | O => Timeout
  | S fuel' =>
      if wrap <=? len buf then
        let* q := put q (linepre ++ VxtFrame.slice 0 wrap buf ++ linepost) true in
        wrap_loop fuel' wrap linepre linepost (VxtFrame.slice wrap (len buf) buf) q
      else Ok (buf, q)
  end.

Section Stream.
(** [buf.decode("utf-8", "ignore")] *)
Variable decode : list byte -> text.

(** The [for buf in s.collect()] loop; [chunks] lists what the stream
    yields before the [None] that ends it, chunk by chunk as [bytes].  The
    loop leaves at an empty chunk; every other chunk is decoded on its own
    and goes after what the chunks before it have left. *)
Fixpoint feed (fuel : nat) (plain : bool) (wrap : Z) (linepre linepost : text)
    (chunks : list (list byte)) (leftovers : text) (q : list text)
  : res (text * list text) :=
  match chunks with
  | [] => Ok (leftovers, q)
  | buf :: r =>
      match buf with
      | [] => Ok (leftovers, q)                          (* [if not buf: break] *)
      | _ :: _ =>
          let buf := decode buf in
          let buf := leftovers ++ buf in
          let* '(leftovers, q) :=
            if negb plain then wrap_loop fuel wrap linepre linepost buf q
            else
              let lines := split NL (filter (fun c => c <> CR) buf) in
              let* q := put_all q (Seq.py_init 1 lines) in
              let* last := VxtFrame.item lines (-1) in
              Ok (last, q) in
          feed fuel plain wrap linepre linepost r leftovers q
      end
  end.

(** The loop and the [if leftovers] after it. *)
Definition type_stream (fuel : nat) (plain : bool) (wrap : Z) (linepre linepost : text)
    (chunks : list (list byte)) (q : list text) : res (list text) :=
  let* '(leftovers, q) := feed fuel plain wrap linepre linepost chunks [] q in
  match leftovers with
  | [] => Ok q
  | _ :: _ => put q (linepre ++ leftovers ++ linepost) true
  end.

End Stream.
End KxtMain.

(** ** Notions used to state what is typed *)
Module TypeSpec.

(** The chunks the loop of [main] gets to: those before the first empty
    one. *)
Fixpoint worked (chunks : list (list byte)) : list (list byte) :=
  match chunks with
  | [] => []
  | [] :: _ => []
  | c :: r => c :: worked r
  end.

(** The text of the stream as the loop sees it: its chunks, each decoded
    on its own, one after the other. *)
Definition text_of (decode : list byte -> list Z) (chunks : list (list byte))
  : list Z :=
  concat (decode <$> worked chunks).

End TypeSpec.

(* ===================================================================== *)
(** * Part II: properties                                                  *)
(* ===================================================================== *)

(** ** Byte values *)

Lemma Z_of_byte_range (b : byte) : 0 <= Z_of_byte b < 256.
Proof.
  unfold Z_of_byte. pose proof (Byte.to_N_bounded b). lia.
Qed.

Lemma u8_of_byte (b : byte) : u8 (Z_of_byte b) = Ok b.
Proof.
  unfold u8, Z_of_byte.
  destruct (Z.ltb_spec (Z.of_N (to_N b)) 0) as [H|H]; [lia|].
  now rewrite N2Z.id, Byte.of_to_N.
Qed.

Lemma u8_ok (v : Z) : 0 <= v < 256 -> exists b, u8 v = Ok b /\ Z_of_byte b = v.
Proof.
  intros [H0 H1]. unfold u8.
  destruct (Z.ltb_spec v 0) as [H|_]; [lia|].
  destruct (Byte.of_N (Z.to_N v)) as [b|] eqn:E.
  - exists b. split; [reflexivity|].
    apply Byte.to_of_N in E. unfold Z_of_byte. rewrite E. lia.
  - apply Byte.of_N_None_iff in E. lia.
Qed.

Lemma byte_bit7 (b : byte) : Z.testbit (Z_of_byte b) 7 = (128 <=? Z_of_byte b).
Proof. destruct b; reflexivity. Qed.

(** ** VLE *)

Lemma div_eucl_128 (v : Z) : Z.div_eucl v 128 = (v / 128, v mod 128).
Proof.
  unfold Z.div, Z.modulo. now destruct (Z.div_eucl v 128).
Qed.

Lemma split_low7 (v : Z) : Z.lor (v mod 128) (Z.shiftl (v / 128) 7) = v.
Proof.
  change 128 with (2 ^ 7).
  rewrite <- Z.land_ones, <- Z.shiftr_div_pow2, <- Z.ldiff_ones_r by lia.
  rewrite Z.lor_comm. apply Z.lor_ldiff_and.
Qed.

Lemma lor_step (vret v p : Z) :
  0 <= p ->
  Z.lor (Z.lor vret (Z.shiftl (v mod 128) p)) (Z.shiftl (v / 128) (p + 7))
  = Z.lor vret (Z.shiftl v p).
Proof.
  intros Hp.
  rewrite <- Z.lor_assoc. f_equal.
  rewrite (Z.add_comm p 7), <- Z.shiftl_shiftl, <- Z.shiftl_lor by lia.
  now rewrite split_low7.
Qed.

Lemma enc_vle_loop_S (fuel : nat) (v : Z) (ret : list byte) :
  Vle.enc_vle_loop (S fuel) v ret =
  if 128 <=? v then
    let* b := u8 (v mod 128 + 128) in Vle.enc_vle_loop fuel (v / 128) (ret ++ [b])
  else let* b := u8 v in Ok (ret ++ [b]).
Proof. cbn [Vle.enc_vle_loop]. now rewrite div_eucl_128. Qed.

(** What one run of the encoder loop yields, and how the decoder loop reads
    it back from any accumulator position that leaves room below bit 63. *)
Lemma enc_vle_loop_spec (fuel : nat) :
  forall v ret,
    0 <= v < 2 ^ (7 * Z.of_nat (S fuel)) ->
    exists pre last,
      Vle.enc_vle_loop (S fuel) v ret = Ok (ret ++ pre ++ [last])
      /\ Forall (fun b => Z.testbit (Z_of_byte b) 7 = true) pre
      /\ Z.testbit (Z_of_byte last) 7 = false
      /\ (forall vret vpow nate rest,
            0 <= vpow -> v < 2 ^ (63 - vpow) ->
            Vle.dec_vle_loop ((pre ++ [last]) ++ rest) vret vpow nate
            = ((Z.lor vret (Z.shiftl v vpow), nate + len (pre ++ [last])), rest))
      /\ (forall vret vpow nate k,
            0 <= vpow -> v < 2 ^ (63 - vpow) -> (k <= length pre)%nat ->
            Vle.dec_vle_loop (take k (pre ++ [last])) vret vpow nate = ((-1, 0), [])).
Proof.
  induction fuel as [|fuel IH]; intros v ret Hv.
  all: rewrite enc_vle_loop_S; destruct (Z.leb_spec 128 v) as [Hge|Hlt].
  1: change (2 ^ (7 * Z.of_nat 1)) with 128 in Hv; lia.
  2: { assert (Hm : 0 <= v mod 128 < 128) by (apply Z.mod_pos_bound; lia).
      destruct (u8_ok (v mod 128 + 128)) as (b & Hb & Hbv); [lia|].
      rewrite Hb. cbn [bind].
      assert (Hq : 0 <= v / 128 < 2 ^ (7 * Z.of_nat (S fuel))).
      { split; [apply Z.div_pos; lia|].
        apply Z.div_lt_upper_bound; [lia|].
        replace (7 * Z.of_nat (S (S fuel))) with (7 + 7 * Z.of_nat (S fuel)) in Hv by lia.
        rewrite Z.pow_add_r in Hv by lia. change (2 ^ 7) with 128 in Hv. lia. }
      destruct (IH (v / 128) (ret ++ [b]) Hq)
        as (pre & last & He & Hpre & Hlast & Hdec & Hcut).
      assert (Hroom : forall vpow, 0 <= vpow -> v < 2 ^ (63 - vpow) ->
                vpow < 56 /\ v / 128 < 2 ^ (63 - (vpow + 7))).
      { intros vpow Hp Hb63.
        assert (Hp56 : vpow < 56).
        { destruct (Z.lt_ge_cases vpow 56) as [|Hc]; [assumption|].
          assert (2 ^ (63 - vpow) <= 2 ^ 7) by (apply Z.pow_le_mono_r; lia).
          change (2 ^ 7) with 128 in *. lia. }
        split; [exact Hp56|].
        apply Z.div_lt_upper_bound; [lia|].
        replace (63 - vpow) with (7 + (63 - (vpow + 7))) in Hb63 by lia.
        rewrite Z.pow_add_r in Hb63 by lia. change (2 ^ 7) with 128 in Hb63. lia. }
      exists (b :: pre), last. repeat split.
      * rewrite He, <- app_assoc. reflexivity.
      * constructor; [|exact Hpre]. rewrite byte_bit7, Hbv. apply Z.leb_le. lia.
      * exact Hlast.
      * intros vret vpow nate rest Hp Hb63.
        destruct (Hroom vpow Hp Hb63) as [Hp56 Hq63].
        cbn [app Vle.dec_vle_loop]. rewrite Hbv.
        destruct (Z.ltb_spec (v mod 128 + 128) 128) as [Hc|_]; [lia|].
        destruct (Z.leb_spec 63 (vpow + 7)) as [Hc|_]; [lia|].
        replace (v mod 128 + 128 - 128) with (v mod 128) by lia.
        rewrite Hdec; try lia.
        rewrite lor_step by lia. unfold len. cbn [length app].
        f_equal. f_equal. lia.
      * intros vret vpow nate k Hp Hb63 Hk.
        destruct (Hroom vpow Hp Hb63) as [Hp56 Hq63].
        destruct k as [|k]; [reflexivity|].
        cbn [app take Vle.dec_vle_loop]. rewrite Hbv.
        destruct (Z.ltb_spec (v mod 128 + 128) 128) as [Hc|_]; [lia|].
        destruct (Z.leb_spec 63 (vpow + 7)) as [Hc|_]; [lia|].
        apply Hcut; [lia|exact Hq63|cbn [length] in Hk; lia]. }
  all: destruct (u8_ok v) as (b & Hb & Hbv); [lia|];
    rewrite Hb; cbn [bind];
    exists [], b; repeat split;
    [ constructor
    | rewrite byte_bit7, Hbv; apply Z.leb_gt; lia
    | intros vret vpow nate rest _ _;
      cbn [app Vle.dec_vle_loop]; rewrite Hbv;
      destruct (Z.ltb_spec v 128) as [_|Hc]; [reflexivity|lia]
    | intros vret vpow nate k _ _ Hk;
      replace k with 0%nat by (cbn [length] in Hk; lia); reflexivity ].
Qed.

Lemma enc_vle_fuel (v : Z) : 0 <= v -> v < 2 ^ (7 * Z.of_nat (S (Z.to_nat (Z.log2 v)))).
Proof.
  intros Hv.
  destruct (Z.eq_dec v 0) as [->|Hnz]; [reflexivity|].
  assert (Hl : 0 <= Z.log2 v) by apply Z.log2_nonneg.
  destruct (Z.log2_spec v) as [_ Hhi]; [lia|].
  eapply Z.lt_le_trans; [exact Hhi|].
  apply Z.pow_le_mono_r; lia.
Qed.

Lemma enc_vle_codec (v : Z) :
  0 <= v < 2 ^ 63 ->
  exists bs,
    Vle.enc_vle v = Ok bs
    /\ 0 < len bs
    /\ (forall rest, Vle.dec_vle_it (bs ++ rest) = ((v, len bs), rest))
    /\ (forall k, (k < length bs)%nat -> Vle.dec_vle_it (take k bs) = ((-1, 0), [])).
Proof.
  intros [H0 H63].
  destruct (enc_vle_loop_spec (Z.to_nat (Z.log2 v)) v [])
    as (pre & last & He & _ & _ & Hdec & Hcut).
  { split; [assumption|]. now apply enc_vle_fuel. }
  exists (pre ++ [last]). split; [exact He|]. split.
  { unfold len. rewrite length_app. cbn [length]. lia. }
  split.
  - intros rest. unfold Vle.dec_vle_it. rewrite Hdec by lia.
    now rewrite Z.shiftl_0_r, Z.lor_0_l.
  - intros k Hk. unfold Vle.dec_vle_it. apply Hcut; try lia.
    rewrite length_app in Hk. cbn [length] in Hk. lia.
Qed.

(** C4: for every 0 <= v < 2^56, [enc_vle v] returns a byte string whose
    last byte has bit 7 clear and whose other bytes have bit 7 set, and
    [dec_vle] of it returns [(v, number of bytes)]. *)
Theorem vle_roundtrip (v : Z) :
  0 <= v < 2 ^ 56 ->
  exists bs pre last,
    Vle.enc_vle v = Ok bs
    /\ Vle.dec_vle bs = (v, len bs)
    /\ bs = pre ++ [last]
    /\ Forall (fun b => Z.testbit (Z_of_byte b) 7 = true) pre
    /\ Z.testbit (Z_of_byte last) 7 = false.
Proof.
  intros [H0 H56].
  destruct (enc_vle_loop_spec (Z.to_nat (Z.log2 v)) v [])
    as (pre & last & He & Hpre & Hlast & Hdec & _).
  { split; [assumption|]. now apply enc_vle_fuel. }
  exists (pre ++ [last]), pre, last. repeat split; try assumption.
  unfold Vle.dec_vle, Vle.dec_vle_it.
  rewrite <- (app_nil_r (pre ++ [last])) at 1.
  rewrite Hdec; [|lia|].
  - cbn [fst]. rewrite Z.shiftl_0_r, Z.lor_0_l. reflexivity.
  - eapply Z.lt_le_trans; [exact H56|]. apply Z.pow_le_mono_r; lia.
Qed.

Lemma vle_roundtrip_witness :
  exists bs pre last,
    Vle.enc_vle 300 = Ok bs
    /\ Vle.dec_vle bs = (300, len bs)
    /\ bs = pre ++ [last]
    /\ Forall (fun b => Z.testbit (Z_of_byte b) 7 = true) pre
    /\ Z.testbit (Z_of_byte last) 7 = false.
Proof. apply (vle_roundtrip 300). lia. Defined.

(** ** Python's [zip] over chunked lists *)

Lemma zip_star_take {A : Type} (k : nat) (ls : list (list A)) :
  Seq.zip_star (take k <$> ls) = take k (Seq.zip_star ls).
Proof.
  induction ls as [|l ls IH]; [cbn; now rewrite take_nil|].
  destruct ls as [|l' ls].
  - cbn. apply fmap_take.
  - change (Seq.zip_star (take k <$> (l :: l' :: ls)))
      with (zip_with cons (take k l) (Seq.zip_star (take k <$> (l' :: ls)))).
    rewrite IH. symmetry. apply zip_with_take.
Qed.

Lemma zip_star_drop {A : Type} (k : nat) (ls : list (list A)) :
  Seq.zip_star (drop k <$> ls) = drop k (Seq.zip_star ls).
Proof.
  induction ls as [|l ls IH]; [cbn; now rewrite drop_nil|].
  destruct ls as [|l' ls].
  - cbn. apply fmap_drop.
  - change (Seq.zip_star (drop k <$> (l :: l' :: ls)))
      with (zip_with cons (drop k l) (Seq.zip_star (drop k <$> (l' :: ls)))).
    rewrite IH. symmetry. apply zip_with_drop.
Qed.

Lemma zip_star_nil {A : Type} (ls : list (list A)) :
  Exists (fun l => l = []) ls -> Seq.zip_star ls = [].
Proof.
  induction ls as [|l ls IH]; intros H; [reflexivity|].
  destruct ls as [|l' ls].
  - apply Exists_cons in H as [->|H]; [reflexivity|]. now apply Exists_nil in H.
  - change (zip_with cons l (Seq.zip_star (l' :: ls)) = []).
    apply Exists_cons in H as [->|H]; [reflexivity|].
    rewrite IH by assumption. apply zip_with_nil_r.
Qed.

Lemma mux_bytes_chunk {A : Type} (k : nat) (ls : list (list A)) :
  Seq.mux_bytes (take k <$> ls) ++ Seq.mux_bytes (drop k <$> ls)
  = Seq.mux_bytes ls.
Proof.
  unfold Seq.mux_bytes. rewrite zip_star_take, zip_star_drop, <- concat_app.
  now rewrite take_drop.
Qed.

(** ** The debug joiner *)

Lemma read_round_some (fs bs : list (list byte)) :
  Forall (fun f => f <> []) fs ->
  Mux.read_round fs bs = (Some (bs ++ (take 1024 <$> fs)), drop 1024 <$> fs).
Proof.
  revert bs. induction fs as [|f fs IH]; intros bs H.
  - cbn. now rewrite app_nil_r.
  - apply Forall_cons in H as [Hf H].
    cbn [Mux.read_round Mux.read].
    destruct f as [|x f]; [congruence|].
    change (take 1024 (x :: f)) with (x :: take 1023 f).
    rewrite IH by assumption. rewrite !fmap_cons, <- app_assoc. reflexivity.
Qed.

Lemma read_round_none (fs bs : list (list byte)) :
  Exists (fun f => f = []) fs -> fst (Mux.read_round fs bs) = None.
Proof.
  revert bs. induction fs as [|f fs IH]; intros bs H.
  - now apply Exists_nil in H.
  - cbn [Mux.read_round Mux.read].
    destruct f as [|x f]; [reflexivity|].
    apply Exists_cons in H as [H|H]; [discriminate|].
    change (take 1024 (x :: f)) with (x :: take 1023 f).
    specialize (IH (bs ++ [x :: take 1023 f]) H).
    destruct (Mux.read_round fs (bs ++ [x :: take 1023 f])). exact IH.
Qed.

Lemma mux_loop_spec (fuel : nat) :
  forall f fs out,
    (length f < fuel)%nat ->
    Mux.mux_loop fuel (f :: fs) out
    = (out ++ Seq.mux_bytes (f :: fs), Raise TypeError).
Proof.
  induction fuel as [|fuel IH]; intros f fs out Hlen; [lia|].
  cbn [Mux.mux_loop].
  destruct (decide (Exists (fun l => l = []) (f :: fs))) as [He|Hne].
  - pose proof (read_round_none (f :: fs) [] He) as Hr.
    destruct (Mux.read_round (f :: fs) []) as [r fs']. cbn in Hr. subst r.
    unfold Seq.mux_bytes. rewrite (zip_star_nil _ He). cbn. now rewrite app_nil_r.
  - apply not_Exists_Forall in Hne; [|intros l; apply _].
    rewrite read_round_some by exact Hne. cbn [app].
    apply Forall_cons in Hne as [Hf _].
    rewrite <- (mux_bytes_chunk 1024 (f :: fs)), !fmap_cons, IH.
    + now rewrite <- app_assoc.
    + rewrite length_drop. destruct f; [congruence|]. cbn [length] in *. lia.
Qed.

(** C9 (what the code does): with at least one input file the joiner writes
    the interleave cut at the shortest file, and then stops through the
    uncaught [TypeError] of [zip( *None )], that is with exit status 1; no
    run of the joiner ends normally. *)
Theorem mux_ends_in_TypeError (f : list byte) (fs : list (list byte)) :
  Mux.mux (f :: fs) = (Seq.mux_bytes (f :: fs), Raise TypeError)
  /\ exit_status (snd (Mux.mux (f :: fs))) = Some 1
  /\ forall fuel files out, snd (Mux.mux_loop fuel files out) <> Ok tt.
Proof.
  assert (H : Mux.mux (f :: fs) = (Seq.mux_bytes (f :: fs), Raise TypeError)).
  { unfold Mux.mux. cbn [hd]. rewrite mux_loop_spec by lia. reflexivity. }
  split; [exact H|]. split; [now rewrite H|].
  induction fuel as [|fuel IH]; intros files out; cbn [Mux.mux_loop].
  - discriminate.
  - destruct (Mux.read_round files []) as [[bs|] fs']; [apply IH|discriminate].
Qed.

Lemma foldr_min_swap (a b : nat) (xs : list nat) :
  Nat.min a (foldr Nat.min b xs) = Nat.min b (foldr Nat.min a xs).
Proof.
  induction xs as [|x xs IH]; cbn [foldr]; [lia|].
  rewrite !Nat.min_assoc, (Nat.min_comm a x), (Nat.min_comm b x), <- !Nat.min_assoc.
  now rewrite IH.
Qed.

(** The tuples of [zip] are the columns of the files, up to the length of
    the shortest one. *)
Lemma zip_star_length {A : Type} (l : list A) (ls : list (list A)) :
  length (Seq.zip_star (l :: ls)) = foldr Nat.min (length l) (length <$> ls).
Proof.
  revert l. induction ls as [|l' ls IH]; intros l.
  - cbn. now rewrite length_fmap.
  - change (Seq.zip_star (l :: l' :: ls))
      with (zip_with cons l (Seq.zip_star (l' :: ls))).
    rewrite length_zip_with, IH, fmap_cons. cbn [foldr].
    apply foldr_min_swap.
Qed.


(** ** The volume meter *)



Section MeterFacts.
Context {sample : Type}.
Variable smax : sample -> sample -> sample.
Variables above_01 below_01 : sample -> bool.



End MeterFacts.





(** ** Audio framing: headers *)

Lemma byte_of_Z_val (z : Z) : Z_of_byte (byte_of_Z z) = z mod 256.
Proof.
  unfold byte_of_Z.
  assert (H : 0 <= z mod 256 < 256) by (apply Z.mod_pos_bound; lia).
  destruct (Byte.of_N (Z.to_N (z mod 256))) as [b|] eqn:E.
  - apply Byte.to_of_N in E. unfold Z_of_byte. rewrite E. lia.
  - apply Byte.of_N_None_iff in E. lia.
Qed.

Lemma u8_byte_of_Z (z : Z) : 0 <= z < 256 -> u8 z = Ok (byte_of_Z z).
Proof.
  intros H. destruct (u8_ok z H) as (b & Hb & Hv). rewrite Hb. f_equal.
  pose proof (byte_of_Z_val z) as Hz. rewrite Z.mod_small in Hz by lia.
  rewrite <- Hz in Hv. unfold Z_of_byte in Hv.
  apply N2Z.inj in Hv.
  assert (Some b = Some (byte_of_Z z)) as [= ->]; [|reflexivity].
  rewrite <- !Byte.of_to_N. now rewrite Hv.
Qed.

Lemma pack_HH_hdr (n : Z) :
  0 <= n < 65536 -> Struct.pack_HH 0xCADE n = Ok (AudioSpec.hdr n).
Proof.
  intros Hn. unfold Struct.pack_HH, AudioSpec.hdr.
  replace ((0 <=? 51934) && (51934 <? 65536) && (0 <=? n) && (n <? 65536)) with true
    by (symmetry; cbn; apply andb_true_intro; split; [apply Z.leb_le|apply Z.ltb_lt]; lia).
  change (u8 (51934 / 256)) with (Ok xca). change (u8 (51934 mod 256)) with (Ok xde).
  cbn [bind].
  rewrite (u8_byte_of_Z (n / 256))
    by (split; [apply Z.div_pos; lia | apply Z.div_lt_upper_bound; lia]).
  cbn [bind].
  assert (Hm : 0 <= n mod 256 < 256) by (apply Z.mod_pos_bound; lia).
  rewrite (u8_byte_of_Z (n mod 256)) by exact Hm. cbn [bind].
  do 4 f_equal. unfold byte_of_Z. now rewrite Z.mod_mod by lia.
Qed.

Lemma unpack_HH_hdr (n : Z) :
  0 <= n < 65536 -> Struct.unpack_HH (AudioSpec.hdr n) = Ok (0xCADE, n).
Proof.
  intros Hn. unfold Struct.unpack_HH, AudioSpec.hdr.
  rewrite !byte_of_Z_val. change (Z_of_byte xca * 256 + Z_of_byte xde) with 51934.
  do 2 f_equal.
  rewrite (Z.mod_small (n / 256))
    by (split; [apply Z.div_pos; lia | apply Z.div_lt_upper_bound; lia]).
  pose proof (Z.div_mod n 256). lia.
Qed.

(** ** Audio framing: splitting into two channels and joining again *)

Lemma list_pair_ind {A : Type} (P : list A -> Prop) :
  P [] -> (forall x, P [x]) -> (forall x y r, P r -> P (x :: y :: r)) ->
  forall l, P l.
Proof.
  intros H0 H1 H2 l.
  enough (P l /\ forall x, P (x :: l)) by tauto.
  induction l as [|y l [IH1 IH2]]; split; auto.
Qed.

Lemma every2_length (buf : list byte) :
  (length (Seq.every 2 0 buf) + length (Seq.every 2 1 buf) = length buf
   /\ length (Seq.every 2 1 buf) <= length (Seq.every 2 0 buf)
   /\ (buf <> [] -> Seq.every 2 0 buf <> []))%nat.
Proof.
  induction buf as [| x | x y r IH] using list_pair_ind.
  - cbn. repeat split; try lia. congruence.
  - cbn. repeat split; try lia. congruence.
  - change (Seq.every 2 0 (x :: y :: r)) with (x :: Seq.every 2 0 r).
    change (Seq.every 2 1 (x :: y :: r)) with (y :: Seq.every 2 1 r).
    cbn [length]. repeat split; try lia. congruence.
Qed.

(** The data [emit] writes for the two payloads of one buffer is the
    buffer: the shorter second channel is padded, and the cut at the sum of
    the two lengths removes the padding again. *)
Lemma emit_data (buf : list byte) :
  let a := Seq.every 2 0 buf in
  let b := Seq.every 2 1 buf in
  take (Z.to_nat (Axr.sum [len a; len b])) (Seq.mux_bytes (a :: Axr.pad_short a [b]))
  = buf.
Proof.
  cbv zeta. unfold Axr.sum, len. cbn [foldr].
  replace (Z.to_nat (Z.of_nat (length (Seq.every 2 0 buf))
                     + (Z.of_nat (length (Seq.every 2 1 buf)) + 0)))
    with (length buf) by (pose proof (every2_length buf); lia).
  induction buf as [| x | x y r IH] using list_pair_ind.
  - reflexivity.
  - reflexivity.
  - change (Seq.every 2 0 (x :: y :: r)) with (x :: Seq.every 2 0 r).
    change (Seq.every 2 1 (x :: y :: r)) with (y :: Seq.every 2 1 r).
    revert IH. unfold Seq.mux_bytes. cbn [Axr.pad_short Seq.zip_star].
    unfold len. cbn [length].
    replace (Z.of_nat (S (length (Seq.every 2 1 r))) <? Z.of_nat (S (length (Seq.every 2 0 r))))
      with (Z.of_nat (length (Seq.every 2 1 r)) <? Z.of_nat (length (Seq.every 2 0 r))).
    2: { destruct (Z.ltb_spec (Z.of_nat (length (Seq.every 2 1 r)))
                              (Z.of_nat (length (Seq.every 2 0 r))));
         symmetry; [apply Z.ltb_lt|apply Z.ltb_ge]; lia. }
    destruct (Z.of_nat (length (Seq.every 2 1 r)) <? Z.of_nat (length (Seq.every 2 0 r)));
      intros IH; cbn; f_equal; f_equal; exact IH.
Qed.


(** ** Audio framing: what [emit] does on partially delivered channels *)

Lemma app_split_prefix {A : Type} (d r x t : list A) :
  d ++ r = x ++ t -> (length x <= length d)%nat ->
  exists d', d = x ++ d' /\ d' ++ r = t.
Proof.
  intros H Hlen. exists (drop (length x) d).
  assert (Hx : take (length x) d = x).
  { apply (f_equal (take (length x))) in H.
    rewrite take_app_le in H by exact Hlen.
    now rewrite take_app_length in H. }
  split.
  - rewrite <- Hx at 1. now rewrite take_drop.
  - apply (f_equal (drop (length x))) in H.
    rewrite drop_app_le in H by exact Hlen.
    now rewrite drop_app_length in H.
Qed.

Lemma every_length_le {A : Type} (s : nat) (l : list A) :
  forall k, (length (Seq.every s k l) <= length l)%nat.
Proof.
  induction l as [|x l IH]; intros k; cbn; [lia|].
  destruct k; cbn; [specialize (IH (s - 1)%nat)|specialize (IH k)]; lia.
Qed.

Lemma small_len (c : nat) (buf : list byte) :
  AudioSpec.small buf -> 0 <= len (Seq.every 2 c buf) < 65536.
Proof.
  unfold AudioSpec.small, len. pose proof (every_length_le 2 buf c). lia.
Qed.

Lemma check_frames_none (d : list byte) (rest : list (list byte)) :
  (length d < 4)%nat -> Axr.check_frames (d :: rest) = Ok None.
Proof.
  intros H. cbn [Axr.check_frames].
  destruct (Z.ltb_spec (len d) 4) as [_|Hc]; [reflexivity|unfold len in Hc; lia].
Qed.

Lemma check_frames_tail (d r : list byte) (rest : list (list byte)) :
  d = [] \/ d ++ r = Axt.zeros 128 -> Axr.check_frames (d :: rest) = Ok None.
Proof.
  intros [->|H]; [apply check_frames_none; cbn; lia|].
  destruct (Nat.lt_ge_cases (length d) 4) as [Hlt|Hge];
    [now apply check_frames_none|].
  cbn [Axr.check_frames].
  destruct (Z.ltb_spec (len d) 4) as [Hc|_]; [unfold len in Hc; lia|].
  assert (Ht : take 4 d = Axt.zeros 4).
  { apply (f_equal (take 4)) in H. rewrite take_app_le in H by exact Hge.
    rewrite H. reflexivity. }
  rewrite Ht. reflexivity.
Qed.

Lemma check_frames_head (c : nat) (d r : list byte) (buf : list byte)
    (tl : list byte) (rest : list (list byte)) :
  d = [] \/ d ++ r = AudioSpec.fr c buf ++ tl ->
  AudioSpec.small buf ->
  Axr.check_frames (d :: rest) =
  if (4 + length (Seq.every 2 c buf) <=? length d)%nat
  then let* x := Axr.check_frames rest in Ok (cons (len (Seq.every 2 c buf)) <$> x)
  else Ok None.
Proof.
  intros Hd Hs.
  destruct (Nat.lt_ge_cases (length d) 4) as [Hlt|Hge].
  { rewrite check_frames_none by exact Hlt.
    destruct (Nat.leb_spec (4 + length (Seq.every 2 c buf)) (length d)); [lia|reflexivity]. }
  destruct Hd as [->|H]; [cbn in Hge; lia|].
  cbn [Axr.check_frames].
  destruct (Z.ltb_spec (len d) 4) as [Hc|_]; [unfold len in Hc; lia|].
  assert (Ht : take 4 d = AudioSpec.hdr (len (Seq.every 2 c buf))).
  { apply (f_equal (take 4)) in H. rewrite take_app_le in H by exact Hge.
    rewrite H. reflexivity. }
  rewrite Ht, unpack_HH_hdr by now apply small_len.
  cbn [bind]. change (negb (51934 =? 51934)) with false. cbv iota.
  unfold len at 1 2.
  destruct (Nat.leb_spec (4 + length (Seq.every 2 c buf)) (length d));
    destruct (Z.ltb_spec (Z.of_nat (length d)) (Z.of_nat (length (Seq.every 2 c buf)) + 4));
    try lia; reflexivity.
Qed.

Lemma check_frames_two (d0 d1 r0 r1 : list byte) (bufs : list (list byte)) :
  d0 = [] \/ d0 ++ r0 = AudioSpec.frames 0 bufs ++ Axt.zeros 128 ->
  d1 = [] \/ d1 ++ r1 = AudioSpec.frames 1 bufs ++ Axt.zeros 128 ->
  Forall AudioSpec.small bufs ->
  Axr.check_frames [d0; d1] =
  Ok (if AudioSpec.ready 0 d0 bufs && AudioSpec.ready 1 d1 bufs
      then Some [len (Seq.every 2 0 (hd [] bufs)); len (Seq.every 2 1 (hd [] bufs))]
      else None).
Proof.
  intros H0 H1 Hs. destruct bufs as [|buf bufs].
  - cbn [AudioSpec.ready andb]. now apply (check_frames_tail d0 r0).
  - apply Forall_cons in Hs as [Hb _].
    unfold AudioSpec.frames in H0, H1. rewrite fmap_cons in H0, H1.
    cbn [concat] in H0, H1. rewrite <- app_assoc in H0, H1.
    rewrite (check_frames_head 0 d0 r0 buf _ _ H0 Hb).
    cbn [AudioSpec.ready hd].
    destruct (4 + length (Seq.every 2 0 buf) <=? length d0)%nat; [|reflexivity].
    rewrite (check_frames_head 1 d1 r1 buf _ _ H1 Hb).
    destruct (4 + length (Seq.every 2 1 buf) <=? length d1)%nat; reflexivity.
Qed.


Lemma frames_cons (c : nat) (buf : list byte) (bufs : list (list byte)) :
  AudioSpec.frames c (buf :: bufs) = AudioSpec.fr c buf ++ AudioSpec.frames c bufs.
Proof. reflexivity. Qed.

Lemma fr_length (c : nat) (buf : list byte) :
  length (AudioSpec.fr c buf) = (4 + length (Seq.every 2 c buf))%nat.
Proof. reflexivity. Qed.

Lemma fr_payload (c : nat) (buf d' : list byte) :
  take (Z.to_nat (len (Seq.every 2 c buf))) (drop 4 (AudioSpec.fr c buf ++ d'))
  = Seq.every 2 c buf
  /\ drop (Z.to_nat (len (Seq.every 2 c buf) + 4)) (AudioSpec.fr c buf ++ d') = d'.
Proof.
  unfold len. split.
  - unfold AudioSpec.fr, AudioSpec.hdr. cbn [app drop].
    rewrite Nat2Z.id. apply take_app_length.
  - replace (Z.to_nat (Z.of_nat (length (Seq.every 2 c buf)) + 4))
      with (length (AudioSpec.fr c buf)) by (rewrite fr_length; lia).
    apply drop_app_length.
Qed.

(** [emit] either finds a channel without a complete frame and changes
    nothing, or takes the next frame off both channels and writes the
    buffer they were made from. *)
Lemma emit_spec (st : Axr.state) (d0 d1 r0 r1 : list byte) (bufs : list (list byte)) :
  Axr.dec st = [d0; d1] ->
  d0 = [] \/ d0 ++ r0 = AudioSpec.frames 0 bufs ++ Axt.zeros 128 ->
  d1 = [] \/ d1 ++ r1 = AudioSpec.frames 1 bufs ++ Axt.zeros 128 ->
  Forall AudioSpec.small bufs ->
  if AudioSpec.ready 0 d0 bufs && AudioSpec.ready 1 d1 bufs then
    exists buf bufs' d0' d1' st',
      bufs = buf :: bufs'
      /\ Axr.emit st = Ok (match buf with [] => false | _ => true end, st')
      /\ Axr.dec st' = [d0'; d1']
      /\ Axr.padding st' = Axr.padding st
      /\ Axr.out st' = Axr.out st ++ buf
      /\ d0' ++ r0 = AudioSpec.frames 0 bufs' ++ Axt.zeros 128
      /\ d1' ++ r1 = AudioSpec.frames 1 bufs' ++ Axt.zeros 128
  else Axr.emit st = Ok (false, st).
Proof.
  intros Hdec H0 H1 Hs.
  pose proof (check_frames_two d0 d1 r0 r1 bufs H0 H1 Hs) as Hck.
  unfold Axr.emit. rewrite Hdec, Hck. clear Hck.
  destruct (AudioSpec.ready 0 d0 bufs && AudioSpec.ready 1 d1 bufs) eqn:Hr;
    [|reflexivity].
  apply andb_true_iff in Hr as [Hr0 Hr1].
  destruct bufs as [|buf bufs']; [discriminate|].
  cbn [AudioSpec.ready] in Hr0, Hr1. apply Nat.leb_le in Hr0, Hr1.
  destruct H0 as [->|H0]; [cbn in Hr0; lia|].
  destruct H1 as [->|H1]; [cbn in Hr1; lia|].
  rewrite frames_cons, <- app_assoc in H0, H1.
  apply app_split_prefix in H0 as (d0' & -> & H0); [|now rewrite fr_length].
  apply app_split_prefix in H1 as (d1' & -> & H1); [|now rewrite fr_length].
  cbn [bind hd zip_with].
  destruct (fr_payload 0 buf d0') as [-> ->].
  destruct (fr_payload 1 buf d1') as [-> ->].
  exists buf, bufs', d0', d1'.
  destruct (Seq.every 2 0 buf) as [|x a] eqn:Ea.
  - assert (buf = []) as ->.
    { destruct buf; [reflexivity|]. pose proof (every2_length (b :: buf)) as (_ & _ & Hne).
      exfalso. now apply Hne. }
    eexists. split; [reflexivity|]. split; [reflexivity|]. cbn [Axr.dec Axr.padding Axr.out].
    rewrite app_nil_r. auto.
  - rewrite <- Ea. rewrite emit_data.
    assert (buf <> []) by (intros ->; discriminate).
    destruct buf; [congruence|].
    eexists. split; [reflexivity|]. split; [reflexivity|].
    cbn [Axr.dec Axr.padding Axr.out]. auto.
Qed.


(** ** Audio framing: what the transmitter writes to its two encoders *)

Lemma frame_fr (c : nat) (buf : list byte) :
  AudioSpec.small buf -> Axt.frame (Seq.every 2 c buf) = Ok (AudioSpec.fr c buf).
Proof.
  intros Hs. unfold Axt.frame. rewrite pack_HH_hdr by now apply small_len.
  reflexivity.
Qed.

Lemma send_two (buf c0 c1 : list byte) :
  AudioSpec.small buf ->
  Axt.send 2 buf [c0; c1] = Ok [c0 ++ AudioSpec.fr 0 buf; c1 ++ AudioSpec.fr 1 buf].
Proof.
  intros Hs. unfold Axt.send. cbn [seq fmap list_fmap foldr].
  rewrite (frame_fr 0), (frame_fr 1) by exact Hs. reflexivity.
Qed.

Lemma tx_loop_spec (reads : list (list byte)) :
  forall rem c0 c1,
    Forall AudioSpec.read_ok reads -> (length rem <= 1)%nat ->
    exists bufs,
      Axt.tx_loop 2 reads rem [c0; c1]
      = Ok [c0 ++ AudioSpec.frames 0 bufs; c1 ++ AudioSpec.frames 1 bufs]
      /\ concat bufs = rem ++ concat reads
      /\ Forall AudioSpec.small bufs
      /\ AudioSpec.calm bufs
      /\ (rem <> [] -> AudioSpec.head_full bufs).
Proof.
  induction reads as [|c reads IH]; intros rem c0 c1 Hr Hrem.
  - destruct rem as [|x rem].
    + exists []. cbn. rewrite !app_nil_r. repeat split; auto.
    + exists [x :: rem]. cbn [Axt.tx_loop].
      assert (Hs : AudioSpec.small (x :: rem)).
      { unfold AudioSpec.small, len. cbn [length] in *. lia. }
      rewrite send_two by exact Hs.
      unfold AudioSpec.frames. cbn [fmap list_fmap concat]. rewrite !app_nil_r.
      repeat split; auto; cbn; congruence.
  - apply Forall_cons in Hr as [[Hne Hlen] Hr].
    destruct c as [|y c]; [congruence|].
    cbn [Axt.tx_loop].
    set (buf := rem ++ y :: c).
    assert (Hbl : 1 <= Z.of_nat (length buf) <= 65527).
    { subst buf. rewrite length_app. unfold len in Hlen. cbn [length] in *. lia. }
    destruct (length buf mod 2)%nat as [|n] eqn:En.
    + assert (Hs : AudioSpec.small buf) by (unfold AudioSpec.small, len; lia).
      rewrite send_two by exact Hs. cbn [bind].
      destruct (IH [] (c0 ++ AudioSpec.fr 0 buf) (c1 ++ AudioSpec.fr 1 buf) Hr)
        as (bufs & He & Hc & Hsm & Hcalm & _); [cbn; lia|].
      exists (buf :: bufs). rewrite He, !frames_cons, <- !app_assoc.
      split; [reflexivity|]. split; [cbn [concat]; rewrite Hc; subst buf; now rewrite <- app_assoc|].
      split; [now constructor|].
      assert (Hbne : buf <> []) by (intros E; rewrite E in Hbl; cbn in Hbl; lia).
      split; [|intros _; exact Hbne].
      destruct bufs; cbn; auto.
    + assert (Hn : S n = 1%nat) by (pose proof (Nat.mod_upper_bound (length buf) 2); lia).
      rewrite Hn.
      assert (Hs : AudioSpec.small (Seq.py_init 1 buf)).
      { unfold AudioSpec.small, len, Seq.py_init. rewrite length_take. lia. }
      rewrite send_two by exact Hs. cbn [bind].
      assert (Htl : length (Seq.py_tail 1 buf) = 1%nat).
      { unfold Seq.py_tail. rewrite length_drop. lia. }
      destruct (IH (Seq.py_tail 1 buf) (c0 ++ AudioSpec.fr 0 (Seq.py_init 1 buf))
                  (c1 ++ AudioSpec.fr 1 (Seq.py_init 1 buf)) Hr)
        as (bufs & He & Hc & Hsm & Hcalm & Hhead); [lia|].
      exists (Seq.py_init 1 buf :: bufs). rewrite He, !frames_cons, <- !app_assoc.
      split; [reflexivity|].
      split.
      { cbn [concat]. rewrite Hc, app_assoc. unfold Seq.py_init, Seq.py_tail.
        rewrite take_drop. subst buf. now rewrite <- app_assoc. }
      split; [now constructor|].
      assert (Hh : AudioSpec.head_full bufs).
      { apply Hhead. intros E. rewrite E in Htl. discriminate. }
      split.
      * destruct bufs; cbn; auto.
      * intros Hrne. cbn. intros E.
        apply (f_equal length) in E. unfold Seq.py_init in E.
        rewrite length_take in E. cbn [length] in E.
        assert (2 <= length buf)%nat.
        { subst buf. rewrite length_app. destruct rem; [congruence|]. cbn [length]. lia. }
        lia.
Qed.

Lemma tx_run_spec (reads : list (list byte)) :
  Forall AudioSpec.read_ok reads ->
  exists bufs,
    Axt.run 2 reads
    = Ok [Axt.pad ++ AudioSpec.frames 0 bufs ++ Axt.zeros 128;
          Axt.pad ++ AudioSpec.frames 1 bufs ++ Axt.zeros 128]
    /\ concat bufs = concat reads
    /\ Forall AudioSpec.small bufs
    /\ AudioSpec.calm bufs.
Proof.
  intros Hr. unfold Axt.run. cbn [replicate].
  destruct (tx_loop_spec reads [] Axt.pad Axt.pad Hr) as (bufs & -> & Hc & Hs & Hcalm & _);
    [cbn; lia|].
  exists bufs. cbn [bind fmap list_fmap]. rewrite <- !app_assoc. auto.
Qed.


(** ** Audio framing: the reader threads and the schedule *)

Lemma lstrip0_zeros (k : nat) (t : list byte) :
  Axr.lstrip0 (Axt.zeros k ++ xff :: t) = xff :: t /\ Axr.lstrip0 (Axt.zeros k) = [].
Proof. induction k as [|k [IH1 IH2]]; split; cbn; auto. Qed.

Lemma zeros_split (k : nat) (x y : list byte) :
  Axt.zeros k = x ++ y ->
  x = Axt.zeros (length x) /\ y = Axt.zeros (k - length x) /\ (length x <= k)%nat.
Proof.
  intros H. unfold Axt.zeros in *.
  assert (Hl : (length x <= k)%nat).
  { apply (f_equal length) in H. rewrite length_replicate, length_app in H. lia. }
  split; [|split; [|exact Hl]].
  - apply (f_equal (take (length x))) in H.
    rewrite take_replicate, take_app_length in H. rewrite <- H at 1. f_equal. lia.
  - apply (f_equal (drop (length x))) in H.
    rewrite drop_replicate, drop_app_length in H. now rewrite <- H.
Qed.

(** One chunk through [rd]: the pad is swallowed up to and including the
    0xFF, everything after it is forwarded. *)
Lemma rd_chunk_rel (c : nat) (p : bool) (d chunk raw : list byte)
    (bufs : list (list byte)) :
  AudioSpec.chan_rel c p d (chunk ++ raw) bufs ->
  AudioSpec.chan_rel c (fst (Axr.rd_chunk p chunk))
    (match snd (Axr.rd_chunk p chunk) with Some b => d ++ b | None => d end)
    raw bufs.
Proof.
  intros [(-> & -> & k & Hk & H)|(-> & H)].
  - cbn [Axr.rd_chunk].
    destruct (Nat.le_gt_cases (length chunk) k) as [Hle|Hgt].
    + symmetry in H. apply app_split_prefix in H as (z & Hz & Hraw);
        [|unfold Axt.zeros; now rewrite length_replicate].
      apply zeros_split in Hz as (Hc & -> & _).
      rewrite Hc. destruct (lstrip0_zeros (length chunk) []) as [_ ->].
      cbn [fst snd]. left. repeat split; auto.
      exists (k - length chunk)%nat. split; [lia|now symmetry].
    + apply app_split_prefix in H as (c' & -> & Hc');
        [|unfold Axt.zeros; rewrite length_replicate; lia].
      destruct c' as [|x c'].
      { rewrite app_nil_r in Hgt. unfold Axt.zeros in Hgt.
        rewrite length_replicate in Hgt. lia. }
      cbn [app] in Hc'. injection Hc' as -> Hc'.
      destruct (lstrip0_zeros k c') as [-> _].
      cbn [fst snd]. right. split; [reflexivity|exact Hc'].
  - cbn [Axr.rd_chunk fst snd]. right. split; [reflexivity|].
    now rewrite <- app_assoc.
Qed.

Lemma chan_rel_view (c : nat) (p : bool) (d raw : list byte) (bufs : list (list byte)) :
  AudioSpec.chan_rel c p d raw bufs ->
  d = [] \/ d ++ raw = AudioSpec.frames c bufs ++ Axt.zeros 128.
Proof. intros [(_ & -> & _)|(_ & H)]; auto. Qed.

Lemma calm_tail (buf : list byte) (bufs : list (list byte)) :
  AudioSpec.calm (buf :: bufs) -> AudioSpec.calm bufs.
Proof. destruct bufs; cbn; tauto. Qed.

(** Whatever the schedule, once both decoders have handed over everything
    the receiver holds the frames of the buffers it has not written yet, and
    has written the ones before them. *)
Lemma run_events_spec (evs : list Axr.event) :
  forall st p0 p1 d0 d1 bufs,
    Axr.padding st = [p0; p1] -> Axr.dec st = [d0; d1] ->
    AudioSpec.chan_rel 0 p0 d0 (Axr.delivered 0 evs) bufs ->
    AudioSpec.chan_rel 1 p1 d1 (Axr.delivered 1 evs) bufs ->
    Forall AudioSpec.small bufs -> AudioSpec.calm bufs ->
    exists st' bufs',
      Axr.run_events st evs = Ok st'
      /\ Axr.dec st' = [AudioSpec.frames 0 bufs' ++ Axt.zeros 128;
                        AudioSpec.frames 1 bufs' ++ Axt.zeros 128]
      /\ Axr.out st' ++ concat bufs' = Axr.out st ++ concat bufs
      /\ Forall AudioSpec.small bufs' /\ AudioSpec.calm bufs'.
Proof.
  induction evs as [|ev evs IH]; intros st p0 p1 d0 d1 bufs Hp Hd H0 H1 Hs Hc.
  - exists st, bufs. cbn [Axr.run_events Axr.delivered] in *.
    destruct H0 as [(_ & _ & k0 & _ & E0)|(_ & E0)];
      [destruct k0; discriminate|].
    destruct H1 as [(_ & _ & k1 & _ & E1)|(_ & E1)];
      [destruct k1; discriminate|].
    rewrite app_nil_r in E0, E1. subst d0 d1. auto.
  - destruct ev as [ch b chunk|]; cbn [Axr.run_events Axr.step].
    + rewrite Hp.
      destruct ch as [|[|ch]]; cbn [lookup list_lookup].
      * cbn [Axr.delivered Nat.eqb] in H0, H1.
        pose proof (rd_chunk_rel 0 p0 d0 (b :: chunk) _ bufs H0) as H0'.
        destruct (Axr.rd_chunk p0 (b :: chunk)) as [p' fwd]. cbn [fst snd] in H0'.
        cbn [bind].
        match goal with |- context [Axr.run_events ?s evs] =>
          destruct (IH s p' p1 (match fwd with Some b => d0 ++ b | None => d0 end) d1 bufs)
            as (st' & bufs' & Hrun & Hd' & Ho & Hs' & Hc'); try assumption;
          [reflexivity | cbn [Axr.dec]; rewrite Hd; destruct fwd; reflexivity |]
        end.
        exists st', bufs'. auto.
      * cbn [Axr.delivered Nat.eqb] in H0, H1.
        pose proof (rd_chunk_rel 1 p1 d1 (b :: chunk) _ bufs H1) as H1'.
        destruct (Axr.rd_chunk p1 (b :: chunk)) as [p' fwd]. cbn [fst snd] in H1'.
        cbn [bind].
        match goal with |- context [Axr.run_events ?s evs] =>
          destruct (IH s p0 p' d0 (match fwd with Some b => d1 ++ b | None => d1 end) bufs)
            as (st' & bufs' & Hrun & Hd' & Ho & Hs' & Hc'); try assumption;
          [reflexivity | cbn [Axr.dec]; rewrite Hd; destruct fwd; reflexivity |]
        end.
        exists st', bufs'. auto.
      * cbn [bind]. cbn [Axr.delivered Nat.eqb] in H0, H1.
        eapply IH; eassumption.
    + cbn [Axr.delivered] in H0, H1.
      pose proof (emit_spec st d0 d1 _ _ bufs Hd
                    (chan_rel_view _ _ _ _ _ H0) (chan_rel_view _ _ _ _ _ H1) Hs) as He.
      destruct (AudioSpec.ready 0 d0 bufs && AudioSpec.ready 1 d1 bufs) eqn:Hr.
      * destruct He as (buf & bufs' & d0' & d1' & st' & -> & He & Hd' & Hp' & Ho & E0 & E1).
        rewrite He. cbn [bind].
        apply andb_true_iff in Hr as [Hr0 Hr1]. cbn [AudioSpec.ready] in Hr0, Hr1.
        apply Nat.leb_le in Hr0, Hr1.
        assert (p0 = false /\ p1 = false) as [-> ->].
        { destruct H0 as [(_ & -> & _)|(-> & _)]; [cbn in Hr0; lia|].
          destruct H1 as [(_ & -> & _)|(-> & _)]; [cbn in Hr1; lia|]. auto. }
        apply Forall_cons in Hs as [_ Hs]. apply calm_tail in Hc.
        destruct (IH st' false false d0' d1' bufs') as (st'' & bufs'' & Hrun & Hd'' & Ho'' & Hs'' & Hc'');
          try assumption.
        { now rewrite Hp'. }
        { right. auto. }
        { right. auto. }
        exists st'', bufs''. split; [exact Hrun|]. split; [exact Hd''|].
        split; [|auto]. rewrite Ho'', Ho. cbn [concat]. now rewrite <- app_assoc.
      * rewrite He. cbn [bind]. eapply IH; eassumption.
Qed.


(** ** Audio framing: the final loop of the receiver *)

Lemma drain_idle (st : Axr.state) :
  Axr.emit st = Ok (false, st) ->
  forall k fuel s,
    0 <= s -> s + Z.of_nat (S k) = 21 -> (S k <= fuel)%nat ->
    Axr.drain fuel st s = Ok st.
Proof.
  intros He. induction k as [|k IH]; intros fuel s Hs Hk Hf;
    (destruct fuel as [|fuel]; [lia|]); cbn [Axr.drain]; rewrite He; cbn [bind].
  - destruct (Z.ltb_spec 20 (s + 1)); [reflexivity|lia].
  - destruct (Z.ltb_spec 20 (s + 1)); [lia|]. apply IH; lia.
Qed.

Lemma ready_full (buf : list byte) (bufs : list (list byte)) :
  AudioSpec.ready 0 (AudioSpec.frames 0 (buf :: bufs) ++ Axt.zeros 128) (buf :: bufs)
  && AudioSpec.ready 1 (AudioSpec.frames 1 (buf :: bufs) ++ Axt.zeros 128) (buf :: bufs)
  = true.
Proof.
  cbn [AudioSpec.ready]. rewrite !frames_cons, !length_app, !fr_length.
  apply andb_true_intro; split; apply Nat.leb_le; lia.
Qed.

Lemma drain_spec (bufs : list (list byte)) :
  forall st s fuel,
    Axr.dec st = [AudioSpec.frames 0 bufs ++ Axt.zeros 128;
                  AudioSpec.frames 1 bufs ++ Axt.zeros 128] ->
    Forall AudioSpec.small bufs -> AudioSpec.calm bufs ->
    s = 0 \/ (s = 1 /\ AudioSpec.head_full bufs) ->
    (length bufs + 21 <= fuel)%nat ->
    exists st', Axr.drain fuel st s = Ok st' /\ Axr.out st' = Axr.out st ++ concat bufs.
Proof.
  induction bufs as [|buf bufs IH]; intros st s fuel Hd Hs Hc Hsp Hf.
  - pose proof (emit_spec st _ _ [] [] [] Hd) as He.
    cbn [AudioSpec.ready andb] in He.
    specialize (He (or_intror (app_nil_r _)) (or_intror (app_nil_r _)) Hs).
    exists st. cbn [concat]. rewrite app_nil_r. split; [|reflexivity].
    destruct Hsp as [->|[-> _]].
    + apply (drain_idle st He 20); cbn [length] in Hf; lia.
    + apply (drain_idle st He 19); cbn [length] in Hf; lia.
  - pose proof (emit_spec st _ _ [] [] (buf :: bufs) Hd
                  (or_intror (app_nil_r _)) (or_intror (app_nil_r _)) Hs) as He.
    rewrite ready_full in He.
    destruct He as (buf' & bufs' & d0' & d1' & st' & [= <- <-] & He & Hd' & _ & Ho & E0 & E1).
    rewrite app_nil_r in E0, E1. subst d0' d1'.
    destruct fuel as [|fuel]; [cbn [length] in Hf; lia|].
    cbn [Axr.drain]. rewrite He. cbn [bind].
    apply Forall_cons in Hs as [_ Hs].
    pose proof (calm_tail _ _ Hc) as Hc'.
    destruct buf as [|x buf].
    + destruct Hsp as [->|[_ Hh]]; [|cbn in Hh; congruence].
      cbn [Z.add]. change (20 <? 0 + 1) with false. cbv iota.
      destruct (IH st' (0 + 1) fuel Hd' Hs Hc') as (st'' & Hrun & Ho'').
      { right. split; [reflexivity|]. destruct bufs; cbn in *; tauto. }
      { cbn [length] in Hf. lia. }
      exists st''. split; [exact Hrun|]. rewrite Ho'', Ho. cbn [concat]. now rewrite <- app_assoc.
    + destruct (IH st' 0 fuel Hd' Hs Hc') as (st'' & Hrun & Ho''); [now left| |].
      { cbn [length] in Hf. lia. }
      exists st''. split; [exact Hrun|]. rewrite Ho'', Ho. cbn [concat]. now rewrite <- app_assoc.
Qed.

Lemma frames_length_ge (c : nat) (bufs : list (list byte)) :
  (length bufs <= length (AudioSpec.frames c bufs))%nat.
Proof.
  induction bufs as [|buf bufs IH]; [cbn; lia|].
  rewrite frames_cons, length_app, fr_length. cbn [length]. lia.
Qed.

(** C1: with two channels, whatever the sizes of the reads of the
    transmitter, and whatever the order in which the two decoders hand over
    the bytes written to the two encoders and [emit] is called in between,
    the receiver ends its final loop having written exactly the bytes the
    transmitter read. *)
Theorem audio_roundtrip (reads : list (list byte)) :
  Forall AudioSpec.read_ok reads ->
  exists c0 c1,
    Axt.run 2 reads = Ok [c0; c1]
    /\ forall evs,
        Axr.delivered 0 evs = c0 -> Axr.delivered 1 evs = c1 ->
        exists st, Axr.run 2 evs = Ok st /\ Axr.out st = concat reads.
Proof.
  intros Hr.
  destruct (tx_run_spec reads Hr) as (bufs & Hrun & Hcat & Hs & Hc).
  eexists _, _. split; [exact Hrun|].
  intros evs E0 E1.
  destruct (run_events_spec evs (Axr.init 2) true true [] [] bufs)
    as (st & bufs' & Hev & Hd & Ho & Hs' & Hc'); try assumption; try reflexivity.
  { left. repeat split. exists 64%nat. split; [lia|]. rewrite E0.
    unfold Axt.pad. now rewrite <- app_assoc. }
  { left. repeat split. exists 64%nat. split; [lia|]. rewrite E1.
    unfold Axt.pad. now rewrite <- app_assoc. }
  unfold Axr.run. rewrite Hev. cbn [bind].
  destruct (drain_spec bufs' st 0 (22 + length (concat (Axr.dec st))) Hd Hs' Hc')
    as (st' & Hdr & Ho'); [now left| |].
  { rewrite Hd. cbn [concat]. rewrite !length_app.
    pose proof (frames_length_ge 0 bufs'). lia. }
  exists st'. split; [exact Hdr|].
  rewrite Ho', Ho. cbn [Axr.init Axr.out app]. exact Hcat.
Qed.

Lemma audio_roundtrip_witness :
  exists st,
    Axr.run 2 [Axr.Emit;
               Axr.Recv 0 x00 (Axt.zeros 63 ++ [xff; xca; xde; x00; x01; x61; xca]);
               Axr.Emit;
               Axr.Recv 1 x00 (Axt.zeros 63
                                 ++ [xff; xca; xde; x00; x01; x62; xca; xde; x00; x00]
                                 ++ Axt.zeros 128);
               Axr.Emit;
               Axr.Recv 0 xde ([x00; x01; x63] ++ Axt.zeros 128);
               Axr.Emit] = Ok st
    /\ Axr.out st = concat [[x61; x62; x63]].
Proof.
  destruct (audio_roundtrip [[x61; x62; x63]]) as (c0 & c1 & Hrun & H).
  { apply Forall_cons. split; [|apply Forall_nil; exact I].
    split; [discriminate|]. unfold len; cbn [length]; lia. }
  vm_compute in Hrun. injection Hrun as <- <-.
  apply H; reflexivity.
Defined.


(** ** Base64 *)

Example b64encode_Man :
  Base64.b64encode (list_byte_of_string "Man") = list_byte_of_string "TWFu"
  /\ Base64.b64encode (list_byte_of_string "Ma") = list_byte_of_string "TWE="
  /\ Base64.b64encode (list_byte_of_string "M") = list_byte_of_string "TQ==".
Proof. repeat split; reflexivity. Qed.





(** ** The streaming base64 stage *)




(** ** CRC-32 *)

Example crc32_check :
  Crc32.crc32 (list_byte_of_string "123456789") 0 = 0xCBF43926.
Proof. reflexivity. Qed.

Lemma lxor_range (n a b : Z) :
  0 <= n -> 0 <= a < 2 ^ n -> 0 <= b < 2 ^ n -> 0 <= Z.lxor a b < 2 ^ n.
Proof.
  intros Hn Ha Hb.
  assert (H0 : 0 <= Z.lxor a b) by (apply Z.lxor_nonneg; lia).
  split; [exact H0|].
  destruct (Z.eq_dec (Z.lxor a b) 0) as [->|Hnz]; [lia|].
  assert (Hn0 : 0 < n).
  { destruct (Z.eq_dec n 0) as [->|]; [|lia].
    change (2 ^ 0) with 1 in *. replace a with 0 in * by lia.
    replace b with 0 in * by lia. now cbn in Hnz. }
  apply Z.log2_lt_pow2; [lia|].
  eapply Z.le_lt_trans; [apply Z.log2_lxor; lia|].
  apply Z.max_lub_lt.
  - destruct (Z.eq_dec a 0) as [->|]; [cbn; lia|]. apply Z.log2_lt_pow2; lia.
  - destruct (Z.eq_dec b 0) as [->|]; [cbn; lia|]. apply Z.log2_lt_pow2; lia.
Qed.

Lemma crc_bit_range (c : Z) : 0 <= c < 2 ^ 32 -> 0 <= Crc32.crc_bit c < 2 ^ 32.
Proof.
  intros Hc. unfold Crc32.crc_bit.
  assert (Hs : 0 <= Z.shiftr c 1 < 2 ^ 32).
  { rewrite Z.shiftr_div_pow2 by lia. change (2 ^ 1) with 2.
    split; [apply Z.div_pos; lia|]. apply Z.div_lt_upper_bound; lia. }
  destruct (Z.testbit c 0); [|exact Hs].
  apply lxor_range; [lia|exact Hs|]. split; [lia|reflexivity].
Qed.

Lemma crc_byte_range (c : Z) (b : byte) :
  0 <= c < 2 ^ 32 -> 0 <= Crc32.crc_byte c b < 2 ^ 32.
Proof.
  intros Hc. unfold Crc32.crc_byte.
  assert (H : 0 <= Z.lxor c (Z_of_byte b) < 2 ^ 32).
  { apply lxor_range; [lia|exact Hc|]. pose proof (Z_of_byte_range b).
    change (2 ^ 32) with 4294967296. lia. }
  cbn [Nat.iter]. repeat apply crc_bit_range. exact H.
Qed.

Lemma crc32_range (buf : list byte) (crc : Z) :
  0 <= crc < 2 ^ 32 -> 0 <= Crc32.crc32 buf crc < 2 ^ 32.
Proof.
  intros Hc. unfold Crc32.crc32.
  apply lxor_range; [lia| |split; [lia|reflexivity]].
  assert (H : 0 <= Z.lxor crc 4294967295 < 2 ^ 32)
    by (apply lxor_range; [lia|exact Hc|split; [lia|reflexivity]]).
  revert H. generalize (Z.lxor crc 4294967295).
  induction buf as [|b buf IH]; intros c H; cbn [fold_left]; [exact H|].
  apply IH, crc_byte_range, H.
Qed.

Lemma crc32_app (a b : list byte) (crc : Z) :
  Crc32.crc32 (a ++ b) crc = Crc32.crc32 b (Crc32.crc32 a crc).
Proof.
  unfold Crc32.crc32. rewrite fold_left_app. do 2 f_equal.
  now rewrite Z.lxor_assoc, Z.lxor_nilpotent, Z.lxor_0_r.
Qed.

Lemma land_u32 (x : Z) : 0 <= x < 2 ^ 32 -> Z.land x 0xFFFFFFFF = x.
Proof.
  intros H. change 0xFFFFFFFF with (Z.ones 32).
  rewrite Z.land_ones by lia. apply Z.mod_small. exact H.
Qed.

(** ** Little-endian words *)

Lemma pack_L_ok (v : Z) : 0 <= v < 2 ^ 32 -> Kxt.pack_L v = Ok (Kxt.le32 v).
Proof.
  intros H. unfold Kxt.pack_L.
  destruct (Z.leb_spec 0 v); [|lia].
  destruct (Z.ltb_spec v 4294967296); [reflexivity|change (2 ^ 32) with 4294967296 in H; lia].
Qed.

Lemma le32_val_le32 (v : Z) :
  0 <= v < 2 ^ 32 ->
  match Kxt.le32 v with
  | [b0; b1; b2; b3] => Gunzip.le32_val b0 b1 b2 b3 = v
  | _ => False
  end.
Proof.
  intros H. unfold Kxt.le32, Gunzip.le32_val. rewrite !byte_of_Z_val.
  change (2 ^ 32) with 4294967296 in H.
  Z.to_euclidean_division_equations. lia.
Qed.


(** ** The streaming gzip stage *)

Lemma py_tail_app {A : Type} (h t : list A) : Seq.py_tail (length t) (h ++ t) = t.
Proof.
  unfold Seq.py_tail. rewrite length_app.
  replace (length h + length t - length t)%nat with (length h) by lia.
  apply drop_app_length.
Qed.

Section GzipFacts.
Context {zstate : Type}.
Variable z_new : zstate.
Variable z_compress : zstate -> list byte -> zstate * list byte.
Variable z_flush : zstate -> list byte.

Lemma gz_loop_spec (chunks : list (list byte)) :
  forall pk crc length,
    0 <= crc < 2 ^ 32 -> 0 <= length ->
    exists outs,
      Kxt.gz_loop z_compress z_flush ((Some <$> chunks) ++ [None]) pk crc length = Ok outs
      /\ Kxt.bytes_of outs
         = Kxt.z_stream z_compress z_flush pk chunks
           ++ Kxt.le32 (Crc32.crc32 (concat chunks) crc)
           ++ Kxt.le32 ((length + len (concat chunks)) mod 2 ^ 32).
Proof.
  induction chunks as [|c chunks IH]; intros pk crc length Hcrc Hlen.
  - cbn [fmap list_fmap app Kxt.gz_loop Kxt.z_stream concat].
    unfold Kxt.pack_2L. rewrite (pack_L_ok crc) by exact Hcrc. cbn [bind].
    change 0xFFFFFFFF with (Z.ones 32). rewrite Z.land_ones by lia.
    rewrite pack_L_ok by (apply Z.mod_pos_bound; lia). cbn [bind].
    eexists. split; [reflexivity|].
    unfold Kxt.bytes_of. cbn [omap list_omap id concat]. rewrite app_nil_r.
    unfold Crc32.crc32 at 1. cbn [fold_left].
    rewrite Z.lxor_assoc, Z.lxor_nilpotent, Z.lxor_0_r.
    unfold len. cbn [List.length]. now rewrite Z.add_0_r.
  - rewrite fmap_cons. cbn [app Kxt.gz_loop Kxt.z_stream concat].
    destruct (z_compress pk c) as [pk' outbuf].
    rewrite land_u32 by now apply crc32_range.
    destruct (IH pk' (Crc32.crc32 c crc) (length + len c)) as (outs & He & Hb).
    { now apply crc32_range. }
    { unfold len. lia. }
    rewrite He. rewrite crc32_app.
    replace (length + len (c ++ concat chunks)) with (length + len c + len (concat chunks))
      by (unfold len; rewrite length_app; lia).
    destruct outbuf as [|o outbuf].
    + exists outs. split; [reflexivity|exact Hb].
    + cbn [bind]. eexists. split; [reflexivity|].
      unfold Kxt.bytes_of in *. cbn [omap list_omap id concat].
      rewrite Hb. now rewrite <- app_assoc.
Qed.

(** C5: the stage yields the 10-byte header, the output of the raw-deflate
    compressor, and the trailer of the CRC-32 and the size modulo 2^32 of
    the whole input, both little-endian; a gzip reader after RFC 1952 gets
    the input back from it whenever its inflater undoes the compressor. *)
Theorem gzip_stream (now : Z) (chunks : list (list byte))
    (inflate : list byte -> option (list byte * list byte)) :
  0 <= now < 2 ^ 32 ->
  exists outs,
    Kxt.StreamGzip z_new z_compress z_flush now ((Some <$> chunks) ++ [None]) = Ok outs
    /\ let data := Kxt.bytes_of outs in
       let header := [x1f; x8b; x08; x00] ++ Kxt.le32 now ++ [x02; xff] in
       let trailer := Kxt.le32 (Crc32.crc32 (concat chunks) 0)
                      ++ Kxt.le32 (len (concat chunks) mod 2 ^ 32) in
       data = header ++ Kxt.z_stream z_compress z_flush z_new chunks ++ trailer
       /\ take 10 data = header
       /\ Seq.py_tail 8 data = trailer
       /\ ((forall rest,
              inflate (Kxt.z_stream z_compress z_flush z_new chunks ++ rest)
              = Some (concat chunks, rest)) ->
           Gunzip.gunzip inflate data = Some (concat chunks)).
Proof.
  intros Hnow. unfold Kxt.StreamGzip.
  rewrite pack_L_ok by exact Hnow. cbn [bind].
  destruct (gz_loop_spec chunks z_new (Crc32.crc32 [] 0) 0) as (outs & -> & Hb);
    [apply crc32_range; lia|lia|].
  cbn [bind]. eexists. split; [reflexivity|]. cbv zeta.
  unfold Kxt.bytes_of in *. cbn [omap list_omap id concat]. rewrite Hb.
  rewrite <- crc32_app. cbn [app]. rewrite Z.add_0_l.
  set (body := Kxt.z_stream z_compress z_flush z_new chunks).
  set (crc := Crc32.crc32 (concat chunks) 0).
  set (size := len (concat chunks) mod 2 ^ 32).
  assert (Hcrc : 0 <= crc < 2 ^ 32) by (apply crc32_range; lia).
  assert (Hsize : 0 <= size < 2 ^ 32) by (apply Z.mod_pos_bound; lia).
  split; [reflexivity|]. split; [reflexivity|]. split.
  - match goal with |- Seq.py_tail 8 ?d = _ =>
      change d with (([x1f; x8b; x08; x00] ++ Kxt.le32 now ++ [x02; xff])
                       ++ body ++ (Kxt.le32 crc ++ Kxt.le32 size))
    end.
    rewrite app_assoc.
    apply (py_tail_app _ (Kxt.le32 crc ++ Kxt.le32 size)).
  - intros Hinf. unfold Kxt.le32 at 1. cbn [app Gunzip.gunzip].
    change (Gunzip.skip_optional (Z_of_byte x00) ?s) with (Some s).
    cbn [Byte.eqb]. change (Gunzip.skip_optional (Z_of_byte "000") (body ++ Kxt.le32 crc ++ Kxt.le32 size))
      with (Some (body ++ Kxt.le32 crc ++ Kxt.le32 size)).
    cbn [mbind option_bind]. rewrite Hinf. cbn [mbind option_bind].
    pose proof (le32_val_le32 crc Hcrc) as H1.
    pose proof (le32_val_le32 size Hsize) as H2.
    unfold Kxt.le32 in *. cbn [app]. rewrite H1, H2, !Z.eqb_refl. reflexivity.
Qed.

End GzipFacts.


Lemma gzip_stream_witness :
  exists outs,
    Kxt.StreamGzip tt Stored.compress Stored.flush 1600000000
      ((Some <$> [[x61; x62]; [x63]]) ++ [None]) = Ok outs
    /\ take 10 (Kxt.bytes_of outs) = [x1f; x8b; x08; x00; x00; x10; x5e; x5f; x02; xff]
    /\ Seq.py_tail 8 (Kxt.bytes_of outs) = [xc2; x41; x24; x35; x03; x00; x00; x00]
    /\ Gunzip.gunzip Stored.inflate (Kxt.bytes_of outs) = Some [x61; x62; x63].
Proof.
  destruct (gzip_stream tt Stored.compress Stored.flush 1600000000
              [[x61; x62]; [x63]] Stored.inflate)
    as (outs & He & _ & Hh & Ht & Hgz); [lia|].
  exists outs. split; [exact He|]. split; [exact Hh|]. split; [exact Ht|].
  apply Hgz. intros rest. reflexivity.
Defined.


(** ** Dotmatrix frames: figment assignment *)

(** C2 (what the code does for two files of one size): on an 80 x 24
    terminal with half blocks, the files [a] and [b] of 300 bytes each give
    the figments [header a; payload; header b; payload], whose two payload
    dictionaries are equal.  Frame 0 ends inside figment 3 at bit 966;
    [self.figs.index] then finds figment 1, so frame 1 goes on at bit 966
    of the payload of [a], and assigns the header of [b] a second time;
    frames 3, 4 and 5 each assign the header and the payload of [b] once
    more, where the stream should have ended with [None]. *)
Theorem frame_info_equal_sizes :
  let a := Vxt.mkFile [x61] 300 1600000000 in
  let b := Vxt.mkFile [x62] 300 1600000000 in
  exists cfg f0 f1 f2 f3,
    Vxt.init [a; b] 80 24 true = Ok cfg
    /\ Vxt.figs cfg = [Vxt.Header [x61] 300 1600000000 25; Vxt.Payload 300;
                       Vxt.Header [x62] 300 1600000000 25; Vxt.Payload 300]
    /\ Vxt.get_frame_info cfg 5 [] = Ok (Some f3, [f0; f1; f2; f3; f3; f3])
    /\ f0 = [Vxt.mkChunk 0 0 200 72; Vxt.mkChunk 1 0 2400 272;
             Vxt.mkChunk 2 0 200 2672; Vxt.mkChunk 3 0 966 2872]
    /\ f1 = [Vxt.mkChunk 1 966 2400 40; Vxt.mkChunk 2 0 200 1474;
             Vxt.mkChunk 3 0 2164 1674]
    /\ f2 = [Vxt.mkChunk 1 2164 2400 40; Vxt.mkChunk 2 0 200 276;
             Vxt.mkChunk 3 0 2400 476]
    /\ f3 = [Vxt.mkChunk 2 0 200 40; Vxt.mkChunk 3 0 2400 240].
Proof.
  cbv zeta. do 5 eexists.
  split; [vm_compute; reflexivity|].
  split; [reflexivity|].
  split; [vm_compute; reflexivity|].
  repeat split; reflexivity.
Qed.

(** With files of different sizes the same terminal gives two frames that
    follow each other and then [None]. *)
Example frame_info_distinct_sizes :
  let a := Vxt.mkFile [x61] 300 1600000000 in
  let b := Vxt.mkFile [x62] 301 1600000000 in
  exists cfg f0 f1,
    Vxt.init [a; b] 80 24 true = Ok cfg
    /\ Vxt.get_frame_info cfg 2 [] = Ok (None, [f0; f1])
    /\ last f0 = Some (Vxt.mkChunk 3 0 966 2872)
    /\ f1 = [Vxt.mkChunk 3 966 2408 40].
Proof.
  cbv zeta. do 3 eexists.
  split; [vm_compute; reflexivity|].
  split; [vm_compute; reflexivity|].
  split; reflexivity.
Qed.


(** ** Dotmatrix frames: bits, bytes and hexadecimal digits *)

Lemma byte_of_bits_of_byte (b : byte) :
  Bits.bits2bstr (Bits.bits_of_byte b) = [b].
Proof. destruct b; reflexivity. Qed.

Lemma bits2bstr_app_byte (b : byte) (r : list bool) :
  Bits.bits2bstr (Bits.bits_of_byte b ++ r) = b :: Bits.bits2bstr r.
Proof. destruct b; reflexivity. Qed.

Lemma bits2bstr_bstr2bits (bs : list byte) (r : list bool) :
  Bits.bits2bstr (Bits.bstr2bits bs ++ r) = bs ++ Bits.bits2bstr r.
Proof.
  unfold Bits.bstr2bits. induction bs as [|b bs IH]; [reflexivity|].
  rewrite fmap_cons. cbn [concat]. rewrite <- app_assoc, bits2bstr_app_byte, IH.
  reflexivity.
Qed.

Lemma bstr2bits_length (bs : list byte) :
  length (Bits.bstr2bits bs) = (8 * length bs)%nat.
Proof.
  unfold Bits.bstr2bits. induction bs as [|b bs IH]; [reflexivity|].
  rewrite fmap_cons. cbn [concat]. rewrite length_app, IH. cbn [length Bits.bits_of_byte]. lia.
Qed.

Lemma digit_val_hexdigit (n : Z) :
  0 <= n < 16 -> Bits.digit_val (Bits.hexdigit n) = n.
Proof.
  intros H. rewrite <- (Z2Nat.id n) by lia.
  assert (Hk : (Z.to_nat n < 16)%nat) by lia.
  revert Hk. generalize (Z.to_nat n). intros k Hk.
  do 16 (destruct k as [|k]; [reflexivity|]). lia.
Qed.

Lemma Z_of_byte_inj (a b : byte) : Z_of_byte a = Z_of_byte b -> a = b.
Proof.
  intros H. assert (E : Ok a = Ok b) by now rewrite <- !u8_of_byte, H.
  now injection E.
Qed.

Lemma hexlify_inj (a : list byte) :
  forall b, Bits.hexlify a = Bits.hexlify b -> a = b.
Proof.
  unfold Bits.hexlify.
  induction a as [|x a IH]; intros [|y b] H; try discriminate; [reflexivity|].
  rewrite !fmap_cons in H. cbn [concat app] in H.
  injection H as H1 H2 H3.
  f_equal; [|now apply IH].
  apply (f_equal Bits.digit_val) in H1, H2.
  pose proof (Z_of_byte_range x). pose proof (Z_of_byte_range y).
  rewrite !digit_val_hexdigit in H1, H2
    by first [ apply Z.mod_pos_bound; lia
             | split; [apply Z.div_pos; lia|apply Z.div_lt_upper_bound; lia] ].
  apply Z_of_byte_inj.
  rewrite (Z.div_mod (Z_of_byte x) 16), (Z.div_mod (Z_of_byte y) 16) by lia.
  now rewrite H1, H2.
Qed.

(** ** Dotmatrix frames: the checksum *)

Section FrameChecksum.
Variable sha512 : list byte -> list byte.
Hypothesis sha512_length : forall m, length (sha512 m) = 64%nat.

Lemma check_frame_iff (s : list bool) :
  (exists n b, Vxr.check_frame sha512 s = Vxr.Checked n b)
  <-> Bits.bits2bstr (take 32 s) = take 4 (sha512 (Bits.ascii_bits (drop 32 s))).
Proof using Type.
  unfold Vxr.check_frame.
  destruct (Vle.dec_vle (Bits.bits2bstr (take 64 (drop 32 s)))) as [frameno ofs2].
  destruct (bool_decide _) eqn:E.
  - apply bool_decide_eq_true in E. apply hexlify_inj in E.
    split; [intros _; exact E|eauto].
  - apply bool_decide_eq_false in E.
    split; [intros (n & b & H); discriminate|].
    intros H. exfalso. apply E. now rewrite H.
Qed.

Lemma accepted_iff (asm : Vxr.state) (s : list bool) :
  VxrMain.accepted sha512 asm s <> None
  <-> Bits.bits2bstr (take 32 s) = take 4 (sha512 (Bits.ascii_bits (drop 32 s)))
      /\ fst (Vle.dec_vle (Bits.bits2bstr (take 64 (drop 32 s)))) = Vxr.next_frame asm.
Proof using Type.
  unfold VxrMain.accepted. rewrite <- check_frame_iff. unfold Vxr.check_frame.
  destruct (Vle.dec_vle (Bits.bits2bstr (take 64 (drop 32 s)))) as [frameno ofs2].
  cbn [fst].
  destruct (bool_decide _).
  - destruct (Z.eqb_spec frameno (Vxr.next_frame asm)) as [E|E].
    + split; [intros _; split; [eauto|exact E]|discriminate].
    + split; [intros H; now contradiction H|intros [_ H]; contradiction].
  - split; [intros H; now contradiction H|intros [(n & b & H) _]; discriminate].
Qed.

(** C3 (as amended): a generated frame is the 32 bits of the first four
    bytes of the SHA-512 of the '0'/'1' rendering of all the bits after
    them, followed by those bits; the receiver computes the same function
    on the bits after the first 32 of what it sampled; a frame passes the
    checksum test exactly when the first 32 bits are these four bytes, is
    dropped with a warning when they are not, and is accepted, that is
    given to the assembler, exactly when it passes the checksum test and
    its number is the one the assembler waits for; every generated frame
    passes the checksum test. *)
Theorem frame_checksum (cap : Z) (bits : list bool) :
  let rendering := fun s : list bool => (fun x : bool => if x then x31 else x30) <$> s in
  exists csum body,
    Vxt.seal_frame sha512 cap bits = Ok (csum ++ body)
    /\ length csum = 32%nat
    /\ body = bits ++ replicate (Z.to_nat (cap - (len bits + 32))) false
    /\ csum = Bits.bstr2bits (take 4 (sha512 (rendering body)))
    /\ (forall s,
          (exists n b, Vxr.check_frame sha512 s = Vxr.Checked n b)
          <-> Bits.bits2bstr (take 32 s) = take 4 (sha512 (rendering (drop 32 s))))
    /\ (forall s,
          (exists n, Vxr.check_frame sha512 s = Vxr.BadChecksum n)
          <-> Bits.bits2bstr (take 32 s) <> take 4 (sha512 (rendering (drop 32 s))))
    /\ (forall asm s,
          VxrMain.accepted sha512 asm s <> None
          <-> Bits.bits2bstr (take 32 s) = take 4 (sha512 (rendering (drop 32 s)))
              /\ fst (Vle.dec_vle (Bits.bits2bstr (take 64 (drop 32 s))))
                 = Vxr.next_frame asm)
    /\ exists n b, Vxr.check_frame sha512 (csum ++ body) = Vxr.Checked n b.
Proof using sha512_length.
  cbv zeta. change (fun s : list bool => (fun x : bool => if x then x31 else x30) <$> s)
    with Bits.ascii_bits.
  set (body := bits ++ replicate (Z.to_nat (cap - (len bits + 32))) false).
  set (csum := Bits.bstr2bits (take 4 (sha512 (Bits.ascii_bits body)))).
  assert (Hl4 : length (take 4 (sha512 (Bits.ascii_bits body))) = 4%nat)
    by (rewrite length_take, sha512_length; reflexivity).
  assert (Hl : length csum = 32%nat)
    by (unfold csum; rewrite bstr2bits_length, Hl4; reflexivity).
  exists csum, body. split.
  { unfold Vxt.seal_frame, Vxt.bstr2bits. change (4 * 8) with 32. fold body.
    destruct (Z.ltb_spec 35000 (len (take 4 (sha512 (Bits.ascii_bits body))))) as [Hc|_].
    - unfold len in Hc. rewrite Hl4 in Hc. lia.
    - reflexivity. }
  split; [exact Hl|]. split; [reflexivity|]. split; [reflexivity|].
  split; [exact check_frame_iff|]. split.
  { intros s. rewrite <- check_frame_iff.
    destruct (Vxr.check_frame sha512 s) as [n|n b].
    - split; [intros _ (n' & b' & H); discriminate|eauto].
    - split; [intros (n' & H); discriminate|intros H; exfalso; apply H; eauto]. }
  split; [exact accepted_iff|].
  apply check_frame_iff.
  rewrite take_app_length' by now symmetry. rewrite drop_app_length' by now symmetry.
  unfold csum. rewrite <- (app_nil_r (Bits.bstr2bits _)), bits2bstr_bstr2bits.
  cbn [Bits.bits2bstr]. now rewrite app_nil_r.
Qed.

End FrameChecksum.

Lemma frame_checksum_witness :
  let sha := fun _ : list byte => replicate 64 x2a in
  exists csum body,
    Vxt.seal_frame sha 40 [true; false; true] = Ok (csum ++ body)
    /\ length csum = 32%nat
    /\ body = [true; false; true; false; false; false; false; false]
    /\ exists n b, Vxr.check_frame sha (csum ++ body) = Vxr.Checked n b.
Proof.
  cbv zeta.
  destruct (frame_checksum (fun _ => replicate 64 x2a)
              (fun _ => length_replicate 64 x2a) 40 [true; false; true])
    as (csum & body & H1 & H2 & H3 & _ & _ & _ & _ & H7).
  exists csum, body. auto.
Defined.

(** C3 as stated fails: the receiver does not accept every frame whose two
    checksum values are equal.  A frame with the right checksum and the
    number 1 is dropped by a receiver that waits for frame 0. *)
Lemma frame_accepted_counterexample :
  ~ (forall (sha512 : list byte -> list byte) (asm : Vxr.state) (s : list bool),
       (forall m, length (sha512 m) = 64%nat) ->
       VxrMain.accepted sha512 asm s <> None
       <-> Bits.bits2bstr (take 32 s)
           = take 4 (sha512 ((fun x : bool => if x then x31 else x30) <$> drop 32 s))).
Proof.
  intros H.
  destruct (H (fun _ => replicate 64 x2a) Vxr.init
              (Bits.bstr2bits [x2a; x2a; x2a; x2a; x01])
              (fun _ => length_replicate 64 x2a)) as [_ Hacc].
  apply Hacc; reflexivity.
Qed.


(** ** The assembler: file headers as the transmitter writes them *)

Lemma take_exact_app (n : Z) (a rest : list byte) :
  length a = Z.to_nat n -> Vxr.take_exact n (a ++ rest) = Some (a, rest).
Proof.
  intros H. unfold Vxr.take_exact. rewrite <- H.
  destruct (Nat.leb_spec (length a) (length (a ++ rest))) as [_|Hc];
    [|rewrite length_app in Hc; lia].
  now rewrite take_app_length, drop_app_length.
Qed.

Lemma take_exact_short (n : Z) (it : list byte) :
  (length it < Z.to_nat n)%nat -> Vxr.take_exact n it = None.
Proof.
  intros H. unfold Vxr.take_exact.
  destruct (Nat.leb_spec (Z.to_nat n) (length it)); [lia|reflexivity].
Qed.

Lemma take_app_cases {A : Type} (k : nat) (a b : list A) :
  ((k < length a)%nat /\ take k (a ++ b) = take k a)
  \/ ((length a <= k)%nat /\ take k (a ++ b) = a ++ take (k - length a) b).
Proof.
  destruct (Nat.lt_ge_cases k (length a)) as [Hlt|Hge]; [left|right];
    (split; [assumption|]); rewrite take_app.
  - replace (k - length a)%nat with 0%nat by lia. now rewrite take_0, app_nil_r.
  - now rewrite take_ge by exact Hge.
Qed.

Section FileHeader.
Variable os : Vxr.filesystem.
Variables (fo : Vxt.file) (ck h : list byte).
Hypothesis header : Vxt.gen_header fo ck = Ok h.
Hypothesis ck_length : length ck = 16%nat.
Hypothesis sz_range : 0 <= Vxt.f_sz fo < 2 ^ 63.
Hypothesis ts_range : 0 <= Vxt.f_ts fo < 2 ^ 63.
Hypothesis fn_range : len (Vxt.rel_name (Vxt.f_fn fo)) < 2 ^ 63.

(** A complete file header of the transmitter is read for what it is and
    taken out of the buffer. *)
Lemma file_header_complete (st : Vxr.state) (rest : list byte) :
  Vxr.buf st = h ++ rest ->
  Vxr.process_file_header os st =
  let fn := list_byte_of_string "inc/" ++ Vxt.rel_name (Vxt.f_fn fo) in
  let* _ := Vxr.makedirs os (Vxr.files_written st) (Vxr.dirname fn) in
  let* _ := Vxr.open_wb os (Vxr.files_written st) fn in
  Ok (true,
      Vxr.mkState rest (Vxr.remainder st) (Vxr.next_frame st) (Vxr.frametab st)
        (Vxr.fig_no st + 1) (Vxr.files_total st) (Vxr.bytes_total st)
        (Vxr.files_done st) (Vxr.bytes_done st)
        (Some (Vxr.mkPayload fn (Vxt.f_sz fo) (Vxt.f_ts fo) ck [])) (Vxr.files_written st)).
Proof using header ck_length sz_range ts_range fn_range.
  intros Hbuf. revert header. unfold Vxt.gen_header.
  set (rfn := Vxt.rel_name (Vxt.f_fn fo)) in *.
  destruct (enc_vle_codec _ sz_range) as (e1 & -> & Hl1 & Hd1 & _).
  destruct (enc_vle_codec _ ts_range) as (e2 & -> & Hl2 & Hd2 & _).
  destruct (enc_vle_codec (len rfn)) as (e3 & -> & Hl3 & Hd3 & _);
    [unfold len in *; lia|].
  cbn [bind]. intros [= <-].
  unfold Vxr.process_file_header. rewrite Hbuf, <- !app_assoc.
  rewrite Hd1. destruct (Z.eqb_spec (len e1) 0); [lia|].
  rewrite Hd2. destruct (Z.eqb_spec (len e2) 0); [lia|].
  rewrite (take_exact_app 16 ck) by (rewrite ck_length; reflexivity).
  rewrite Hd3. destruct (Z.eqb_spec (len e3) 0); [lia|].
  rewrite (take_exact_app (len rfn) rfn) by (unfold len; now rewrite Nat2Z.id).
  cbv zeta.
  replace (Z.to_nat (len e1 + len e2 + 16 + len e3 + len rfn))
    with (length (e1 ++ e2 ++ ck ++ e3 ++ rfn))
    by (rewrite !length_app, ck_length; unfold len; lia).
  rewrite !app_assoc, drop_app_length. reflexivity.
Qed.

(** Any proper prefix of it is left in the buffer untouched. *)
Lemma file_header_incomplete (st : Vxr.state) (k : nat) :
  (k < length h)%nat ->
  Vxr.buf st = take k h ->
  Vxr.process_file_header os st = Ok (false, st).
Proof using header ck_length sz_range ts_range fn_range.
  intros Hk Hbuf. revert header. unfold Vxt.gen_header.
  set (rfn := Vxt.rel_name (Vxt.f_fn fo)) in *.
  destruct (enc_vle_codec _ sz_range) as (e1 & -> & Hl1 & Hd1 & Hc1).
  destruct (enc_vle_codec _ ts_range) as (e2 & -> & Hl2 & Hd2 & Hc2).
  destruct (enc_vle_codec (len rfn)) as (e3 & -> & Hl3 & Hd3 & Hc3);
    [unfold len in *; lia|].
  cbn [bind]. intros [= <-].
  rewrite !length_app, ck_length in Hk.
  unfold Vxr.process_file_header. rewrite Hbuf.
  destruct (take_app_cases k e1 (e2 ++ ck ++ e3 ++ rfn)) as [[Hk1 ->]|[Hk1 ->]].
  { now rewrite Hc1. }
  rewrite Hd1. destruct (Z.eqb_spec (len e1) 0); [lia|].
  destruct (take_app_cases (k - length e1) e2 (ck ++ e3 ++ rfn)) as [[Hk2 ->]|[Hk2 ->]].
  { now rewrite Hc2. }
  rewrite Hd2. destruct (Z.eqb_spec (len e2) 0); [lia|].
  destruct (take_app_cases (k - length e1 - length e2) ck (e3 ++ rfn))
    as [[Hk3 ->]|[Hk3 ->]].
  { rewrite take_exact_short; [reflexivity|]. rewrite length_take. lia. }
  rewrite (take_exact_app 16 ck) by (rewrite ck_length; reflexivity).
  destruct (take_app_cases (k - length e1 - length e2 - length ck) e3 rfn)
    as [[Hk4 ->]|[Hk4 ->]].
  { now rewrite Hc3. }
  rewrite Hd3. destruct (Z.eqb_spec (len e3) 0); [lia|].
  rewrite take_exact_short; [reflexivity|].
  rewrite length_take. unfold len. rewrite Nat2Z.id. lia.
Qed.

End FileHeader.

(** ** The assembler *)

Section Assembler.
Variable sha512 : list byte -> list byte.
Variable os : Vxr.filesystem.


(** A file header that is not complete is left in the buffer. *)
Lemma file_header_waits (st st' : Vxr.state) :
  Vxr.process_file_header os st = Ok (false, st') -> st' = st.
Proof.
  unfold Vxr.process_file_header.
  destruct (Vle.dec_vle_it (Vxr.buf st)) as [[sz a1] it1].
  destruct (a1 =? 0); [now intros [= <-]|].
  destruct (Vle.dec_vle_it it1) as [[ts a2] it2].
  destruct (a2 =? 0); [now intros [= <-]|].
  destruct (Vxr.take_exact 16 it2) as [[ck it3]|]; [|now intros [= <-]].
  destruct (Vle.dec_vle_it it3) as [[fl a3] it4].
  destruct (a3 =? 0); [now intros [= <-]|].
  destruct (Vxr.take_exact fl it4) as [[fn it5]|]; [|now intros [= <-]].
  destruct (Vxr.makedirs _ _ _) as [[]| |]; cbn [bind]; [|discriminate..].
  destruct (Vxr.open_wb _ _ _) as [[]| |]; cbn [bind]; discriminate.
Qed.






(** C7 (what the code does on a short stream header): with only the version
    byte buffered, [_process] takes the byte, sets both totals to -1 and
    moves on to the first file header, and [put] reports the transfer
    complete; with nothing buffered, as when frame 1 is put before frame 0,
    it raises the version error. *)
Theorem stream_header_not_awaited :
  let st := Vxr.mkState [x01] [] 0 ∅ 0 None None 0 0 None [] in
  let st' := Vxr.mkState [] [] 0 ∅ 1 (Some (-1)) (Some (-1)) 0 0 None [] in
  Vxr._process sha512 os st = Ok (true, st')
  /\ Vxr._process sha512 os Vxr.init = Raise (PyException 1)
  /\ (forall data, Vxr.put sha512 os 2 Vxr.init 1 data = Raise (PyException 1))
  /\ exists st'',
      Vxr.put sha512 os 2 Vxr.init 0 (Bits.bstr2bits [x01]) = Ok (true, st'')
      /\ Vxr.buf st'' = [] /\ Vxr.fig_no st'' = 1
      /\ Vxr.files_total st'' = Some (-1) /\ Vxr.bytes_total st'' = Some (-1).
Proof.
  cbv zeta. split; [reflexivity|]. split; [reflexivity|].
  split; [intros data; reflexivity|].
  eexists. split; [vm_compute; reflexivity|]. repeat split; reflexivity.
Qed.

End Assembler.



(** ** Dotmatrix frames: how frames follow each other when no two figment
    dictionaries are equal *)

Lemma list_eqb_bytes (a : list byte) :
  forall b, Vxt.list_eqb Byte.eqb a b = true <-> a = b.
Proof.
  induction a as [|x a IH]; intros [|y b]; cbn; split; try congruence; try discriminate.
  - intros H. apply andb_true_iff in H as [H1 H2].
    apply Byte.byte_dec_bl in H1. apply IH in H2. congruence.
  - intros [= <- <-]. apply andb_true_iff. split; [apply Byte.byte_dec_lb; reflexivity|].
    now apply IH.
Qed.

Lemma fig_eqb_eq (a b : Vxt.fig) : Vxt.fig_eqb a b = true <-> a = b.
Proof.
  destruct a as [fn1 sz1 ts1 l1|l1], b as [fn2 sz2 ts2 l2|l2]; cbn;
    split; try congruence; try discriminate.
  - intros H. repeat (apply andb_true_iff in H as [H ?]).
    apply list_eqb_bytes in H. f_equal; try assumption; now apply Z.eqb_eq.
  - intros [= <- <- <- <-]. rewrite !Z.eqb_refl, !andb_true_r. now apply list_eqb_bytes.
  - intros H. f_equal. now apply Z.eqb_eq.
  - intros [= <-]. apply Z.eqb_refl.
Qed.

Lemma index_NoDup (fs : list Vxt.fig) :
  NoDup fs -> forall i fg, fs !! i = Some fg -> Vxt.index fs fg = Ok i.
Proof.
  induction 1 as [|f fs Hnin Hnd IH]; intros i fg Hi; [discriminate|].
  destruct i as [|i]; cbn [Vxt.index].
  - cbn in Hi. injection Hi as ->.
    now rewrite (proj2 (fig_eqb_eq fg fg) eq_refl).
  - cbn in Hi.
    destruct (Vxt.fig_eqb f fg) eqn:E.
    + apply fig_eqb_eq in E. subst f. exfalso. apply Hnin.
      eapply list_elem_of_lookup_2. exact Hi.
    + now rewrite (IH i fg Hi).
Qed.

Section FrameChain.
Variable cfg : Vxt.config.
Hypothesis figs_distinct : NoDup (Vxt.figs cfg).
Hypothesis figs_nonneg : Forall (fun f => 0 <= Vxt.fig_len f) (Vxt.figs cfg).

Lemma fig_len_nonneg (i : nat) (fg : Vxt.fig) :
  Vxt.figs cfg !! i = Some fg -> 0 <= Vxt.fig_len fg.
Proof using figs_nonneg.
  intros H. apply list_elem_of_lookup_2 in H.
  exact (proj1 (Forall_forall _ _) figs_nonneg fg H).
Qed.

Lemma offset_S (i : nat) (fg : Vxt.fig) :
  Vxt.figs cfg !! i = Some fg ->
  FrameSpec.offset cfg (S i) = FrameSpec.offset cfg i + Vxt.fig_len fg * 8.
Proof using Type.
  intros H. unfold FrameSpec.offset.
  rewrite (take_S_r _ _ _ H), fmap_app, foldr_app. cbn [fmap list_fmap foldr].
  generalize (Vxt.fig_len <$> take i (Vxt.figs cfg)). intros l.
  induction l as [|x l IH]; cbn [foldr]; lia.
Qed.

Lemma chain_app (a b : list Vxt.chunk) :
  forall p,
    FrameSpec.chain cfg p (a ++ b)
    <-> FrameSpec.chain cfg p a /\ FrameSpec.chain cfg (FrameSpec.chain_end cfg p a) b.
Proof using Type.
  induction a as [|c a IH]; intros p; cbn [app FrameSpec.chain FrameSpec.chain_end].
  - tauto.
  - rewrite IH. tauto.
Qed.

Lemma chain_end_app (a b : list Vxt.chunk) :
  forall p,
    FrameSpec.chain_end cfg p (a ++ b)
    = FrameSpec.chain_end cfg (FrameSpec.chain_end cfg p a) b.
Proof using Type.
  induction a as [|c a IH]; intros p; cbn [app FrameSpec.chain_end]; auto.
Qed.

(** The loop of [get_frame_info] appends chunks that go on from the
    position it is started at; when it appends none although the frame has
    room, the figments are exhausted. *)
Lemma fill_chain (fuel : nat) :
  forall bs i b disp res,
    0 <= b ->
    (forall fg, Vxt.figs cfg !! i = Some fg -> b <= Vxt.fig_len fg * 8) ->
    (i <= length (Vxt.figs cfg))%nat ->
    (i = length (Vxt.figs cfg) -> b = 0) ->
    Vxt.fill fuel cfg bs i b disp = Ok res ->
    exists new,
      res = disp ++ new
      /\ FrameSpec.chain cfg (FrameSpec.offset cfg i + b) new
      /\ (new = [] -> bs < Vxt.nbits cfg ->
          FrameSpec.offset cfg i + b = FrameSpec.total_bits cfg).
Proof using figs_nonneg.
  induction fuel as [|fuel IH]; intros bs i b disp res Hb Hle Hi Hend; cbn [Vxt.fill];
    [discriminate|].
  destruct (Z.ltb_spec bs (Vxt.nbits cfg)) as [Hbs|Hbs]; cbn [andb].
  2: { intros [= <-]. exists []. rewrite app_nil_r. cbn. repeat split; auto. lia. }
  destruct (Nat.ltb_spec i (length (Vxt.figs cfg))) as [Hlt|Hge].
  2: { intros [= <-]. exists []. rewrite app_nil_r. cbn. repeat split; auto.
       intros _ _. assert (i = length (Vxt.figs cfg)) as E by lia.
       rewrite (Hend E), E. unfold FrameSpec.total_bits. lia. }
  destruct (Vxt.figs cfg !! i) as [fg|] eqn:Efg;
    [|apply lookup_ge_None in Efg; lia].
  specialize (Hle fg eq_refl).
  destruct (Z.leb_spec (Vxt.fig_len fg * 8) b) as [Hfull|Hpart].
  - intros Hrun. apply IH in Hrun as (new & -> & Hch & Hnil); try lia.
    + exists new. rewrite (offset_S i fg Efg) in Hch, Hnil.
      replace (FrameSpec.offset cfg i + b)
        with (FrameSpec.offset cfg i + Vxt.fig_len fg * 8 + 0) by lia.
      auto.
    + intros fg' Hfg'. pose proof (fig_len_nonneg _ _ Hfg'). lia.
  - set (b2 := if Vxt.fig_len fg * 8 <? b + (Vxt.nbits cfg - bs)
               then Vxt.fig_len fg * 8 else b + (Vxt.nbits cfg - bs)).
    assert (Hb2 : b < b2 <= Vxt.fig_len fg * 8).
    { subst b2. destruct (Z.ltb_spec (Vxt.fig_len fg * 8) (b + (Vxt.nbits cfg - bs))); lia. }
    intros Hrun. apply IH in Hrun as (new & -> & Hch & Hnil); try lia.
    + exists (Vxt.mkChunk i b b2 bs :: new). rewrite <- app_assoc.
      split; [reflexivity|]. split; [|discriminate].
      cbn [FrameSpec.chain]. split; [|split; [reflexivity|exact Hch]].
      exists fg. cbn. repeat split; try assumption; lia.
    + intros fg' Hfg'. rewrite Efg in Hfg'. injection Hfg' as <-. lia.
Qed.

Lemma frame_info_body_inv (n : nat) (frames frames' : list (list Vxt.chunk))
    (r : option (list Vxt.chunk)) :
  FrameSpec.frames_inv cfg frames ->
  Vxt.frame_info_body cfg n frames = Ok (r, frames') ->
  FrameSpec.frames_inv cfg frames'
  /\ (r = None ->
      forall vf, Vle.enc_vle (Z.of_nat n) = Ok vf ->
        FrameSpec.overhead cfg n vf < Vxt.nbits cfg ->
        FrameSpec.chain_end cfg 0 (concat frames') = FrameSpec.total_bits cfg).
Proof using figs_distinct figs_nonneg.
  intros [Hne Hch]. unfold Vxt.frame_info_body.
  destruct (Nat.ltb_spec n (length frames)) as [Hmemo|Hnew].
  { intros [= <- <-]. split; [split; assumption|].
    intros E. apply lookup_lt_is_Some in Hmemo as [f Hf]. congruence. }
  destruct (Vle.enc_vle (Z.of_nat n)) as [vf| |]; cbn [bind]; [|discriminate..].
  assert (Hstart : forall bs i b,
             (match n with
              | O => Ok ((4 + len vf) * 8 + len (Vxt.header0 cfg) * 8, O, 0)
              | S prev =>
                  match frames !! prev with
                  | None => Raise IndexError
                  | Some pframe =>
                      match last pframe with
                      | None => Raise IndexError
                      | Some c =>
                          match Vxt.figs cfg !! Vxt.c_fig c with
                          | None => Raise IndexError
                          | Some fg =>
                              let* i := Vxt.index (Vxt.figs cfg) fg in
                              Ok ((4 + len vf) * 8, i, Vxt.bit2 c)
                          end
                      end
                  end
              end) = Ok (bs, i, b) ->
             bs = FrameSpec.overhead cfg n vf
             /\ FrameSpec.offset cfg i + b = FrameSpec.chain_end cfg 0 (concat frames)
             /\ 0 <= b
             /\ (forall fg, Vxt.figs cfg !! i = Some fg -> b <= Vxt.fig_len fg * 8)
             /\ (i <= length (Vxt.figs cfg))%nat
             /\ (i = length (Vxt.figs cfg) -> b = 0)).
  { intros bs i b. destruct n as [|prev].
    - intros [= <- <- <-]. assert (frames = []) as -> by (destruct frames; [reflexivity|cbn in Hnew; lia]).
      unfold FrameSpec.overhead, FrameSpec.offset. cbn. repeat split; try lia.
      intros fg Hfg. pose proof (fig_len_nonneg _ _ Hfg). lia.
    - destruct (frames !! prev) as [pframe|] eqn:Ep; [|discriminate].
      destruct (last pframe) as [c|] eqn:Ec; [|discriminate].
      destruct (Vxt.figs cfg !! Vxt.c_fig c) as [fg|] eqn:Efg; [|discriminate].
      rewrite (index_NoDup _ figs_distinct _ _ Efg). cbn [bind].
      intros [= <- <- <-].
      assert (Hlen : length frames = S prev).
      { apply lookup_lt_Some in Ep. lia. }
      assert (Hfr : exists fr0, frames = fr0 ++ [pframe]).
      { exists (take prev frames). rewrite <- (take_drop prev frames) at 1. f_equal.
        rewrite (drop_S _ _ _ Ep), drop_ge by lia. reflexivity. }
      destruct Hfr as [fr0 ->].
      apply last_Some in Ec as [pf0 ->].
      rewrite concat_app in Hch |- *. cbn [concat] in Hch |- *.
      rewrite app_nil_r in Hch |- *. rewrite app_assoc in Hch |- *.
      apply chain_app in Hch as [_ Hc]. cbn [FrameSpec.chain] in Hc.
      destruct Hc as ((fg' & Hfg' & Hb1 & Hb2) & _ & _).
      rewrite Efg in Hfg'. injection Hfg' as <-.
      rewrite chain_end_app. cbn [FrameSpec.chain_end]. unfold FrameSpec.stop, FrameSpec.overhead.
      repeat split; try lia.
      + intros fg' Hfg'. rewrite Efg in Hfg'. now injection Hfg' as <-.
      + apply lookup_lt_Some in Efg. lia.
      + intros E. apply lookup_lt_Some in Efg. lia. }
  destruct (match n with O => _ | S _ => _ end) as [[[bs i] b]| |]; cbn [bind];
    [|discriminate..].
  destruct (Hstart bs i b eq_refl) as (-> & Hpos & Hb & Hle & Hi & Hend).
  destruct (Vxt.fill _ cfg _ i b []) as [displayed| |] eqn:Efill; cbn [bind];
    [|discriminate..].
  apply fill_chain in Efill as (new & -> & Hnew_ch & Hnil); try assumption.
  cbn [app] in *. rewrite Hpos in Hnew_ch, Hnil.
  destruct new as [|c new].
  - intros [= <- <-]. split; [split; assumption|].
    intros _ vf' [= <-] Hov. now apply Hnil.
  - intros [= <- <-]. split; [|discriminate].
    split.
    + apply Forall_app. split; [exact Hne|]. constructor; [discriminate|constructor].
    + rewrite concat_app. cbn [concat]. rewrite app_nil_r.
      apply chain_app. auto.
Qed.

Lemma get_frame_info_inv (n : nat) :
  forall frames frames' r,
    FrameSpec.frames_inv cfg frames ->
    Vxt.get_frame_info cfg n frames = Ok (r, frames') ->
    FrameSpec.frames_inv cfg frames'
    /\ (r = None ->
        forall vf, Vle.enc_vle (Z.of_nat n) = Ok vf ->
          FrameSpec.overhead cfg n vf < Vxt.nbits cfg ->
          FrameSpec.chain_end cfg 0 (concat frames') = FrameSpec.total_bits cfg).
Proof using figs_distinct figs_nonneg.
  induction n as [|n IH]; intros frames frames' r Hinv; cbn [Vxt.get_frame_info].
  - now apply frame_info_body_inv.
  - destruct (len frames - 1 <? Z.of_nat (S n)).
    + destruct (Vxt.get_frame_info cfg n frames) as [[r1 fr1]| |] eqn:E; cbn [bind];
        [|discriminate..].
      apply IH in E as [Hinv1 _]; [|exact Hinv].
      now apply frame_info_body_inv.
    + cbn [bind]. now apply frame_info_body_inv.
Qed.

(** With pairwise distinct figments, the frames computed up to any frame
    number are not empty, their chunks follow each other from the first bit
    of the first figment, without gap or overlap, also from one frame to
    the next; and when the answer is [None] although the frame has room
    for data, they end at the last bit of the last figment. *)
Theorem frame_info_contiguous (n : nat) (r : option (list Vxt.chunk))
    (frames : list (list Vxt.chunk)) :
  Vxt.get_frame_info cfg n [] = Ok (r, frames) ->
  Forall (fun f => f <> []) frames
  /\ FrameSpec.chain cfg 0 (concat frames)
  /\ (r = None ->
      forall vf, Vle.enc_vle (Z.of_nat n) = Ok vf ->
        FrameSpec.overhead cfg n vf < Vxt.nbits cfg ->
        FrameSpec.chain_end cfg 0 (concat frames) = FrameSpec.total_bits cfg).
Proof using figs_distinct figs_nonneg.
  intros H. apply get_frame_info_inv in H as [[H1 H2] H3]; [auto|].
  split; [constructor|exact I].
Qed.

End FrameChain.


Ltac distinct_figs :=
  repeat (apply NoDup_cons; split;
          [ let H := fresh in
            intros H;
            repeat (apply elem_of_cons in H as [H|H]; [discriminate|]);
            now apply elem_of_nil in H
          | ]);
  apply NoDup_nil; exact I.

Lemma frame_info_contiguous_witness :
  let a := Vxt.mkFile [x61] 300 1600000000 in
  let b := Vxt.mkFile [x62] 301 1600000000 in
  exists cfg frames,
    Vxt.init [a; b] 80 24 true = Ok cfg
    /\ Vxt.get_frame_info cfg 2 [] = Ok (None, frames)
    /\ length frames = 2%nat
    /\ FrameSpec.chain cfg 0 (concat frames)
    /\ FrameSpec.chain_end cfg 0 (concat frames) = (25 + 300 + 25 + 301) * 8.
Proof.
  cbv zeta. eexists. eexists.
  split; [vm_compute; reflexivity|].
  split; [vm_compute; reflexivity|].
  split; [reflexivity|].
  match goal with
  | |- FrameSpec.chain ?c 0 (concat ?f) /\ _ =>
      destruct (frame_info_contiguous c) with (n := 2%nat) (r := @None (list Vxt.chunk))
        (frames := f) as (_ & Hch & Hend)
  end.
  - cbn [Vxt.figs]. distinct_figs.
  - cbn [Vxt.figs]. repeat (apply Forall_cons; split; [cbn; lia|]). apply Forall_nil. exact I.
  - vm_compute. reflexivity.
  - split; [exact Hch|].
    rewrite (Hend eq_refl [x02] eq_refl); [reflexivity|]. vm_compute. reflexivity.
Defined.

(** ** Slices with a step *)

Lemma every_lookup {A : Type} (step : nat) (l : list A) :
  (0 < step)%nat ->
  forall k i, Seq.every step k l !! i = l !! (k + i * step)%nat.
Proof.
  intros Hs. induction l as [|x r IH]; intros k i; [reflexivity|].
  destruct k as [|k]; cbn [Seq.every].
  - destruct i as [|i]; [reflexivity|].
    cbn [lookup list_lookup]. rewrite IH.
    replace (0 + S i * step)%nat with (S (step - 1 + i * step)) by lia.
    reflexivity.
  - rewrite IH. reflexivity.
Qed.

Lemma every_length_aligned {A : Type} (step k q : nat) (l : list A) :
  (k < step)%nat -> length l = (q * step)%nat ->
  length (Seq.every step k l) = q.
Proof.
  intros Hk Hl.
  assert (Hs : (0 < step)%nat) by lia.
  apply Nat.le_antisymm.
  - apply lookup_ge_None. rewrite every_lookup by exact Hs.
    apply lookup_ge_None. lia.
  - destruct q as [|q]; [lia|].
    apply lookup_lt_is_Some. rewrite every_lookup by exact Hs.
    apply lookup_lt_is_Some. rewrite Hl. cbn [Nat.mul]. lia.
Qed.

Lemma every_app_aligned {A : Type} (step k q : nat) (a b : list A) :
  (k < step)%nat -> length a = (q * step)%nat ->
  Seq.every step k (a ++ b) = Seq.every step k a ++ Seq.every step k b.
Proof.
  intros Hk Ha.
  assert (Hs : (0 < step)%nat) by lia.
  apply list_eq. intros i.
  rewrite lookup_app, !every_lookup, (every_length_aligned step k q a) by assumption.
  destruct (a !! (k + i * step)%nat) as [x|] eqn:E.
  - now rewrite (lookup_app_l_Some _ _ _ _ E).
  - apply lookup_ge_None in E.
    assert (Hq : (q <= i)%nat).
    { destruct (Nat.le_gt_cases q i) as [H|H]; [exact H|].
      assert (S i * step <= q * step)%nat by (apply Nat.mul_le_mono_r; lia).
      cbn [Nat.mul] in *. lia. }
    rewrite lookup_app_r by lia. f_equal.
    rewrite Nat.mul_sub_distr_r, Ha.
    assert (q * step <= i * step)%nat by (apply Nat.mul_le_mono_r; lia).
    lia.
Qed.

(** ** The debug splitter *)

Lemma py_init_tail {A : Type} (n : nat) (l : list A) :
  Seq.py_init n l ++ Seq.py_tail n l = l.
Proof. apply take_drop. Qed.

Lemma demux_write_app (nf q : nat) (p buf : list byte) :
  length p = (q * nf)%nat ->
  Demux.write nf buf ((fun n => Seq.every nf n p) <$> seq 0 nf)
  = (fun n => Seq.every nf n (p ++ buf)) <$> seq 0 nf.
Proof.
  intros Hp. unfold Demux.write.
  apply list_eq. intros i.
  rewrite lookup_zip_with, !list_lookup_fmap.
  destruct (seq 0 nf !! i) as [n|] eqn:E; [|reflexivity].
  apply lookup_seq in E as [-> Hi]. cbn.
  now rewrite (every_app_aligned nf i q).
Qed.

Lemma demux_loop_spec (nf : nat) (reads : list (list byte)) :
  (0 < nf)%nat ->
  Forall (fun c => c <> []) reads ->
  forall p rem q,
    length p = (q * nf)%nat -> (length rem < nf)%nat ->
    Demux.demux_loop nf reads rem ((fun n => Seq.every nf n p) <$> seq 0 nf)
    = (fun n => Seq.every nf n (p ++ rem ++ concat reads)) <$> seq 0 nf.
Proof.
  intros Hnf. induction 1 as [|buf reads Hbuf _ IH]; intros p rem q Hp Hrem.
  - cbn [Demux.demux_loop concat]. rewrite app_nil_r.
    destruct rem as [|r0 rem]; [now rewrite app_nil_r|].
    now apply demux_write_app with (q := q).
  - cbn [Demux.demux_loop concat].
    destruct buf as [|b0 buf]; [congruence|].
    set (full := rem ++ b0 :: buf).
    pose proof (Nat.mod_upper_bound (length full) nf ltac:(lia)) as Hmod.
    pose proof (Nat.div_mod_eq (length full) nf) as Hdiv.
    destruct (length full mod nf)%nat as [|s] eqn:Es.
    + rewrite (demux_write_app nf q) by exact Hp.
      rewrite (IH (p ++ full) [] (q + length full / nf)%nat).
      * unfold full. now rewrite <- !app_assoc.
      * rewrite length_app. lia.
      * cbn. lia.
    + rewrite (demux_write_app nf q) by exact Hp.
      rewrite (IH (p ++ Seq.py_init (S s) full) (Seq.py_tail (S s) full)
                  (q + length full / nf)%nat).
      * rewrite <- (app_assoc p), (app_assoc (Seq.py_init _ _)), py_init_tail.
        unfold full. now rewrite <- !app_assoc.
      * rewrite length_app. unfold Seq.py_init. rewrite length_take. lia.
      * unfold Seq.py_tail. rewrite length_drop. lia.
Qed.

(** X1: whatever the sizes of the reads, file [n] of the splitter ends up
    holding the bytes [n], [n + nf], [n + 2 nf], ... of the input. *)
Theorem demux_files (nf : nat) (reads : list (list byte)) :
  (0 < nf)%nat ->
  Forall (fun c => c <> []) reads ->
  Demux.demux nf reads = (fun n => Seq.every nf n (concat reads)) <$> seq 0 nf.
Proof.
  intros Hnf Hreads. unfold Demux.demux.
  assert (Hinit : forall m s, replicate m ([] : list byte)
                 = (fun n => Seq.every nf n ([] : list byte)) <$> seq s m).
  { induction m as [|m IHm]; intros s; [reflexivity|].
    cbn [replicate seq fmap list_fmap]. f_equal. apply IHm. }
  rewrite (Hinit nf 0%nat).
  now rewrite (demux_loop_spec nf reads Hnf Hreads [] [] 0) by (cbn; lia).
Qed.

Lemma demux_files_witness :
  Demux.demux 2 [[x61; x62; x63]; [x64]]
  = (fun n => Seq.every 2 n (concat [[x61; x62; x63]; [x64]])) <$> seq 0 2.
Proof.
  apply (demux_files 2 [[x61; x62; x63]; [x64]]); [lia|].
  constructor; [discriminate|]. constructor; [discriminate|]. constructor.
Defined.

(** ** Splitting and joining again *)

Lemma zip_star_heads {A : Type} (xs : list A) (ls : list (list A)) :
  length xs = length ls -> ls <> [] ->
  Seq.zip_star (zip_with cons xs ls) = xs :: Seq.zip_star ls.
Proof.
  revert xs. induction ls as [|l ls IH]; intros xs Hlen Hne; [congruence|].
  destruct xs as [|x xs]; [discriminate|].
  destruct ls as [|l' ls].
  - destruct xs; [reflexivity|discriminate].
  - destruct xs as [|x' xs]; [discriminate|].
    change (zip_with cons (x :: x' :: xs) (l :: l' :: ls))
      with ((x :: l) :: zip_with cons (x' :: xs) (l' :: ls)).
    change (Seq.zip_star ((x :: l) :: zip_with cons (x' :: xs) (l' :: ls)))
      with (zip_with cons (x :: l)
              (Seq.zip_star (zip_with cons (x' :: xs) (l' :: ls)))).
    rewrite IH by (cbn in *; congruence || lia). reflexivity.
Qed.

Lemma every_block {A : Type} (nf : nat) (blk rest : list A) :
  length blk = nf ->
  (fun n => Seq.every nf n (blk ++ rest)) <$> seq 0 nf
  = zip_with cons blk ((fun n => Seq.every nf n rest) <$> seq 0 nf).
Proof.
  intros Hb. apply list_eq. intros i.
  rewrite lookup_zip_with, !list_lookup_fmap.
  destruct (seq 0 nf !! i) as [n|] eqn:E.
  - apply lookup_seq in E as [-> Hi]. cbn.
    destruct (lookup_lt_is_Some_2 blk i ltac:(lia)) as [x Hx].
    rewrite Hx. cbn. f_equal.
    rewrite (every_app_aligned nf i 1) by lia. 
    replace (Seq.every nf i blk) with [x]; [reflexivity|].
    pose proof (every_length_aligned nf i 1 blk ltac:(lia) ltac:(lia)) as Hl.
    pose proof (every_lookup nf blk ltac:(lia) i 0) as H0.
    rewrite Nat.add_0_r, Hx in H0.
    destruct (Seq.every nf i blk) as [|y [|z r]]; try discriminate.
    cbn in H0. congruence.
  - cbn. apply lookup_ge_None in E. rewrite length_seq in E.
    rewrite (lookup_ge_None_2 blk) by lia. reflexivity.
Qed.

Lemma mux_every (nf q : nat) :
  (0 < nf)%nat ->
  forall b : list byte,
    (length b / nf)%nat = q ->
    Seq.mux_bytes ((fun n => Seq.every nf n b) <$> seq 0 nf) = take (nf * q) b.
Proof.
  intros Hnf. induction q as [|q IH]; intros b Hq.
  - rewrite Nat.mul_0_r, take_0.
    apply Nat.div_small_iff in Hq; [|lia].
    unfold Seq.mux_bytes. rewrite zip_star_nil; [reflexivity|].
    apply Exists_exists. exists (Seq.every nf (length b) b). split.
    + apply (list_elem_of_fmap_2 (fun n => Seq.every nf n b)).
      apply elem_of_seq. lia.
    + apply length_zero_iff_nil. apply Nat.le_0_r, lookup_ge_None.
      rewrite every_lookup by lia. apply lookup_ge_None. lia.
  - assert (Hlen : (nf <= length b)%nat).
    { destruct (Nat.le_gt_cases nf (length b)) as [H|H]; [exact H|].
      apply Nat.div_small in H. lia. }
    assert (Hb : b = take nf b ++ drop nf b) by (symmetry; apply take_drop).
    assert (Hblk : length (take nf b) = nf) by (rewrite length_take; lia).
    assert (Hrest : (length (drop nf b) / nf)%nat = q).
    { rewrite length_drop.
      replace (length b) with ((length b - nf) + 1 * nf)%nat in Hq by lia.
      rewrite Nat.div_add in Hq by lia. lia. }
    revert Hb Hblk Hrest. generalize (take nf b) (drop nf b).
    intros blk rest -> Hblk Hrest.
    rewrite every_block by exact Hblk.
    unfold Seq.mux_bytes.
    rewrite zip_star_heads.
    + cbn [concat].
      fold (Seq.mux_bytes ((fun n => Seq.every nf n rest) <$> seq 0 nf)).
      rewrite (IH rest Hrest).
      rewrite Nat.mul_succ_r, take_app, (take_ge blk) by (clear - Hblk; lia).
      f_equal. f_equal. clear - Hblk. lia.
    + rewrite length_fmap, length_seq. lia.
    + destruct nf; [lia|]. discriminate.
Qed.

(** X2: the joiner run on the files the splitter wrote gives the input back,
    cut to a whole number of rounds of [nf] bytes, and then stops with the
    [TypeError]. *)
Theorem demux_then_mux (nf : nat) (reads : list (list byte)) :
  (0 < nf)%nat ->
  Forall (fun c => c <> []) reads ->
  Mux.mux (Demux.demux nf reads)
  = (take (nf * (length (concat reads) / nf)) (concat reads), Raise TypeError).
Proof.
  intros Hnf Hreads. rewrite demux_files by assumption.
  rewrite <- (mux_every nf _ Hnf (concat reads) eq_refl).
  destruct nf as [|nf]; [lia|].
  unfold Mux.mux.
  change ((fun n => Seq.every (S nf) n (concat reads)) <$> seq 0 (S nf))
    with (Seq.every (S nf) 0 (concat reads)
          :: ((fun n => Seq.every (S nf) n (concat reads)) <$> seq 1 nf)).
  cbn [hd]. now rewrite mux_loop_spec by lia.
Qed.

Lemma demux_then_mux_witness :
  Mux.mux (Demux.demux 2 [[x61; x62]; [x63]])
  = (take (2 * (length (concat [[x61; x62]; [x63]]) / 2)) (concat [[x61; x62]; [x63]]),
     Raise TypeError).
Proof.
  apply (demux_then_mux 2 [[x61; x62]; [x63]]); [lia|].
  constructor; [discriminate|]. constructor; [discriminate|]. constructor.
Defined.

(** ** VLE: sizes and what the decoder accepts *)

Lemma enc_vle_loop_length (fuel : nat) :
  forall v ret,
    0 <= v < 2 ^ (7 * Z.of_nat (S fuel)) ->
    exists bs,
      Vle.enc_vle_loop (S fuel) v ret = Ok (ret ++ bs)
      /\ len bs = Z.log2 v / 7 + 1.
Proof.
  induction fuel as [|fuel IH]; intros v ret Hv.
  all: rewrite enc_vle_loop_S; destruct (Z.leb_spec 128 v) as [Hge|Hlt].
  1: change (2 ^ (7 * Z.of_nat 1)) with 128 in Hv; lia.
  2: { assert (Hm : 0 <= v mod 128 < 128) by (apply Z.mod_pos_bound; lia).
       destruct (u8_ok (v mod 128 + 128)) as (b & Hb & Hbv); [lia|].
       rewrite Hb. cbn [bind].
       assert (Hq : 0 <= v / 128 < 2 ^ (7 * Z.of_nat (S fuel))).
       { split; [apply Z.div_pos; lia|].
         apply Z.div_lt_upper_bound; [lia|].
         replace (7 * Z.of_nat (S (S fuel))) with (7 + 7 * Z.of_nat (S fuel)) in Hv by lia.
         rewrite Z.pow_add_r in Hv by lia. change (2 ^ 7) with 128 in Hv. lia. }
       destruct (IH (v / 128) (ret ++ [b]) Hq) as (bs & He & Hl).
       exists (b :: bs). split; [now rewrite He, <- app_assoc|].
       unfold len in *. cbn [length]. rewrite Nat2Z.inj_succ, Hl.
       change 128 with (2 ^ 7). rewrite <- Z.shiftr_div_pow2, Z.log2_shiftr by lia.
       assert (7 <= Z.log2 v) by (apply Z.log2_le_pow2; lia).
       rewrite Z.max_r by lia.
       replace (Z.log2 v) with ((Z.log2 v - 7) + 1 * 7) at 2 by lia.
       rewrite Z.div_add by lia. lia. }
  all: destruct (u8_ok v) as (b & Hb & Hbv); [lia|];
    rewrite Hb; cbn [bind]; exists [b]; split; [reflexivity|];
    destruct (Z.eq_dec v 0) as [->|Hnz]; [reflexivity|];
    assert (Z.log2 v < 7) by (apply Z.log2_lt_pow2; lia);
    pose proof (Z.log2_nonneg v);
    rewrite Z.div_small by lia; reflexivity.
Qed.

(** X3: [enc_vle] of a negative number stops with the [ValueError] of
    [bytearray.append]; of any other number it returns one byte per seven
    bits of the number, however large. *)
Theorem enc_vle_size (v : Z) :
  (v < 0 -> Vle.enc_vle v = Raise ValueError)
  /\ (0 <= v -> exists bs, Vle.enc_vle v = Ok bs /\ len bs = Z.log2 v / 7 + 1).
Proof.
  split.
  - intros Hneg. unfold Vle.enc_vle. rewrite enc_vle_loop_S.
    destruct (Z.leb_spec 128 v) as [Hge|_]; [lia|].
    unfold u8. destruct (Z.ltb_spec v 0) as [_|Hc]; [reflexivity|lia].
  - intros Hv.
    destruct (enc_vle_loop_length (Z.to_nat (Z.log2 v)) v []) as (bs & He & Hl).
    { split; [assumption|]. now apply enc_vle_fuel. }
    exists bs. now split.
Qed.

Lemma lor_range (n a b : Z) :
  0 <= n -> 0 <= a < 2 ^ n -> 0 <= b < 2 ^ n -> 0 <= Z.lor a b < 2 ^ n.
Proof.
  intros Hn [Ha0 Ha] [Hb0 Hb].
  assert (H0 : 0 <= Z.lor a b) by (apply Z.lor_nonneg; split; assumption).
  split; [exact H0|].
  destruct (Z.eq_dec (Z.lor a b) 0) as [->|Hnz]; [apply Z.pow_pos_nonneg; lia|].
  assert (Hn0 : 0 < n).
  { destruct (Z.eq_dec n 0) as [->|]; [|lia].
    change (2 ^ 0) with 1 in *. replace a with 0 in * by lia.
    replace b with 0 in * by lia. now cbn in Hnz. }
  apply Z.log2_lt_pow2; [lia|].
  rewrite Z.log2_lor by assumption.
  apply Z.max_lub_lt.
  - destruct (Z.eq_dec a 0) as [->|]; [cbn; lia|]. apply Z.log2_lt_pow2; lia.
  - destruct (Z.eq_dec b 0) as [->|]; [cbn; lia|]. apply Z.log2_lt_pow2; lia.
Qed.

Lemma dec_vle_loop_bounds (buf : list byte) :
  forall vret vpow nate,
    0 <= nate -> vpow = 7 * nate -> vpow < 63 -> 0 <= vret < 2 ^ vpow ->
    let '((v, n), rest) := Vle.dec_vle_loop buf vret vpow nate in
    (v = -1 /\ n = 0)
    \/ (0 <= v < 2 ^ 63 /\ nate < n <= 9 /\ n <= nate + len buf
        /\ rest = drop (Z.to_nat (n - nate)) buf).
Proof.
  induction buf as [|b buf IH]; intros vret vpow nate Hn Hp H63 Hv.
  { cbn. left. split; reflexivity. }
  cbn [Vle.dec_vle_loop].
  pose proof (Z_of_byte_range b) as Hb.
  assert (Hpow : 2 ^ (vpow + 7) = 2 ^ vpow * 128).
  { rewrite Z.pow_add_r by lia. reflexivity. }
  assert (Hpos : 0 < 2 ^ vpow) by (apply Z.pow_pos_nonneg; lia).
  assert (Hle : 2 ^ (vpow + 7) <= 2 ^ 63) by (apply Z.pow_le_mono_r; lia).
  assert (Hmono : 2 ^ vpow <= 2 ^ (vpow + 7)) by (apply Z.pow_le_mono_r; lia).
  destruct (Z.ltb_spec (Z_of_byte b) 128) as [Hlo|Hhi].
  - right. split; [|split; [lia|split]].
    + assert (0 <= Z.lor vret (Z.shiftl (Z_of_byte b) vpow) < 2 ^ (vpow + 7)); [|lia].
      apply lor_range; [lia|lia|].
      rewrite Z.shiftl_mul_pow2 by lia. nia.
    + unfold len. cbn [length]. lia.
    + replace (nate + 1 - nate) with 1 by lia. reflexivity.
  - destruct (Z.leb_spec 63 (vpow + 7)) as [Hbig|Hok].
    + left. split; reflexivity.
    + assert (Hacc : 0 <= Z.lor vret (Z.shiftl (Z_of_byte b - 128) vpow) < 2 ^ (vpow + 7)).
      { apply lor_range; [lia|lia|].
        rewrite Z.shiftl_mul_pow2 by lia. nia. }
      specialize (IH (Z.lor vret (Z.shiftl (Z_of_byte b - 128) vpow)) (vpow + 7) (nate + 1)
                     ltac:(lia) ltac:(lia) Hok Hacc).
      destruct (Vle.dec_vle_loop buf _ (vpow + 7) (nate + 1)) as [[v n] rest].
      destruct IH as [IH|(IH1 & IH2 & IH3 & IH4)].
      * left. exact IH.
      * right. split; [exact IH1|]. split; [lia|]. split.
        -- unfold len in *. cbn [length]. lia.
        -- rewrite IH4. replace (Z.to_nat (n - nate)) with (S (Z.to_nat (n - (nate + 1)))) by lia.
           reflexivity.
Qed.

(** X4: whatever bytes [dec_vle] is given, it either reports failure as
    [(-1, 0)] or returns a number below 2^63 read from at least one and at
    most nine bytes of the buffer. *)
Theorem dec_vle_bounds (buf : list byte) :
  let '(v, n) := Vle.dec_vle buf in
  (v = -1 /\ n = 0) \/ (0 <= v < 2 ^ 63 /\ 1 <= n <= 9 /\ n <= len buf).
Proof.
  unfold Vle.dec_vle, Vle.dec_vle_it.
  pose proof (dec_vle_loop_bounds buf 0 0 0 ltac:(lia) ltac:(lia) ltac:(lia)
                ltac:(change (2 ^ 0) with 1; lia)) as H.
  destruct (Vle.dec_vle_loop buf 0 0 0) as [[v n] rest]. cbn [fst].
  destruct H as [H|(H1 & H2 & H3 & _)]; [now left|].
  right. repeat split; lia.
Qed.

(** X5: the encoding delimits itself: for every 0 <= v < 2^63 the decoder
    reads [v] back from the encoding whatever follows it, taking exactly the
    bytes of the encoding, and from any proper prefix of the encoding it
    reports that it needs more bytes. *)
Theorem vle_self_delimiting (v : Z) :
  0 <= v < 2 ^ 63 ->
  exists bs,
    Vle.enc_vle v = Ok bs
    /\ (forall rest, Vle.dec_vle_it (bs ++ rest) = ((v, len bs), rest))
    /\ (forall k, (k < length bs)%nat -> Vle.dec_vle (take k bs) = (-1, 0)).
Proof.
  intros Hv. destruct (enc_vle_codec v Hv) as (bs & He & _ & Hd & Hc).
  exists bs. split; [exact He|]. split; [exact Hd|].
  intros k Hk. unfold Vle.dec_vle. now rewrite Hc.
Qed.

Lemma vle_self_delimiting_witness :
  exists bs,
    Vle.enc_vle 300 = Ok bs
    /\ (forall rest, Vle.dec_vle_it (bs ++ rest) = ((300, len bs), rest))
    /\ (forall k, (k < length bs)%nat -> Vle.dec_vle (take k bs) = (-1, 0)).
Proof. apply (vle_self_delimiting 300). lia. Defined.


(** ** Bit strings cut into bytes and a rest *)

Lemma len_nonneg {A : Type} (l : list A) : 0 <= len l.
Proof. unfold len. lia. Qed.


Lemma bits_of_byte_of_bits (b7 b6 b5 b4 b3 b2 b1 b0 : bool) :
  Bits.bits_of_byte (Bits.byte_of_bits b7 b6 b5 b4 b3 b2 b1 b0)
  = [b7; b6; b5; b4; b3; b2; b1; b0].
Proof.
  destruct b7, b6, b5, b4, b3, b2, b1, b0; vm_compute; reflexivity.
Qed.

Lemma bits_split_aux (n : nat) :
  forall data : list bool,
    (length data <= n)%nat ->
    Bits.bstr2bits (Bits.bits2bstr data)
      ++ drop (length (Bits.bits2bstr data) * 8) data = data
    /\ (length (drop (length (Bits.bits2bstr data) * 8) data) < 8)%nat.
Proof.
  induction n as [n IH] using lt_wf_ind. intros data Hn.
  destruct data as [|b7 [|b6 [|b5 [|b4 [|b3 [|b2 [|b1 [|b0 r]]]]]]]];
    try (cbn; split; [reflexivity|lia]).
  cbn [Bits.bits2bstr length]. 
  destruct (IH (length r) ltac:(cbn [length] in Hn; lia) r (le_n _)) as [H1 H2].
  change (S (length (Bits.bits2bstr r)) * 8)%nat
    with (8 + length (Bits.bits2bstr r) * 8)%nat.
  rewrite <- drop_drop. cbn [drop]. fold (@drop bool).
  split; [|exact H2].
  unfold Bits.bstr2bits in *. rewrite fmap_cons. cbn [concat].
  rewrite bits_of_byte_of_bits. cbn [app]. do 8 f_equal. exact H1.
Qed.

(** What [put] keeps of a frame, bytes and left-over bits, is the frame. *)
Lemma bits_split (data : list bool) :
  Bits.bstr2bits (Bits.bits2bstr data)
    ++ drop (length (Bits.bits2bstr data) * 8) data = data
  /\ (length (drop (length (Bits.bits2bstr data) * 8) data) < 8)%nat.
Proof. exact (bits_split_aux (length data) data (le_n _)). Qed.

Lemma bstr2bits_app (a b : list byte) :
  Bits.bstr2bits (a ++ b) = Bits.bstr2bits a ++ Bits.bstr2bits b.
Proof. unfold Bits.bstr2bits. now rewrite fmap_app, concat_app. Qed.

Lemma bstr2bits_inj (a b : list byte) :
  Bits.bstr2bits a = Bits.bstr2bits b -> a = b.
Proof.
  intros H. apply (f_equal Bits.bits2bstr) in H.
  rewrite <- (app_nil_r (Bits.bstr2bits a)), <- (app_nil_r (Bits.bstr2bits b)) in H.
  rewrite !bits2bstr_bstr2bits in H. cbn in H. now rewrite !app_nil_r in H.
Qed.

(** The bytes a frame adds are the next bytes of the stream. *)
Lemma bits_prefix (x c : list bool) (u : list byte) (tl : list bool) :
  x ++ c = Bits.bstr2bits u ++ tl -> (length tl < 8)%nat ->
  exists u',
    u = Bits.bits2bstr x ++ u'
    /\ drop (length (Bits.bits2bstr x) * 8) x ++ c = Bits.bstr2bits u' ++ tl.
Proof.
  intros H Htl.
  destruct (bits_split x) as [Hx Hr].
  set (a := Bits.bits2bstr x) in *. set (r := drop (length a * 8) x) in *.
  rewrite <- Hx, <- app_assoc in H.
  assert (Hlen : (length a <= length u)%nat).
  { apply (f_equal length) in H. rewrite !length_app, !bstr2bits_length in H. lia. }
  exists (drop (length a) u).
  rewrite <- (take_drop (length a) u) in H. rewrite bstr2bits_app, <- app_assoc in H.
  assert (Hl : length (Bits.bstr2bits a) = length (Bits.bstr2bits (take (length a) u))).
  { rewrite !bstr2bits_length, length_take. lia. }
  apply app_inj_1 in H; [|exact Hl]. destruct H as [Ha Hrest].
  apply bstr2bits_inj in Ha. split; [|exact Hrest].
  rewrite Ha at 1. symmetry. apply take_drop.
Qed.

(** ** The assembler on frames that arrive in order *)

Section InOrder.
Variable sha512 : list byte -> list byte.
Variable os : Vxr.filesystem.

(** A frame with the expected number goes straight to the buffer: the
    bytes of the left-over bits followed by the bits of the frame. *)
Lemma put_in_order (fuel : nat) (st : Vxr.state) (data : list bool) :
  Vxr.frametab st = ∅ ->
  Vxr.truthy (Vxr.bytes_total st)
    && match Vxr.bytes_total st with
       | Some bt => bt <=? Vxr.bytes_done st
       | None => false
       end = false ->
  Vxr.put sha512 os fuel st (Vxr.next_frame st) data
  = Vxr.put_loop sha512 os fuel
      (Vxr.mkState (Vxr.buf st ++ Bits.bits2bstr (Vxr.remainder st ++ data))
         (drop (length (Bits.bits2bstr (Vxr.remainder st ++ data)) * 8)
               (Vxr.remainder st ++ data))
         (Vxr.next_frame st + 1) ∅ (Vxr.fig_no st)
         (Vxr.files_total st) (Vxr.bytes_total st) (Vxr.files_done st)
         (Vxr.bytes_done st) (Vxr.payload st) (Vxr.files_written st)).
Proof.
  intros Htab Hnc. unfold Vxr.put. rewrite Z.ltb_irrefl, Htab.
  destruct fuel as [|fuel]; [reflexivity|].
  cbn [Vxr.put_loop Vxr.bytes_total Vxr.bytes_done]. rewrite Hnc.
  f_equal. unfold Vxr._process, Vxr._realign. cbn [Vxr.frametab].
  rewrite insert_empty, map_size_singleton, map_size_empty.
  cbn [Vxr.realign Vxr.frametab Vxr.next_frame Vxr.remainder Vxr.buf].
  rewrite lookup_singleton_eq, delete_singleton_eq.
  cbn [Vxr.fig_no Vxr.files_total Vxr.bytes_total Vxr.files_done Vxr.bytes_done
       Vxr.payload Vxr.files_written].
  destruct (bits_split data) as [Hd _]. rewrite Hd. reflexivity.
Qed.


Lemma process_keeps_frame (st st' : Vxr.state) (b : bool) :
  Vxr.frametab st = ∅ ->
  Vxr._process sha512 os st = Ok (b, st') ->
  Vxr.frametab st' = ∅
  /\ Vxr.remainder st' = Vxr.remainder st
  /\ Vxr.next_frame st' = Vxr.next_frame st.
Proof.
  intros Htab. unfold Vxr._process, Vxr._realign.
  rewrite Htab, map_size_empty. cbn [Vxr.realign].
  destruct (Vxr.fig_no st =? 0).
  { unfold Vxr.process_stream_header.
    destruct (Vle.dec_vle_it (Vxr.buf st)) as [[v a1] it1].
    destruct (negb (v =? 1)); [discriminate|].
    destruct (Vle.dec_vle_it it1) as [[ft a2] it2].
    destruct (Vle.dec_vle_it it2) as [[bt a3] it3].
    intros [= <- <-]. cbn. auto. }
  destruct (negb (Vxr.truthy (Vxr.files_total st))); [discriminate|].
  destruct (Vxr.fig_no st mod 2 =? 1).
  - unfold Vxr.process_file_header.
    destruct (Vle.dec_vle_it (Vxr.buf st)) as [[sz a1] it1].
    destruct (a1 =? 0); [intros [= <- <-]; auto|].
    destruct (Vle.dec_vle_it it1) as [[ts a2] it2].
    destruct (a2 =? 0); [intros [= <- <-]; auto|].
    destruct (Vxr.take_exact 16 it2) as [[ck it3]|]; [|intros [= <- <-]; auto].
    destruct (Vle.dec_vle_it it3) as [[fl a3] it4].
    destruct (a3 =? 0); [intros [= <- <-]; auto|].
    destruct (Vxr.take_exact fl it4) as [[fn it5]|]; [|intros [= <- <-]; auto].
    destruct (Vxr.makedirs _ _ _) as [[]| |]; cbn [bind]; [|discriminate..].
    destruct (Vxr.open_wb _ _ _) as [[]| |]; cbn [bind]; [|discriminate..].
    intros [= <- <-]. cbn. auto.
  - unfold Vxr.process_payload.
    destruct (Vxr.payload st) as [p|]; [|discriminate].
    destruct (Vxr.write_payload _ _ _ _) as [[[b' done] p']| |]; cbn [bind];
      [|discriminate..].
    destruct (Vxr.p_sz p' <=? len (Vxr.p_fo p')).
    + destruct (negb (bool_decide _)); [discriminate|].
      destruct (Vxr.utime _ _ _ _) as [[]| |]; cbn [bind]; [|discriminate..].
      intros [= <- <-]. cbn. auto.
    + intros [= <- <-]. cbn. auto.
Qed.

Lemma put_loop_keeps_frame (fuel : nat) :
  forall st st' b,
    Vxr.frametab st = ∅ ->
    Vxr.put_loop sha512 os fuel st = Ok (b, st') ->
    Vxr.frametab st' = ∅
    /\ Vxr.remainder st' = Vxr.remainder st
    /\ Vxr.next_frame st' = Vxr.next_frame st.
Proof.
  induction fuel as [|fuel IH]; intros st st' b Htab; cbn [Vxr.put_loop];
    [discriminate|].
  destruct (Vxr.truthy (Vxr.bytes_total st) && _); [intros [= <- <-]; auto|].
  destruct (Vxr._process sha512 os st) as [[more st1]| |] eqn:Ep; cbn [bind];
    [|discriminate..].
  destruct (process_keeps_frame _ _ _ Htab Ep) as (H1 & H2 & H3).
  destruct more.
  - intros Hl. destruct (IH _ _ _ H1 Hl) as (H4 & H5 & H6).
    rewrite H5, H6. auto.
  - intros [= <- <-]. auto.
Qed.

(** The stream header as [__init__] builds it is read back. *)
Lemma stream_header_complete (files : list Vxt.file) (w h : Z) (halfs : bool)
    (cfg : Vxt.config) (st : Vxr.state) (rest0 : list byte) :
  Vxt.init files w h halfs = Ok cfg ->
  len files < 2 ^ 63 ->
  0 <= foldr Z.add 0 (Vxt.f_sz <$> files) < 2 ^ 63 ->
  Vxr.buf st = Vxt.header0 cfg ++ rest0 ->
  Vxr.process_stream_header st
  = Ok (true,
        Vxr.mkState rest0 (Vxr.remainder st) (Vxr.next_frame st) (Vxr.frametab st)
          (Vxr.fig_no st + 1) (Some (len files))
          (Some (foldr Z.add 0 (Vxt.f_sz <$> files)))
          (Vxr.files_done st) (Vxr.bytes_done st) (Vxr.payload st) (Vxr.files_written st)).
Proof.
  intros Hinit Hn Hb Hbuf. revert Hinit. unfold Vxt.init.
  destruct (Vxt.make_figs files) as [fg| |]; cbn [bind]; try discriminate.
  destruct (enc_vle_codec 1 ltac:(lia)) as (e1 & -> & Hl1 & Hd1 & _).
  destruct (enc_vle_codec (len files) ltac:(pose proof (len_nonneg files); lia))
    as (e2 & -> & Hl2 & Hd2 & _).
  destruct (enc_vle_codec _ Hb) as (e3 & -> & Hl3 & Hd3 & _).
  cbn [bind]. intros [= <-]. cbn [Vxt.header0] in Hbuf.
  unfold Vxr.process_stream_header. rewrite Hbuf, <- !app_assoc.
  rewrite Hd1. cbn [Z.eqb negb]. rewrite Hd2, Hd3.
  do 2 f_equal. f_equal.
  replace (Z.to_nat (len e1 + len e2 + len e3)) with (length (e1 ++ e2 ++ e3))
    by (rewrite !length_app; unfold len; lia).
  now rewrite !app_assoc, drop_app_length.
Qed.

End InOrder.

(** ** The assembler on the figments of well-formed files *)

Lemma write_payload_spec (b : list byte) (done : Z) (fn : list byte) (sz ts : Z)
    (ck fo : list byte) :
  len fo <= sz ->
  let m := Nat.min (Z.to_nat (sz - len fo)) (length b) in
  Vxr.write_payload (S (length b)) b done (Vxr.mkPayload fn sz ts ck fo)
  = Ok (drop m b, done + Z.of_nat m, Vxr.mkPayload fn sz ts ck (fo ++ take m b)).
Proof.
  intros Hfo m. cbn [Vxr.write_payload Vxr.p_sz Vxr.p_fo].
  destruct b as [|x b].
  { subst m. rewrite Nat.min_0_r. cbn [drop take]. now rewrite app_nil_r, Z.add_0_r. }
  set (bb := x :: b) in *.
  destruct (Z.leb_spec (sz - len fo) 0) as [Hz|Hpos].
  { subst m. replace (Z.to_nat (sz - len fo)) with 0%nat by lia.
    cbn [Nat.min drop take]. now rewrite app_nil_r, Z.add_0_r. }
  assert (Hm : (0 < m)%nat) by (subst m bb; cbn [length]; lia).
  assert (Hw : len (take (Z.to_nat (sz - len fo)) bb) = Z.of_nat m).
  { unfold len. rewrite length_take. reflexivity. }
  rewrite Hw. destruct (Z.eqb_spec (Z.of_nat m) 0) as [Hc|_]; [lia|].
  rewrite Nat2Z.id.
  replace (take (Z.to_nat (sz - len fo)) bb) with (take m bb).
  2: { subst m. destruct (Nat.min_spec (Z.to_nat (sz - len fo)) (length bb)) as [[_ ->]|[Hge ->]];
       [reflexivity|]. now rewrite !take_ge by lia. }
  subst bb. cbn [length Vxr.write_payload Vxr.p_sz Vxr.p_fo Vxr.p_fn Vxr.p_ts Vxr.p_cksum].
  destruct (drop m (x :: b)) as [|y r] eqn:Ed; [reflexivity|].
  assert (Hlt : (m < length (x :: b))%nat).
  { destruct (Nat.lt_ge_cases m (length (x :: b))) as [H|H]; [exact H|].
    rewrite drop_ge in Ed by exact H. discriminate. }
  assert (Hfull : len (fo ++ take m (x :: b)) = sz).
  { unfold len in *. rewrite length_app, length_take. subst m. lia. }
  rewrite Hfull, Z.sub_diag. reflexivity.
Qed.

Section Restore.
Variable sha512 : list byte -> list byte.
Variable os : Vxr.filesystem.
Hypothesis digest_length : forall m, length (sha512 m) = 64%nat.

Variables (live rest : list XferSpec.sent) (junk : list byte) (nfiles total : Z).
Hypothesis live_wf : Forall XferSpec.wf live.
Hypothesis live_served : XferSpec.served os live.
Hypothesis total_sizes : total = XferSpec.sizes live.
Hypothesis live_last : exists l0 y, live = l0 ++ [y] /\ y.2 <> [].

Local Notation "'at_header'" := (XferSpec.at_header sha512 live rest junk nfiles total).
Local Notation "'at_payload'" := (XferSpec.at_payload sha512 live rest junk nfiles total).
Local Notation "'waiting'" := (XferSpec.waiting sha512 live rest junk nfiles total).
Local Notation "'settled'" := (XferSpec.settled sha512 live rest junk nfiles total).

Lemma sizes_app (a b : list XferSpec.sent) :
  XferSpec.sizes (a ++ b) = XferSpec.sizes a + XferSpec.sizes b.
Proof.
  unfold XferSpec.sizes. induction a as [|x a IH]; [reflexivity|].
  cbn [app fmap list_fmap foldr] in *. rewrite IH. lia.
Qed.

Lemma sizes_nonneg (a : list XferSpec.sent) :
  Forall XferSpec.wf a -> 0 <= XferSpec.sizes a.
Proof.
  unfold XferSpec.sizes. induction 1 as [|x a Hx _ IH]; [reflexivity|].
  cbn [fmap list_fmap foldr]. destruct Hx as (-> & _). unfold len. lia.
Qed.

Lemma process_quiet (st : Vxr.state) :
  Vxr.frametab st = ∅ -> Vxr.fig_no st <> 0 ->
  Vxr.truthy (Vxr.files_total st) = true ->
  Vxr._process sha512 os st
  = if Vxr.fig_no st mod 2 =? 1 then Vxr.process_file_header os st
    else Vxr.process_payload sha512 os st.
Proof.
  intros Htab Hfig Hft. unfold Vxr._process, Vxr._realign.
  rewrite Htab, map_size_empty. cbn [Vxr.realign].
  destruct (Z.eqb_spec (Vxr.fig_no st) 0) as [E|_]; [contradiction|].
  now rewrite Hft.
Qed.

Lemma csum_length (x : XferSpec.sent) : length (XferSpec.csum sha512 x) = 16%nat.
Proof using digest_length.
  unfold XferSpec.csum. rewrite length_take, digest_length. reflexivity.
Qed.

(** The header of the next file: parsed when it is all there, left alone
    otherwise. *)
Lemma header_step (st : Vxr.state) (unfed : list byte) (done : list XferSpec.sent)
    (x : XferSpec.sent) (todo : list XferSpec.sent) :
  at_header st unfed done (x :: todo) ->
  (Vxr.process_file_header os st = Ok (false, st)
   /\ exists h, XferSpec.header sha512 x = Ok h /\ (length (Vxr.buf st) < length h)%nat)
  \/ (exists st', Vxr.process_file_header os st = Ok (true, st')
        /\ at_payload st' unfed done x todo 0).
Proof using digest_length live_wf live_served.
  intros (Hlive & Hc & Hfig & b & Hb & Hbuf).
  assert (Hx : XferSpec.wf x).
  { rewrite Forall_forall in live_wf. apply live_wf. rewrite Hlive.
    apply elem_of_app. right. apply elem_of_cons. now left. }
  destruct Hx as (Hsz & Hlen & Hts & Hfn).
  destruct Hc as (Htab & Hft & Hnf & Hbt & Hbd & Hfd & Hdisk).
  destruct (live_served done x todo Hlive) as (Hmk & Hopen & _).
  rewrite <- Hdisk in Hmk, Hopen.
  cbn [app XferSpec.body] in Hb.
  destruct (XferSpec.header sha512 x) as [h| |] eqn:Eh; cbn [bind] in Hb; try discriminate.
  destruct (XferSpec.body sha512 (todo ++ rest)) as [t| |] eqn:Et; cbn [bind] in Hb;
    try discriminate.
  injection Hb as <-.
  assert (Hszr : 0 <= Vxt.f_sz x.1 < 2 ^ 63) by (rewrite Hsz; unfold len in *; lia).
  destruct (Nat.lt_ge_cases (length (Vxr.buf st)) (length h)) as [Hshort|Hfull].
  - left. split; [|now exists h].
    apply (file_header_incomplete os x.1 (XferSpec.csum sha512 x) h Eh (csum_length x)
             Hszr Hts Hfn st (length (Vxr.buf st)) Hshort).
    transitivity (take (length (Vxr.buf st)) (Vxr.buf st ++ unfed));
      [symmetry; apply take_app_length|].
    rewrite Hbuf, <- app_assoc, take_app_le by lia. reflexivity.
  - right.
    assert (Hsplit : Vxr.buf st = h ++ drop (length h) (Vxr.buf st)).
    { rewrite <- (take_drop (length h) (Vxr.buf st)) at 1. f_equal.
      apply (f_equal (take (length h))) in Hbuf.
      rewrite take_app_le in Hbuf by lia.
      rewrite <- app_assoc, take_app_length in Hbuf. exact Hbuf. }
    pose proof (file_header_complete os x.1 (XferSpec.csum sha512 x) h Eh (csum_length x)
                  Hszr Hts Hfn st _ Hsplit) as Hp.
    cbv zeta in Hp. fold (XferSpec.name x) in Hp. rewrite Hmk, Hopen in Hp.
    cbn [bind] in Hp.
    eexists. split; [exact Hp|].
    unfold XferSpec.at_payload, XferSpec.common.
    cbn [Vxr.frametab Vxr.files_total Vxr.bytes_total Vxr.bytes_done Vxr.files_done
         Vxr.files_written Vxr.fig_no Vxr.payload Vxr.buf].
    rewrite take_0, drop_0.
    repeat split; try assumption; try lia.
    exists t. split; [exact Et|].
    rewrite Hsplit, <- !app_assoc in Hbuf. apply app_inv_head in Hbuf. exact Hbuf.
Qed.

(** The content of the open file: all of the buffer goes to the file when
    the file needs more than there is; otherwise the file gets what it
    still needs, is closed and verified, and what follows stays in the
    buffer. *)
Lemma payload_step (st : Vxr.state) (unfed : list byte) (done : list XferSpec.sent)
    (x : XferSpec.sent) (todo : list XferSpec.sent) (j : nat) :
  at_payload st unfed done x todo j ->
  (exists st' j', Vxr.process_payload sha512 os st = Ok (false, st')
        /\ (j' < length x.2)%nat /\ Vxr.buf st' = []
        /\ at_payload st' unfed done x todo j')
  \/ (exists st', Vxr.process_payload sha512 os st = Ok (true, st')
        /\ at_header st' unfed (done ++ [x]) todo).
Proof using live_wf live_served.
  intros (Hlive & Hc & Hfig & Hpay & Hj & b & Hb & Hbuf).
  assert (Hx : XferSpec.wf x).
  { rewrite Forall_forall in live_wf. apply live_wf. rewrite Hlive.
    apply elem_of_app. right. apply elem_of_cons. now left. }
  destruct Hx as (Hsz & _).
  destruct Hc as (Htab & Hft & Hnf & Hbt & Hbd & Hfd & Hdisk).
  destruct (live_served done x todo Hlive) as (_ & _ & Hut).
  rewrite <- Hdisk in Hut.
  unfold Vxr.process_payload. rewrite Hpay.
  rewrite write_payload_spec
    by (unfold len; rewrite length_take, Hsz; unfold len; lia).
  cbv zeta. cbn [bind Vxr.p_sz Vxr.p_fo Vxr.p_cksum Vxr.p_fn Vxr.p_ts].
  assert (Hfo : len (take j x.2) = Z.of_nat j) by (unfold len; rewrite length_take; lia).
  replace (Z.to_nat (Vxt.f_sz x.1 - len (take j x.2))) with (length x.2 - j)%nat
    by (rewrite Hfo, Hsz; unfold len; lia).
  set (m := ((length x.2 - j) `min` length (Vxr.buf st))%nat).
  assert (Hlen' : len (take j x.2 ++ take m (Vxr.buf st)) = Z.of_nat (j + m)).
  { unfold len. rewrite length_app, !length_take. subst m. lia. }
  rewrite Hlen'.
  assert (Hdj : length (drop j x.2) = (length x.2 - j)%nat) by apply length_drop.
  unfold len in Hsz.
  destruct (Z.leb_spec (Vxt.f_sz x.1) (Z.of_nat (j + m))) as [Hdone|Hmore].
  - (* the file is complete *)
    assert (Hm : m = (length x.2 - j)%nat) by (subst m; lia).
    assert (Hle : (m <= length (Vxr.buf st))%nat) by (subst m; lia).
    assert (Htake : take m (Vxr.buf st) = drop j x.2).
    { transitivity (take m (Vxr.buf st ++ unfed)); [now rewrite take_app_le|].
      rewrite Hbuf, take_app_le by lia. apply take_ge. lia. }
    right. rewrite Htake, take_drop.
    rewrite bool_decide_true by reflexivity. cbn [negb].
    fold (XferSpec.name x). rewrite Hut. cbn [bind].
    eexists. split; [reflexivity|].
    unfold XferSpec.at_header, XferSpec.common.
    cbn [Vxr.frametab Vxr.files_total Vxr.bytes_total Vxr.bytes_done Vxr.files_done
         Vxr.files_written Vxr.fig_no Vxr.payload Vxr.buf].
    rewrite Hlive, <- app_assoc. split; [reflexivity|].
    assert (Hlen1 : len (done ++ [x]) = len done + 1).
    { unfold len. rewrite length_app. cbn [length]. lia. }
    repeat split; try assumption.
    + assert (H1 : XferSpec.sizes [x] = Vxt.f_sz x.1)
        by (unfold XferSpec.sizes; cbn [fmap list_fmap foldr]; lia).
      rewrite Hbd, sizes_app, H1. lia.
    + lia.
    + rewrite Hdisk, fmap_app. reflexivity.
    + lia.
    + exists b. split; [exact Hb|].
      transitivity (drop m (Vxr.buf st ++ unfed)); [now rewrite drop_app_le|].
      rewrite Hbuf, drop_app_ge by lia. 
      replace (m - length (drop j x.2))%nat with 0%nat by lia. reflexivity.
  - (* the file needs more *)
    assert (Hm : m = length (Vxr.buf st)) by (subst m; lia).
    assert (Htake : take m (Vxr.buf st) = take m (drop j x.2)).
    { rewrite Hm at 1. rewrite take_ge by lia.
      transitivity (take m (Vxr.buf st ++ unfed)); [rewrite Hm; now rewrite take_app_length|].
      rewrite Hbuf, take_app_le by lia. reflexivity. }
    left. eexists. exists (j + m)%nat. split; [reflexivity|]. split; [lia|].
    split; [cbn [Vxr.buf]; apply drop_ge; lia|].
    unfold XferSpec.at_payload, XferSpec.common.
    cbn [Vxr.frametab Vxr.files_total Vxr.bytes_total Vxr.bytes_done Vxr.files_done
         Vxr.files_written Vxr.fig_no Vxr.payload Vxr.buf].
    rewrite Htake, take_take_drop.
    repeat split; try assumption; try lia.
    exists b. split; [exact Hb|].
    rewrite drop_ge by lia. cbn [app].
    transitivity (drop m (Vxr.buf st ++ unfed)); [rewrite Hm; now rewrite drop_app_length|].
    rewrite Hbuf, drop_app_le, drop_drop by lia. reflexivity.
Qed.


Lemma sizes_todo (done todo : list XferSpec.sent) :
  live = done ++ todo -> todo <> [] -> 0 < XferSpec.sizes todo.
Proof using live_wf live_served live_last.
  intros Hlive Hne.
  destruct live_last as (l0 & y & Hl & Hy).
  destruct todo as [|z t' _] using rev_ind; [congruence|].
  assert (Hwf : Forall XferSpec.wf (t' ++ [z])).
  { pose proof live_wf as H. rewrite Hlive, Forall_app in H. tauto. }
  rewrite Forall_app in Hwf. destruct Hwf as [Hwt Hwz].
  apply Forall_cons in Hwz as [(Hsz & _) _].
  rewrite Hl, app_assoc in Hlive. apply app_inj_tail in Hlive as [_ <-].
  rewrite sizes_app. pose proof (sizes_nonneg t' Hwt).
  unfold XferSpec.sizes at 2. cbn [fmap list_fmap foldr]. rewrite Hsz.
  destruct (y.2); [congruence|]. unfold len. cbn [length]. lia.
Qed.

Lemma total_split (done todo : list XferSpec.sent) :
  live = done ++ todo -> total = XferSpec.sizes done + XferSpec.sizes todo.
Proof using total_sizes.
  intros H. rewrite total_sizes, H. apply sizes_app.
Qed.

Lemma put_loop_S (fuel : nat) (st : Vxr.state) (done : list XferSpec.sent) (extra : Z) :
  XferSpec.common st done nfiles total extra ->
  Vxr.fig_no st <> 0 ->
  XferSpec.sizes done + extra < total ->
  Vxr.put_loop sha512 os (S fuel) st
  = let* '(more, st') :=
      (if Vxr.fig_no st mod 2 =? 1 then Vxr.process_file_header os st
       else Vxr.process_payload sha512 os st) in
    if (more : bool) then Vxr.put_loop sha512 os fuel st' else Ok (false, st').
Proof.
  intros (Htab & Hft & Hnf & Hbt & Hbd & _) Hfig Hlt.
  cbn [Vxr.put_loop]. rewrite Hbt, Hbd. cbn [Vxr.truthy].
  destruct (Z.leb_spec total (XferSpec.sizes done + extra)) as [Hc|_]; [lia|].
  rewrite andb_false_r.
  rewrite process_quiet; [reflexivity|exact Htab|exact Hfig|].
  rewrite Hft. cbn [Vxr.truthy]. now destruct (Z.eqb_spec nfiles 0).
Qed.

Lemma run_payload (fuel : nat) (st : Vxr.state) (unfed : list byte)
    (done : list XferSpec.sent) (x : XferSpec.sent) (todo : list XferSpec.sent) (j : nat) :
  (forall st', at_header st' unfed (done ++ [x]) todo ->
               settled unfed (Vxr.put_loop sha512 os fuel st')) ->
  at_payload st unfed done x todo j ->
  XferSpec.sizes done + Z.of_nat j < total ->
  settled unfed (Vxr.put_loop sha512 os (S fuel) st).
Proof using live_wf live_served.
  intros Hnext Hat Hlt.
  pose proof Hat as (_ & Hc & Hfig & _).
  rewrite (put_loop_S fuel st done (Z.of_nat j) Hc) by (pose proof (len_nonneg done); lia || exact Hlt).
  replace (Vxr.fig_no st mod 2 =? 1) with false.
  2: { rewrite Hfig. replace (2 * len done + 2) with ((len done + 1) * 2) by lia.
       now rewrite Z.mod_mul by lia. }
  destruct (payload_step st unfed done x todo j Hat)
    as [(st' & j' & -> & Hj' & Hb' & Hat')|(st' & -> & Hat')]; cbn [bind].
  - left. exists st'. split; [reflexivity|]. right. now exists done, x, todo, j'.
  - now apply Hnext.
Qed.

Lemma run_header (todo : list XferSpec.sent) :
  forall fuel st unfed done,
    at_header st unfed done todo ->
    (2 * length todo + 1 <= fuel)%nat ->
    settled unfed (Vxr.put_loop sha512 os fuel st).
Proof using live_wf live_served live_last total_sizes digest_length.
  induction todo as [|x todo IH]; intros fuel st unfed done Hat Hfuel.
  - destruct fuel as [|fuel]; [cbn in Hfuel; lia|].
    destruct Hat as (Hlive & (Htab & Hft & Hnf & Hbt & Hbd & Hfd & Hdisk) & Hfig & _).
    rewrite app_nil_r in Hlive. subst done.
    assert (Hpos : 0 < total).
    { rewrite total_sizes. destruct live_last as (l0 & y & Hl & Hy).
      apply (sizes_todo [] live); [reflexivity|]. rewrite Hl. now destruct l0. }
    cbn [Vxr.put_loop]. rewrite Hbt, Hbd. cbn [Vxr.truthy].
    destruct (Z.eqb_spec total 0) as [Hc|_]; [lia|].
    destruct (Z.leb_spec total (XferSpec.sizes live + 0)) as [_|Hc]; [|lia].
    cbn [negb andb]. right. exists st. repeat split; try assumption. lia.
  - destruct fuel as [|[|fuel]]; [cbn in Hfuel; lia..|].
    pose proof Hat as (Hlive & Hc & Hfig & _).
    pose proof (sizes_todo done (x :: todo) Hlive ltac:(discriminate)) as Hsz.
    pose proof (total_split done (x :: todo) Hlive) as Htot.
    rewrite (put_loop_S _ st done 0 Hc) by (pose proof (len_nonneg done); lia).
    replace (Vxr.fig_no st mod 2 =? 1) with true.
    2: { rewrite Hfig, Z.add_comm, Z.mul_comm, Z.mod_add by lia. reflexivity. }
    destruct (header_step st unfed done x todo Hat)
      as [(-> & h & Hh & Hshort)|(st' & -> & Hat')]; cbn [bind].
    + left. exists st. split; [reflexivity|]. left. now exists done, x, todo, h.
    + apply (run_payload fuel st' unfed done x todo 0); [|exact Hat'|lia].
      intros st'' Hat''. apply (IH fuel st'' unfed (done ++ [x]) Hat'').
      cbn [length] in Hfuel. lia.
Qed.

Lemma feed_header (st st1 : Vxr.state) (a unfed : list byte)
    (done todo : list XferSpec.sent) :
  XferSpec.fed st a st1 ->
  at_header st (a ++ unfed) done todo ->
  at_header st1 unfed done todo.
Proof.
  intros (F1 & F2 & F3 & F4 & F5 & F6 & F7 & F8 & F9).
  intros (Hlive & Hc & Hfig & b & Hb & Hbuf).
  split; [exact Hlive|]. split.
  { unfold XferSpec.common in *. now rewrite F2, F4, F5, F6, F7, F9. }
  split; [now rewrite F3|].
  exists b. split; [exact Hb|]. now rewrite F1, <- app_assoc.
Qed.

Lemma feed_payload (st st1 : Vxr.state) (a unfed : list byte) (done : list XferSpec.sent)
    (x : XferSpec.sent) (todo : list XferSpec.sent) (j : nat) :
  XferSpec.fed st a st1 ->
  at_payload st (a ++ unfed) done x todo j ->
  at_payload st1 unfed done x todo j.
Proof.
  intros (F1 & F2 & F3 & F4 & F5 & F6 & F7 & F8 & F9).
  intros (Hlive & Hc & Hfig & Hpay & Hj & b & Hb & Hbuf).
  split; [exact Hlive|]. split.
  { unfold XferSpec.common in *. now rewrite F2, F4, F5, F6, F7, F9. }
  split; [now rewrite F3|]. split; [now rewrite F8|]. split; [exact Hj|].
  exists b. split; [exact Hb|]. now rewrite F1, <- app_assoc.
Qed.

(** More of the stream for an assembler that waits. *)
Lemma run_waiting (fuel : nat) (st st1 : Vxr.state) (a unfed : list byte) :
  waiting st (a ++ unfed) ->
  XferSpec.fed st a st1 ->
  (2 * length live + 1 <= fuel)%nat ->
  settled unfed (Vxr.put_loop sha512 os fuel st1).
Proof using live_wf live_served live_last total_sizes digest_length.
  intros [(done & x & todo & h & Hat & _)|(done & x & todo & j & Hat & Hj & _)] Hfed Hfuel.
  - apply (run_header (x :: todo) fuel _ unfed done (feed_header _ _ _ _ _ _ Hfed Hat)).
    destruct Hat as (Hlive & _). rewrite Hlive, length_app in Hfuel. lia.
  - pose proof Hat as (Hlive & _).
    assert (Hlen : (length todo < length live)%nat).
    { rewrite Hlive, length_app. cbn [length]. lia. }
    destruct fuel as [|fuel]; [lia|].
    apply (run_payload fuel _ unfed done x todo j);
      [|exact (feed_payload _ _ _ _ _ _ _ _ Hfed Hat)|].
    + intros st' Hat'. apply (run_header todo fuel st' unfed (done ++ [x]) Hat'). lia.
    + pose proof (total_split done (x :: todo) Hlive) as Htot.
      assert (Hwf : Forall XferSpec.wf (x :: todo)).
      { pose proof live_wf as H. rewrite Hlive, Forall_app in H. tauto. }
      apply Forall_cons in Hwf as [(Hsz & _) Hwt].
      pose proof (sizes_nonneg todo Hwt).
      change (x :: todo) with ([x] ++ todo) in Htot. rewrite sizes_app in Htot.
      unfold XferSpec.sizes at 2 in Htot. cbn [fmap list_fmap foldr] in Htot.
      unfold len in Hsz. lia.
Qed.

(** An assembler that waits has not been given all of the files. *)
Lemma waiting_unfed (st : Vxr.state) (unfed : list byte) :
  waiting st unfed -> (length junk < length unfed)%nat.
Proof.
  intros [(done & x & todo & h & Hat & Hh & Hshort)|(done & x & todo & j & Hat & Hj & Hnil)].
  - destruct Hat as (_ & _ & _ & b & Hb & Hbuf).
    cbn [app XferSpec.body] in Hb. rewrite Hh in Hb. cbn [bind] in Hb.
    destruct (XferSpec.body sha512 (todo ++ rest)) as [t| |]; cbn [bind] in Hb;
      try discriminate.
    injection Hb as <-. apply (f_equal length) in Hbuf.
    rewrite !length_app in Hbuf. lia.
  - destruct Hat as (_ & _ & _ & _ & _ & b & Hb & Hbuf).
    rewrite Hnil in Hbuf. cbn [app] in Hbuf. apply (f_equal length) in Hbuf.
    rewrite Hbuf, !length_app, length_drop. lia.
Qed.


Lemma waiting_incomplete (st : Vxr.state) (unfed : list byte) :
  waiting st unfed ->
  Vxr.frametab st = ∅
  /\ Vxr.truthy (Vxr.bytes_total st)
     && match Vxr.bytes_total st with
        | Some bt => bt <=? Vxr.bytes_done st
        | None => false
        end = false.
Proof using live_wf live_served live_last total_sizes.
  intros [(done & x & todo & h & Hat & _)|(done & x & todo & j & Hat & Hj & _)].
  - destruct Hat as (Hlive & (Htab & _ & _ & Hbt & Hbd & _) & _).
    split; [exact Htab|]. rewrite Hbt, Hbd.
    pose proof (sizes_todo done (x :: todo) Hlive ltac:(discriminate)).
    pose proof (total_split done (x :: todo) Hlive).
    destruct (Z.leb_spec total (XferSpec.sizes done + 0)); [lia|apply andb_false_r].
  - destruct Hat as (Hlive & (Htab & _ & _ & Hbt & Hbd & _) & _).
    split; [exact Htab|]. rewrite Hbt, Hbd.
    pose proof (total_split done (x :: todo) Hlive) as Htot.
    assert (Hwf : Forall XferSpec.wf (x :: todo)).
    { pose proof live_wf as H. rewrite Hlive, Forall_app in H. tauto. }
    apply Forall_cons in Hwf as [(Hsz & _) Hwt].
    pose proof (sizes_nonneg todo Hwt).
    change (x :: todo) with ([x] ++ todo) in Htot. rewrite sizes_app in Htot.
    unfold XferSpec.sizes at 2 in Htot. cbn [fmap list_fmap foldr] in Htot.
    unfold len in Hsz.
    destruct (Z.leb_spec total (XferSpec.sizes done + Z.of_nat j)); [lia|apply andb_false_r].
Qed.

(** Frames that arrive in order at an assembler that waits: the transfer
    completes before the frames run out. *)
Lemma puts_waiting (fuel : nat) (tl : list bool) (frames : list (list bool)) :
  (2 * length live + 1 <= fuel)%nat ->
  (length tl < 8)%nat ->
  forall st unfed,
    waiting st unfed ->
    (length (Vxr.remainder st) < 8)%nat ->
    Vxr.remainder st ++ concat frames = Bits.bstr2bits unfed ++ tl ->
    exists st',
      last (Vxr.puts sha512 os fuel st (XferSpec.calls_from (Vxr.next_frame st) frames))
      = Some (Ok (true, st'))
      /\ Vxr.files_written st' = XferSpec.entry <$> live
      /\ Vxr.files_done st' = len live
      /\ Vxr.bytes_done st' = total.
Proof using live_wf live_served live_last total_sizes digest_length.
  intros Hfuel Htl. induction frames as [|d frames IH]; intros st unfed Hw Hrem Hbits.
  - exfalso. cbn [concat] in Hbits. rewrite app_nil_r in Hbits.
    apply waiting_unfed in Hw. apply (f_equal length) in Hbits.
    rewrite length_app, bstr2bits_length in Hbits. lia.
  - cbn [concat] in Hbits. rewrite app_assoc in Hbits.
    destruct (bits_prefix _ _ _ _ Hbits Htl) as (u' & Hu & Hrest).
    destruct (waiting_incomplete st unfed Hw) as [Htab Hnc].
    cbn [XferSpec.calls_from Vxr.puts].
    rewrite (put_in_order sha512 os fuel st d Htab Hnc).
    set (st1 := Vxr.mkState _ _ _ _ _ _ _ _ _ _ _).
    assert (Hfed : XferSpec.fed st (Bits.bits2bstr (Vxr.remainder st ++ d)) st1).
    { unfold XferSpec.fed. subst st1. cbn. rewrite Htab. repeat split; reflexivity. }
    rewrite Hu in Hw.
    destruct (run_waiting fuel st st1 _ u' Hw Hfed Hfuel)
      as [(st' & Hr & Hw')|(st' & Hr & Hdisk)].
    + rewrite Hr.
      destruct (put_loop_keeps_frame sha512 os fuel st1 st' false eq_refl Hr) as (_ & Hr' & Hn').
      subst st1. cbn [Vxr.remainder Vxr.next_frame] in Hr', Hn'.
      destruct (bits_split (Vxr.remainder st ++ d)) as [_ Hlt].
      destruct (IH st' u' Hw') as (st2 & Hlast & Hres).
      * rewrite Hr'. exact Hlt.
      * rewrite Hr'. exact Hrest.
      * exists st2. split; [|exact Hres].
        rewrite Hn' in Hlast.
        destruct (Vxr.puts sha512 os fuel st' _) as [|r rs] eqn:Ep; [discriminate|].
        exact Hlast.
    + rewrite Hr. exists st'. split; [reflexivity|exact Hdisk].
Qed.

End Restore.

Lemma sizes_zero (l : list XferSpec.sent) :
  Forall (fun x : XferSpec.sent => Vxt.f_sz x.1 = 0) l -> XferSpec.sizes l = 0.
Proof.
  unfold XferSpec.sizes. induction 1 as [|x l Hx _ IH]; [reflexivity|].
  cbn [fmap list_fmap foldr]. lia.
Qed.

(** The run of the assembler over the frames of a stream, from the first
    call of [put] to the one that completes the transfer. *)
Lemma puts_restore (sha512 : list byte -> list byte) (os : Vxr.filesystem)
    (live rest : list XferSpec.sent) (cfg : Vxt.config) (w h : Z) (halfs : bool)
    (b : list byte) (tail d0 : list bool) (frames : list (list bool)) (fuel : nat) :
  (forall m, length (sha512 m) = 64%nat) ->
  Forall XferSpec.wf live ->
  XferSpec.served os live ->
  (exists l0 y, live = l0 ++ [y] /\ y.2 <> []) ->
  Forall (fun x : XferSpec.sent => Vxt.f_sz x.1 = 0) rest ->
  len (live ++ rest) < 2 ^ 63 ->
  XferSpec.sizes live < 2 ^ 63 ->
  Vxt.init (fst <$> (live ++ rest)) w h halfs = Ok cfg ->
  XferSpec.body sha512 (live ++ rest) = Ok b ->
  concat (d0 :: frames) = Bits.bstr2bits (Vxt.header0 cfg ++ b) ++ tail ->
  8 * len (Vxt.header0 cfg) <= len d0 ->
  (2 * length live + 2 <= fuel)%nat ->
  exists st,
    last (Vxr.puts sha512 os fuel Vxr.init (XferSpec.calls_from 0 (d0 :: frames)))
    = Some (Ok (true, st))
    /\ Vxr.files_written st = XferSpec.entry <$> live
    /\ Vxr.files_done st = len live
    /\ Vxr.bytes_done st = XferSpec.sizes live.
Proof.
  intros Hdig Hwf Hserved Hlast Hrest Hn Hsz Hinit Hbody Hbits Hd0 Hfuel.
  set (junk := Bits.bits2bstr tail).
  set (tl := drop (length junk * 8) tail).
  destruct (bits_split tail) as [Htail Htl]. fold junk in Htail, Htl. fold tl in Htail, Htl.
  set (nfiles := len (live ++ rest)).
  assert (Hnf : nfiles <> 0).
  { destruct Hlast as (l0 & y & -> & _). subst nfiles. unfold len.
    rewrite !length_app. cbn [length]. lia. }
  assert (Hsum : foldr Z.add 0 (Vxt.f_sz <$> (fst <$> (live ++ rest))) = XferSpec.sizes live).
  { rewrite <- list_fmap_compose. change (foldr Z.add 0 _) with (XferSpec.sizes (live ++ rest)).
    rewrite sizes_app, (sizes_zero rest Hrest). lia. }
  (* the bits of the whole stream *)
  cbn [concat] in Hbits.
  rewrite <- Htail, app_assoc, <- bstr2bits_app, <- app_assoc in Hbits.
  destruct (bits_prefix d0 (concat frames) _ tl Hbits Htl) as (u1 & Hu & Hrest1).
  destruct (bits_split d0) as [Hsplit0 Hr0].
  (* the first frame holds the stream header *)
  assert (Hh0 : (length (Vxt.header0 cfg) <= length (Bits.bits2bstr d0))%nat).
  { apply (f_equal length) in Hsplit0. rewrite length_app, bstr2bits_length in Hsplit0.
    unfold len in Hd0. lia. }
  assert (Hpre : Bits.bits2bstr d0
                 = Vxt.header0 cfg ++ drop (length (Vxt.header0 cfg)) (Bits.bits2bstr d0)).
  { rewrite <- (take_drop (length (Vxt.header0 cfg)) (Bits.bits2bstr d0)) at 1. f_equal.
    apply (f_equal (take (length (Vxt.header0 cfg)))) in Hu.
    rewrite take_app_length, take_app_le in Hu by exact Hh0. now symmetry. }
  set (rest0 := drop (length (Vxt.header0 cfg)) (Bits.bits2bstr d0)) in *.
  assert (Hrest0 : rest0 ++ u1 = b ++ junk).
  { rewrite Hpre, <- !app_assoc in Hu. now apply app_inv_head in Hu. }
  (* the first call *)
  destruct fuel as [|fuel]; [lia|].
  cbn [XferSpec.calls_from Vxr.puts].
  pose proof (put_in_order sha512 os (S fuel) Vxr.init d0 eq_refl eq_refl) as Hfirst.
  cbn [Vxr.init Vxr.buf Vxr.remainder Vxr.next_frame Vxr.fig_no Vxr.files_total
       Vxr.bytes_total Vxr.files_done Vxr.bytes_done Vxr.payload Vxr.files_written app] in Hfirst.
  set (st1 := Vxr.mkState _ _ _ _ _ _ _ _ _ _ _) in Hfirst.
  assert (Hp : Vxr._process sha512 os st1
               = Ok (true,
                     Vxr.mkState rest0 (Vxr.remainder st1) (Vxr.next_frame st1) ∅ 1
                       (Some nfiles) (Some (XferSpec.sizes live)) 0 0 None [])).
  { unfold Vxr._process, Vxr._realign. subst st1. cbn [Vxr.frametab].
    rewrite map_size_empty. cbn [Vxr.realign Vxr.fig_no Z.eqb].
    rewrite (stream_header_complete (fst <$> (live ++ rest)) w h halfs cfg _ rest0 Hinit).
    - cbn [Vxr.remainder Vxr.next_frame Vxr.frametab Vxr.fig_no Vxr.files_done
           Vxr.bytes_done Vxr.payload Vxr.files_written].
      rewrite Hsum. unfold nfiles, len. now rewrite length_fmap.
    - unfold len. rewrite length_fmap. exact Hn.
    - rewrite Hsum. split; [apply sizes_nonneg; exact Hwf|exact Hsz].
    - exact Hpre. }
  assert (Hput : Vxr.put_loop sha512 os (S fuel) st1
                 = Vxr.put_loop sha512 os fuel
                     (Vxr.mkState rest0 (Vxr.remainder st1) (Vxr.next_frame st1) ∅ 1
                        (Some nfiles) (Some (XferSpec.sizes live)) 0 0 None [])).
  { cbn [Vxr.put_loop]. rewrite Hp. subst st1. reflexivity. }
  rewrite Hput in Hfirst. clear Hput Hp.
  set (st2 := Vxr.mkState rest0 _ _ _ _ _ _ _ _ _ _) in Hfirst.
  assert (Hat : XferSpec.at_header sha512 live rest junk nfiles (XferSpec.sizes live)
                  st2 u1 [] live).
  { split; [reflexivity|]. split.
    - unfold XferSpec.common. subst st2. cbn. repeat split; try reflexivity. exact Hnf.
    - split; [reflexivity|]. exists b. split; [exact Hbody|exact Hrest0]. }
  destruct (run_header sha512 os Hdig live rest junk nfiles (XferSpec.sizes live) Hwf Hserved
              eq_refl Hlast
              live fuel st2 u1 [] Hat ltac:(lia))
    as [(st' & Hr & Hw)|(st' & Hr & Hres)].
  - rewrite Hr in Hfirst. rewrite Hfirst.
    destruct (put_loop_keeps_frame sha512 os fuel st2 st' false eq_refl Hr) as (_ & Hr' & Hn').
    subst st2 st1. cbn [Vxr.remainder Vxr.next_frame] in Hr', Hn'.
    destruct (puts_waiting sha512 os Hdig live rest junk nfiles (XferSpec.sizes live) Hwf
                Hserved eq_refl Hlast (S fuel) tl frames ltac:(lia) Htl st' u1 Hw)
      as (st3 & Hl3 & Hres3).
    + rewrite Hr'. exact Hr0.
    + rewrite Hr'. exact Hrest1.
    + exists st3. split; [|exact Hres3].
      rewrite Hn' in Hl3. change (0 + 1) with 1 in Hl3 |- *.
      destruct (Vxr.puts sha512 os (S fuel) st' _) as [|r rs] eqn:Ep; [discriminate|].
      exact Hl3.
  - rewrite Hr in Hfirst. rewrite Hfirst. exists st'. split; [reflexivity|exact Hres].
Qed.



(** X7: a file header written by [gen_header] is read back by the
    assembler: with the whole header in the buffer, followed by anything,
    the file header branch of [_process] reads the name, size, time stamp
    and checksum the transmitter wrote, asks the file system for the
    directory of the path under [inc/] and then for the file, and fails as
    they fail; when both succeed it has taken exactly the header out of the
    buffer and holds the open, empty file with the size, time stamp and
    checksum of the header; with only a proper prefix of the header in the
    buffer it changes nothing and asks for more. *)
Theorem file_header_roundtrip (os : Vxr.filesystem) (fo : Vxt.file) (ck h : list byte) :
  Vxt.gen_header fo ck = Ok h ->
  length ck = 16%nat ->
  0 <= Vxt.f_sz fo < 2 ^ 63 ->
  0 <= Vxt.f_ts fo < 2 ^ 63 ->
  len (Vxt.rel_name (Vxt.f_fn fo)) < 2 ^ 63 ->
  (forall st rest,
     Vxr.buf st = h ++ rest ->
     Vxr.process_file_header os st =
     let fn := list_byte_of_string "inc/" ++ Vxt.rel_name (Vxt.f_fn fo) in
     let* _ := Vxr.makedirs os (Vxr.files_written st) (Vxr.dirname fn) in
     let* _ := Vxr.open_wb os (Vxr.files_written st) fn in
     Ok (true,
         Vxr.mkState rest (Vxr.remainder st) (Vxr.next_frame st) (Vxr.frametab st)
           (Vxr.fig_no st + 1) (Vxr.files_total st) (Vxr.bytes_total st)
           (Vxr.files_done st) (Vxr.bytes_done st)
           (Some (Vxr.mkPayload fn (Vxt.f_sz fo) (Vxt.f_ts fo) ck [])) (Vxr.files_written st)))
  /\ (forall st k,
        (k < length h)%nat -> Vxr.buf st = take k h ->
        Vxr.process_file_header os st = Ok (false, st)).
Proof.
  intros Hh Hck Hsz Hts Hfn. split.
  - intros st rest Hbuf.
    exact (file_header_complete os fo ck h Hh Hck Hsz Hts Hfn st rest Hbuf).
  - intros st k Hk Hbuf.
    exact (file_header_incomplete os fo ck h Hh Hck Hsz Hts Hfn st k Hk Hbuf).
Qed.

Lemma file_header_roundtrip_witness :
  let os := AsmSpec.willing in
  let fo := Vxt.mkFile [x61] 3 5 in
  let ck := replicate 16 x78 in
  let h := [x03; x05] ++ ck ++ [x01; x61] in
  (forall st rest,
     Vxr.buf st = h ++ rest ->
     Vxr.process_file_header os st =
     let fn := list_byte_of_string "inc/" ++ Vxt.rel_name (Vxt.f_fn fo) in
     let* _ := Vxr.makedirs os (Vxr.files_written st) (Vxr.dirname fn) in
     let* _ := Vxr.open_wb os (Vxr.files_written st) fn in
     Ok (true,
         Vxr.mkState rest (Vxr.remainder st) (Vxr.next_frame st) (Vxr.frametab st)
           (Vxr.fig_no st + 1) (Vxr.files_total st) (Vxr.bytes_total st)
           (Vxr.files_done st) (Vxr.bytes_done st)
           (Some (Vxr.mkPayload fn (Vxt.f_sz fo) (Vxt.f_ts fo) ck [])) (Vxr.files_written st)))
  /\ (forall st k,
        (k < length h)%nat -> Vxr.buf st = take k h ->
        Vxr.process_file_header os st = Ok (false, st)).
Proof.
  intros os fo ck h.
  apply (file_header_roundtrip os fo ck h).
  - vm_compute. reflexivity.
  - reflexivity.
  - vm_compute. split; [discriminate|reflexivity].
  - vm_compute. split; [discriminate|reflexivity].
  - vm_compute. reflexivity.
Defined.

(** X8: the stream header [__init__] builds is read back by the assembler:
    with all of it in the buffer of a fresh assembler, followed by anything,
    [_process] takes exactly the header out of the buffer and sets the
    number of files and the total number of payload bytes to those of the
    transmitter's file list. *)
Theorem stream_header_roundtrip (sha512 : list byte -> list byte) (os : Vxr.filesystem)
    (files : list Vxt.file) (w h : Z) (halfs : bool) (cfg : Vxt.config)
    (st : Vxr.state) (rest0 : list byte) :
  Vxt.init files w h halfs = Ok cfg ->
  len files < 2 ^ 63 ->
  0 <= foldr Z.add 0 (Vxt.f_sz <$> files) < 2 ^ 63 ->
  Vxr.fig_no st = 0 -> Vxr.frametab st = ∅ ->
  Vxr.buf st = Vxt.header0 cfg ++ rest0 ->
  Vxr._process sha512 os st
  = Ok (true,
        Vxr.mkState rest0 (Vxr.remainder st) (Vxr.next_frame st) ∅ 1
          (Some (len files)) (Some (foldr Z.add 0 (Vxt.f_sz <$> files)))
          (Vxr.files_done st) (Vxr.bytes_done st) (Vxr.payload st) (Vxr.files_written st)).
Proof.
  intros Hinit Hn Hb Hfig Htab Hbuf.
  unfold Vxr._process, Vxr._realign.
  rewrite Htab, map_size_empty. cbn [Vxr.realign]. rewrite Hfig. cbn [Z.eqb].
  rewrite (stream_header_complete files w h halfs cfg st rest0 Hinit Hn Hb Hbuf).
  now rewrite Htab, Hfig.
Qed.

Lemma stream_header_roundtrip_witness :
  Vxr._process (fun _ => []) AsmSpec.willing (Vxr.with_buf Vxr.init [x01; x02; xac; x02; xff])
  = Ok (true,
        Vxr.mkState [xff] [] 0 ∅ 1 (Some 2) (Some 300) 0 0 None []).
Proof.
  apply (stream_header_roundtrip (fun _ => []) AsmSpec.willing
           [Vxt.mkFile [x61] 300 5; Vxt.mkFile [x62] 0 7] 80 24 true
           (Vxt.mkConfig [Vxt.Header [x61] 300 5 21; Vxt.Payload 300;
                          Vxt.Header [x62] 0 7 20; Vxt.Payload 0]
              [x01; x02; xac; x02] 3838)
           (Vxr.with_buf Vxr.init [x01; x02; xac; x02; xff]) [xff]).
  - vm_compute. reflexivity.
  - vm_compute. reflexivity.
  - vm_compute. split; [discriminate|reflexivity].
  - reflexivity.
  - reflexivity.
  - reflexivity.
Defined.


(** ** Dotmatrix frames: the figments of a file list *)

Section Figments.
Variable sha512 : list byte -> list byte.
Hypothesis digest_length : forall m, length (sha512 m) = 64%nat.

Lemma gen_header_length (fo : Vxt.file) (ck1 ck2 h1 : list byte) :
  Vxt.gen_header fo ck1 = Ok h1 -> length ck1 = length ck2 ->
  exists h2, Vxt.gen_header fo ck2 = Ok h2 /\ length h2 = length h1.
Proof.
  unfold Vxt.gen_header.
  destruct (Vle.enc_vle (Vxt.f_sz fo)) as [a| |]; cbn [bind]; try discriminate.
  destruct (Vle.enc_vle (Vxt.f_ts fo)) as [b| |]; cbn [bind]; try discriminate.
  destruct (Vle.enc_vle _) as [c| |]; cbn [bind]; try discriminate.
  intros [= <-] Hl. eexists. split; [reflexivity|].
  rewrite !length_app. lia.
Qed.

(** The figments [__init__] lists are, file by file, a header figment with
    the length of the header and a payload figment with the size of the
    file. *)
Lemma make_figs_spec (fls : list XferSpec.sent) :
  forall fg,
    Vxt.make_figs (fst <$> fls) = Ok fg ->
    exists ps,
      WireSpec.pieces sha512 fls = Ok ps
      /\ length fg = (2 * length fls)%nat
      /\ length ps = (2 * length fls)%nat
      /\ forall k x,
           fls !! k = Some x ->
           exists h,
             XferSpec.header sha512 x = Ok h
             /\ fg !! (2 * k)%nat
                = Some (Vxt.Header (Vxt.f_fn x.1) (Vxt.f_sz x.1) (Vxt.f_ts x.1) (len h))
             /\ fg !! (2 * k + 1)%nat = Some (Vxt.Payload (Vxt.f_sz x.1))
             /\ ps !! (2 * k)%nat = Some h
             /\ ps !! (2 * k + 1)%nat = Some x.2.
Proof using digest_length.
  induction fls as [|x fls IH]; intros fg.
  - intros [= <-]. exists []. repeat split; try reflexivity. intros k x; discriminate.
  - rewrite fmap_cons. cbn [Vxt.make_figs].
    destruct (Vxt.gen_header x.1 (replicate 16 x78)) as [hf| |] eqn:Ehf; cbn [bind];
      try discriminate.
    destruct (Vxt.make_figs (fst <$> fls)) as [fg'| |] eqn:Efg; cbn [bind];
      try discriminate.
    intros [= <-].
    destruct (IH fg' eq_refl) as (ps & Hps & Hl1 & Hl2 & Hk).
    destruct (gen_header_length x.1 (replicate 16 x78) (XferSpec.csum sha512 x) hf Ehf)
      as (h & Hh & Hlen).
    { unfold XferSpec.csum. rewrite length_take, digest_length. reflexivity. }
    exists (h :: x.2 :: ps). cbn [WireSpec.pieces]. unfold XferSpec.header at 1.
    rewrite Hh, Hps. cbn [bind]. split; [reflexivity|].
    split; [cbn [length]; lia|]. split; [cbn [length]; lia|].
    intros [|k] y Hy.
    + injection Hy as <-. exists h. unfold XferSpec.header. rewrite Hh.
      unfold len. rewrite Hlen. repeat split; reflexivity.
    + cbn [lookup list_lookup] in Hy. destruct (Hk k y Hy) as (h' & H1 & H2 & H3 & H4 & H5).
      exists h'. replace (2 * S k)%nat with (S (S (2 * k))) by lia.
      replace (S (S (2 * k)) + 1)%nat with (S (S (2 * k + 1))) by lia.
      cbn [lookup list_lookup]. repeat split; assumption.
Qed.

Lemma body_pieces (fls : list XferSpec.sent) :
  forall ps, WireSpec.pieces sha512 fls = Ok ps ->
             XferSpec.body sha512 fls = Ok (concat ps).
Proof.
  induction fls as [|x fls IH]; intros ps; cbn [WireSpec.pieces XferSpec.body].
  - now intros [= <-].
  - destruct (XferSpec.header sha512 x) as [h| |]; cbn [bind]; try discriminate.
    destruct (WireSpec.pieces sha512 fls) as [t| |]; cbn [bind]; try discriminate.
    intros [= <-]. rewrite (IH t eq_refl). cbn [bind concat]. reflexivity.
Qed.

End Figments.

(** ** Dotmatrix frames: parts of the stream of figments *)

Lemma bstr2bits_take (n : nat) (l : list byte) :
  Bits.bstr2bits (take n l) = take (8 * n) (Bits.bstr2bits l).
Proof.
  revert l. induction n as [|n IH]; intros l.
  - now rewrite Nat.mul_0_r, !take_0.
  - destruct l as [|x l]; [now rewrite !take_nil|].
    replace (8 * S n)%nat with (8 + 8 * n)%nat by lia.
    cbn [take]. unfold Bits.bstr2bits in *. rewrite !fmap_cons. cbn [concat].
    rewrite take_app_ge by (cbn [length Bits.bits_of_byte]; lia).
    cbn [length Bits.bits_of_byte].
    replace (8 + 8 * n - 8)%nat with (8 * n)%nat by lia. now rewrite IH.
Qed.

Lemma bstr2bits_drop (n : nat) (l : list byte) :
  Bits.bstr2bits (drop n l) = drop (8 * n) (Bits.bstr2bits l).
Proof.
  revert l. induction n as [|n IH]; intros l.
  - now rewrite Nat.mul_0_r, !drop_0.
  - destruct l as [|x l]; [now rewrite !drop_nil|].
    replace (8 * S n)%nat with (8 + 8 * n)%nat by lia.
    cbn [drop]. unfold Bits.bstr2bits in *. rewrite fmap_cons. cbn [concat].
    rewrite drop_app_ge by (cbn [length Bits.bits_of_byte]; lia).
    cbn [length Bits.bits_of_byte].
    replace (8 + 8 * n - 8)%nat with (8 * n)%nat by lia. now rewrite IH.
Qed.

Lemma span_app (b : list byte) (p e e' : Z) :
  0 <= p <= e -> e <= e' ->
  WireSpec.span b p e ++ WireSpec.span b e e' = WireSpec.span b p e'.
Proof.
  intros Hp He. unfold WireSpec.span.
  replace (Z.to_nat e) with (Z.to_nat p + Z.to_nat (e - p))%nat by lia.
  rewrite <- drop_drop, take_take_drop. f_equal. lia.
Qed.

Lemma span_empty (b : list byte) (p : Z) : WireSpec.span b p p = [].
Proof. unfold WireSpec.span. now rewrite Z.sub_diag. Qed.

(** A part of a figment is a part of the stream. *)
Lemma span_piece (ps : list (list byte)) (i : nat) (p : list byte) (b1 b2 : Z) :
  ps !! i = Some p ->
  0 <= b1 <= b2 -> b2 <= 8 * len p ->
  take (Z.to_nat (b2 - b1)) (drop (Z.to_nat b1) (Bits.bstr2bits p))
  = WireSpec.span (concat ps) (8 * len (concat (take i ps)) + b1)
                  (8 * len (concat (take i ps)) + b2).
Proof.
  intros Hi Hb1 Hb2. unfold WireSpec.span.
  assert (Hps : concat ps = concat (take i ps) ++ p ++ concat (drop (S i) ps)).
  { rewrite <- (take_drop_middle ps i p Hi) at 1. now rewrite concat_app. }
  rewrite Hps, !bstr2bits_app.
  set (a := concat (take i ps)).
  assert (Ha : length (Bits.bstr2bits a) = Z.to_nat (8 * len a)).
  { rewrite bstr2bits_length. unfold len. lia. }
  replace (Z.to_nat (8 * len a + b1)) with (length (Bits.bstr2bits a) + Z.to_nat b1)%nat
    by (unfold len in *; lia).
  rewrite <- drop_drop, drop_app_length.
  assert (Hp : length (Bits.bstr2bits p) = Z.to_nat (8 * len p)).
  { rewrite bstr2bits_length. unfold len. lia. }
  rewrite drop_app_le by lia.
  rewrite take_app_le by (rewrite length_drop; lia).
  f_equal. lia.
Qed.

Lemma slice_plain {A : Type} (a b : Z) (l : list A) :
  0 <= a <= b ->
  VxtFrame.slice a b l = take (Z.to_nat (b - a)) (drop (Z.to_nat a) l).
Proof.
  intros Hab. unfold VxtFrame.slice, VxtFrame.norm.
  destruct (Z.ltb_spec a 0) as [Hc|_]; [lia|].
  destruct (Z.ltb_spec b 0) as [Hc|_]; [lia|].
  unfold len.
  destruct (Z.le_gt_cases a (Z.of_nat (length l))) as [Ha|Ha].
  - rewrite (Z.min_l a) by lia.
    destruct (Z.le_gt_cases b (Z.of_nat (length l))) as [Hb|Hb].
    + now rewrite Z.min_l by lia.
    + rewrite Z.min_r by lia. rewrite !take_ge; [reflexivity|..];
        rewrite length_drop; lia.
  - rewrite !Z.min_r by lia. rewrite Z.sub_diag, !drop_ge by lia.
    now rewrite !take_nil.
Qed.

(** The bits of the bytes read for a chunk of a payload, cut as [gen_frame]
    cuts them, are the bits of the chunk. *)
Lemma payload_slice (d : list byte) (bit1 bit2 : Z) :
  0 <= bit1 < bit2 -> bit2 <= 8 * len d ->
  let byte1 := bit1 / 8 in
  let byte2 := Z.min ((bit2 + 7) / 8) (len d) in
  take (Z.to_nat (bit2 - bit1))
       (drop (Z.to_nat (bit1 mod 8))
             (Bits.bstr2bits (take (Z.to_nat (byte2 - byte1)) (drop (Z.to_nat byte1) d))))
  = take (Z.to_nat (bit2 - bit1)) (drop (Z.to_nat bit1) (Bits.bstr2bits d)).
Proof.
  intros Hb1 Hb2 byte1 byte2.
  pose proof (Z.div_mod bit1 8 ltac:(lia)) as Hdm.
  pose proof (Z.mod_pos_bound bit1 8 ltac:(lia)) as Hm.
  assert (H2 : bit2 <= 8 * byte2).
  { subst byte2. apply Z.min_case; [|lia].
    pose proof (Z.div_mod (bit2 + 7) 8 ltac:(lia)).
    pose proof (Z.mod_pos_bound (bit2 + 7) 8 ltac:(lia)). lia. }
  fold byte1 in Hdm.
  rewrite bstr2bits_take, bstr2bits_drop.
  set (B := Bits.bstr2bits d).
  set (t := Z.to_nat (bit1 mod 8)).
  replace (8 * Z.to_nat (byte2 - byte1))%nat
    with (t + (8 * Z.to_nat (byte2 - byte1) - t))%nat by lia.
  rewrite <- take_drop_commute, take_take, drop_drop.
  f_equal; [lia|]. f_equal. lia.
Qed.

(** ** Dotmatrix frames: how much a frame holds *)

Section FrameSize.
Variable cfg : Vxt.config.
Hypothesis figs_distinct : NoDup (Vxt.figs cfg).
Hypothesis figs_nonneg : Forall (fun f => 0 <= Vxt.fig_len f) (Vxt.figs cfg).

Lemma chain_end_le (cs : list Vxt.chunk) :
  forall p, FrameSpec.chain cfg p cs -> p <= FrameSpec.chain_end cfg p cs.
Proof using Type.
  induction cs as [|c cs IH]; intros p; cbn [FrameSpec.chain FrameSpec.chain_end]; [lia|].
  intros ((fg & _ & Hb & _) & Hs & Hc). apply IH in Hc.
  unfold FrameSpec.start, FrameSpec.stop in *. lia.
Qed.

Lemma size_app (a b : list Vxt.chunk) :
  WireSpec.size (a ++ b) = WireSpec.size a + WireSpec.size b.
Proof using Type.
  unfold WireSpec.size. induction a as [|c a IH]; [reflexivity|].
  cbn [app fmap list_fmap foldr] in *. rewrite IH. lia.
Qed.

(** The size of a chain is the distance it covers. *)
Lemma chain_size (cs : list Vxt.chunk) :
  forall p, FrameSpec.chain cfg p cs ->
            FrameSpec.chain_end cfg p cs = p + WireSpec.size cs.
Proof using Type.
  induction cs as [|c cs IH]; intros p; cbn [FrameSpec.chain FrameSpec.chain_end].
  - intros _. unfold WireSpec.size. cbn. lia.
  - intros (_ & Hs & Hc). rewrite (IH _ Hc).
    unfold WireSpec.size. cbn [fmap list_fmap foldr].
    unfold FrameSpec.start, FrameSpec.stop in *. lia.
Qed.

(** The loop of [get_frame_info] never takes more than the frame has room
    for, and leaves room only when the figments are exhausted. *)
Lemma fill_sized (fuel : nat) :
  forall bs i b disp res,
    0 <= b ->
    (forall fg, Vxt.figs cfg !! i = Some fg -> b <= Vxt.fig_len fg * 8) ->
    (i <= length (Vxt.figs cfg))%nat ->
    (i = length (Vxt.figs cfg) -> b = 0) ->
    Vxt.fill fuel cfg bs i b disp = Ok res ->
    exists new,
      res = disp ++ new
      /\ FrameSpec.chain cfg (FrameSpec.offset cfg i + b) new
      /\ (new <> [] -> bs + WireSpec.size new <= Vxt.nbits cfg)
      /\ (bs + WireSpec.size new < Vxt.nbits cfg ->
          FrameSpec.chain_end cfg (FrameSpec.offset cfg i + b) new
          = FrameSpec.total_bits cfg).
Proof using figs_nonneg.
  induction fuel as [|fuel IH]; intros bs i b disp res Hb Hle Hi Hend; cbn [Vxt.fill];
    [discriminate|].
  destruct (Z.ltb_spec bs (Vxt.nbits cfg)) as [Hbs|Hbs]; cbn [andb].
  2: { intros [= <-]. exists []. rewrite app_nil_r.
       unfold WireSpec.size. cbn. repeat split; auto; [congruence|lia]. }
  destruct (Nat.ltb_spec i (length (Vxt.figs cfg))) as [Hlt|Hge].
  2: { intros [= <-]. exists []. rewrite app_nil_r.
       unfold WireSpec.size. cbn. repeat split; auto; [congruence|].
       intros _. assert (i = length (Vxt.figs cfg)) as E by lia.
       rewrite (Hend E), E. unfold FrameSpec.total_bits. lia. }
  destruct (Vxt.figs cfg !! i) as [fg|] eqn:Efg;
    [|apply lookup_ge_None in Efg; lia].
  specialize (Hle fg eq_refl).
  destruct (Z.leb_spec (Vxt.fig_len fg * 8) b) as [Hfull|Hpart].
  - intros Hrun. apply IH in Hrun as (new & -> & Hch & HA & HB); try lia.
    + exists new. rewrite (offset_S cfg i fg Efg) in Hch, HB.
      replace (FrameSpec.offset cfg i + b)
        with (FrameSpec.offset cfg i + Vxt.fig_len fg * 8 + 0) by lia.
      auto.
    + intros fg' Hfg'. pose proof (fig_len_nonneg cfg figs_nonneg _ _ Hfg'). lia.
  - set (b2 := if Vxt.fig_len fg * 8 <? b + (Vxt.nbits cfg - bs)
               then Vxt.fig_len fg * 8 else b + (Vxt.nbits cfg - bs)).
    assert (Hb2 : b < b2 <= Vxt.fig_len fg * 8 /\ b2 - b <= Vxt.nbits cfg - bs).
    { subst b2. destruct (Z.ltb_spec (Vxt.fig_len fg * 8) (b + (Vxt.nbits cfg - bs))); lia. }
    intros Hrun. apply IH in Hrun as (new & -> & Hch & HA & HB); try lia.
    + exists (Vxt.mkChunk i b b2 bs :: new). rewrite <- app_assoc.
      split; [reflexivity|].
      assert (Hsz : WireSpec.size (Vxt.mkChunk i b b2 bs :: new)
                    = (b2 - b) + WireSpec.size new) by reflexivity.
      split; [|split].
      * cbn [FrameSpec.chain]. split; [|split; [reflexivity|exact Hch]].
        exists fg. cbn. repeat split; try assumption; lia.
      * intros _. rewrite Hsz.
        destruct new as [|c new]; [unfold WireSpec.size; cbn; lia|].
        specialize (HA ltac:(discriminate)). lia.
      * rewrite Hsz. intros Hroom. cbn [FrameSpec.chain_end].
        unfold FrameSpec.stop. cbn [Vxt.c_fig Vxt.bit2]. apply HB. lia.
    + intros fg' Hfg'. rewrite Efg in Hfg'. injection Hfg' as <-. lia.
Qed.


Lemma frame_info_body_sized (n : nat) (frames frames' : list (list Vxt.chunk))
    (r : option (list Vxt.chunk)) :
  FrameSpec.frames_inv cfg frames ->
  WireSpec.frames_sized cfg frames ->
  Vxt.frame_info_body cfg n frames = Ok (r, frames') ->
  WireSpec.frames_sized cfg frames'
  /\ (forall inf, r = Some inf -> frames' !! n = Some inf)
  /\ ((length frames <= n)%nat ->
      frames' = frames ++ match r with Some inf => [inf] | None => [] end).
Proof using figs_distinct figs_nonneg.
  intros [Hne Hch] Hsized. unfold Vxt.frame_info_body.
  destruct (Nat.ltb_spec n (length frames)) as [Hmemo|Hnew].
  { intros [= <- <-]. split; [exact Hsized|]. split; [now intros inf ->|lia]. }
  destruct (Vle.enc_vle (Z.of_nat n)) as [vf| |] eqn:Evf; cbn [bind]; [|discriminate..].
  assert (Hstart : forall bs i b,
             (match n with
              | O => Ok ((4 + len vf) * 8 + len (Vxt.header0 cfg) * 8, O, 0)
              | S prev =>
                  match frames !! prev with
                  | None => Raise IndexError
                  | Some pframe =>
                      match last pframe with
                      | None => Raise IndexError
                      | Some c =>
                          match Vxt.figs cfg !! Vxt.c_fig c with
                          | None => Raise IndexError
                          | Some fg =>
                              let* i := Vxt.index (Vxt.figs cfg) fg in
                              Ok ((4 + len vf) * 8, i, Vxt.bit2 c)
                          end
                      end
                  end
              end) = Ok (bs, i, b) ->
             bs = FrameSpec.overhead cfg n vf
             /\ FrameSpec.offset cfg i + b = FrameSpec.chain_end cfg 0 (concat frames)
             /\ 0 <= b
             /\ (forall fg, Vxt.figs cfg !! i = Some fg -> b <= Vxt.fig_len fg * 8)
             /\ (i <= length (Vxt.figs cfg))%nat
             /\ (i = length (Vxt.figs cfg) -> b = 0)
             /\ length frames = n).
  { intros bs i b. destruct n as [|prev].
    - intros [= <- <- <-].
      assert (frames = []) as -> by (destruct frames; [reflexivity|cbn in Hnew; lia]).
      unfold FrameSpec.overhead, FrameSpec.offset. cbn. repeat split; try lia.
      intros fg Hfg. pose proof (fig_len_nonneg cfg figs_nonneg _ _ Hfg). lia.
    - destruct (frames !! prev) as [pframe|] eqn:Ep; [|discriminate].
      destruct (last pframe) as [c|] eqn:Ec; [|discriminate].
      destruct (Vxt.figs cfg !! Vxt.c_fig c) as [fg|] eqn:Efg; [|discriminate].
      rewrite (index_NoDup _ figs_distinct _ _ Efg). cbn [bind].
      intros [= <- <- <-].
      assert (Hlen : length frames = S prev).
      { apply lookup_lt_Some in Ep. lia. }
      assert (Hfr : exists fr0, frames = fr0 ++ [pframe]).
      { exists (take prev frames). rewrite <- (take_drop prev frames) at 1. f_equal.
        rewrite (drop_S _ _ _ Ep), drop_ge by lia. reflexivity. }
      destruct Hfr as [fr0 Hfr0].
      apply last_Some in Ec as [pf0 ->].
      assert (Hcc : concat frames = (concat fr0 ++ pf0) ++ [c]).
      { rewrite Hfr0, concat_app. cbn [concat]. now rewrite app_nil_r, app_assoc. }
      rewrite Hcc in Hch |- *.
      apply (chain_app cfg) in Hch as [_ Hc]. cbn [FrameSpec.chain] in Hc.
      destruct Hc as ((fg' & Hfg' & Hb1 & Hb2) & _ & _).
      rewrite Efg in Hfg'. injection Hfg' as <-.
      rewrite chain_end_app. cbn [FrameSpec.chain_end].
      unfold FrameSpec.stop, FrameSpec.overhead.
      repeat split; try lia.
      + intros fg' Hfg'. rewrite Efg in Hfg'. now injection Hfg' as <-.
      + apply lookup_lt_Some in Efg. lia.
      + intros E. apply lookup_lt_Some in Efg. lia. }
  destruct (match n with O => _ | S _ => _ end) as [[[bs i] b]| |]; cbn [bind];
    [|discriminate..].
  destruct (Hstart bs i b eq_refl) as (-> & Hpos & Hb & Hle & Hi & Hend & Hlen).
  destruct (Vxt.fill _ cfg _ i b []) as [displayed| |] eqn:Efill; cbn [bind];
    [|discriminate..].
  apply fill_sized in Efill as (new & -> & Hnew_ch & HA & HB); try assumption.
  cbn [app] in *. rewrite Hpos in Hnew_ch, HB.
  destruct new as [|c new].
  - intros [= <- <-]. split; [exact Hsized|].
    split; [intros inf; discriminate|]. intros _. now rewrite app_nil_r.
  - intros [= <- <-]. split; [|split; [|reflexivity]].
    + intros k inf vf' Hk Hvf'.
      destruct (Nat.lt_ge_cases k (length frames)) as [Hlt|Hge].
      * rewrite lookup_app_l in Hk by exact Hlt.
        unfold WireSpec.upto. rewrite take_app_le by lia.
        exact (Hsized k inf vf' Hk Hvf').
      * assert (k = n).
        { apply lookup_lt_Some in Hk. rewrite length_app in Hk. cbn [length] in Hk. lia. }
        subst k. rewrite lookup_app_r, Hlen, Nat.sub_diag in Hk by lia.
        injection Hk as <-. rewrite Evf in Hvf'. injection Hvf' as <-.
        split; [apply HA; discriminate|].
        intros Hroom. unfold WireSpec.upto.
        rewrite take_ge by (rewrite length_app; cbn [length]; lia).
        rewrite concat_app. cbn [concat]. rewrite app_nil_r, chain_end_app.
        now apply HB.
    + intros inf [= <-]. rewrite lookup_app_r, Hlen, Nat.sub_diag by lia. reflexivity.
Qed.

Lemma get_frame_info_sized (n : nat) :
  forall frames frames' r,
    FrameSpec.frames_inv cfg frames ->
    WireSpec.frames_sized cfg frames ->
    Vxt.get_frame_info cfg n frames = Ok (r, frames') ->
    FrameSpec.frames_inv cfg frames'
    /\ WireSpec.frames_sized cfg frames'
    /\ (forall inf, r = Some inf -> frames' !! n = Some inf).
Proof using figs_distinct figs_nonneg.
  assert (Hbody : forall m frames frames' r,
             FrameSpec.frames_inv cfg frames ->
             WireSpec.frames_sized cfg frames ->
             Vxt.frame_info_body cfg m frames = Ok (r, frames') ->
             FrameSpec.frames_inv cfg frames'
             /\ WireSpec.frames_sized cfg frames'
             /\ (forall inf, r = Some inf -> frames' !! m = Some inf)).
  { intros m frames frames' r Hinv Hsz Hb.
    destruct (frame_info_body_inv cfg figs_distinct figs_nonneg m frames frames' r Hinv Hb)
      as [Hinv' _].
    destruct (frame_info_body_sized m frames frames' r Hinv Hsz Hb) as (Hsz' & Hr & _).
    auto. }
  induction n as [|n IH]; intros frames frames' r Hinv Hsz; cbn [Vxt.get_frame_info].
  - now apply Hbody.
  - destruct (len frames - 1 <? Z.of_nat (S n)).
    + destruct (Vxt.get_frame_info cfg n frames) as [[r1 fr1]| |] eqn:E; cbn [bind];
        [|discriminate..].
      apply IH in E as (Hinv1 & Hsz1 & _); [|exact Hinv|exact Hsz].
      now apply Hbody.
    + cbn [bind]. now apply Hbody.
Qed.


(** A frame that is in the table is answered from the table. *)
Lemma get_frame_info_memo (n : nat) (frames : list (list Vxt.chunk)) :
  (n < length frames)%nat ->
  Vxt.get_frame_info cfg n frames = Ok (frames !! n, frames).
Proof using Type.
  intros Hlt.
  assert (Hbody : Vxt.frame_info_body cfg n frames = Ok (frames !! n, frames)).
  { unfold Vxt.frame_info_body.
    destruct (Nat.ltb_spec n (length frames)) as [_|Hc]; [reflexivity|lia]. }
  destruct n as [|n]; cbn [Vxt.get_frame_info]; [exact Hbody|].
  destruct (Z.ltb_spec (len frames - 1) (Z.of_nat (S n))) as [Hc|_];
    [unfold len in Hc; lia|].
  cbn [bind]. exact Hbody.
Qed.

(** Asking for the frame after those of the table adds it to the table,
    or finds the stream at its end. *)
Lemma get_frame_info_next (frames frames' : list (list Vxt.chunk))
    (r : option (list Vxt.chunk)) :
  FrameSpec.frames_inv cfg frames ->
  WireSpec.frames_sized cfg frames ->
  Vxt.get_frame_info cfg (length frames) frames = Ok (r, frames') ->
  frames' = frames ++ match r with Some inf => [inf] | None => [] end.
Proof using figs_distinct figs_nonneg.
  intros Hinv Hsz.
  assert (Hbody : Vxt.frame_info_body cfg (length frames) frames = Ok (r, frames') ->
                  frames' = frames ++ match r with Some inf => [inf] | None => [] end).
  { intros Hb.
    destruct (frame_info_body_sized _ frames frames' r Hinv Hsz Hb) as (_ & _ & H).
    apply H. lia. }
  destruct (length frames) as [|n] eqn:El; cbn [Vxt.get_frame_info]; [exact Hbody|].
  destruct (Z.ltb_spec (len frames - 1) (Z.of_nat (S n))) as [_|Hc];
    [|unfold len in Hc; lia].
  rewrite get_frame_info_memo by lia. cbn [bind]. exact Hbody.
Qed.

(** The loop of [get_frame_info] ends: a turn moves on to the next figment
    or spends at least one of the bits the frame has left. *)
Lemma fill_total (fuel : nat) :
  forall bs i b disp,
    (Z.to_nat (Vxt.nbits cfg - bs) + (length (Vxt.figs cfg) - i) < fuel)%nat ->
    exists r, Vxt.fill fuel cfg bs i b disp = Ok r.
Proof using Type.
  induction fuel as [|fuel IH]; intros bs i b disp Hm; [lia|]. cbn [Vxt.fill].
  destruct (Z.ltb_spec bs (Vxt.nbits cfg)) as [Hbs|Hbs]; cbn [andb]; [|eauto].
  destruct (Nat.ltb_spec i (length (Vxt.figs cfg))) as [Hlt|Hge]; [|eauto].
  destruct (lookup_lt_is_Some_2 _ _ Hlt) as [fg Efg]. rewrite Efg.
  destruct (Z.leb_spec (Vxt.fig_len fg * 8) b) as [Hfull|Hpart].
  - apply IH. lia.
  - apply IH.
    destruct (Z.ltb_spec (Vxt.fig_len fg * 8) (b + (Vxt.nbits cfg - bs))); lia.
Qed.

(** Asked for the frame after those of the table, [get_frame_info] answers:
    it neither raises nor loops. *)
Lemma frame_info_body_total (frames : list (list Vxt.chunk)) :
  FrameSpec.frames_inv cfg frames ->
  Z.of_nat (length frames) < 2 ^ 63 ->
  exists r frames', Vxt.frame_info_body cfg (length frames) frames = Ok (r, frames').
Proof using figs_distinct.
  intros [Hne Hch] Hn. unfold Vxt.frame_info_body.
  destruct (Nat.ltb_spec (length frames) (length frames)) as [Hc|_]; [lia|].
  destruct (enc_vle_codec (Z.of_nat (length frames)) ltac:(lia)) as (vf & -> & Hvf & _).
  cbn [bind].
  assert (Hstart : exists bs i b,
             (match length frames with
              | O => Ok ((4 + len vf) * 8 + len (Vxt.header0 cfg) * 8, O, 0)
              | S prev =>
                  match frames !! prev with
                  | None => Raise IndexError
                  | Some pframe =>
                      match last pframe with
                      | None => Raise IndexError
                      | Some c =>
                          match Vxt.figs cfg !! Vxt.c_fig c with
                          | None => Raise IndexError
                          | Some fg =>
                              let* i := Vxt.index (Vxt.figs cfg) fg in
                              Ok ((4 + len vf) * 8, i, Vxt.bit2 c)
                          end
                      end
                  end
              end) = Ok (bs, i, b) /\ 0 <= bs).
  { pose proof (len_nonneg (Vxt.header0 cfg)).
    destruct (length frames) as [|prev] eqn:El.
    - do 3 eexists. split; [reflexivity|lia].
    - destruct (lookup_lt_is_Some_2 frames prev ltac:(lia)) as [pframe Ep]. rewrite Ep.
      assert (Hp : pframe <> []).
      { rewrite Forall_forall in Hne. apply Hne. eapply list_elem_of_lookup_2. exact Ep. }
      destruct (last pframe) as [c|] eqn:Ec; [|apply last_None in Ec; contradiction].
      apply last_Some in Ec as [pf0 ->].
      assert (Hfr : frames = take prev frames ++ [pf0 ++ [c]]).
      { rewrite <- (take_drop prev frames) at 1. f_equal.
        rewrite (drop_S _ _ _ Ep), drop_ge by lia. reflexivity. }
      rewrite Hfr, concat_app in Hch. cbn [concat] in Hch.
      rewrite app_nil_r, app_assoc in Hch.
      apply chain_app in Hch as [_ Hc]. cbn [FrameSpec.chain] in Hc.
      destruct Hc as ((fg & Hfg & _) & _ & _). rewrite Hfg.
      rewrite (index_NoDup _ figs_distinct _ _ Hfg). cbn [bind].
      do 3 eexists. split; [reflexivity|lia]. }
  destruct Hstart as (bs & i & b & -> & Hbs). cbn [bind].
  destruct (fill_total (S (Z.to_nat (Vxt.nbits cfg) + length (Vxt.figs cfg))) bs i b [])
    as [displayed ->]; [lia|].
  cbn [bind]. destruct displayed; eauto.
Qed.

Lemma get_frame_info_total (frames : list (list Vxt.chunk)) :
  FrameSpec.frames_inv cfg frames ->
  Z.of_nat (length frames) < 2 ^ 63 ->
  exists r frames', Vxt.get_frame_info cfg (length frames) frames = Ok (r, frames').
Proof using figs_distinct.
  intros Hinv Hn.
  destruct (frame_info_body_total frames Hinv Hn) as (r & frames' & Hb).
  exists r, frames'.
  destruct (length frames) as [|n] eqn:El; cbn [Vxt.get_frame_info]; [exact Hb|].
  destruct (Z.ltb_spec (len frames - 1) (Z.of_nat (S n))) as [_|Hc];
    [|unfold len in Hc; lia].
  rewrite get_frame_info_memo by lia. cbn [bind]. exact Hb.
Qed.

End FrameSize.

(** ** The decode loop of the receiver *)

Section DecodeLoop.
Variable sha512 : list byte -> list byte.
Variable os : Vxr.filesystem.
Hypothesis digest_length : forall m, length (sha512 m) = 64%nat.

Lemma vle_eight (v : Z) (bs : list byte) :
  0 <= v < 2 ^ 56 -> Vle.enc_vle v = Ok bs -> len bs <= 8.
Proof using Type.
  intros Hv He.
  destruct (enc_vle_loop_length (Z.to_nat (Z.log2 v)) v []) as (bs' & He' & Hl).
  { split; [lia|]. apply enc_vle_fuel. lia. }
  unfold Vle.enc_vle in He. rewrite He' in He. injection He as <-. cbn [app]. rewrite Hl.
  destruct (Z.eq_dec v 0) as [->|Hnz]; [vm_compute; discriminate|].
  assert (Z.log2 v < 56) by (apply Z.log2_lt_pow2; lia).
  assert (Z.log2 v / 7 <= 7) by (apply Z.lt_succ_r, Z.div_lt_upper_bound; lia).
  lia.
Qed.

(** The receiver reads the number of a frame and what follows it off a
    frame whose checksum is right. *)
Lemma check_frame_sealed (n : Z) (v : list byte) (d : list bool) :
  0 <= n < 2 ^ 56 ->
  Vle.enc_vle n = Ok v ->
  let body := Bits.bstr2bits v ++ d in
  Vxr.check_frame sha512
    (Bits.bstr2bits (take 4 (sha512 (Bits.ascii_bits body))) ++ body)
  = Vxr.Checked n d.
Proof using digest_length.
  intros Hn Hv body.
  set (c4 := take 4 (sha512 (Bits.ascii_bits body))).
  assert (Hc4 : length (Bits.bstr2bits c4) = 32%nat).
  { rewrite bstr2bits_length. subst c4. rewrite length_take, digest_length. reflexivity. }
  pose proof (vle_eight n v Hn Hv) as H8.
  destruct (enc_vle_codec n ltac:(lia)) as (v' & Hv' & Hpos & Hdec & _).
  rewrite Hv in Hv'. injection Hv' as <-.
  unfold Vxr.check_frame.
  assert (Hhead : take 32 (Bits.bstr2bits c4 ++ body) = Bits.bstr2bits c4).
  { rewrite <- Hc4. apply take_app_length. }
  rewrite Hhead.
  assert (Hdrop : drop 32 (Bits.bstr2bits c4 ++ body) = body).
  { rewrite <- Hc4. apply drop_app_length. }
  rewrite Hdrop.
  assert (Hv8 : length (Bits.bstr2bits v) = (length v * 8)%nat)
    by (rewrite bstr2bits_length; lia).
  assert (Htake : take 64 body
                  = Bits.bstr2bits v ++ take (64 - length v * 8) d).
  { subst body. rewrite take_app_ge by (rewrite Hv8; unfold len in H8; lia).
    now rewrite Hv8. }
  assert (Hnum : Vle.dec_vle (Bits.bits2bstr (take 64 body)) = (n, len v)).
  { rewrite Htake, bits2bstr_bstr2bits. unfold Vle.dec_vle. now rewrite Hdec. }
  rewrite Hnum.
  assert (Hsum : Bits.bits2bstr (Bits.bstr2bits c4) = c4).
  { rewrite <- (app_nil_r (Bits.bstr2bits c4)), bits2bstr_bstr2bits.
    cbn [Bits.bits2bstr]. apply app_nil_r. }
  rewrite Hsum, bool_decide_true by reflexivity.
  f_equal. unfold len. rewrite Nat2Z.id.
  rewrite <- Hc4, <- drop_drop, drop_app_length. subst body.
  rewrite <- Hv8. apply drop_app_length.
Qed.

(** A call of [put] for the frame the assembler waits for that asks for
    more leaves it waiting for the next frame, with nothing set aside. *)
Lemma put_next (fuel : nat) (st st' : Vxr.state) (d : list bool) :
  Vxr.frametab st = ∅ ->
  Vxr.put sha512 os fuel st (Vxr.next_frame st) d = Ok (false, st') ->
  Vxr.frametab st' = ∅ /\ Vxr.next_frame st' = Vxr.next_frame st + 1.
Proof using Type.
  intros Htab Hput.
  destruct (Vxr.truthy (Vxr.bytes_total st)
            && match Vxr.bytes_total st with
               | Some bt => bt <=? Vxr.bytes_done st
               | None => false
               end) eqn:Hc.
  - exfalso. unfold Vxr.put in Hput. rewrite Z.ltb_irrefl in Hput.
    destruct fuel as [|fuel]; [discriminate|].
    cbn [Vxr.put_loop Vxr.bytes_total Vxr.bytes_done] in Hput.
    rewrite Hc in Hput. discriminate.
  - rewrite (put_in_order sha512 os fuel st d Htab Hc) in Hput.
    apply put_loop_keeps_frame in Hput as (H1 & _ & H3); [|reflexivity].
    split; [exact H1|exact H3].
Qed.

(** Fed with captures of frames that come in order, the decode loop does
    what the calls of [put] for the frames do: what does not pass for the
    frame the assembler waits for is dropped. *)
Lemma decode_captured (fuel : nat) (k : Z) (screens caps : list (list bool)) :
  CaptureSpec.captured sha512 k screens caps ->
  forall (ds : list (list bool)) (st st' : Vxr.state),
    Forall2 (fun '(j, d) c => Vxr.check_frame sha512 c = Vxr.Checked j d)
            (XferSpec.calls_from k ds) screens ->
    k = Vxr.next_frame st ->
    Vxr.frametab st = ∅ ->
    last (Vxr.puts sha512 os fuel st (XferSpec.calls_from k ds)) = Some (Ok (true, st')) ->
    VxrMain.decode sha512 os fuel st caps = Ok (true, st').
Proof using Type.
  induction 1 as [k caps|k f screens caps Hcap IH|k screens c caps Hno Hcap IH];
    intros ds st st' Hall Hk Htab Hlast.
  - apply Forall2_nil_inv_r in Hall. rewrite Hall in Hlast. discriminate.
  - destruct ds as [|d ds]; cbn [XferSpec.calls_from] in Hall, Hlast;
      [apply Forall2_length in Hall; discriminate|].
    apply Forall2_cons_1 in Hall as [Hc Hall].
    cbn [VxrMain.decode]. unfold VxrMain.on_capture, VxrMain.accepted. rewrite Hc, Hk, Z.eqb_refl.
    cbn [Vxr.puts] in Hlast. rewrite Hk in Hlast.
    destruct (Vxr.put sha512 os fuel st (Vxr.next_frame st) d) as [[[|] st1]| |] eqn:Hput.
    + cbn [last] in Hlast. injection Hlast as <-. reflexivity.
    + cbn [bind].
      destruct (put_next fuel st st1 d Htab Hput) as [Htab1 Hn1].
      apply (IH ds st1 st'); [exact Hall|lia|exact Htab1|].
      rewrite <- Hk in Hlast.
      destruct (Vxr.puts sha512 os fuel st1 _) as [|r rs] eqn:Ep; [discriminate|exact Hlast].
    + discriminate.
    + discriminate.
  - cbn [VxrMain.decode]. unfold VxrMain.on_capture, VxrMain.accepted.
    destruct (Vxr.check_frame sha512 c) as [j|j d] eqn:Hc; cbn [bind].
    + now apply (IH ds).
    + destruct (Z.eqb_spec j (Vxr.next_frame st)) as [->|Hne]; cbn [bind].
      * exfalso. apply (Hno d). now rewrite Hk.
      * now apply (IH ds).
Qed.


End DecodeLoop.

(** ** The screen of the transmitter *)

Lemma times_one_length (c : Z) (n : Z) :
  length (VxtScreen.times [c] n) = Z.to_nat n.
Proof.
  unfold VxtScreen.times. induction (Z.to_nat n) as [|k IH]; [reflexivity|].
  cbn [replicate concat app length]. now rewrite IH.
Qed.

Lemma times_two_length (a b : Z) (n : Z) :
  length (VxtScreen.times [a; b] n) = (2 * Z.to_nat n)%nat.
Proof.
  unfold VxtScreen.times. induction (Z.to_nat n) as [|k IH]; [reflexivity|].
  cbn [replicate concat app length]. rewrite IH. lia.
Qed.

Lemma slice_head_length {A : Type} (n : Z) (l : list A) :
  0 <= n <= len l -> length (VxtFrame.slice 0 n l) = Z.to_nat n.
Proof.
  intros Hn. unfold VxtFrame.slice, VxtFrame.norm.
  destruct (Z.ltb_spec 0 0) as [Hc|_]; [lia|].
  destruct (Z.ltb_spec n 0) as [Hc|_]; [lia|].
  rewrite (Z.min_l 0 (len l)) by apply len_nonneg. rewrite (Z.min_l n (len l)) by lia.
  change (Z.to_nat 0) with 0%nat. rewrite drop_0, length_take.
  unfold len in Hn. lia.
Qed.

Lemma fmap_const_seq {A : Type} (f : nat -> A) (x : A) (n : nat) :
  forall k, (forall i, f i = x) -> f <$> seq k n = replicate n x.
Proof.
  induction n as [|n IH]; intros k Hf; [reflexivity|].
  cbn [seq fmap list_fmap replicate]. rewrite Hf. f_equal. now apply IH.
Qed.

(** X12: on a terminal of at least 13 columns and 9 rows the calibration
    screen has one line per row of the terminal, each as wide as the
    terminal, except the last, which leaves the last cell free: the
    calibration screen fills the cells the frames fill. *)
Theorem calibration_boxes_grid (w h : Z) (use_halfblocks : bool) :
  13 <= w -> 9 <= h ->
  len <$> VxtScreen.calibration_boxes w h use_halfblocks
  = replicate (Z.to_nat (h - 1)) w ++ [w - 1].
Proof.
  intros Hw Hh. unfold VxtScreen.calibration_boxes.
  set (mid := fun n : nat => if Z.of_nat n mod 2 =? 0 then _ else _).
  set (lines := (_ ++ [VxtScreen.times [VxtScreen.SP] (w - 1)])).
  assert (Hlines : len <$> lines = replicate (Z.to_nat (h - 1)) w ++ [w - 1]).
  { subst lines. rewrite !fmap_app.
    assert (Hmid : len <$> (mid <$> seq 0 (Z.to_nat (h - 9)))
                   = replicate (Z.to_nat (h - 9)) w).
    { rewrite <- list_fmap_compose. apply fmap_const_seq. intros i.
      unfold compose, mid, len.
      destruct (Z.of_nat i mod 2 =? 0); rewrite !length_app, times_one_length;
        cbn [length]; lia. }
    rewrite Hmid.
    replace (Z.to_nat (h - 1)) with (6 + Z.to_nat (h - 9) + 2)%nat by lia.
    rewrite !replicate_add. cbn [fmap list_fmap replicate]. unfold len.
    rewrite !length_app, !times_one_length, slice_head_length.
    - cbn [length]. rewrite <- !app_assoc. cbn [app]. repeat f_equal; lia.
    - unfold len. rewrite times_two_length. lia. }
  clearbody lines. destruct use_halfblocks; cbn [negb]; [exact Hlines|].
  rewrite <- Hlines. apply list_eq. intros i.
  rewrite !list_lookup_fmap.
  destruct (Nat.eq_dec i 3%nat) as [->|Hne].
  - rewrite list_lookup_alter. destruct (decide (3%nat = 3%nat)) as [_|Hc]; [|congruence].
    rewrite <- option_fmap_compose. apply option_fmap_ext. intros ln.
    unfold compose, len, VxtScreen.replace. now rewrite !length_fmap.
  - now rewrite list_lookup_alter_ne by congruence.
Qed.

Lemma pop_empty_rev_empties {A : Type} (e r : list (list A)) :
  Forall (fun x => x = []) e ->
  VxtScreen.pop_empty_rev (e ++ r) = VxtScreen.pop_empty_rev r.
Proof.
  induction 1 as [|x e Hx _ IH]; [reflexivity|]. subst x. exact IH.
Qed.

(** Popping the empty rows at the end leaves the rows up to the last one
    that is not empty. *)
Lemma pop_empty_tail {A : Type} (r e : list (list A)) (x : list A) :
  x <> [] -> Forall (fun x => x = []) e ->
  VxtScreen.pop_empty ((r ++ [x]) ++ e) = r ++ [x].
Proof.
  intros Hx He. unfold VxtScreen.pop_empty.
  rewrite reverse_app, pop_empty_rev_empties by (now apply Forall_reverse).
  rewrite reverse_snoc.
  destruct x as [|a x]; [congruence|]. cbn [VxtScreen.pop_empty_rev].
  now rewrite reverse_cons, reverse_involutive.
Qed.

Lemma py_range_up (a b step : Z) (n : nat) :
  0 < step ->
  Z.of_nat n = Z.max 0 ((b - a + step - 1) / step) ->
  VxtScreen.py_range a b step = Ok ((fun i => a + Z.of_nat i * step) <$> seq 0 n).
Proof.
  intros Hs Hn. unfold VxtScreen.py_range.
  destruct (Z.eqb_spec step 0) as [Hc|_]; [lia|].
  destruct (Z.ltb_spec 0 step) as [_|Hc]; [|lia].
  do 3 f_equal. lia.
Qed.

(** The item of a concatenation of rows of which those before row [r] have
    [n] items. *)
Lemma lookup_concat_rows {A : Type} (n : nat) (rows : list (list A)) :
  forall r row c,
    (forall i x, (i < r)%nat -> rows !! i = Some x -> length x = n) ->
    rows !! r = Some row ->
    (c < length row)%nat ->
    concat rows !! (r * n + c)%nat = row !! c.
Proof.
  induction rows as [|x rows IH]; intros r row c Hpre Hr Hc; [discriminate|].
  destruct r as [|r]; cbn [concat].
  - injection Hr as ->. cbn [Nat.mul Nat.add]. now apply lookup_app_l.
  - assert (Hx : length x = n) by (apply (Hpre 0%nat); [lia|reflexivity]).
    rewrite lookup_app_r by (cbn [Nat.mul]; lia).
    replace (S r * n + c - length x)%nat with (r * n + c)%nat by (cbn [Nat.mul]; lia).
    apply IH; [|exact Hr|exact Hc].
    intros i y Hi Hy. apply (Hpre (S i)); [lia|exact Hy].
Qed.

Lemma concat_length_rows {A : Type} (n : nat) (rows : list (list A)) :
  forall r row,
    length rows = S r ->
    (forall i x, (i < r)%nat -> rows !! i = Some x -> length x = n) ->
    rows !! r = Some row ->
    length (concat rows) = (r * n + length row)%nat.
Proof.
  induction rows as [|x rows IH]; intros r row Hl Hpre Hr; [discriminate|].
  destruct r as [|r]; cbn [concat].
  - injection Hr as ->. destruct rows; [|discriminate]. cbn [concat].
    rewrite app_nil_r. reflexivity.
  - assert (Hx : length x = n) by (apply (Hpre 0%nat); [lia|reflexivity]).
    rewrite length_app, (IH r row); [cbn [Nat.mul]; lia| | |exact Hr].
    + cbn [length] in Hl. lia.
    + intros i y Hi Hy. apply (Hpre (S i)); [lia|exact Hy].
Qed.

Lemma lookup_take_drop {A : Type} (l : list A) (a n c : nat) :
  (c < n)%nat -> take n (drop a l) !! c = l !! (a + c)%nat.
Proof. intros Hc. now rewrite lookup_take_lt, lookup_drop by exact Hc. Qed.

Lemma lookup_nth {A : Type} (l : list A) (i : nat) (d : A) :
  (i < length l)%nat -> l !! i = Some (nth i l d).
Proof.
  intros Hi. destruct (lookup_lt_is_Some_2 l i Hi) as [x Hx].
  now rewrite (nth_lookup_Some _ _ d _ Hx).
Qed.

Section Screen.
Variables (w h : Z) (halfs : bool) (bits : list bool).
Hypothesis wide : 2 <= w.
Hypothesis high : 1 <= h.
Local Notation "'y'" := (if halfs then 2 else 1).
Hypothesis full : len bits = (w * h - 1) * y.

Local Notation "'W'" := (Z.to_nat w).
Local Notation "'F'" := (Z.to_nat (w * (h - 1) * y)).
Local Notation "'Y'" := (if halfs then 2%nat else 1%nat).

Local Notation "'screen_rows'" := (ScreenSpec.rows w h halfs bits).

Lemma F_eq : F = (Z.to_nat (h - 1) * Y * W)%nat.
Proof using wide high.
  clear full. destruct halfs; nia.
Qed.

Lemma bits_length : length bits = (F + Y * (W - 1))%nat.
Proof using wide high full.
  pose proof full as Hf. unfold len in Hf. rewrite F_eq. destruct halfs; nia.
Qed.

Lemma screen_rows_eq :
  exists r1 r2,
    VxtScreen.py_range 0 (w * (h - 1) * y) w = Ok r1
    /\ VxtScreen.py_range (w * (h - 1) * y) (w * (h - 1) * y + w * 2) (w - 1) = Ok r2
    /\ VxtScreen.pop_empty
         (((fun x => VxtFrame.slice x (x + w) bits) <$> r1)
          ++ ((fun x => VxtFrame.slice x (x + w - 1) bits) <$> r2))
       = screen_rows.
Proof using wide high full.
  set (Fz := w * (h - 1) * y).
  assert (HF : 0 <= Fz) by (subst Fz; destruct halfs; nia).
  (* the rows of full width *)
  assert (Hn1 : Z.of_nat (Z.to_nat (h - 1) * Y) = Z.max 0 ((Fz - 0 + w - 1) / w)).
  { assert (E : (Fz - 0 + w - 1) / w = (h - 1) * y).
    { symmetry. apply (Z.div_unique_pos _ _ _ (w - 1)); [lia|]. subst Fz. lia. }
    rewrite E. destruct halfs; lia. }
  rewrite (py_range_up 0 Fz w _ ltac:(lia) Hn1).
  (* the rows after them *)
  set (n2 := Z.to_nat ((Fz + w * 2 - Fz + (w - 1) - 1) / (w - 1))).
  assert (Hn2 : Z.of_nat n2 = Z.max 0 ((Fz + w * 2 - Fz + (w - 1) - 1) / (w - 1)))
    by (subst n2; lia).
  assert (H3 : (3 <= n2)%nat).
  { subst n2. apply Nat2Z.inj_le. rewrite Z2Nat.id.
    - apply Z.div_le_lower_bound; lia.
    - apply Z.div_pos; lia. }
  rewrite (py_range_up Fz (Fz + w * 2) (w - 1) n2 ltac:(lia) Hn2).
  eexists. eexists. split; [reflexivity|]. split; [reflexivity|].
  rewrite <- !list_fmap_compose. unfold compose.
  assert (Hrows1 : (fun i : nat => VxtFrame.slice (0 + Z.of_nat i * w) (0 + Z.of_nat i * w + w) bits)
                   <$> seq 0 (Z.to_nat (h - 1) * Y)
                   = (fun i => take W (drop (i * W) bits)) <$> seq 0 (Z.to_nat (h - 1) * Y)).
  { apply list_fmap_ext. intros _ i _. rewrite slice_plain by lia.
    f_equal; [lia|]. f_equal. lia. }
  rewrite Hrows1.
  assert (Hrow2 : forall j : nat,
             VxtFrame.slice (Fz + Z.of_nat j * (w - 1)) (Fz + Z.of_nat j * (w - 1) + w - 1) bits
             = take (W - 1) (drop (F + j * (W - 1)) bits)).
  { intros j. rewrite slice_plain by nia. f_equal; [lia|]. f_equal. subst Fz. nia. }
  replace n2 with (Y + (n2 - Y))%nat by (destruct halfs; lia).
  rewrite seq_app, fmap_app. cbn [Nat.add].
  assert (Hlast : exists r x, x <> []
            /\ (fun j : nat => VxtFrame.slice (Fz + Z.of_nat j * (w - 1))
                                 (Fz + Z.of_nat j * (w - 1) + w - 1) bits) <$> seq 0 Y
               = r ++ [x]
            /\ (fun j => take (W - 1) (drop (F + j * (W - 1)) bits)) <$> seq 0 Y = r ++ [x]).
  { pose proof bits_length as Hlen.
    destruct halfs; cbn [seq fmap list_fmap]; rewrite !Hrow2.
    - eexists [_], _. split; [|split; reflexivity].
      intros E. apply (f_equal length) in E. rewrite length_take, length_drop in E.
      cbn [length] in E. lia.
    - eexists [], _. split; [|split; reflexivity].
      intros E. apply (f_equal length) in E. rewrite length_take, length_drop in E.
      cbn [length] in E. lia. }
  destruct Hlast as (r & x & Hx & E1 & E2).
  unfold ScreenSpec.rows. rewrite E1, E2, !app_assoc.
  apply pop_empty_tail; [exact Hx|].
  apply Forall_fmap, Forall_forall. intros j Hj. unfold compose.
  apply elem_of_seq in Hj. rewrite Hrow2.
  pose proof bits_length as Hlen.
  rewrite drop_ge; [apply take_nil|]. destruct halfs; nia.
Qed.

Lemma rows_count : length screen_rows = (Z.to_nat h * Y)%nat.
Proof using high.
  clear full. unfold ScreenSpec.rows. rewrite length_app, !length_fmap, !length_seq.
  destruct halfs; lia.
Qed.

Lemma rows_wide (i : nat) :
  (i < Z.to_nat (h - 1) * Y)%nat ->
  screen_rows !! i = Some (take W (drop (i * W) bits))
  /\ length (take W (drop (i * W) bits)) = W.
Proof using wide high full.
  intros Hi. split.
  - unfold ScreenSpec.rows. rewrite lookup_app_l by (now rewrite length_fmap, length_seq).
    rewrite list_lookup_fmap, lookup_seq_lt by exact Hi. reflexivity.
  - rewrite length_take, length_drop, bits_length, F_eq. nia.
Qed.

Lemma rows_last (j : nat) :
  (j < Y)%nat ->
  screen_rows !! (Z.to_nat (h - 1) * Y + j)%nat
  = Some (take (W - 1) (drop (F + j * (W - 1)) bits))
  /\ length (take (W - 1) (drop (F + j * (W - 1)) bits)) = (W - 1)%nat.
Proof using wide high full.
  intros Hj. split.
  - unfold ScreenSpec.rows. rewrite lookup_app_r by (rewrite length_fmap, length_seq; lia).
    rewrite length_fmap, length_seq.
    replace (Z.to_nat (h - 1) * Y + j - Z.to_nat (h - 1) * Y)%nat with j by lia.
    rewrite list_lookup_fmap, lookup_seq_lt by exact Hj. reflexivity.
  - rewrite length_take, length_drop, bits_length. nia.
Qed.

(** The bit in column [c] of row [i] of bits. *)
Lemma rows_bit (i c : nat) :
  (i < Z.to_nat h * Y)%nat ->
  (c < (if (i <? Z.to_nat (h - 1) * Y)%nat then W else W - 1))%nat ->
  exists row,
    screen_rows !! i = Some row
    /\ length row = (if (i <? Z.to_nat (h - 1) * Y)%nat then W else W - 1)%nat
    /\ row !! c
       = Some (nth (i * W - (i - Z.to_nat (h - 1) * Y) + c) bits false).
Proof using wide high full.
  intros Hi Hc. pose proof bits_length as Hlen. pose proof F_eq as HF.
  destruct (Nat.ltb_spec i (Z.to_nat (h - 1) * Y)) as [Hlt|Hge].
  - destruct (rows_wide i Hlt) as [Hrow Hl]. eexists. split; [exact Hrow|].
    split; [exact Hl|].
    rewrite lookup_take_drop by exact Hc.
    replace (i * W - (i - Z.to_nat (h - 1) * Y) + c)%nat with (i * W + c)%nat by lia.
    apply lookup_nth. nia.
  - destruct (rows_last (i - Z.to_nat (h - 1) * Y)) as [Hrow Hl].
    { clear Hlen HF Hc. destruct halfs; lia. }
    replace (Z.to_nat (h - 1) * Y + (i - Z.to_nat (h - 1) * Y))%nat with i in Hrow by lia.
    eexists. split; [exact Hrow|]. split; [exact Hl|].
    rewrite lookup_take_drop by exact Hc.
    assert (Hj : (i - Z.to_nat (h - 1) * Y < Y)%nat).
    { clear Hlen HF Hc Hrow Hl. destruct halfs; lia. }
    replace (F + (i - Z.to_nat (h - 1) * Y) * (W - 1) + c)%nat
      with (i * W - (i - Z.to_nat (h - 1) * Y) + c)%nat by nia.
    apply lookup_nth. nia.
Qed.

(** The cells without half blocks: one bit each, row after row. *)
Lemma cells_plain :
  halfs = false ->
  exists scr,
    VxtScreen.screen w h halfs bits = Ok scr
    /\ length scr = (Z.to_nat h * W - 1)%nat
    /\ forall r c,
         (r < Z.to_nat h)%nat ->
         (c < (if (r =? Z.to_nat h - 1)%nat then W - 1 else W))%nat ->
         scr !! (r * W + c)%nat = Some (VxtScreen.cell (nth (r * W + c) bits false)).
Proof using wide high full.
  intros Hh.
  destruct screen_rows_eq as (r1 & r2 & E1 & E2 & Erows).
  unfold VxtScreen.screen. rewrite E1. cbn [bind]. rewrite E2. cbn [bind].
  rewrite Erows. clear r1 r2 E1 E2 Erows.
  pose proof rows_count as Hcount. pose proof rows_bit as Hbit.
  rewrite Hh in Hcount, Hbit |- *. cbn [negb].
  set (rows := ScreenSpec.rows w h false bits) in *.
  set (shown := (fun row : list bool => VxtScreen.cell <$> row) <$> rows).
  assert (Hrow : forall r c,
             (r < Z.to_nat h)%nat ->
             (c < (if (r =? Z.to_nat h - 1)%nat then W - 1 else W))%nat ->
             exists row,
               shown !! r = Some row
               /\ length row = (if (r =? Z.to_nat h - 1)%nat then W - 1 else W)%nat
               /\ row !! c = Some (VxtScreen.cell (nth (r * W + c) bits false))).
  { intros r c Hr Hc.
    assert (Hsame : (r <? Z.to_nat (h - 1) * 1)%nat = negb (r =? Z.to_nat h - 1)%nat).
    { destruct (Nat.ltb_spec r (Z.to_nat (h - 1) * 1)), (Nat.eqb_spec r (Z.to_nat h - 1));
        cbn [negb]; lia. }
    destruct (Hbit r c ltac:(lia)) as (row & Hrow & Hlen & Hcell).
    { rewrite Hsame. destruct (r =? Z.to_nat h - 1)%nat; exact Hc. }
    exists (VxtScreen.cell <$> row). subst shown.
    rewrite !list_lookup_fmap, Hrow, Hcell, length_fmap, Hlen, Hsame.
    split; [reflexivity|]. split; [now destruct (r =? Z.to_nat h - 1)%nat|].
    cbn [fmap option_fmap option_map]. do 3 f_equal. lia. }
  eexists. split; [reflexivity|]. split.
  - destruct (Hrow (Z.to_nat h - 1)%nat 0%nat ltac:(lia)) as (row & Hlast & Hlen & _).
    { rewrite Nat.eqb_refl. lia. }
    rewrite (concat_length_rows W shown (Z.to_nat h - 1) row).
    + rewrite Hlen, Nat.eqb_refl. nia.
    + subst shown. rewrite length_fmap. lia.
    + intros i x Hi Hx. destruct (Hrow i 0%nat ltac:(lia)) as (row' & Hr' & Hl' & _).
      { destruct (Nat.eqb_spec i (Z.to_nat h - 1)); lia. }
      rewrite Hx in Hr'. injection Hr' as ->. rewrite Hl'.
      destruct (Nat.eqb_spec i (Z.to_nat h - 1)); lia.
    + exact Hlast.
  - intros r c Hr Hc. destruct (Hrow r c Hr Hc) as (row & Hr' & Hl' & Hcell).
    rewrite <- Hcell. apply lookup_concat_rows; [|exact Hr'|rewrite Hl'; exact Hc].
    intros i x Hi Hx. destruct (Hrow i 0%nat ltac:(lia)) as (row' & Hr'' & Hl'' & _).
    { destruct (Nat.eqb_spec i (Z.to_nat h - 1)); lia. }
    rewrite Hx in Hr''. injection Hr'' as ->. rewrite Hl''.
    destruct (Nat.eqb_spec i (Z.to_nat h - 1)); lia.
Qed.

(** The cells with half blocks: two bits each, the upper from one row of
    bits and the lower from the next. *)
Lemma cells_halfs :
  halfs = true ->
  exists scr,
    VxtScreen.screen w h halfs bits = Ok scr
    /\ length scr = (Z.to_nat h * W - 1)%nat
    /\ forall r c,
         (r < Z.to_nat h)%nat ->
         (c < (if (r =? Z.to_nat h - 1)%nat then W - 1 else W))%nat ->
         scr !! (r * W + c)%nat
         = Some (VxtScreen.cell2
                   (nth (2 * r * W + c) bits false)
                   (nth (2 * r * W + (if (r =? Z.to_nat h - 1)%nat then W - 1 else W) + c)
                      bits false)).
Proof using wide high full.
  intros Hh.
  destruct screen_rows_eq as (r1 & r2 & E1 & E2 & Erows).
  unfold VxtScreen.screen. rewrite E1. cbn [bind]. rewrite E2. cbn [bind].
  rewrite Erows. clear r1 r2 E1 E2 Erows.
  pose proof rows_count as Hcount. pose proof rows_bit as Hbit.
  rewrite Hh in Hcount, Hbit |- *. cbn [negb].
  set (rows := ScreenSpec.rows w h true bits) in *.
  set (shown := (fun rr : list bool * list bool =>
                   (fun vv : bool * bool => VxtScreen.cell2 vv.1 vv.2) <$> zip rr.1 rr.2)
                <$> zip (Seq.every 2 0 rows) (Seq.every 2 1 rows)).
  assert (Hrow : forall r c,
             (r < Z.to_nat h)%nat ->
             (c < (if (r =? Z.to_nat h - 1)%nat then W - 1 else W))%nat ->
             exists row,
               shown !! r = Some row
               /\ length row = (if (r =? Z.to_nat h - 1)%nat then W - 1 else W)%nat
               /\ row !! c
                  = Some (VxtScreen.cell2
                            (nth (2 * r * W + c) bits false)
                            (nth (2 * r * W
                                  + (if (r =? Z.to_nat h - 1)%nat then W - 1 else W) + c)
                               bits false))).
  { intros r c Hr Hc.
    assert (Hs1 : (2 * r <? Z.to_nat (h - 1) * 2)%nat = negb (r =? Z.to_nat h - 1)%nat).
    { destruct (Nat.ltb_spec (2 * r) (Z.to_nat (h - 1) * 2)),
        (Nat.eqb_spec r (Z.to_nat h - 1)); cbn [negb]; lia. }
    assert (Hs2 : (2 * r + 1 <? Z.to_nat (h - 1) * 2)%nat = negb (r =? Z.to_nat h - 1)%nat).
    { destruct (Nat.ltb_spec (2 * r + 1) (Z.to_nat (h - 1) * 2)),
        (Nat.eqb_spec r (Z.to_nat h - 1)); cbn [negb]; lia. }
    destruct (Hbit (2 * r)%nat c ltac:(lia)) as (ra & Hra & Hla & Hca).
    { rewrite Hs1. destruct (r =? Z.to_nat h - 1)%nat; exact Hc. }
    destruct (Hbit (2 * r + 1)%nat c ltac:(lia)) as (rb & Hrb & Hlb & Hcb).
    { rewrite Hs2. destruct (r =? Z.to_nat h - 1)%nat; exact Hc. }
    rewrite Hs1 in Hla. rewrite Hs2 in Hlb.
    exists ((fun vv : bool * bool => VxtScreen.cell2 vv.1 vv.2) <$> zip ra rb).
    split; [|split].
    - subst shown. rewrite list_lookup_fmap, lookup_zip_with, !every_lookup by lia.
      replace (0 + r * 2)%nat with (2 * r)%nat by lia.
      replace (1 + r * 2)%nat with (2 * r + 1)%nat by lia.
      rewrite Hra, Hrb. reflexivity.
    - rewrite length_fmap, length_zip_with, Hla, Hlb.
      destruct (r =? Z.to_nat h - 1)%nat; cbn [negb]; lia.
    - rewrite list_lookup_fmap, lookup_zip_with, Hca, Hcb.
      cbn [mbind option_bind]. cbn [fmap option_fmap option_map fst snd].
      do 2 f_equal; f_equal.
      + destruct (Nat.eqb_spec r (Z.to_nat h - 1)); nia.
      + destruct (Nat.eqb_spec r (Z.to_nat h - 1)); nia. }
  eexists. split; [reflexivity|]. split.
  - destruct (Hrow (Z.to_nat h - 1)%nat 0%nat ltac:(lia)) as (row & Hlast & Hlen & _).
    { rewrite Nat.eqb_refl. lia. }
    rewrite (concat_length_rows W shown (Z.to_nat h - 1) row).
    + rewrite Hlen, Nat.eqb_refl. nia.
    + subst shown. rewrite length_fmap, length_zip_with.
      rewrite (every_length_aligned 2 0 (Z.to_nat h) rows) by lia.
      rewrite (every_length_aligned 2 1 (Z.to_nat h) rows) by lia. lia.
    + intros i x Hi Hx. destruct (Hrow i 0%nat ltac:(lia)) as (row' & Hr' & Hl' & _).
      { destruct (Nat.eqb_spec i (Z.to_nat h - 1)); lia. }
      rewrite Hx in Hr'. injection Hr' as ->. rewrite Hl'.
      destruct (Nat.eqb_spec i (Z.to_nat h - 1)); lia.
    + exact Hlast.
  - intros r c Hr Hc. destruct (Hrow r c Hr Hc) as (row & Hr' & Hl' & Hcell).
    rewrite <- Hcell. apply lookup_concat_rows; [|exact Hr'|rewrite Hl'; exact Hc].
    intros i x Hi Hx. destruct (Hrow i 0%nat ltac:(lia)) as (row' & Hr'' & Hl'' & _).
    { destruct (Nat.eqb_spec i (Z.to_nat h - 1)); lia. }
    rewrite Hx in Hr''. injection Hr'' as ->. rewrite Hl''.
    destruct (Nat.eqb_spec i (Z.to_nat h - 1)); lia.
Qed.

(** [rasterize] succeeds on a frame of the size of the screen, and shows
    something. *)
Lemma screen_total :
  exists scr,
    VxtScreen.screen w h halfs bits = Ok scr /\ length scr = (Z.to_nat h * W - 1)%nat.
Proof using wide high full.
  destruct (Sumbool.sumbool_of_bool halfs) as [E|E].
  - destruct (cells_halfs E) as (scr & H1 & H2 & _). eauto.
  - destruct (cells_plain E) as (scr & H1 & H2 & _). eauto.
Qed.

End Screen.

(** ** Dotmatrix frames: the bits of a frame *)

Section FrameBits.
Variable sha512 : list byte -> list byte.
Hypothesis digest_length : forall m, length (sha512 m) = 64%nat.
Variable fs : list byte -> option (list byte).
Variables (fls : list XferSpec.sent) (cfg : Vxt.config) (w h : Z) (halfs : bool).
Hypothesis init_ok : Vxt.init (fst <$> fls) w h halfs = Ok cfg.
Hypothesis fls_wf : Forall XferSpec.wf fls.
Hypothesis figs_distinct : NoDup (Vxt.figs cfg).
Hypothesis fs_ok : forall x, x ∈ fls -> fs (Vxt.f_fn x.1) = Some x.2.
Hypothesis headers_small :
  forall x hd, x ∈ fls -> XferSpec.header sha512 x = Ok hd -> len hd <= 35000.
Hypothesis nbits_small : Vxt.nbits cfg <= 279986.
Variable ps : list (list byte).
Hypothesis pieces_ok : WireSpec.pieces sha512 fls = Ok ps.
Hypothesis count_small : len fls < 2 ^ 63.
Hypothesis total_small : XferSpec.sizes fls < 2 ^ 63.

Lemma figs_made : Vxt.make_figs (fst <$> fls) = Ok (Vxt.figs cfg).
Proof using init_ok.
  pose proof init_ok as H. unfold Vxt.init in H.
  destruct (Vxt.make_figs (fst <$> fls)) as [fg| |]; cbn [bind] in H; try discriminate.
  destruct (Vle.enc_vle 1) as [v| |]; cbn [bind] in H; try discriminate.
  destruct (Vle.enc_vle (len (fst <$> fls))) as [nf| |]; cbn [bind] in H; try discriminate.
  destruct (Vle.enc_vle _) as [nb| |]; cbn [bind] in H; try discriminate.
  injection H as H. rewrite <- H. reflexivity.
Qed.

(** Figment [i] belongs to file [i / 2]: its header when [i] is even, its
    content when [i] is odd. *)
Lemma fig_cases (i : nat) (fg : Vxt.fig) :
  Vxt.figs cfg !! i = Some fg ->
  exists k x hd,
    fls !! k = Some x
    /\ XferSpec.header sha512 x = Ok hd
    /\ Vxt.figs cfg !! (2 * k)%nat
       = Some (Vxt.Header (Vxt.f_fn x.1) (Vxt.f_sz x.1) (Vxt.f_ts x.1) (len hd))
    /\ Vxt.figs cfg !! (2 * k + 1)%nat = Some (Vxt.Payload (Vxt.f_sz x.1))
    /\ ps !! (2 * k)%nat = Some hd
    /\ ps !! (2 * k + 1)%nat = Some x.2
    /\ (i = (2 * k)%nat \/ i = (2 * k + 1)%nat).
Proof using init_ok digest_length pieces_ok.
  intros Hi.
  destruct (make_figs_spec sha512 digest_length fls _ figs_made) as (ps' & Hps & Hl1 & _ & Hk).
  rewrite pieces_ok in Hps. injection Hps as <-.
  apply lookup_lt_Some in Hi as Hlt. rewrite Hl1 in Hlt.
  pose proof (Nat.div_mod_eq i 2) as Hdm.
  pose proof (Nat.mod_upper_bound i 2 ltac:(lia)) as Hm.
  destruct (lookup_lt_is_Some_2 fls (i / 2)%nat ltac:(lia)) as [x Hx].
  destruct (Hk _ x Hx) as (hd & H1 & H2 & H3 & H4 & H5).
  exists (i / 2)%nat, x, hd. repeat split; try assumption. lia.
Qed.

Lemma fig_piece (i : nat) (fg : Vxt.fig) :
  Vxt.figs cfg !! i = Some fg ->
  exists p, ps !! i = Some p /\ Vxt.fig_len fg = len p.
Proof using init_ok digest_length pieces_ok fls_wf.
  intros Hi.
  destruct (fig_cases i fg Hi) as (k & x & hd & Hx & Hh & F0 & F1 & P0 & P1 & [->| ->]).
  - rewrite F0 in Hi. injection Hi as <-. exists hd. now split.
  - rewrite F1 in Hi. injection Hi as <-. exists x.2. split; [exact P1|].
    apply list_elem_of_lookup_2 in Hx.
    rewrite Forall_forall in fls_wf. now destruct (fls_wf x Hx) as (-> & _).
Qed.

Lemma figs_nonneg : Forall (fun f => 0 <= Vxt.fig_len f) (Vxt.figs cfg).
Proof using init_ok digest_length pieces_ok fls_wf.
  apply Forall_lookup. intros i fg Hi.
  destruct (fig_piece i fg Hi) as (p & _ & ->). apply len_nonneg.
Qed.

Lemma offset_pieces (i : nat) :
  (i <= length (Vxt.figs cfg))%nat ->
  FrameSpec.offset cfg i = 8 * len (concat (take i ps)).
Proof using init_ok digest_length pieces_ok fls_wf.
  induction i as [|i IH]; intros Hi; [reflexivity|].
  destruct (lookup_lt_is_Some_2 (Vxt.figs cfg) i ltac:(lia)) as [fg Hfg].
  destruct (fig_piece i fg Hfg) as (p & Hp & Hl).
  rewrite (offset_S cfg i fg Hfg), IH by lia.
  rewrite (take_S_r _ _ _ Hp), concat_app. cbn [concat]. rewrite app_nil_r.
  unfold len in *. rewrite length_app. lia.
Qed.


(** The bits a chunk adds to its frame are its part of the stream. *)
Lemma chunk_bits_span (c : Vxt.chunk) :
  FrameSpec.chunk_ok cfg c ->
  Vxt.bit2 c - Vxt.bit1 c <= Vxt.nbits cfg ->
  VxtFrame.chunk_bits sha512 fs cfg c
  = Ok (WireSpec.span (concat ps) (FrameSpec.start cfg c) (FrameSpec.stop cfg c)).
Proof using All.
  intros (fg & Hfg & Hb1 & Hb2) Hsize.
  destruct (fig_piece _ fg Hfg) as (p & Hp & Hlen).
  assert (Hspan : take (Z.to_nat (Vxt.bit2 c - Vxt.bit1 c))
                       (drop (Z.to_nat (Vxt.bit1 c)) (Bits.bstr2bits p))
                  = WireSpec.span (concat ps) (FrameSpec.start cfg c) (FrameSpec.stop cfg c)).
  { unfold FrameSpec.start, FrameSpec.stop.
    rewrite offset_pieces by (apply lookup_lt_Some in Hfg; lia).
    apply span_piece; [exact Hp|lia|lia]. }
  destruct (fig_cases _ fg Hfg) as (k & x & hd & Hx & Hh & F0 & F1 & P0 & P1 & Hi).
  assert (Hin : x ∈ fls) by (eapply list_elem_of_lookup_2; exact Hx).
  unfold VxtFrame.chunk_bits. rewrite Hfg.
  destruct Hi as [Hi|Hi]; rewrite Hi in Hfg, Hp.
  - (* a header *)
    rewrite F0 in Hfg. injection Hfg as <-. rewrite P0 in Hp. injection Hp as <-.
    unfold VxtFrame.real_header, VxtFrame.open_rb. rewrite (fs_ok x Hin). cbn [bind].
    assert (Hx1 : Vxt.mkFile (Vxt.f_fn x.1) (Vxt.f_sz x.1) (Vxt.f_ts x.1) = x.1)
      by now destruct x as [[fn sz ts] d].
    rewrite Hx1. fold (XferSpec.csum sha512 x). fold (XferSpec.header sha512 x).
    rewrite Hh. cbn [bind]. unfold Vxt.bstr2bits.
    destruct (Z.ltb_spec 35000 (len hd)) as [Hc|_];
      [pose proof (headers_small x hd Hin Hh); lia|].
    cbn [bind]. rewrite slice_plain by lia. now rewrite Hspan.
  - (* a payload *)
    rewrite F1 in Hfg. injection Hfg as <-. rewrite P1 in Hp. injection Hp as <-.
    cbn [Vxt.fig_len] in Hlen, Hb2.
    rewrite (index_NoDup _ figs_distinct _ _ F1). cbn [bind].
    unfold VxtFrame.item.
    replace (Z.of_nat (2 * k + 1) - 1) with (Z.of_nat (2 * k)) by lia.
    destruct (Z.ltb_spec (Z.of_nat (2 * k)) 0) as [Hc|_]; [lia|].
    destruct (Z.ltb_spec (Z.of_nat (2 * k)) 0) as [Hc|_]; [lia|].
    rewrite Nat2Z.id, F0. cbn [bind].
    unfold VxtFrame.open_rb. rewrite (fs_ok x Hin). cbn [bind].
    pose proof (Z.div_mod (Vxt.bit1 c) 8 ltac:(lia)) as Hdm1.
    pose proof (Z.mod_pos_bound (Vxt.bit1 c) 8 ltac:(lia)) as Hm1.
    rewrite Z.quot_div_nonneg by lia.
    pose proof (Z.div_mod (Vxt.bit2 c + 7) 8 ltac:(lia)) as Hdm2.
    pose proof (Z.mod_pos_bound (Vxt.bit2 c + 7) 8 ltac:(lia)) as Hm2.
    set (byte1 := Vxt.bit1 c / 8) in *.
    set (q2 := (Vxt.bit2 c + 7) / 8) in *.
    assert (Hbyte2 : (if Vxt.f_sz x.1 <? q2 then Vxt.f_sz x.1 else q2)
                     = Z.min q2 (len x.2)).
    { rewrite Hlen. destruct (Z.ltb_spec (len x.2) q2); lia. }
    rewrite Hbyte2. set (byte2 := Z.min q2 (len x.2)).
    assert (Hneed : 0 < byte2 - byte1 <= 35000).
    { subst byte2. split; [apply Z.min_case; lia|].
      assert (q2 - byte1 <= 35000) by lia. lia. }
    destruct (Z.ltb_spec byte1 0) as [Hc|_]; [lia|].
    destruct (Z.ltb_spec (byte2 - byte1) 0) as [Hc|_]; [lia|].
    assert (Hbuf : len (take (Z.to_nat (byte2 - byte1)) (drop (Z.to_nat byte1) x.2))
                   = byte2 - byte1).
    { unfold len in *. rewrite length_take, length_drop. subst byte2. lia. }
    rewrite Hbuf. rewrite Z.ltb_irrefl.
    unfold Vxt.bstr2bits. rewrite Hbuf.
    destruct (Z.ltb_spec 35000 (byte2 - byte1)) as [Hc|_]; [lia|].
    cbn [bind].
    set (bits := Bits.bstr2bits _).
    assert (Hbits : len bits = 8 * (byte2 - byte1)).
    { unfold len in *. subst bits. rewrite bstr2bits_length. lia. }
    rewrite (slice_plain (Vxt.bit1 c mod 8) (len bits)) by lia.
    rewrite (take_ge (drop _ bits)) by (rewrite length_drop; unfold len; lia).
    rewrite slice_plain by lia. rewrite Z.sub_0_r.
    change (Z.to_nat 0) with 0%nat. rewrite drop_0.
    subst bits byte1 byte2 q2.
    rewrite (payload_slice x.2 (Vxt.bit1 c) (Vxt.bit2 c)) by lia.
    now rewrite Hspan.
Qed.


Lemma chunk_size_le (cs : list Vxt.chunk) :
  forall p, FrameSpec.chain cfg p cs ->
            Forall (fun c => Vxt.bit2 c - Vxt.bit1 c <= WireSpec.size cs) cs
            /\ 0 <= WireSpec.size cs.
Proof using Type.
  induction cs as [|c cs IH]; intros p; cbn [FrameSpec.chain].
  - intros _. split; [constructor|]. unfold WireSpec.size. cbn. lia.
  - intros ((fg & _ & Hb & _) & _ & Hc). destruct (IH _ Hc) as [Hall Hpos].
    assert (Hsz : WireSpec.size (c :: cs) = (Vxt.bit2 c - Vxt.bit1 c) + WireSpec.size cs)
      by reflexivity.
    rewrite Hsz. split; [|lia].
    constructor; [lia|]. eapply Forall_impl; [exact Hall|]. cbn. intros; lia.
Qed.

Lemma chunks_bits_span (cs : list Vxt.chunk) :
  forall p acc,
    0 <= p -> FrameSpec.chain cfg p cs ->
    Forall (fun c => Vxt.bit2 c - Vxt.bit1 c <= Vxt.nbits cfg) cs ->
    VxtFrame.chunks_bits sha512 fs cfg cs acc
    = Ok (acc ++ WireSpec.span (concat ps) p (FrameSpec.chain_end cfg p cs)).
Proof using All.
  induction cs as [|c cs IH]; intros p acc Hp Hch Hsz;
    cbn [VxtFrame.chunks_bits FrameSpec.chain_end].
  - now rewrite span_empty, app_nil_r.
  - cbn [FrameSpec.chain] in Hch. destruct Hch as (Hok & Hs & Hc).
    apply Forall_cons in Hsz as [Hsz1 Hsz].
    rewrite (chunk_bits_span c Hok Hsz1). cbn [bind].
    assert (Hle : p <= FrameSpec.stop cfg c).
    { destruct Hok as (fg & _ & Hb & _). unfold FrameSpec.start, FrameSpec.stop in *. lia. }
    rewrite (IH (FrameSpec.stop cfg c) _ ltac:(lia) Hc Hsz), <- app_assoc, Hs.
    rewrite span_app; [reflexivity|lia|]. now apply chain_end_le.
Qed.

Lemma seal_frame_eq (cap : Z) (bits : list bool) :
  let body := bits ++ replicate (Z.to_nat (cap - (len bits + 32))) false in
  Vxt.seal_frame sha512 cap bits
  = Ok (Bits.bstr2bits (take 4 (sha512 (Bits.ascii_bits body))) ++ body).
Proof using Type.
  intros body. unfold Vxt.seal_frame, Vxt.bstr2bits. change (4 * 8) with 32. fold body.
  destruct (Z.ltb_spec 35000 (len (take 4 (sha512 (Bits.ascii_bits body))))) as [Hc|_];
    [|reflexivity].
  unfold len in Hc. rewrite length_take in Hc. lia.
Qed.

Lemma vle_short (v : Z) (bs : list byte) :
  0 <= v < 2 ^ 63 -> Vle.enc_vle v = Ok bs -> len bs <= 9.
Proof using Type.
  intros Hv He.
  destruct (enc_vle_loop_length (Z.to_nat (Z.log2 v)) v []) as (bs' & He' & Hl).
  { split; [lia|]. apply enc_vle_fuel. lia. }
  unfold Vle.enc_vle in He. rewrite He' in He. injection He as <-. cbn [app]. rewrite Hl.
  destruct (Z.eq_dec v 0) as [->|Hnz]; [vm_compute; discriminate|].
  assert (Z.log2 v < 63) by (apply Z.log2_lt_pow2; lia).
  assert (Z.log2 v / 7 <= 8) by (apply Z.lt_succ_r, Z.div_lt_upper_bound; lia).
  lia.
Qed.

Lemma header0_short : len (Vxt.header0 cfg) <= 27.
Proof using init_ok count_small total_small fls_wf.
  pose proof init_ok as H. unfold Vxt.init in H.
  destruct (Vxt.make_figs (fst <$> fls)) as [fg| |]; cbn [bind] in H; try discriminate.
  destruct (Vle.enc_vle 1) as [v| |] eqn:E1; cbn [bind] in H; try discriminate.
  destruct (Vle.enc_vle (len (fst <$> fls))) as [nf| |] eqn:E2; cbn [bind] in H;
    try discriminate.
  destruct (Vle.enc_vle (foldr Z.add 0 (Vxt.f_sz <$> (fst <$> fls)))) as [nb| |] eqn:E3;
    cbn [bind] in H; try discriminate.
  injection H as H. rewrite <- H. cbn [Vxt.header0].
  apply vle_short in E1; [|lia].
  apply vle_short in E2;
    [|split; [apply len_nonneg|unfold len; rewrite length_fmap; exact count_small]].
  apply vle_short in E3.
  - unfold len in *. rewrite !length_app. lia.
  - rewrite <- list_fmap_compose. change (foldr Z.add 0 _) with (XferSpec.sizes fls).
    split; [now apply sizes_nonneg|exact total_small].
Qed.

(** What [gen_frame] returns for a frame that holds data: the checksum,
    the frame number, in frame 0 the stream header, then the part of the
    stream of figments the frame is assigned, then zeros up to the size of
    the screen. *)
Lemma gen_frame_spec (n : nat) (frames frames' : list (list Vxt.chunk))
    (inf : list Vxt.chunk) :
  FrameSpec.frames_inv cfg frames ->
  WireSpec.frames_sized cfg frames ->
  Z.of_nat n < 2 ^ 63 ->
  Vxt.get_frame_info cfg n frames = Ok (Some inf, frames') ->
  exists v,
    Vle.enc_vle (Z.of_nat n) = Ok v
    /\ FrameSpec.frames_inv cfg frames'
    /\ WireSpec.frames_sized cfg frames'
    /\ frames' !! n = Some inf
    /\ let bits := WireSpec.payload_bits cfg n v (concat ps)
                     (WireSpec.upto cfg frames' n) (WireSpec.upto cfg frames' (S n)) in
       let body := bits ++ replicate (Z.to_nat (Vxt.nbits cfg - (len bits + 32))) false in
       VxtFrame.gen_frame sha512 fs cfg n frames
       = Ok (Some (Bits.bstr2bits (take 4 (sha512 (Bits.ascii_bits body))) ++ body),
             frames').
Proof using All.
  intros Hinv Hsz Hn Hg.
  destruct (get_frame_info_sized cfg figs_distinct figs_nonneg n frames frames' _ Hinv Hsz Hg)
    as (Hinv' & Hsz' & Hlook).
  specialize (Hlook inf eq_refl).
  destruct (enc_vle_loop_length (Z.to_nat (Z.log2 (Z.of_nat n))) (Z.of_nat n) [])
    as (v & Hv & _).
  { split; [lia|]. apply enc_vle_fuel. lia. }
  cbn [app] in Hv. fold (Vle.enc_vle (Z.of_nat n)) in Hv.
  exists v. split; [exact Hv|]. split; [exact Hinv'|]. split; [exact Hsz'|].
  split; [exact Hlook|]. cbv zeta.
  destruct Hinv' as [Hne Hch].
  assert (Hinf : inf <> []).
  { rewrite Forall_forall in Hne. apply Hne. eapply list_elem_of_lookup_2. exact Hlook. }
  (* the chunks of the frame go on from where the frames before it end *)
  assert (Hsplit : take (S n) frames' = take n frames' ++ [inf])
    by (apply take_S_r; exact Hlook).
  assert (Hcat : concat frames'
                 = (concat (take n frames') ++ inf) ++ concat (drop (S n) frames')).
  { rewrite <- (take_drop (S n) frames') at 1.
    rewrite Hsplit, !concat_app. cbn [concat]. now rewrite app_nil_r. }
  rewrite Hcat in Hch. apply (chain_app cfg) in Hch as [Hch _].
  apply (chain_app cfg) in Hch as [Hch0 Hchn].
  fold (WireSpec.upto cfg frames' n) in Hchn.
  assert (Hend : FrameSpec.chain_end cfg (WireSpec.upto cfg frames' n) inf
                 = WireSpec.upto cfg frames' (S n)).
  { unfold WireSpec.upto. rewrite Hsplit, concat_app. cbn [concat].
    now rewrite app_nil_r, chain_end_app. }
  assert (Hup : 0 <= WireSpec.upto cfg frames' n) by (now apply chain_end_le).
  destruct (Hsz' n inf v Hlook Hv) as [Hfit _].
  destruct (chunk_size_le inf _ Hchn) as [Hall Hpos].
  assert (Hov : 0 <= FrameSpec.overhead cfg n v).
  { unfold FrameSpec.overhead. pose proof (len_nonneg v).
    pose proof (len_nonneg (Vxt.header0 cfg)). destruct n; lia. }
  assert (Hsmall : Forall (fun c => Vxt.bit2 c - Vxt.bit1 c <= Vxt.nbits cfg) inf).
  { eapply Forall_impl; [exact Hall|]. intros c Hc. cbv beta in Hc. lia. }
  unfold VxtFrame.gen_frame. rewrite Hg. cbn [bind].
  destruct inf as [|c0 inf0]; [congruence|].
  rewrite Hv. cbn [bind].
  pose proof (vle_short (Z.of_nat n) v ltac:(lia) Hv) as Hvs.
  pose proof header0_short as Hh0.
  unfold Vxt.bstr2bits at 1.
  destruct (Z.ltb_spec 35000 (len v)) as [Hc|_]; [lia|]. cbn [bind].
  assert (Hpre : (match n with
                  | O => let* hb := Vxt.bstr2bits (Vxt.header0 cfg) in
                         Ok (Bits.bstr2bits v ++ hb)
                  | S _ => Ok (Bits.bstr2bits v)
                  end)
                 = Ok (Bits.bstr2bits v
                       ++ match n with
                          | O => Bits.bstr2bits (Vxt.header0 cfg)
                          | S _ => []
                          end)).
  { destruct n; [|now rewrite app_nil_r].
    unfold Vxt.bstr2bits.
    destruct (Z.ltb_spec 35000 (len (Vxt.header0 cfg))) as [Hc|_]; [lia|]. reflexivity. }
  rewrite Hpre. cbn [bind].
  rewrite (chunks_bits_span (c0 :: inf0) _ _ Hup Hchn Hsmall), Hend. cbn [bind].
  rewrite seal_frame_eq. cbv zeta. unfold WireSpec.payload_bits.
  rewrite <- !app_assoc. reflexivity.
Qed.

Hypothesis nbits_large : 320 < Vxt.nbits cfg.

Lemma vle_of_ok (n : nat) :
  Z.of_nat n < 2 ^ 63 -> Vle.enc_vle (Z.of_nat n) = Ok (WireSpec.vle_of n).
Proof using Type.
  intros Hn. destruct (enc_vle_codec (Z.of_nat n) ltac:(lia)) as (v & Hv & _).
  unfold WireSpec.vle_of. now rewrite Hv.
Qed.

Lemma overhead_small (n : nat) :
  Z.of_nat n < 2 ^ 63 ->
  0 <= FrameSpec.overhead cfg n (WireSpec.vle_of n) < Vxt.nbits cfg.
Proof using init_ok count_small total_small fls_wf nbits_large.
  intros Hn. pose proof (vle_short (Z.of_nat n) _ ltac:(lia) (vle_of_ok n Hn)) as Hv.
  pose proof header0_short as Hh. pose proof (len_nonneg (WireSpec.vle_of n)).
  pose proof (len_nonneg (Vxt.header0 cfg)).
  unfold FrameSpec.overhead. destruct n; lia.
Qed.

Lemma gen_frame_frame (n : nat) (frames frames' : list (list Vxt.chunk))
    (inf : list Vxt.chunk) :
  FrameSpec.frames_inv cfg frames ->
  WireSpec.frames_sized cfg frames ->
  Z.of_nat n < 2 ^ 63 ->
  Vxt.get_frame_info cfg n frames = Ok (Some inf, frames') ->
  VxtFrame.gen_frame sha512 fs cfg n frames
  = Ok (Some (WireSpec.frame sha512 cfg n (concat ps)
                (WireSpec.upto cfg frames' n) (WireSpec.upto cfg frames' (S n))),
        frames')
  /\ FrameSpec.frames_inv cfg frames'
  /\ WireSpec.frames_sized cfg frames'
  /\ frames' !! n = Some inf.
Proof using All.
  intros Hinv Hsz Hn Hg.
  destruct (gen_frame_spec n frames frames' inf Hinv Hsz Hn Hg)
    as (v & Hv & Hinv' & Hsz' & Hl & Hgen).
  cbv zeta in Hgen. unfold WireSpec.frame, WireSpec.vle_of. rewrite Hv. auto.
Qed.

Lemma pieces_count : length ps = length (Vxt.figs cfg).
Proof using init_ok digest_length pieces_ok.
  destruct (make_figs_spec sha512 digest_length fls _ figs_made) as (ps' & Hps & Hl1 & Hl2 & _).
  rewrite pieces_ok in Hps. injection Hps as <-. lia.
Qed.

Lemma stream_bits : FrameSpec.total_bits cfg = 8 * len (concat ps).
Proof using init_ok digest_length pieces_ok fls_wf.
  unfold FrameSpec.total_bits. rewrite offset_pieces by lia.
  rewrite take_ge; [reflexivity|]. rewrite pieces_count. lia.
Qed.

Lemma offset_le_total (i : nat) :
  (i <= length (Vxt.figs cfg))%nat -> FrameSpec.offset cfg i <= FrameSpec.total_bits cfg.
Proof using init_ok digest_length pieces_ok fls_wf.
  intros Hi. rewrite stream_bits, offset_pieces by exact Hi.
  rewrite <- (take_drop i ps) at 2. rewrite concat_app. unfold len.
  rewrite length_app. lia.
Qed.

Lemma chain_within (cs : list Vxt.chunk) :
  forall p, FrameSpec.chain cfg p cs -> p <= FrameSpec.total_bits cfg ->
            FrameSpec.chain_end cfg p cs <= FrameSpec.total_bits cfg.
Proof using init_ok digest_length pieces_ok fls_wf.
  induction cs as [|c cs IH]; intros p; cbn [FrameSpec.chain FrameSpec.chain_end];
    [auto|].
  intros ((fg & Hfg & Hb & Hb2) & Hs & Hc) Hp. apply (IH _ Hc).
  apply lookup_lt_Some in Hfg as Hlt.
  pose proof (offset_le_total (S (Vxt.c_fig c)) ltac:(lia)) as Ho.
  rewrite (offset_S cfg _ _ Hfg) in Ho. unfold FrameSpec.stop. lia.
Qed.

(** A chunk starts before the end of the stream. *)
Lemma chain_starts_inside (c : Vxt.chunk) (cs : list Vxt.chunk) (p : Z) :
  FrameSpec.chain cfg p (c :: cs) -> p < FrameSpec.total_bits cfg.
Proof using init_ok digest_length pieces_ok fls_wf.
  cbn [FrameSpec.chain]. intros ((fg & Hfg & Hb & Hb2) & Hs & _).
  apply lookup_lt_Some in Hfg as Hlt.
  pose proof (offset_le_total (S (Vxt.c_fig c)) ltac:(lia)) as Ho.
  rewrite (offset_S cfg _ _ Hfg) in Ho. unfold FrameSpec.start in Hs. lia.
Qed.

Lemma take_chain (frames : list (list Vxt.chunk)) (k : nat) :
  FrameSpec.frames_inv cfg frames ->
  FrameSpec.chain cfg 0 (concat (take k frames))
  /\ FrameSpec.chain cfg (WireSpec.upto cfg frames k) (concat (drop k frames)).
Proof using Type.
  intros [_ Hch].
  assert (E : concat frames = concat (take k frames) ++ concat (drop k frames))
    by (now rewrite <- concat_app, take_drop).
  rewrite E in Hch. apply (chain_app cfg) in Hch. exact Hch.
Qed.

Lemma upto_S (frames : list (list Vxt.chunk)) (k : nat) (inf : list Vxt.chunk) :
  frames !! k = Some inf ->
  WireSpec.upto cfg frames (S k)
  = FrameSpec.chain_end cfg (WireSpec.upto cfg frames k) inf.
Proof using Type.
  intros Hk. unfold WireSpec.upto. rewrite (take_S_r _ _ _ Hk), concat_app.
  cbn [concat]. now rewrite app_nil_r, chain_end_app.
Qed.

Lemma upto_bounds (frames : list (list Vxt.chunk)) (k : nat) (inf : list Vxt.chunk) :
  FrameSpec.frames_inv cfg frames ->
  frames !! k = Some inf ->
  0 <= WireSpec.upto cfg frames k < FrameSpec.total_bits cfg
  /\ WireSpec.upto cfg frames (S k) = WireSpec.upto cfg frames k + WireSpec.size inf
  /\ 0 < WireSpec.size inf
  /\ WireSpec.upto cfg frames (S k) <= FrameSpec.total_bits cfg.
Proof using init_ok digest_length pieces_ok fls_wf.
  intros Hinv Hk. destruct (take_chain frames k Hinv) as [H0 Hd].
  rewrite (drop_S _ _ _ Hk) in Hd. cbn [concat] in Hd.
  apply (chain_app cfg) in Hd as [Hinf _].
  destruct Hinv as [Hne _]. rewrite Forall_forall in Hne.
  assert (Hnz : inf <> []) by (apply Hne; eapply list_elem_of_lookup_2; exact Hk).
  pose proof (chain_end_le cfg _ _ H0) as Hlo. fold (WireSpec.upto cfg frames k) in Hlo.
  destruct inf as [|c inf]; [congruence|].
  pose proof (chain_starts_inside c inf _ Hinf) as Hin.
  rewrite (upto_S frames k _ Hk), (chain_size cfg _ _ Hinf).
  pose proof (chain_within _ _ Hinf ltac:(lia)) as Hhi.
  rewrite (chain_size cfg _ _ Hinf) in Hhi.
  assert (Hpos : 0 < WireSpec.size (c :: inf)).
  { destruct Hinf as ((fg & _ & Hb & _) & _ & Hr).
    destruct (chunk_size_le inf _ Hr) as [_ Hs].
    change (WireSpec.size (c :: inf))
      with ((Vxt.bit2 c - Vxt.bit1 c) + WireSpec.size inf). lia. }
  lia.
Qed.

(** The frame tables that extend a table agree with it on its frames. *)
Lemma upto_take (final : list (list Vxt.chunk)) (m k : nat) :
  (k <= m)%nat ->
  WireSpec.upto cfg (take m final) k = WireSpec.upto cfg final k.
Proof using Type.
  intros Hk. unfold WireSpec.upto. rewrite take_take. f_equal. f_equal. f_equal. lia.
Qed.

(** The frames of a run of [gen_frame] from a frame table on. *)
Lemma frames_from_spec (fuel : nat) :
  forall frames screens,
    FrameSpec.frames_inv cfg frames ->
    WireSpec.frames_sized cfg frames ->
    VxtFrame.frames_from sha512 fs cfg fuel (length frames) frames = Ok screens ->
    Z.of_nat (length frames + length screens) < 2 ^ 63 ->
    exists final,
      FrameSpec.frames_inv cfg final
      /\ WireSpec.frames_sized cfg final
      /\ length final = (length frames + length screens)%nat
      /\ take (length frames) final = frames
      /\ WireSpec.upto cfg final (length final) = FrameSpec.total_bits cfg
      /\ (forall i, (i < length screens)%nat ->
           screens !! i
           = Some (WireSpec.frame sha512 cfg (length frames + i) (concat ps)
                     (WireSpec.upto cfg final (length frames + i))
                     (WireSpec.upto cfg final (S (length frames + i)))))
      /\ (forall m inf,
            (length frames <= m)%nat -> final !! m = Some inf ->
            Vxt.get_frame_info cfg m (take m final) = Ok (Some inf, take (S m) final))
      /\ Vxt.get_frame_info cfg (length final) final = Ok (None, final).
Proof using All.
  induction fuel as [|fuel IH]; intros frames screens Hinv Hsz; cbn [VxtFrame.frames_from];
    [discriminate|].
  set (n := length frames).
  destruct (Vxt.get_frame_info cfg n frames) as [[r frames']| |] eqn:Hg.
  2, 3: unfold VxtFrame.gen_frame; rewrite Hg; discriminate.
  pose proof (get_frame_info_next cfg figs_distinct figs_nonneg frames frames' r Hinv Hsz Hg)
    as Hext.
  destruct r as [inf|].
  - intros Hrun Hlen.
    assert (Hn : Z.of_nat n < 2 ^ 63).
    { destruct (VxtFrame.gen_frame sha512 fs cfg n frames) as [[[fr|] fr']| |];
        cbn [bind] in Hrun; try discriminate.
      - destruct (VxtFrame.frames_from _ _ _ _ _ _) as [rs| |]; cbn [bind] in Hrun;
          try discriminate.
        injection Hrun as <-. cbn [length] in Hlen. subst n. lia.
      - injection Hrun as <-. cbn [length] in Hlen. subst n. lia. }
    destruct (gen_frame_frame n frames frames' inf Hinv Hsz Hn Hg)
      as (Hgen & Hinv' & Hsz' & Hl).
    rewrite Hgen in Hrun. cbn [bind] in Hrun.
    assert (Hlen' : length frames' = S n) by (rewrite Hext, length_app; cbn; lia).
    rewrite <- Hlen' in Hrun.
    destruct (VxtFrame.frames_from sha512 fs cfg fuel (length frames') frames')
      as [rs| |] eqn:Hrs; cbn [bind] in Hrun; try discriminate.
    injection Hrun as <-. cbn [length] in Hlen.
    destruct (IH frames' rs Hinv' Hsz' Hrs ltac:(lia))
      as (final & Hfi & Hfs & Hfl & Hft & Hend & Hall & Hget & Hstop).
    assert (Htk : take n final = frames).
    { transitivity (take n frames').
      - rewrite <- Hft, take_take. f_equal. lia.
      - rewrite Hext. apply take_app_length. }
    exists final. split; [exact Hfi|]. split; [exact Hfs|].
    split; [cbn [length]; lia|]. split; [exact Htk|].
    split; [exact Hend|]. split; [|split; [|exact Hstop]].
    { intros [|i] Hi.
      + cbn [lookup list_lookup]. rewrite Nat.add_0_r. f_equal. f_equal.
        * rewrite <- (upto_take final (S n) n) by lia.
          rewrite <- Hlen', Hft. reflexivity.
        * rewrite <- (upto_take final (S n) (S n)) by lia.
          rewrite <- Hlen', Hft. reflexivity.
      + cbn [length] in Hi. pose proof (Hall i ltac:(lia)) as Hi'.
        rewrite Hlen' in Hi'. replace (S n + i)%nat with (n + S i)%nat in Hi' by lia.
        exact Hi'. }
    intros m inf' Hm Hfm.
    destruct (Nat.eq_dec m n) as [->|Hne]; [|apply Hget; [lia|exact Hfm]].
    assert (E : inf' = inf).
    { rewrite <- Hft, Hlen', lookup_take_lt in Hl by lia. congruence. }
    rewrite E, Htk. rewrite <- Hlen', Hft. exact Hg.
  - intros Hrun Hlen. cbn [app] in Hext. rewrite app_nil_r in Hext. subst frames'.
    unfold VxtFrame.gen_frame in Hrun. rewrite Hg in Hrun. cbn [bind] in Hrun.
    injection Hrun as <-. cbn [length] in Hlen.
    exists frames. split; [exact Hinv|]. split; [exact Hsz|].
    split; [cbn [length]; lia|]. split; [apply firstn_all|].
    split; [|split; [intros i Hi; cbn [length] in Hi; lia|split; [|exact Hg]]].
    + unfold WireSpec.upto. rewrite firstn_all.
      destruct (get_frame_info_inv cfg figs_distinct figs_nonneg n frames frames None Hinv Hg)
        as [_ Hnone].
      apply (Hnone eq_refl (WireSpec.vle_of n)).
      * apply vle_of_ok. subst n. lia.
      * apply overhead_small. subst n. lia.
    + intros m inf' Hm Hfm. apply lookup_lt_Some in Hfm. lia.
Qed.

(** The run of [gen_frame] ends: every frame carries at least one bit of
    the stream, so that the first [None] comes after as many frames as the
    stream has bits at most. *)
Lemma frames_from_total (k : nat) :
  forall frames fuel,
    FrameSpec.frames_inv cfg frames ->
    WireSpec.frames_sized cfg frames ->
    (Z.to_nat (FrameSpec.total_bits cfg - WireSpec.upto cfg frames (length frames)) < k)%nat ->
    Z.of_nat (length frames)
    + (FrameSpec.total_bits cfg - WireSpec.upto cfg frames (length frames)) < 2 ^ 63 ->
    (k <= fuel)%nat ->
    exists screens,
      VxtFrame.frames_from sha512 fs cfg fuel (length frames) frames = Ok screens
      /\ Z.of_nat (length screens)
         <= FrameSpec.total_bits cfg - WireSpec.upto cfg frames (length frames).
Proof using All.
  induction k as [|k IH]; intros frames fuel Hinv Hsz Hk Hbound Hfuel; [lia|].
  destruct fuel as [|fuel]; [lia|]. cbn [VxtFrame.frames_from].
  set (n := length frames) in *.
  assert (Hup : WireSpec.upto cfg frames n <= FrameSpec.total_bits cfg).
  { destruct (take_chain frames n Hinv) as [H0 _].
    apply (chain_within _ _ H0). rewrite stream_bits.
    pose proof (len_nonneg (concat ps)). lia. }
  assert (Hn : Z.of_nat n < 2 ^ 63) by lia.
  destruct (get_frame_info_total cfg figs_distinct frames Hinv Hn) as (r & frames' & Hg).
  fold n in Hg.
  pose proof (get_frame_info_next cfg figs_distinct figs_nonneg frames frames' r Hinv Hsz Hg)
    as Hext.
  destruct r as [inf|].
  - destruct (gen_frame_frame n frames frames' inf Hinv Hsz Hn Hg)
      as (Hgen & Hinv' & Hsz' & Hl).
    rewrite Hgen. cbn [bind].
    assert (Hlen' : length frames' = S n) by (rewrite Hext, length_app; cbn; lia).
    destruct (upto_bounds frames' n inf Hinv' Hl) as (Hp & He & Hpos & Ht).
    assert (Hsame : WireSpec.upto cfg frames' n = WireSpec.upto cfg frames n).
    { unfold WireSpec.upto. rewrite Hext. subst n.
      now rewrite take_app_length, firstn_all. }
    rewrite <- Hlen'.
    destruct (IH frames' fuel Hinv' Hsz') as (rs & Hrs & Hlen).
    + rewrite Hlen'. lia.
    + rewrite Hlen'. lia.
    + lia.
    + rewrite Hrs. cbn [bind]. eexists. split; [reflexivity|].
      cbn [length]. rewrite Hlen' in Hlen. lia.
  - unfold VxtFrame.gen_frame. rewrite Hg. cbn [bind].
    exists []. split; [reflexivity|]. cbn [length]. lia.
Qed.

Lemma frames_from_runs (fuel : nat) :
  8 * len (concat ps) < 2 ^ 63 ->
  (Z.to_nat (8 * len (concat ps)) < fuel)%nat ->
  exists screens,
    VxtFrame.frames_from sha512 fs cfg fuel 0 [] = Ok screens
    /\ Z.of_nat (length screens) <= 8 * len (concat ps).
Proof using All.
  intros Hsmall Hfuel.
  destruct (frames_from_total fuel [] fuel) as (screens & Hrun & Hlen).
  - split; [constructor|exact I].
  - intros k inf vf Hk. discriminate.
  - cbn [length]. unfold WireSpec.upto. cbn. rewrite stream_bits. lia.
  - cbn [length]. unfold WireSpec.upto. cbn. rewrite stream_bits. lia.
  - lia.
  - exists screens. split; [exact Hrun|].
    cbn [length] in Hlen. unfold WireSpec.upto in Hlen. cbn in Hlen.
    rewrite stream_bits in Hlen. lia.
Qed.

Local Notation "'stream'" := (concat ps).

Lemma span_length (b : list byte) (p e : Z) :
  0 <= p <= e -> e <= 8 * len b -> len (WireSpec.span b p e) = e - p.
Proof using Type.
  intros Hp He. unfold WireSpec.span, len in He |- *.
  rewrite length_take, length_drop, bstr2bits_length. lia.
Qed.

Lemma span_all (b : list byte) : WireSpec.span b 0 (8 * len b) = Bits.bstr2bits b.
Proof using Type.
  unfold WireSpec.span. change (Z.to_nat 0) with 0%nat. rewrite drop_0.
  apply take_ge. rewrite bstr2bits_length. unfold len. lia.
Qed.

Lemma csum_bits (m : list byte) : length (Bits.bstr2bits (take 4 (sha512 m))) = 32%nat.
Proof using digest_length.
  rewrite bstr2bits_length, length_take, digest_length. reflexivity.
Qed.

(** The bits of a frame of the table before the padding. *)
Lemma payload_len (final : list (list Vxt.chunk)) (k : nat) (inf : list Vxt.chunk) :
  FrameSpec.frames_inv cfg final ->
  final !! k = Some inf ->
  len (WireSpec.payload_bits cfg k (WireSpec.vle_of k) stream
         (WireSpec.upto cfg final k) (WireSpec.upto cfg final (S k))) + 32
  = FrameSpec.overhead cfg k (WireSpec.vle_of k) + WireSpec.size inf.
Proof using init_ok digest_length pieces_ok fls_wf.
  intros Hinv Hk.
  destruct (upto_bounds final k inf Hinv Hk) as (Hp & He & Hs & Ht).
  rewrite stream_bits in Ht.
  pose proof (span_length stream (WireSpec.upto cfg final k) (WireSpec.upto cfg final (S k))
                ltac:(lia) Ht) as Hsp.
  unfold WireSpec.payload_bits, FrameSpec.overhead, len in Hsp |- *.
  destruct k; rewrite !length_app, !bstr2bits_length; cbn [length]; lia.
Qed.

Lemma frame_length (n : nat) (b : list byte) (p e : Z) :
  len (WireSpec.payload_bits cfg n (WireSpec.vle_of n) b p e) + 32 <= Vxt.nbits cfg ->
  len (WireSpec.frame sha512 cfg n b p e) = Vxt.nbits cfg.
Proof using digest_length.
  intros H. unfold WireSpec.frame, len in H |- *.
  rewrite !length_app, csum_bits, length_replicate. lia.
Qed.

Lemma frame_body (n : nat) (b : list byte) (p e : Z) :
  let body := Bits.bstr2bits (WireSpec.vle_of n) ++ WireSpec.data sha512 cfg n b p e in
  WireSpec.frame sha512 cfg n b p e
  = Bits.bstr2bits (take 4 (sha512 (Bits.ascii_bits body))) ++ body
  /\ WireSpec.data sha512 cfg n b p e
     = (match n with O => Bits.bstr2bits (Vxt.header0 cfg) | S _ => [] end
        ++ WireSpec.span b p e)
       ++ replicate
            (Z.to_nat (Vxt.nbits cfg
                       - (len (WireSpec.payload_bits cfg n (WireSpec.vle_of n) b p e) + 32)))
            false.
Proof using digest_length.
  assert (Hd : WireSpec.data sha512 cfg n b p e
     = (match n with O => Bits.bstr2bits (Vxt.header0 cfg) | S _ => [] end
        ++ WireSpec.span b p e)
       ++ replicate
            (Z.to_nat (Vxt.nbits cfg
                       - (len (WireSpec.payload_bits cfg n (WireSpec.vle_of n) b p e) + 32)))
            false).
  { unfold WireSpec.data, WireSpec.frame. cbv zeta.
    rewrite <- drop_drop.
    set (pad := replicate _ false).
    set (body0 := WireSpec.payload_bits cfg n (WireSpec.vle_of n) b p e ++ pad).
    assert (Hc : drop 32 (Bits.bstr2bits (take 4 (sha512 (Bits.ascii_bits body0))) ++ body0)
                 = body0).
    { rewrite <- (csum_bits (Bits.ascii_bits body0)). apply drop_app_length. }
    rewrite Hc. subst body0.
    unfold WireSpec.payload_bits at 1. rewrite <- !app_assoc.
    replace (8 * length (WireSpec.vle_of n))%nat
      with (length (Bits.bstr2bits (WireSpec.vle_of n)))
      by (rewrite bstr2bits_length; lia).
    rewrite drop_app_length. reflexivity. }
  cbv zeta. split; [|exact Hd].
  rewrite Hd. unfold WireSpec.frame. cbv zeta. unfold WireSpec.payload_bits at 1 3.
  rewrite <- !app_assoc. reflexivity.
Qed.

(** The receiver accepts a frame and finds its number and data. *)
Lemma check_frame_frame (n : nat) (b : list byte) (p e : Z) :
  Z.of_nat n < 2 ^ 56 ->
  Vxr.check_frame sha512 (WireSpec.frame sha512 cfg n b p e)
  = Vxr.Checked (Z.of_nat n) (WireSpec.data sha512 cfg n b p e).
Proof using digest_length.
  intros Hn. destruct (frame_body n b p e) as [-> _].
  apply (check_frame_sealed sha512 digest_length); [lia|].
  apply vle_of_ok. lia.
Qed.

(** Only the last frame is padded. *)
Lemma frame_no_pad (final : list (list Vxt.chunk)) (k : nat) (inf : list Vxt.chunk) :
  FrameSpec.frames_inv cfg final ->
  WireSpec.frames_sized cfg final ->
  Z.of_nat k < 2 ^ 63 ->
  final !! k = Some inf ->
  len (WireSpec.payload_bits cfg k (WireSpec.vle_of k) stream
         (WireSpec.upto cfg final k) (WireSpec.upto cfg final (S k))) + 32
  <= Vxt.nbits cfg
  /\ ((S k < length final)%nat ->
      len (WireSpec.payload_bits cfg k (WireSpec.vle_of k) stream
             (WireSpec.upto cfg final k) (WireSpec.upto cfg final (S k))) + 32
      = Vxt.nbits cfg).
Proof using init_ok digest_length pieces_ok fls_wf.
  intros Hinv Hsz Hn Hk. rewrite (payload_len final k inf Hinv Hk).
  destruct (Hsz k inf _ Hk (vle_of_ok k Hn)) as [Hle Hlt]. split; [exact Hle|].
  intros Hnext. destruct (lookup_lt_is_Some_2 final (S k) Hnext) as [inf' Hk'].
  destruct (upto_bounds final (S k) inf' Hinv Hk') as (Hp & _).
  destruct (Z.eq_dec (FrameSpec.overhead cfg k (WireSpec.vle_of k) + WireSpec.size inf)
              (Vxt.nbits cfg)) as [E|E]; [exact E|].
  rewrite Hlt in Hp by lia. lia.
Qed.

(** The data of the first [m] frames, when more frames follow them. *)
Lemma datas_concat (final : list (list Vxt.chunk)) :
  FrameSpec.frames_inv cfg final ->
  WireSpec.frames_sized cfg final ->
  Z.of_nat (length final) < 2 ^ 63 ->
  forall m, (m < length final)%nat ->
    concat ((fun i => WireSpec.data sha512 cfg i stream
                        (WireSpec.upto cfg final i) (WireSpec.upto cfg final (S i)))
              <$> seq 0 m)
    = match m with O => [] | S _ => Bits.bstr2bits (Vxt.header0 cfg) end
      ++ WireSpec.span stream 0 (WireSpec.upto cfg final m).
Proof using init_ok digest_length pieces_ok fls_wf.
  intros Hinv Hsz Hlen. induction m as [|m IH]; intros Hm.
  - cbn [seq fmap list_fmap concat app]. unfold WireSpec.upto.
    cbn [take concat FrameSpec.chain_end]. now rewrite span_empty.
  - rewrite seq_S, fmap_app, concat_app, (IH ltac:(lia)). cbn [fmap list_fmap concat].
    rewrite app_nil_r. cbn [Nat.add].
    destruct (lookup_lt_is_Some_2 final m ltac:(lia)) as [inf Hk].
    destruct (frame_body m stream (WireSpec.upto cfg final m) (WireSpec.upto cfg final (S m)))
      as [_ ->].
    destruct (frame_no_pad final m inf Hinv Hsz ltac:(lia) Hk) as [_ Hfull].
    rewrite (Hfull Hm), Z.sub_diag. cbn [Z.to_nat replicate]. rewrite app_nil_r.
    destruct (upto_bounds final m inf Hinv Hk) as (Hp & He & Hs & Ht).
    assert (Hm0 : m = 0%nat -> WireSpec.upto cfg final m = 0).
    { intros ->. reflexivity. }
    destruct m as [|m].
    + rewrite (Hm0 eq_refl), span_empty. cbn [app]. reflexivity.
    + cbn [app]. rewrite <- app_assoc. f_equal. apply span_app; lia.
Qed.

(** The data of all the frames: the stream header, the stream, and the
    padding of the last frame. *)
Lemma datas_all (final : list (list Vxt.chunk)) :
  FrameSpec.frames_inv cfg final ->
  WireSpec.frames_sized cfg final ->
  Z.of_nat (length final) < 2 ^ 63 ->
  final <> [] ->
  WireSpec.upto cfg final (length final) = FrameSpec.total_bits cfg ->
  exists tail,
    concat ((fun i => WireSpec.data sha512 cfg i stream
                        (WireSpec.upto cfg final i) (WireSpec.upto cfg final (S i)))
              <$> seq 0 (length final))
    = Bits.bstr2bits (Vxt.header0 cfg ++ stream) ++ tail.
Proof using init_ok digest_length pieces_ok fls_wf.
  intros Hinv Hsz Hlen Hne Hend.
  destruct (length final) as [|m] eqn:El; [now destruct final|].
  rewrite seq_S, fmap_app, concat_app. cbn [fmap list_fmap concat Nat.add].
  rewrite app_nil_r, (datas_concat final Hinv Hsz ltac:(lia) m ltac:(lia)).
  destruct (lookup_lt_is_Some_2 final m ltac:(lia)) as [inf Hk].
  destruct (frame_body m stream (WireSpec.upto cfg final m) (WireSpec.upto cfg final (S m)))
    as [_ ->].
  destruct (upto_bounds final m inf Hinv Hk) as (Hp & He & Hs & Ht).
  eexists. rewrite bstr2bits_app, <- (span_all stream), <- stream_bits, <- Hend.
  rewrite <- (span_app stream 0 (WireSpec.upto cfg final m) (WireSpec.upto cfg final (S m)))
    by lia.
  destruct m as [|m].
  - cbn [app]. rewrite span_empty. cbn [app]. rewrite <- !app_assoc. reflexivity.
  - cbn [app]. rewrite <- !app_assoc. reflexivity.
Qed.

(** The frames of a run of [gen_frame] from the first frame on carry the
    stream piece after piece. *)
Lemma frames_cover (fuel : nat) (screens : list (list bool)) :
  VxtFrame.frames_from sha512 fs cfg fuel 0 [] = Ok screens ->
  Z.of_nat (length screens) < 2 ^ 63 ->
  exists cut : nat -> Z,
    cut 0%nat = 0
    /\ cut (length screens) = 8 * len stream
    /\ forall i, (i < length screens)%nat ->
         cut i < cut (S i)
         /\ screens !! i = Some (WireSpec.frame sha512 cfg i stream (cut i) (cut (S i)))
         /\ len (WireSpec.frame sha512 cfg i stream (cut i) (cut (S i))) = Vxt.nbits cfg
         /\ ((S i < length screens)%nat ->
             len (WireSpec.payload_bits cfg i (WireSpec.vle_of i) stream
                    (cut i) (cut (S i))) + 32
             = Vxt.nbits cfg).
Proof using All.
  intros Hrun Hlen.
  destruct (frames_from_spec fuel [] screens)
    as (final & Hi & Hs & Hl & _ & Hend & Hall & _).
  - split; [constructor|exact I].
  - intros k inf vf Hk. discriminate.
  - exact Hrun.
  - cbn [length Nat.add]. exact Hlen.
  - cbn [length Nat.add] in Hl, Hall.
    exists (fun i => WireSpec.upto cfg final i). split; [reflexivity|]. split.
    + rewrite <- Hl, Hend. apply stream_bits.
    + intros i Hlt.
      destruct (lookup_lt_is_Some_2 final i ltac:(lia)) as [inf Hk].
      destruct (upto_bounds final i inf Hi Hk) as (Hp & He & Hsz & Ht).
      destruct (frame_no_pad final i inf Hi Hs ltac:(lia) Hk) as [Hfit Hfull].
      split; [lia|]. split; [exact (Hall i Hlt)|].
      split; [apply frame_length; exact Hfit|].
      intros Hnext. apply Hfull. lia.
Qed.

(** *** The loop of [run] *)

Section Navigation.
Hypothesis wide : 2 <= w.
Hypothesis high : 1 <= h.
Variables (final : list (list Vxt.chunk)) (screens : list (list bool)).
Hypothesis final_inv : FrameSpec.frames_inv cfg final.
Hypothesis final_sized : WireSpec.frames_sized cfg final.
Hypothesis final_len : length final = length screens.
Hypothesis final_small : Z.of_nat (length final) < 2 ^ 63.
Hypothesis final_frames :
  forall i, (i < length screens)%nat ->
    screens !! i
    = Some (WireSpec.frame sha512 cfg i stream
              (WireSpec.upto cfg final i) (WireSpec.upto cfg final (S i))).
Hypothesis final_get :
  forall m inf, final !! m = Some inf ->
    Vxt.get_frame_info cfg m (take m final) = Ok (Some inf, take (S m) final).
Hypothesis final_stop : Vxt.get_frame_info cfg (length final) final = Ok (None, final).

Local Notation "'scrs'" := (ScreenSpec.screen_of w h halfs <$> screens).

Lemma nbits_eq : Vxt.nbits cfg = (w * h - 1) * (if halfs then 2 else 1).
Proof using init_ok.
  pose proof init_ok as H. unfold Vxt.init in H.
  destruct (Vxt.make_figs (fst <$> fls)) as [fg| |]; cbn [bind] in H; try discriminate.
  destruct (Vle.enc_vle 1) as [v| |]; cbn [bind] in H; try discriminate.
  destruct (Vle.enc_vle (len (fst <$> fls))) as [nf| |]; cbn [bind] in H; try discriminate.
  destruct (Vle.enc_vle _) as [nb| |]; cbn [bind] in H; try discriminate.
  injection H as H. rewrite <- H. reflexivity.
Qed.

(** The first frames of the table are a frame table of their own. *)
Lemma prefix_inv (m : nat) :
  FrameSpec.frames_inv cfg (take m final) /\ WireSpec.frames_sized cfg (take m final).
Proof using All.
  split.
  - split; [apply Forall_take; exact (proj1 final_inv)|].
    exact (proj1 (take_chain final m final_inv)).
  - intros k inf vf Hk Hvf. apply lookup_take_Some in Hk as [Hk Hlt].
    destruct (final_sized k inf vf Hk Hvf) as [H1 H2]. split; [exact H1|].
    intros H. rewrite upto_take by lia. auto.
Qed.

(** [gen_frame] with the first [m] frames in the table, for one of them
    or the one after them. *)
Lemma gen_frame_at (m j : nat) :
  (m <= length final)%nat -> (j <= m)%nat ->
  VxtFrame.gen_frame sha512 fs cfg j (take m final)
  = Ok (screens !! j, take (m `max` (S j `min` length final)) final).
Proof using All.
  intros Hm Hj. destruct (prefix_inv m) as [Hpi Hps].
  destruct (Nat.lt_ge_cases j m) as [Hlt|Hge].
  - destruct (lookup_lt_is_Some_2 final j ltac:(lia)) as [inf Hinf].
    assert (Hg : Vxt.get_frame_info cfg j (take m final) = Ok (Some inf, take m final)).
    { rewrite get_frame_info_memo by (rewrite length_take; lia).
      rewrite lookup_take_lt by lia. now rewrite Hinf. }
    destruct (gen_frame_frame j (take m final) (take m final) inf Hpi Hps ltac:(lia) Hg)
      as (Hgen & _).
    rewrite Hgen, !upto_take by lia. rewrite final_frames by lia.
    do 3 f_equal. lia.
  - assert (j = m) as -> by lia.
    destruct (Nat.lt_ge_cases m (length final)) as [Hin|Hout].
    + destruct (lookup_lt_is_Some_2 final m Hin) as [inf Hinf].
      pose proof (final_get m inf Hinf) as Hg.
      destruct (gen_frame_frame m (take m final) (take (S m) final) inf Hpi Hps ltac:(lia) Hg)
        as (Hgen & _).
      rewrite Hgen, !upto_take by lia. rewrite final_frames by lia.
      do 3 f_equal. lia.
    + assert (m = length final) as -> by lia.
      rewrite !take_ge by lia. unfold VxtFrame.gen_frame. rewrite final_stop. cbn [bind].
      rewrite lookup_ge_None_2 by lia. reflexivity.
Qed.

Lemma frame_full (j : nat) (f : list bool) :
  screens !! j = Some f -> len f = Vxt.nbits cfg.
Proof using All.
  intros Hf. apply lookup_lt_Some in Hf as Hj.
  rewrite final_frames in Hf by exact Hj. injection Hf as <-.
  destruct (lookup_lt_is_Some_2 final j ltac:(lia)) as [inf Hinf].
  apply frame_length.
  destruct (frame_no_pad final j inf final_inv final_sized ltac:(lia) Hinf) as [Hfit _].
  exact Hfit.
Qed.

(** Every frame gives a screen, and the screen shows something. *)
Lemma screen_frame (j : nat) (f : list bool) :
  screens !! j = Some f ->
  f <> []
  /\ exists scr,
       VxtScreen.screen w h halfs f = Ok scr /\ scr <> [] /\ nth j scrs [] = scr.
Proof using All.
  intros Hf. pose proof (frame_full j f Hf) as Hlen. pose proof nbits_eq as Hn.
  split.
  { intros ->. unfold len in Hlen. cbn [length] in Hlen. lia. }
  destruct (screen_total w h halfs f wide high ltac:(lia)) as (scr & Hscr & Hl).
  exists scr. split; [exact Hscr|]. split.
  - intros ->. cbn [length] in Hl.
    assert (Hcells : 161 <= w * h - 1) by (destruct halfs; lia).
    assert (E : (Z.to_nat h * Z.to_nat w)%nat = Z.to_nat (h * w))
      by (now rewrite Z2Nat.inj_mul by lia).
    rewrite E in Hl. rewrite Z.mul_comm in Hl. lia.
  - apply nth_lookup_Some. rewrite list_lookup_fmap, Hf. cbn [fmap option_fmap option_map].
    f_equal. unfold ScreenSpec.screen_of. now rewrite Hscr.
Qed.

(** [rasterize] with the first [m] frames in the table. *)
Lemma rasterize_at (m j : nat) :
  (m <= length final)%nat -> (j <= m)%nat ->
  VxtScreen.rasterize sha512 fs cfg w h halfs j (take m final)
  = Ok (nth j scrs [], take (m `max` (S j `min` length final)) final).
Proof using All.
  intros Hm Hj. unfold VxtScreen.rasterize. rewrite (gen_frame_at m j Hm Hj). cbn [bind].
  destruct (screens !! j) as [f|] eqn:Hf.
  - destruct (screen_frame j f Hf) as (Hne & scr & Hscr & _ & Hnth).
    destruct f as [|b f]; [congruence|]. rewrite Hscr. cbn [bind]. now rewrite Hnth.
  - apply lookup_ge_None_1 in Hf. rewrite nth_overflow; [reflexivity|].
    now rewrite length_fmap.
Qed.

Lemma keys_differ (k : string) :
  String.eqb k "a" = true -> String.eqb k "d" = false.
Proof using Type.
  intros H. apply String.eqb_eq in H. now subst k.
Qed.

(** One turn of the loop: the transmitter moves as [move] says and draws
    the screen of the frame it comes to. *)
Lemma turn_spec (k : string) (st : VxtScreen.nav) :
  ScreenSpec.nav_ok final scrs st ->
  exists st',
    VxtScreen.turn sha512 fs cfg w h halfs k st = Ok st'
    /\ ScreenSpec.nav_ok final scrs st'
    /\ VxtScreen.cur_frame st' = (ScreenSpec.move (len screens) (VxtScreen.cur_frame st) k).1
    /\ VxtScreen.drawn st'
       = VxtScreen.drawn st
         ++ ((fun p => VxtScreen.Frame (nth (Z.to_nat p) scrs []))
               <$> (ScreenSpec.move (len screens) (VxtScreen.cur_frame st) k).2).
Proof using All.
  intros (m & Hm & Hfr & Hlo & Hhi & Hpend).
  unfold VxtScreen.turn, ScreenSpec.move.
  set (c0 := if String.eqb k "a" then Z.max (VxtScreen.cur_frame st - 1) 0
             else VxtScreen.cur_frame st).
  set (c := if String.eqb k "d" then c0 + 1 else c0).
  assert (Hc : -1 <= c <= VxtScreen.cur_frame st + 1).
  { subst c c0. destruct (String.eqb k "a") eqn:Ea.
    - rewrite (keys_differ k Ea). lia.
    - destruct (String.eqb k "d"); lia. }
  unfold len. rewrite <- final_len.
  destruct (Z.ltb_spec c 0) as [Hneg|Hpos].
  { eexists. split; [reflexivity|]. cbn [fst snd fmap list_fmap VxtScreen.cur_frame
                                          VxtScreen.drawn].
    rewrite app_nil_r. split; [|split; reflexivity].
    exists m. cbn [VxtScreen.frames VxtScreen.cur_frame VxtScreen.pend].
    repeat split; try assumption; lia. }
  (* the screen of the frame the transmitter comes to *)
  assert (Hfetch : exists m',
             (m <= m' <= length final)%nat
             /\ (S (Z.to_nat c) `min` length final <= m')%nat
             /\ (if fst (VxtScreen.pend st) =? c
                 then Ok (snd (VxtScreen.pend st), VxtScreen.frames st)
                 else
                   let* '(s, fr) :=
                     VxtScreen.rasterize sha512 fs cfg w h halfs (Z.to_nat c)
                       (VxtScreen.frames st) in
                   Ok (Some s, fr))
                = Ok (Some (nth (Z.to_nat c) scrs []), take m' final)).
  { assert (Hras : exists m',
               (m <= m' <= length final)%nat
               /\ (S (Z.to_nat c) `min` length final <= m')%nat
               /\ (let* '(s, fr) :=
                     VxtScreen.rasterize sha512 fs cfg w h halfs (Z.to_nat c)
                       (VxtScreen.frames st) in
                   Ok (Some s, fr))
                  = Ok (Some (nth (Z.to_nat c) scrs []), take m' final)).
    { exists (m `max` (S (Z.to_nat c) `min` length final))%nat.
      split; [lia|]. split; [lia|].
      rewrite Hfr, (rasterize_at m (Z.to_nat c) Hm ltac:(lia)). reflexivity. }
    destruct Hpend as [Hp|(j & Hj & Hjm & Hp)]; rewrite Hp; cbn [fst snd].
    - destruct (Z.eqb_spec (-1) c) as [E|_]; [lia|exact Hras].
    - destruct (Z.eqb_spec (Z.of_nat j) c) as [E|_]; [|exact Hras].
      exists m. rewrite <- E, Nat2Z.id, Hfr. split; [lia|]. split; [exact Hjm|reflexivity]. }
  destruct Hfetch as (m' & Hm' & Hmin & ->). cbn [bind].
  assert (Hpend' : VxtScreen.pend st = (-1, None)
                   \/ exists j : nat,
                        (j <= length final)%nat
                        /\ (S j `min` length final <= m')%nat
                        /\ VxtScreen.pend st = (Z.of_nat j, Some (nth j scrs []))).
  { destruct Hpend as [Hp|(j & Hj & Hjm & Hp)]; [now left|].
    right. exists j. split; [exact Hj|]. split; [lia|exact Hp]. }
  destruct (Z.ltb_spec c (Z.of_nat (length final))) as [Hin|Hout].
  - (* a frame: it is drawn *)
    destruct (lookup_lt_is_Some_2 screens (Z.to_nat c) ltac:(lia)) as [f Hf].
    destruct (screen_frame _ f Hf) as (_ & scr & _ & Hne & Hnth).
    rewrite Hnth. destruct scr as [|x scr]; [congruence|]. rewrite <- Hnth.
    destruct (String.eqb k "d") eqn:Ed.
    + rewrite (rasterize_at m' (Z.to_nat (c + 1)) ltac:(lia) ltac:(lia)). cbn [bind].
      eexists. split; [reflexivity|].
      cbn [fst snd fmap list_fmap VxtScreen.cur_frame VxtScreen.drawn].
      split; [|split; reflexivity].
      exists (m' `max` (S (Z.to_nat (c + 1)) `min` length final))%nat.
      cbn [VxtScreen.frames VxtScreen.cur_frame VxtScreen.pend].
      split; [lia|]. split; [reflexivity|]. split; [lia|]. split; [lia|].
      right. exists (Z.to_nat (c + 1)). split; [lia|]. split; [lia|].
      now rewrite Z2Nat.id by lia.
    + eexists. split; [reflexivity|].
      cbn [fst snd fmap list_fmap VxtScreen.cur_frame VxtScreen.drawn].
      split; [|split; reflexivity].
      exists m'. cbn [VxtScreen.frames VxtScreen.cur_frame VxtScreen.pend].
      split; [lia|]. split; [reflexivity|]. split; [lia|]. split; [lia|exact Hpend'].
  - (* past the last frame: nothing is drawn *)
    rewrite nth_overflow by (rewrite length_fmap; lia).
    eexists. split; [reflexivity|].
    cbn [fst snd fmap list_fmap VxtScreen.cur_frame VxtScreen.drawn].
    rewrite app_nil_r. split; [|split; reflexivity].
    exists m'. cbn [VxtScreen.frames VxtScreen.cur_frame VxtScreen.pend].
    split; [lia|]. split; [reflexivity|]. split; [lia|]. split; [lia|exact Hpend'].
Qed.

Lemma turns_spec (keys : list string) :
  forall st,
    ScreenSpec.nav_ok final scrs st ->
    exists st',
      VxtScreen.turns sha512 fs cfg w h halfs keys st = Ok st'
      /\ VxtScreen.drawn st'
         = VxtScreen.drawn st
           ++ ((fun p => VxtScreen.Frame (nth (Z.to_nat p) scrs []))
                 <$> ScreenSpec.visits (len screens) (VxtScreen.cur_frame st) keys).
Proof using All.
  induction keys as [|k keys IH]; intros st Hst; cbn [VxtScreen.turns ScreenSpec.visits].
  - exists st. split; [reflexivity|]. cbn [fmap list_fmap]. now rewrite app_nil_r.
  - destruct (String.eqb k _ || String.eqb k "k").
    + exists st. split; [reflexivity|]. cbn [fmap list_fmap]. now rewrite app_nil_r.
    + destruct (turn_spec k st Hst) as (st1 & Hturn & Hst1 & Hcur & Hdr).
      rewrite Hturn. cbn [bind].
      destruct (IH st1 Hst1) as (st' & Hrun & Hdr').
      exists st'. split; [exact Hrun|].
      rewrite Hdr', Hdr, Hcur, fmap_app, app_assoc. reflexivity.
Qed.

End Navigation.

(** The screens [run] draws for the keys it gets. *)
Lemma run_draws (fuel : nat) (screens : list (list bool)) (keys : list string) :
  2 <= w -> 1 <= h ->
  VxtFrame.frames_from sha512 fs cfg fuel 0 [] = Ok screens ->
  Z.of_nat (length screens) < 2 ^ 63 ->
  (exists st,
     VxtScreen.run sha512 fs cfg w h halfs keys = Ok st
     /\ VxtScreen.drawn st
        = VxtScreen.Cali (VxtScreen.calibration_boxes w h halfs)
          :: ((fun p => VxtScreen.Frame
                          (nth (Z.to_nat p) (ScreenSpec.screen_of w h halfs <$> screens) []))
                <$> ScreenSpec.visits (len screens) (-1) keys))
  /\ Forall (fun f => exists scr,
                        VxtScreen.screen w h halfs f = Ok scr /\ scr <> []) screens.
Proof using All.
  intros Hw Hh Hrun Hlen.
  destruct (frames_from_spec fuel [] screens)
    as (final & Hi & Hs & Hl & _ & _ & Hall & Hget & Hstop).
  - split; [constructor|exact I].
  - intros k inf vf Hk. discriminate.
  - exact Hrun.
  - cbn [length Nat.add]. exact Hlen.
  - cbn [length Nat.add] in Hl, Hall.
    assert (Hget' : forall m inf, final !! m = Some inf ->
              Vxt.get_frame_info cfg m (take m final) = Ok (Some inf, take (S m) final)).
    { intros m inf Hm. apply Hget; [cbn [length]; lia|exact Hm]. }
    split.
    + destruct (turns_spec Hw Hh final screens Hi Hs Hl ltac:(lia) Hall Hget' Hstop keys
                  (VxtScreen.start w h halfs))
        as (st & Hst & Hdr).
      * exists 0%nat. cbn. repeat split; try lia. now left.
      * exists st. split; [exact Hst|]. exact Hdr.
    + apply Forall_lookup. intros j f Hf.
      destruct (screen_frame Hw Hh final screens Hi Hs Hl ltac:(lia) Hall Hget' Hstop j f Hf)
        as (_ & scr & Hscr & Hne & _).
      eauto.
Qed.


Lemma calls_checked (b : list byte) (P E : nat -> Z) (m : nat) :
  forall k,
    Z.of_nat (k + m) < 2 ^ 56 ->
    Forall2 (fun '(j, d) c => Vxr.check_frame sha512 c = Vxr.Checked j d)
      (XferSpec.calls_from (Z.of_nat k)
         ((fun i => WireSpec.data sha512 cfg i b (P i) (E i)) <$> seq k m))
      ((fun i => WireSpec.frame sha512 cfg i b (P i) (E i)) <$> seq k m).
Proof using digest_length.
  induction m as [|m IH]; intros k Hk; cbn [seq fmap list_fmap XferSpec.calls_from];
    constructor.
  - apply check_frame_frame. lia.
  - replace (Z.of_nat k + 1) with (Z.of_nat (S k)) by lia. apply IH. lia.
Qed.

Variables (live rest : list XferSpec.sent).
Hypothesis fls_split : fls = live ++ rest.
Hypothesis live_last : exists l0 y, live = l0 ++ [y] /\ y.2 <> [].
Hypothesis rest_empty : Forall (fun x : XferSpec.sent => Vxt.f_sz x.1 = 0) rest.

Lemma stream_nonempty : stream <> [].
Proof using init_ok digest_length pieces_ok fls_split live_last.
  destruct live_last as (l0 & y & Hl & Hy).
  assert (Hk : fls !! length l0 = Some y).
  { rewrite fls_split, Hl, <- app_assoc. cbn [app]. apply list_lookup_middle. reflexivity. }
  destruct (make_figs_spec sha512 digest_length fls _ figs_made) as (ps' & Hps & _ & _ & Hall).
  rewrite pieces_ok in Hps. injection Hps as <-.
  destruct (Hall _ y Hk) as (hd & _ & _ & _ & _ & Hp).
  rewrite <- (take_drop_middle _ _ _ Hp), concat_app. cbn [concat].
  intros E. apply app_eq_nil in E as [_ E]. apply app_eq_nil in E as [E _]. auto.
Qed.

(** The frames of a run of [gen_frame] from the first frame on. *)
Lemma frames_shown (fuel : nat) (screens : list (list bool)) :
  VxtFrame.frames_from sha512 fs cfg fuel 0 [] = Ok screens ->
  Z.of_nat (length screens) < 2 ^ 63 ->
  exists final,
    FrameSpec.frames_inv cfg final
    /\ WireSpec.frames_sized cfg final
    /\ length final = length screens
    /\ final <> []
    /\ WireSpec.upto cfg final (length final) = FrameSpec.total_bits cfg
    /\ screens
       = (fun i => WireSpec.frame sha512 cfg i stream
                     (WireSpec.upto cfg final i) (WireSpec.upto cfg final (S i)))
           <$> seq 0 (length final).
Proof using All.
  intros Hrun Hlen.
  destruct (frames_from_spec fuel [] screens)
    as (final & Hi & Hs & Hl & _ & Hend & Hall & _).
  - split; [constructor|exact I].
  - intros k inf vf Hk. discriminate.
  - exact Hrun.
  - cbn [length Nat.add]. exact Hlen.
  - cbn [length Nat.add] in Hl, Hall.
    exists final. split; [exact Hi|]. split; [exact Hs|]. split; [exact Hl|].
    split; [|split; [exact Hend|]].
    + intros ->. unfold WireSpec.upto in Hend. cbn in Hend.
      rewrite stream_bits in Hend. apply stream_nonempty.
      destruct stream; [reflexivity|]. unfold len in Hend. cbn [length] in Hend. lia.
    + apply list_eq. intros i. rewrite list_lookup_fmap.
      destruct (Nat.lt_ge_cases i (length screens)) as [Hlt|Hge].
      * rewrite (Hall i Hlt), lookup_seq_lt by lia. reflexivity.
      * rewrite lookup_ge_None_2 by lia.
        rewrite lookup_seq_ge by lia. reflexivity.
Qed.

Variable os : Vxr.filesystem.
Hypothesis live_served : XferSpec.served os live.

(** The files arrive: the decode loop, given captures of the frames in the
    order the transmitter shows them, ends with the files written. *)
Lemma transfer_run (fuel_t fuel_r : nat) (screens caps : list (list bool)) :
  VxtFrame.frames_from sha512 fs cfg fuel_t 0 [] = Ok screens ->
  Z.of_nat (length screens) < 2 ^ 56 ->
  CaptureSpec.captured sha512 0 screens caps ->
  (2 * length live + 2 <= fuel_r)%nat ->
  exists st,
    VxrMain.decode sha512 os fuel_r Vxr.init caps = Ok (true, st)
    /\ Vxr.files_written st = XferSpec.entry <$> live
    /\ Vxr.files_done st = len live
    /\ Vxr.bytes_done st = XferSpec.sizes live.
Proof using All.
  intros Hrun Hlen Hcap Hfuel.
  destruct (frames_shown fuel_t screens Hrun ltac:(lia))
    as (final & Hi & Hs & Hl & Hne & Hend & Hscr).
  destruct (datas_all final Hi Hs ltac:(lia) Hne Hend) as (tail & Hcat).
  pose proof (calls_checked stream (fun i => WireSpec.upto cfg final i)
                (fun i => WireSpec.upto cfg final (S i)) (length final) 0 ltac:(lia)) as Hchk.
  cbv beta in Hchk. rewrite <- Hscr in Hchk. clear Hscr.
  destruct (length final) as [|m] eqn:Elen; [now destruct final|].
  cbn [seq fmap list_fmap] in Hcat, Hchk.
  set (d0 := WireSpec.data sha512 cfg 0 stream _ _) in *.
  set (ds := _ <$> seq 1 m) in *.
  assert (Hsizes : XferSpec.sizes live < 2 ^ 63).
  { pose proof total_small as H. rewrite fls_split, sizes_app, (sizes_zero rest rest_empty) in H.
    lia. }
  assert (Hwf : Forall XferSpec.wf live).
  { pose proof fls_wf as H. rewrite fls_split in H. now apply Forall_app in H as [H _]. }
  assert (Hd0 : 8 * len (Vxt.header0 cfg) <= len d0).
  { subst d0.
    destruct (frame_body 0 stream (WireSpec.upto cfg final 0) (WireSpec.upto cfg final 1))
      as [_ ->].
    unfold len. rewrite !length_app, bstr2bits_length. lia. }
  destruct (puts_restore sha512 os live rest cfg w h halfs stream tail d0 ds fuel_r
              digest_length Hwf live_served live_last rest_empty)
    as (st & Hlast & Hres).
  - rewrite <- fls_split. exact count_small.
  - exact Hsizes.
  - rewrite <- fls_split. exact init_ok.
  - rewrite <- fls_split. apply body_pieces. exact pieces_ok.
  - exact Hcat.
  - exact Hd0.
  - exact Hfuel.
  - exists st. split; [|exact Hres].
    apply (decode_captured sha512 os fuel_r 0 screens caps Hcap (d0 :: ds) Vxr.init st).
    + exact Hchk.
    + reflexivity.
    + reflexivity.
    + exact Hlast.
Qed.

End FrameBits.

(** X9: the frames the transmitter shows, taken in order from the first,
    carry the stream of figments (file header, file content, file header,
    ...) cut into consecutive parts.  [gen_frame], asked for frame 0, 1,
    ... in turn, answers every time and comes to [None] after no more
    frames than the stream has bits; frame [i] is the checksum, the number
    [i], in frame 0 the stream header, the bits [cut i .. cut (i + 1) - 1]
    of the stream and zeros; the cuts start at 0, grow, and end with the
    stream; every frame has as many bits as the screen shows, and only the
    last one is padded.  This holds when no two figments coincide (no two
    files of the same size), names and numbers are of the sizes the
    formats allow and the screen shows more than 320 bits. *)
Theorem frames_cover_stream (sha512 : list byte -> list byte)
    (fs : list byte -> option (list byte)) (fls : list XferSpec.sent)
    (cfg : Vxt.config) (w h : Z) (halfs : bool) (b : list byte) (fuel : nat) :
  (forall m, length (sha512 m) = 64%nat) ->
  Forall XferSpec.wf fls ->
  (forall x, x ∈ fls -> fs (Vxt.f_fn x.1) = Some x.2) ->
  (forall x hd, x ∈ fls -> XferSpec.header sha512 x = Ok hd -> len hd <= 35000) ->
  len fls < 2 ^ 63 ->
  XferSpec.sizes fls < 2 ^ 63 ->
  Vxt.init (fst <$> fls) w h halfs = Ok cfg ->
  NoDup (Vxt.figs cfg) ->
  320 < Vxt.nbits cfg <= 279986 ->
  XferSpec.body sha512 fls = Ok b ->
  8 * len b < 2 ^ 63 ->
  (Z.to_nat (8 * len b) < fuel)%nat ->
  exists (screens : list (list bool)) (cut : nat -> Z),
    VxtFrame.frames_from sha512 fs cfg fuel 0 [] = Ok screens
    /\ len screens <= 8 * len b
    /\ cut 0%nat = 0
    /\ cut (length screens) = 8 * len b
    /\ forall i, (i < length screens)%nat ->
         cut i < cut (S i)
         /\ screens !! i = Some (WireSpec.frame sha512 cfg i b (cut i) (cut (S i)))
         /\ len (WireSpec.frame sha512 cfg i b (cut i) (cut (S i))) = Vxt.nbits cfg
         /\ ((S i < length screens)%nat ->
             len (WireSpec.payload_bits cfg i (WireSpec.vle_of i) b (cut i) (cut (S i)))
             + 32
             = Vxt.nbits cfg).
Proof.
  intros Hdig Hwf Hfs Hhd Hcount Htotal Hinit Hdistinct [Hlo Hhi] Hbody Hsmall Hfuel.
  assert (Hfigs : Vxt.make_figs (fst <$> fls) = Ok (Vxt.figs cfg)).
  { unfold Vxt.init in Hinit.
    destruct (Vxt.make_figs (fst <$> fls)) as [fg| |]; cbn [bind] in Hinit; try discriminate.
    destruct (Vle.enc_vle 1) as [v| |]; cbn [bind] in Hinit; try discriminate.
    destruct (Vle.enc_vle (len (fst <$> fls))) as [nf| |]; cbn [bind] in Hinit;
      try discriminate.
    destruct (Vle.enc_vle _) as [nb| |]; cbn [bind] in Hinit; try discriminate.
    injection Hinit as Hinit. now rewrite <- Hinit. }
  destruct (make_figs_spec sha512 Hdig fls _ Hfigs) as (ps & Hps & _).
  rewrite (body_pieces sha512 fls ps Hps) in Hbody. injection Hbody as <-.
  destruct (frames_from_runs sha512 Hdig fs fls cfg w h halfs Hinit Hwf Hdistinct Hfs Hhd Hhi
              ps Hps Hcount Htotal Hlo fuel Hsmall Hfuel) as (screens & Hrun & Hlen).
  destruct (frames_cover sha512 Hdig fs fls cfg w h halfs Hinit Hwf Hdistinct Hfs Hhd Hhi
              ps Hps Hcount Htotal Hlo fuel screens Hrun ltac:(lia)) as (cut & Hcut).
  exists screens, cut. split; [exact Hrun|]. split; [exact Hlen|exact Hcut].
Qed.

Lemma frames_cover_stream_witness :
  let sha := fun _ : list byte => replicate 64 x00 in
  let a : XferSpec.sent := (Vxt.mkFile [x61] 40 5, replicate 40 x62) in
  let fs := fun fn : list byte =>
              match fn with [x61] => Some (replicate 40 x62) | _ => None end in
  exists cfg b screens (cut : nat -> Z),
    Vxt.init [a.1] 20 10 true = Ok cfg
    /\ XferSpec.body sha [a] = Ok b
    /\ VxtFrame.frames_from sha fs cfg 500 0 [] = Ok screens
    /\ length screens = 2%nat
    /\ cut 0%nat = 0
    /\ cut (length screens) = 8 * len b
    /\ forall i, (i < length screens)%nat ->
         cut i < cut (S i)
         /\ screens !! i = Some (WireSpec.frame sha cfg i b (cut i) (cut (S i)))
         /\ len (WireSpec.frame sha cfg i b (cut i) (cut (S i))) = Vxt.nbits cfg
         /\ ((S i < length screens)%nat ->
             len (WireSpec.payload_bits cfg i (WireSpec.vle_of i) b (cut i) (cut (S i)))
             + 32
             = Vxt.nbits cfg).
Proof.
  intros sha a fs.
  destruct (Vxt.init [a.1] 20 10 true) as [cfg| |] eqn:Hinit; [|discriminate..].
  destruct (XferSpec.body sha [a]) as [b| |] eqn:Hbody; [|discriminate..].
  destruct (frames_cover_stream sha fs [a] cfg 20 10 true b 500)
    as (screens & cut & Hrun & _ & H0 & Hend & Hall).
  - intros m. reflexivity.
  - constructor; [|constructor].
    repeat split; vm_compute; (reflexivity || discriminate).
  - intros x Hx. apply list_elem_of_singleton in Hx as ->. reflexivity.
  - intros x hd Hx. apply list_elem_of_singleton in Hx as ->.
    vm_compute. intros [= <-]. discriminate.
  - vm_compute. reflexivity.
  - vm_compute. reflexivity.
  - exact Hinit.
  - vm_compute in Hinit. injection Hinit as <-. cbn [Vxt.figs].
    apply NoDup_cons. split.
    { intros H. apply elem_of_cons in H as [H|H]; [discriminate|].
      now apply elem_of_nil in H. }
    apply NoDup_cons. split; [apply not_elem_of_nil|]. apply NoDup_nil. exact I.
  - vm_compute in Hinit. injection Hinit as <-. cbn [Vxt.nbits]. lia.
  - exact Hbody.
  - vm_compute in Hbody. injection Hbody as <-. vm_compute. reflexivity.
  - vm_compute in Hbody. injection Hbody as <-. vm_compute. lia.
  - assert (Hlen : length screens = 2%nat).
    { vm_compute in Hinit. injection Hinit as <-. vm_compute in Hrun.
      injection Hrun as <-. reflexivity. }
    exists cfg, b, screens, cut. auto 10.
Defined.




(** X11: the transfer tolerates what the receiver captures besides the
    frames.  Under the conditions of the transfer as a whole, let the
    receiver capture every frame the transmitter shows, in order, and
    between them anything that does not pass for the frame the assembler
    waits for: screens with a wrong checksum, frames it has had already,
    frames with another number; after the last frame, anything.  Then the
    decode loop ends in the same way, with the same files written. *)
Theorem transfer_tolerates_noise (sha512 : list byte -> list byte) (os : Vxr.filesystem)
    (fs : list byte -> option (list byte)) (live rest : list XferSpec.sent)
    (cfg : Vxt.config) (w h : Z) (halfs : bool) (b : list byte) (fuel_t : nat) :
  (forall m, length (sha512 m) = 64%nat) ->
  Forall XferSpec.wf (live ++ rest) ->
  XferSpec.served os live ->
  (exists l0 y, live = l0 ++ [y] /\ y.2 <> []) ->
  Forall (fun x : XferSpec.sent => Vxt.f_sz x.1 = 0) rest ->
  (forall x, x ∈ live ++ rest -> fs (Vxt.f_fn x.1) = Some x.2) ->
  (forall x hd, x ∈ live ++ rest -> XferSpec.header sha512 x = Ok hd -> len hd <= 35000) ->
  len (live ++ rest) < 2 ^ 63 ->
  XferSpec.sizes (live ++ rest) < 2 ^ 63 ->
  Vxt.init (fst <$> (live ++ rest)) w h halfs = Ok cfg ->
  NoDup (Vxt.figs cfg) ->
  320 < Vxt.nbits cfg <= 279986 ->
  XferSpec.body sha512 (live ++ rest) = Ok b ->
  8 * len b < 2 ^ 56 ->
  (Z.to_nat (8 * len b) < fuel_t)%nat ->
  exists screens,
    VxtFrame.frames_from sha512 fs cfg fuel_t 0 [] = Ok screens
    /\ forall caps fuel_r,
         CaptureSpec.captured sha512 0 screens caps ->
         (2 * length live + 2 <= fuel_r)%nat ->
         exists st,
           VxrMain.decode sha512 os fuel_r Vxr.init caps = Ok (true, st)
           /\ Vxr.files_written st = XferSpec.entry <$> live
           /\ Vxr.files_done st = len live
           /\ Vxr.bytes_done st = XferSpec.sizes live.
Proof.
  intros Hdig Hwf Hserved Hlast Hrest Hfs Hhd Hcount Htotal Hinit Hdistinct [Hlo Hhi]
    Hbody Hsmall Hfuel_t.
  assert (Hfigs : Vxt.make_figs (fst <$> (live ++ rest)) = Ok (Vxt.figs cfg)).
  { unfold Vxt.init in Hinit.
    destruct (Vxt.make_figs (fst <$> (live ++ rest))) as [fg| |]; cbn [bind] in Hinit;
      try discriminate.
    destruct (Vle.enc_vle 1) as [v| |]; cbn [bind] in Hinit; try discriminate.
    destruct (Vle.enc_vle (len (fst <$> (live ++ rest)))) as [nf| |]; cbn [bind] in Hinit;
      try discriminate.
    destruct (Vle.enc_vle _) as [nb| |]; cbn [bind] in Hinit; try discriminate.
    injection Hinit as Hinit. now rewrite <- Hinit. }
  destruct (make_figs_spec sha512 Hdig (live ++ rest) _ Hfigs) as (ps & Hps & _).
  rewrite (body_pieces sha512 _ ps Hps) in Hbody. injection Hbody as <-.
  destruct (frames_from_runs sha512 Hdig fs (live ++ rest) cfg w h halfs Hinit Hwf Hdistinct
              Hfs Hhd Hhi ps Hps Hcount Htotal Hlo fuel_t ltac:(lia) Hfuel_t)
    as (screens & Hrun & Hlen).
  exists screens. split; [exact Hrun|]. intros caps fuel_r Hcap Hfuel.
  exact (transfer_run sha512 Hdig fs (live ++ rest) cfg w h halfs Hinit Hwf Hdistinct Hfs
           Hhd Hhi ps Hps Hcount Htotal Hlo live rest eq_refl Hlast Hrest os Hserved
           fuel_t fuel_r screens caps Hrun ltac:(lia) Hcap Hfuel).
Qed.

Lemma transfer_tolerates_noise_witness :
  let sha := fun _ : list byte => replicate 64 x00 in
  let a : XferSpec.sent := (Vxt.mkFile [x61] 40 5, replicate 40 x62) in
  let fs := fun fn : list byte =>
              match fn with [x61] => Some (replicate 40 x62) | _ => None end in
  exists cfg f0 f1 st,
    Vxt.init [a.1] 20 10 true = Ok cfg
    /\ VxtFrame.frames_from sha fs cfg 500 0 [] = Ok [f0; f1]
    /\ VxrMain.decode sha AsmSpec.willing 4 Vxr.init
         [[true]; f0; f0; [false; true]; f1; f0]
       = Ok (true, st)
    /\ Vxr.files_written st = XferSpec.entry <$> [a]
    /\ Vxr.files_done st = len [a]
    /\ Vxr.bytes_done st = XferSpec.sizes [a].
Proof.
  intros sha a fs.
  destruct (Vxt.init [a.1] 20 10 true) as [cfg| |] eqn:Hinit; [|discriminate..].
  destruct (XferSpec.body sha [a]) as [b| |] eqn:Hbody; [|discriminate..].
  destruct (transfer_tolerates_noise sha AsmSpec.willing fs [a] [] cfg 20 10 true b 500)
    as (screens & Hrun & Hdec).
  - intros m. reflexivity.
  - constructor; [|constructor].
    repeat split; vm_compute; (reflexivity || discriminate).
  - intros done x todo _. repeat split.
  - exists [], a. split; [reflexivity|discriminate].
  - constructor.
  - intros x Hx. apply list_elem_of_singleton in Hx as ->. reflexivity.
  - intros x hd Hx. apply list_elem_of_singleton in Hx as ->.
    vm_compute. intros [= <-]. discriminate.
  - vm_compute. reflexivity.
  - vm_compute. reflexivity.
  - exact Hinit.
  - vm_compute in Hinit. injection Hinit as <-. cbn [Vxt.figs].
    apply NoDup_cons. split.
    { intros H. apply elem_of_cons in H as [H|H]; [discriminate|].
      now apply elem_of_nil in H. }
    apply NoDup_cons. split; [apply not_elem_of_nil|]. apply NoDup_nil. exact I.
  - vm_compute in Hinit. injection Hinit as <-. cbn [Vxt.nbits]. lia.
  - exact Hbody.
  - vm_compute in Hbody. injection Hbody as <-. vm_compute. reflexivity.
  - vm_compute in Hbody. injection Hbody as <-. vm_compute. lia.
  - destruct screens as [|f0 [|f1 [|f2 screens]]].
    1, 2, 4: vm_compute in Hinit; injection Hinit as <-; vm_compute in Hrun; discriminate.
    assert (Hno0 : forall d, Vxr.check_frame sha f0 <> Vxr.Checked 1 d).
    { vm_compute in Hinit. injection Hinit as <-. vm_compute in Hrun.
      injection Hrun as <- <-. intros d. vm_compute. discriminate. }
    destruct (Hdec [[true]; f0; f0; [false; true]; f1; f0] 4%nat) as (st & Hst).
    + apply CaptureSpec.captured_other; [intros d; vm_compute; discriminate|].
      apply CaptureSpec.captured_frame.
      apply CaptureSpec.captured_other; [exact Hno0|].
      apply CaptureSpec.captured_other; [intros d; vm_compute; discriminate|].
      apply CaptureSpec.captured_frame.
      apply CaptureSpec.captured_end.
    + cbn [length]. lia.
    + exists cfg, f0, f1, st. auto 10.
Defined.

(** X13: what [rasterize] puts on the screen.  On a terminal at least two
    columns wide, a frame of as many bits as the screen shows fills the
    [w * h - 1] cells up to the last, which stays free, row by row.
    Without half blocks the cell in row [r], column [c] shows bit
    [r * w + c].  With half blocks it shows two bits, the upper half bit
    [2 * r * w + c] and the lower half the bit one row of bits further:
    [w] bits further, and in the last row of the terminal, where the rows
    of bits are one short, [w - 1] bits further. *)
Theorem screen_cells (w h : Z) (halfs : bool) (bits : list bool) :
  2 <= w -> 1 <= h ->
  len bits = (w * h - 1) * (if halfs then 2 else 1) ->
  exists scr,
    VxtScreen.screen w h halfs bits = Ok scr
    /\ len scr = w * h - 1
    /\ forall r c,
         0 <= r < h -> 0 <= c < (if r =? h - 1 then w - 1 else w) ->
         scr !! Z.to_nat (r * w + c)
         = Some (if halfs
                 then VxtScreen.cell2
                        (nth (Z.to_nat (2 * r * w + c)) bits false)
                        (nth (Z.to_nat (2 * r * w + (if r =? h - 1 then w - 1 else w) + c))
                           bits false)
                 else VxtScreen.cell (nth (Z.to_nat (r * w + c)) bits false)).
Proof.
  intros Hw Hh Hlen.
  assert (Hcol : forall r c, 0 <= r < h -> 0 <= c < (if r =? h - 1 then w - 1 else w) ->
            (Z.to_nat r < Z.to_nat h)%nat
            /\ (Z.to_nat c < (if (Z.to_nat r =? Z.to_nat h - 1)%nat
                              then Z.to_nat w - 1 else Z.to_nat w))%nat
            /\ (Z.to_nat r =? Z.to_nat h - 1)%nat = (r =? h - 1)).
  { intros r c Hr Hc.
    assert (E : (Z.to_nat r =? Z.to_nat h - 1)%nat = (r =? h - 1)).
    { destruct (Nat.eqb_spec (Z.to_nat r) (Z.to_nat h - 1)), (Z.eqb_spec r (h - 1)); lia. }
    rewrite E. split; [lia|]. split; [|reflexivity].
    destruct (r =? h - 1); lia. }
  assert (Hmul : forall a b, 0 <= a -> 0 <= b ->
            (Z.to_nat a * Z.to_nat b)%nat = Z.to_nat (a * b))
    by (intros a b Ha Hb; now rewrite Z2Nat.inj_mul).
  assert (Hcells_n : (Z.to_nat h * Z.to_nat w - 1)%nat = Z.to_nat (w * h - 1)).
  { rewrite Hmul by lia. assert (0 < w * h) by nia. rewrite Z.mul_comm. lia. }
  assert (Hidx : forall r c, 0 <= r -> 0 <= c ->
            Z.to_nat (r * w + c) = (Z.to_nat r * Z.to_nat w + Z.to_nat c)%nat).
  { intros r c Hr Hc. rewrite Hmul by lia. assert (0 <= r * w) by nia. lia. }
  destruct halfs.
  - destruct (cells_halfs w h true bits Hw Hh Hlen eq_refl) as (scr & Hscr & Hl & Hcells).
    exists scr. split; [exact Hscr|]. split; [unfold len; rewrite Hl, Hcells_n; nia|].
    intros r c Hr Hc. destruct (Hcol r c Hr Hc) as (Hr' & Hc' & E).
    specialize (Hcells (Z.to_nat r) (Z.to_nat c) Hr' Hc'). rewrite E in Hcells.
    rewrite Hidx by lia.
    rewrite Hcells. do 2 f_equal; f_equal.
    + rewrite (Hidx (2 * r) c) by lia. rewrite <- (Hmul 2 r) by lia. reflexivity.
    + assert (Hrw : 0 <= 2 * r * w) by nia.
      assert (E2 : Z.to_nat (2 * r * w) = (2 * Z.to_nat r * Z.to_nat w)%nat).
      { rewrite <- (Hmul (2 * r) w), <- (Hmul 2 r) by lia. reflexivity. }
      destruct (r =? h - 1); lia.
  - destruct (cells_plain w h false bits Hw Hh Hlen eq_refl) as (scr & Hscr & Hl & Hcells).
    exists scr. split; [exact Hscr|]. split; [unfold len; rewrite Hl, Hcells_n; nia|].
    intros r c Hr Hc. destruct (Hcol r c Hr Hc) as (Hr' & Hc' & E).
    specialize (Hcells (Z.to_nat r) (Z.to_nat c) Hr' Hc').
    rewrite Hidx by lia.
    exact Hcells.
Qed.

Lemma screen_cells_witness :
  exists scr,
    VxtScreen.screen 4 3 true ((fun i => Nat.even i) <$> seq 0 22) = Ok scr
    /\ len scr = 11
    /\ scr !! 10%nat = Some VxtScreen.UPPER.
Proof.
  destruct (screen_cells 4 3 true ((fun i => Nat.even i) <$> seq 0 22))
    as (scr & Hscr & Hl & Hcells); [lia|lia|reflexivity|].
  exists scr. split; [exact Hscr|]. split; [exact Hl|].
  apply (Hcells 2 2); [lia|]. change (2 =? 3 - 1) with true. cbv iota. lia.
Defined.

Lemma calibration_boxes_grid_witness :
  len <$> VxtScreen.calibration_boxes 20 12 true = replicate 11 20 ++ [19].
Proof. apply (calibration_boxes_grid 20 12 true); lia. Defined.

(** X14: what [run] draws.  [gen_frame], asked for frame 0, 1, ... in
    turn, comes to [None]; let [screens] be the frames it gives up to
    there.  Whatever keys it gets, [run] does not fail, and after
    the calibration screen it draws, key after key, the screen of the
    frame it comes to: [a] steps back and stops at frame 0, also from the
    calibration screen; [d] steps forward and draws nothing past the last
    frame; any other key draws the frame again, and nothing while the
    calibration screen is up; ctrl-c or [k] ends it.  The screen drawn for
    a frame is always the same, whether the frame is made anew, found in
    the frame table or was put aside while the frame before it was up;
    every frame has a screen and no screen is empty.  This holds when no
    two figments coincide (no two files of the same size), names and
    numbers are of the sizes the formats allow and the screen shows more
    than 320 bits. *)
Theorem run_navigates (sha512 : list byte -> list byte)
    (fs : list byte -> option (list byte)) (fls : list XferSpec.sent)
    (cfg : Vxt.config) (w h : Z) (halfs : bool) (b : list byte) (fuel : nat) :
  (forall m, length (sha512 m) = 64%nat) ->
  Forall XferSpec.wf fls ->
  (forall x, x ∈ fls -> fs (Vxt.f_fn x.1) = Some x.2) ->
  (forall x hd, x ∈ fls -> XferSpec.header sha512 x = Ok hd -> len hd <= 35000) ->
  len fls < 2 ^ 63 ->
  XferSpec.sizes fls < 2 ^ 63 ->
  2 <= w -> 1 <= h ->
  Vxt.init (fst <$> fls) w h halfs = Ok cfg ->
  NoDup (Vxt.figs cfg) ->
  320 < Vxt.nbits cfg <= 279986 ->
  XferSpec.body sha512 fls = Ok b ->
  8 * len b < 2 ^ 63 ->
  (Z.to_nat (8 * len b) < fuel)%nat ->
  exists screens,
    VxtFrame.frames_from sha512 fs cfg fuel 0 [] = Ok screens
    /\ (forall keys, exists st,
          VxtScreen.run sha512 fs cfg w h halfs keys = Ok st
          /\ VxtScreen.drawn st
             = VxtScreen.Cali (VxtScreen.calibration_boxes w h halfs)
               :: ((fun p => VxtScreen.Frame
                               (nth (Z.to_nat p)
                                  (ScreenSpec.screen_of w h halfs <$> screens) []))
                     <$> ScreenSpec.visits (len screens) (-1) keys))
    /\ Forall (fun f => exists scr,
                          VxtScreen.screen w h halfs f = Ok scr /\ scr <> []) screens.
Proof.
  intros Hdig Hwf Hfs Hhd Hcount Htotal Hw Hh Hinit Hdistinct [Hlo Hhi] Hbody Hsmall Hfuel.
  assert (Hfigs : Vxt.make_figs (fst <$> fls) = Ok (Vxt.figs cfg)).
  { unfold Vxt.init in Hinit.
    destruct (Vxt.make_figs (fst <$> fls)) as [fg| |]; cbn [bind] in Hinit; try discriminate.
    destruct (Vle.enc_vle 1) as [v| |]; cbn [bind] in Hinit; try discriminate.
    destruct (Vle.enc_vle (len (fst <$> fls))) as [nf| |]; cbn [bind] in Hinit;
      try discriminate.
    destruct (Vle.enc_vle _) as [nb| |]; cbn [bind] in Hinit; try discriminate.
    injection Hinit as Hinit. now rewrite <- Hinit. }
  destruct (make_figs_spec sha512 Hdig fls _ Hfigs) as (ps & Hps & _).
  rewrite (body_pieces sha512 fls ps Hps) in Hbody. injection Hbody as <-.
  destruct (frames_from_runs sha512 Hdig fs fls cfg w h halfs Hinit Hwf Hdistinct Hfs Hhd Hhi
              ps Hps Hcount Htotal Hlo fuel Hsmall Hfuel) as (screens & Hrun & Hlen).
  exists screens. split; [exact Hrun|]. split.
  - intros keys.
    exact (proj1 (run_draws sha512 Hdig fs fls cfg w h halfs Hinit Hwf Hdistinct Hfs Hhd Hhi
                    ps Hps Hcount Htotal Hlo fuel screens keys Hw Hh Hrun ltac:(lia))).
  - exact (proj2 (run_draws sha512 Hdig fs fls cfg w h halfs Hinit Hwf Hdistinct Hfs Hhd Hhi
                    ps Hps Hcount Htotal Hlo fuel screens [] Hw Hh Hrun ltac:(lia))).
Qed.

Lemma run_navigates_witness :
  let sha := fun _ : list byte => replicate 64 x00 in
  let a : XferSpec.sent := (Vxt.mkFile [x61] 40 5, replicate 40 x62) in
  let fs := fun fn : list byte =>
              match fn with [x61] => Some (replicate 40 x62) | _ => None end in
  let keys := ["x"; "a"; "d"; "d"; "d"; "a"; "k"; "d"]%string in
  exists cfg f0 f1 st,
    Vxt.init [a.1] 20 10 true = Ok cfg
    /\ VxtFrame.frames_from sha fs cfg 500 0 [] = Ok [f0; f1]
    /\ VxtScreen.run sha fs cfg 20 10 true keys = Ok st
    /\ VxtScreen.drawn st
       = [VxtScreen.Cali (VxtScreen.calibration_boxes 20 10 true);
          VxtScreen.Frame (ScreenSpec.screen_of 20 10 true f0);
          VxtScreen.Frame (ScreenSpec.screen_of 20 10 true f1);
          VxtScreen.Frame (ScreenSpec.screen_of 20 10 true f0)].
Proof.
  intros sha a fs keys.
  destruct (Vxt.init [a.1] 20 10 true) as [cfg| |] eqn:Hinit; [|discriminate..].
  destruct (XferSpec.body sha [a]) as [b| |] eqn:Hbody; [|discriminate..].
  destruct (run_navigates sha fs [a] cfg 20 10 true b 500)
    as (screens & Hrun & Hkeys & _).
  - intros m. reflexivity.
  - constructor; [|constructor].
    repeat split; vm_compute; (reflexivity || discriminate).
  - intros x Hx. apply list_elem_of_singleton in Hx as ->. reflexivity.
  - intros x hd Hx. apply list_elem_of_singleton in Hx as ->.
    vm_compute. intros [= <-]. discriminate.
  - vm_compute. reflexivity.
  - vm_compute. reflexivity.
  - lia.
  - lia.
  - exact Hinit.
  - vm_compute in Hinit. injection Hinit as <-. cbn [Vxt.figs].
    apply NoDup_cons. split.
    { intros H. apply elem_of_cons in H as [H|H]; [discriminate|].
      now apply elem_of_nil in H. }
    apply NoDup_cons. split; [apply not_elem_of_nil|]. apply NoDup_nil. exact I.
  - vm_compute in Hinit. injection Hinit as <-. cbn [Vxt.nbits]. lia.
  - exact Hbody.
  - vm_compute in Hbody. injection Hbody as <-. vm_compute. reflexivity.
  - vm_compute in Hbody. injection Hbody as <-. vm_compute. lia.
  - destruct screens as [|f0 [|f1 [|f2 screens]]].
    1, 2, 4: vm_compute in Hinit; injection Hinit as <-; vm_compute in Hrun; discriminate.
    destruct (Hkeys keys) as (st & Hst & Hdrawn).
    exists cfg, f0, f1, st. split; [reflexivity|]. split; [exact Hrun|].
    split; [exact Hst|]. exact Hdrawn.
Defined.


(** ** The keyboard transmitter: what is typed *)

Lemma split_segments (sep : Z) (t : KxtMain.text) :
  exists segs lst,
    KxtMain.split sep t = segs ++ [lst]
    /\ t = concat ((fun l => l ++ [sep]) <$> segs) ++ lst
    /\ Forall (fun l => sep ∉ l) (segs ++ [lst]).
Proof.
  induction t as [|c r (segs & lst & Hs & Ht & Hall)].
  - exists [], []. repeat split; [constructor; [apply not_elem_of_nil|constructor]].
  - cbn [KxtMain.split]. destruct (Z.eqb_spec c sep) as [->|Hne].
    + exists ([] :: segs), lst. rewrite Hs. split; [reflexivity|]. split.
      * cbn [fmap list_fmap concat app]. now rewrite <- Ht.
      * constructor; [apply not_elem_of_nil|exact Hall].
    + rewrite Hs. destruct segs as [|s ss]; cbn [app].
      * exists [], (c :: lst). split; [reflexivity|]. split.
        { cbn [fmap list_fmap concat app] in Ht |- *. now rewrite Ht. }
        apply Forall_cons in Hall as [Hl _]. constructor; [|constructor].
        intros H. apply elem_of_cons in H as [H|H]; [congruence|auto].
      * exists ((c :: s) :: ss), lst. split; [reflexivity|]. split.
        { cbn [fmap list_fmap concat app] in Ht |- *. now rewrite Ht. }
        apply Forall_cons in Hall as [Hl Hall]. constructor; [|exact Hall].
        intros H. apply elem_of_cons in H as [H|H]; [congruence|auto].
Qed.

Lemma split_no_sep (sep : Z) (t : KxtMain.text) :
  sep ∉ t -> KxtMain.split sep t = [t].
Proof.
  induction t as [|c r IH]; intros H; [reflexivity|].
  cbn [KxtMain.split]. destruct (Z.eqb_spec c sep) as [->|Hne].
  - exfalso. apply H. constructor.
  - rewrite IH; [reflexivity|]. intros Hr. apply H. now constructor.
Qed.

(** The pieces of a text that follows another continue its last piece. *)
Lemma split_app (sep : Z) (a : KxtMain.text) :
  forall sa la b xb rb,
    KxtMain.split sep a = sa ++ [la] ->
    KxtMain.split sep b = xb :: rb ->
    KxtMain.split sep (a ++ b) = sa ++ (la ++ xb) :: rb.
Proof.
  induction a as [|c r IH]; intros sa la b xb rb Ha Hb.
  - cbn [KxtMain.split] in Ha. destruct sa as [|s [|s' sa]]; try discriminate.
    injection Ha as <-. exact Hb.
  - cbn [KxtMain.split app] in Ha |- *.
    destruct (split_segments sep r) as (sr & lr & Hr & _).
    rewrite Hr in Ha. rewrite (IH sr lr b xb rb Hr Hb).
    destruct (c =? sep).
    + change ([] :: sr ++ [lr]) with (([] :: sr) ++ [lr]) in Ha.
      apply app_inj_tail in Ha as [<- <-]. reflexivity.
    + destruct sr as [|s ss]; cbn [app] in Ha |- *.
      * destruct sa as [|s [|s' sa]]; try discriminate. injection Ha as <-. reflexivity.
      * change ((c :: s) :: ss ++ [lr]) with (((c :: s) :: ss) ++ [lr]) in Ha.
        apply app_inj_tail in Ha as [<- <-]. reflexivity.
Qed.

Lemma not_in_concat {A : Type} (x : A) (ls : list (list A)) :
  Forall (fun l => x ∉ l) ls -> x ∉ concat ls.
Proof.
  induction 1 as [|l ls Hl _ IH]; cbn [concat]; [apply not_elem_of_nil|].
  rewrite elem_of_app. tauto.
Qed.

Lemma py_init_last {A : Type} (segs : list A) (lst : A) :
  Seq.py_init 1 (segs ++ [lst]) = segs.
Proof.
  unfold Seq.py_init. rewrite length_app. cbn [length].
  replace (length segs + 1 - 1)%nat with (length segs) by lia. apply take_app_length.
Qed.

Lemma item_last {A : Type} (segs : list A) (lst : A) :
  VxtFrame.item (segs ++ [lst]) (-1) = Ok lst.
Proof.
  unfold VxtFrame.item, len. rewrite length_app. cbn [length].
  destruct (Z.ltb_spec (-1) 0) as [_|Hc]; [|lia].
  destruct (Z.ltb_spec (-1 + Z.of_nat (length segs + 1)) 0) as [Hc|_]; [lia|].
  replace (Z.to_nat (-1 + Z.of_nat (length segs + 1))) with (length segs) by lia.
  now rewrite list_lookup_middle.
Qed.

Lemma put_spec (q : list KxtMain.text) (txt : KxtMain.text) (crlf : bool)
    (segs : list KxtMain.text) (lst : KxtMain.text) :
  KxtMain.split KxtMain.NL (if crlf then txt ++ [KxtMain.NL] else txt) = segs ++ [lst] ->
  KxtMain.put q txt crlf
  = Ok (q ++ ((fun ln => ln ++ [KxtMain.NL]) <$> segs)
          ++ match lst with [] => [] | _ :: _ => [lst] end).
Proof.
  intros Hs. unfold KxtMain.put, KxtMain.text in *. cbv zeta.
  rewrite Hs, py_init_last, item_last. cbn [bind].
  destruct lst; [now rewrite app_nil_r|now rewrite <- app_assoc].
Qed.

(** A line without a newline is queued as one item, with its newline. *)
Lemma put_line (q : list KxtMain.text) (ln : KxtMain.text) :
  KxtMain.NL ∉ ln -> KxtMain.put q ln true = Ok (q ++ [ln ++ [KxtMain.NL]]).
Proof.
  intros Hln.
  rewrite (put_spec q ln true [ln] []); [now rewrite app_nil_r|].
  rewrite (split_app KxtMain.NL ln [] ln [KxtMain.NL] [] [[]]).
  - now rewrite app_nil_r.
  - now apply split_no_sep.
  - reflexivity.
Qed.

Lemma put_all_lines (lines : list KxtMain.text) :
  forall q,
    Forall (fun l => KxtMain.NL ∉ l) lines ->
    KxtMain.put_all q lines = Ok (q ++ ((fun ln => ln ++ [KxtMain.NL]) <$> lines)).
Proof.
  induction lines as [|ln lines IH]; intros q Hall; cbn [KxtMain.put_all].
  - cbn [fmap list_fmap]. now rewrite app_nil_r.
  - apply Forall_cons in Hall as [Hln Hall]. rewrite (put_line q ln Hln). cbn [bind].
    rewrite (IH _ Hall), <- app_assoc. reflexivity.
Qed.

(** X15: [Typist.put] loses nothing and never queues an empty string:
    the items it puts into the queue are the text, with a newline added if
    asked for, cut after every newline. *)
Theorem put_queues_lines (q : list KxtMain.text) (txt : KxtMain.text) (crlf : bool) :
  exists segs lst,
    KxtMain.put q txt crlf
    = Ok (q ++ ((fun ln => ln ++ [KxtMain.NL]) <$> segs)
            ++ match lst with [] => [] | _ :: _ => [lst] end)
    /\ concat ((fun ln => ln ++ [KxtMain.NL]) <$> segs) ++ lst
       = txt ++ (if crlf then [KxtMain.NL] else [])
    /\ Forall (fun ln => KxtMain.NL ∉ ln) (segs ++ [lst]).
Proof.
  destruct (split_segments KxtMain.NL (if crlf then txt ++ [KxtMain.NL] else txt))
    as (segs & lst & Hs & Ht & Hall).
  exists segs, lst. split; [now apply put_spec|]. split; [|exact Hall].
  rewrite <- Ht. destruct crlf; [reflexivity|now rewrite app_nil_r].
Qed.

Section Wrap.
Variable decode : list byte -> KxtMain.text.
Variables (wrap : Z) (linepre linepost : KxtMain.text).
Hypothesis pre_plain : KxtMain.NL ∉ linepre.
Hypothesis post_plain : KxtMain.NL ∉ linepost.

Local Notation "'line'" := (fun l : KxtMain.text => linepre ++ l ++ linepost ++ [KxtMain.NL]).

Lemma put_wrapped (q : list KxtMain.text) (l : KxtMain.text) :
  KxtMain.NL ∉ l ->
  KxtMain.put q (linepre ++ l ++ linepost) true = Ok (q ++ [line l]).
Proof using pre_plain post_plain.
  intros Hl. rewrite put_line; [now rewrite <- !app_assoc|].
  rewrite !elem_of_app. tauto.
Qed.

(** The inner loop cuts lines of [wrap] characters off the buffer as long
    as it holds that many. *)
Lemma wrap_loop_spec (fuel : nat) :
  forall buf q,
    0 < wrap -> KxtMain.NL ∉ buf -> (length buf < fuel)%nat ->
    exists ls rem,
      buf = concat ls ++ rem
      /\ Forall (fun l => len l = wrap) ls
      /\ len rem < wrap
      /\ KxtMain.wrap_loop fuel wrap linepre linepost buf q = Ok (rem, q ++ (line <$> ls)).
Proof using pre_plain post_plain.
  induction fuel as [|fuel IH]; intros buf q Hw Hnl Hfuel; [lia|].
  cbn [KxtMain.wrap_loop]. destruct (Z.leb_spec wrap (len buf)) as [Hle|Hgt].
  - rewrite (slice_plain 0 wrap buf) by lia.
    rewrite (slice_plain wrap (len buf) buf) by lia.
    change (Z.to_nat 0) with 0%nat. rewrite drop_0, Z.sub_0_r.
    rewrite (take_ge (drop _ _)) by (rewrite length_drop; unfold len; lia).
    assert (Hhead : KxtMain.NL ∉ take (Z.to_nat wrap) buf).
    { intros H. apply Hnl. rewrite <- (take_drop (Z.to_nat wrap) buf), elem_of_app. now left. }
    assert (Htail : KxtMain.NL ∉ drop (Z.to_nat wrap) buf).
    { intros H. apply Hnl. rewrite <- (take_drop (Z.to_nat wrap) buf), elem_of_app. now right. }
    rewrite (put_wrapped q _ Hhead). cbn [bind].
    destruct (IH (drop (Z.to_nat wrap) buf) (q ++ [line (take (Z.to_nat wrap) buf)]) Hw Htail)
      as (ls & rem & Hbuf & Hall & Hrem & Hrun).
    { rewrite length_drop. unfold len in Hle. lia. }
    exists (take (Z.to_nat wrap) buf :: ls), rem. split; [|split; [|split]].
    + cbn [concat]. rewrite <- app_assoc, <- Hbuf. now rewrite take_drop.
    + constructor; [|exact Hall]. unfold len in Hle |- *. rewrite length_take. lia.
    + exact Hrem.
    + rewrite Hrun. cbn [fmap list_fmap]. now rewrite <- app_assoc.
  - exists [], buf. repeat split; [constructor|exact Hgt|].
    cbn [fmap list_fmap]. now rewrite app_nil_r.
Qed.

Lemma feed_wrap (fuel : nat) (chunks : list (list byte)) :
  forall left q,
    0 < wrap ->
    KxtMain.NL ∉ left -> KxtMain.NL ∉ TypeSpec.text_of decode chunks ->
    (length left + length (TypeSpec.text_of decode chunks) < fuel)%nat ->
    len left < wrap ->
    exists ls rem,
      left ++ TypeSpec.text_of decode chunks = concat ls ++ rem
      /\ Forall (fun l => len l = wrap) ls
      /\ len rem < wrap
      /\ KxtMain.feed decode fuel false wrap linepre linepost chunks left q
         = Ok (rem, q ++ (line <$> ls)).
Proof using pre_plain post_plain.
  unfold TypeSpec.text_of.
  induction chunks as [|c chunks IH]; intros left q Hw Hleft Hall Hfuel Hlen.
  - exists [], left. cbn [TypeSpec.worked concat fmap list_fmap KxtMain.feed app].
    rewrite !app_nil_r. repeat split; [constructor|exact Hlen].
  - destruct c as [|x c].
    { exists [], left. cbn [TypeSpec.worked concat fmap list_fmap KxtMain.feed app].
      rewrite !app_nil_r. repeat split; [constructor|exact Hlen]. }
    cbn [TypeSpec.worked fmap list_fmap concat] in Hall, Hfuel |- *.
    set (d := decode (x :: c)) in *.
    rewrite length_app in Hfuel. rewrite elem_of_app in Hall.
    cbn [KxtMain.feed negb]. fold d.
    destruct (wrap_loop_spec fuel (left ++ d) q Hw) as (ls1 & rem1 & Hbuf & Hall1 & Hrem1 & Hrun).
    { rewrite elem_of_app. tauto. }
    { rewrite length_app. lia. }
    cbv zeta. rewrite Hrun. cbn [bind].
    assert (Hnl1 : KxtMain.NL ∉ rem1).
    { intros H. assert (Hin : KxtMain.NL ∈ left ++ d)
        by (rewrite Hbuf, elem_of_app; now right).
      rewrite elem_of_app in Hin. tauto. }
    assert (Hlen1 : (length rem1 <= length left + length d)%nat).
    { apply (f_equal length) in Hbuf. rewrite !length_app in Hbuf. lia. }
    destruct (IH rem1 (q ++ (line <$> ls1)) Hw Hnl1 ltac:(tauto) ltac:(lia) Hrem1)
      as (ls2 & rem & Hcat & Hall2 & Hrem & Hfeed).
    exists (ls1 ++ ls2), rem. split; [|split; [|split]].
    + rewrite app_assoc, Hbuf, <- app_assoc, Hcat, concat_app, <- app_assoc.
      reflexivity.
    + apply Forall_app. auto.
    + exact Hrem.
    + rewrite Hfeed, fmap_app, <- app_assoc. reflexivity.
Qed.

Lemma put_total (q : list KxtMain.text) (txt : KxtMain.text) (crlf : bool) :
  exists q', KxtMain.put q txt crlf = Ok q'.
Proof using Type.
  destruct (split_segments KxtMain.NL (if crlf then txt ++ [KxtMain.NL] else txt))
    as (segs & lst & Hs & _).
  rewrite (put_spec q txt crlf segs lst Hs). eauto.
Qed.

Lemma wrap_loop_hangs (fuel : nat) :
  forall buf q,
    wrap <= 0 -> KxtMain.wrap_loop fuel wrap linepre linepost buf q = Timeout.
Proof using Type.
  induction fuel as [|fuel IH]; intros buf q Hw; [reflexivity|].
  cbn [KxtMain.wrap_loop].
  destruct (Z.leb_spec wrap (len buf)) as [_|Hc]; [|pose proof (len_nonneg buf); lia].
  destruct (put_total q (linepre ++ VxtFrame.slice 0 wrap buf ++ linepost) true) as [q' ->].
  cbn [bind]. now apply IH.
Qed.

End Wrap.

(** X16: the lines of base64.  With a positive line length [wrap], and
    text and line decoration free of newlines, the loop of [main] types
    the text of the stream (its chunks up to the first empty one, decoded)
    in lines of exactly [wrap] characters, a last shorter line taking what
    is left, each between [linepre] and [linepost] and ended by a newline:
    nothing is lost, no line is empty, and the lines depend on the text
    only, not on how it arrives in chunks. *)
Theorem b64_lines_typed (decode : list byte -> KxtMain.text) (fuel : nat) (wrap : Z)
    (linepre linepost : KxtMain.text) (chunks : list (list byte)) (q : list KxtMain.text) :
  0 < wrap ->
  KxtMain.NL ∉ linepre -> KxtMain.NL ∉ linepost ->
  KxtMain.NL ∉ TypeSpec.text_of decode chunks ->
  (length (TypeSpec.text_of decode chunks) < fuel)%nat ->
  exists ls rem,
    TypeSpec.text_of decode chunks = concat ls ++ rem
    /\ Forall (fun l => len l = wrap) ls
    /\ len rem < wrap
    /\ KxtMain.type_stream decode fuel false wrap linepre linepost chunks q
       = Ok (q ++ ((fun l => linepre ++ l ++ linepost ++ [KxtMain.NL])
                     <$> (ls ++ match rem with [] => [] | _ :: _ => [rem] end))).
Proof.
  intros Hw Hpre Hpost Hall Hfuel.
  destruct (feed_wrap decode wrap linepre linepost Hpre Hpost fuel chunks [] q Hw)
    as (ls & rem & Hcat & Hls & Hrem & Hfeed);
    [apply not_elem_of_nil|exact Hall|cbn [length]; lia|unfold len; cbn [length]; lia|].
  exists ls, rem. cbn [app] in Hcat. split; [exact Hcat|]. split; [exact Hls|].
  split; [exact Hrem|].
  unfold KxtMain.type_stream. rewrite Hfeed. cbn [bind].
  destruct rem as [|x rem]; [now rewrite app_nil_r|].
  rewrite put_wrapped; [now rewrite fmap_app, <- app_assoc|exact Hpre|exact Hpost|].
  intros H. apply Hall. rewrite Hcat, elem_of_app. now right.
Qed.

Lemma b64_lines_typed_witness :
  let decode := fun c : list byte => Z_of_byte <$> c in
  let chunks := [[x41; x42]; [x43; x44; x45]; [x46; x47]] in
  exists ls rem,
    TypeSpec.text_of decode chunks = concat ls ++ rem
    /\ Forall (fun l => len l = 3) ls
    /\ len rem < 3
    /\ KxtMain.type_stream decode 9 false 3 [] [94] chunks []
       = Ok ([] ++ ((fun l => [] ++ l ++ [94] ++ [KxtMain.NL])
                      <$> (ls ++ match rem with [] => [] | _ :: _ => [rem] end))).
Proof.
  intros decode chunks.
  apply (b64_lines_typed decode 9 3 [] [94] chunks []).
  - lia.
  - apply not_elem_of_nil.
  - intros H. apply list_elem_of_singleton in H. discriminate.
  - vm_compute. intros H.
    repeat (apply elem_of_cons in H as [H|H]; [discriminate|]). now apply elem_of_nil in H.
  - vm_compute. lia.
Defined.

(** X17: a line length of zero or less hangs the transmitter.  Without
    plain mode, as soon as a chunk of the stream arrives the loop that
    cuts lines never ends, whatever the stream holds: its condition
    [len(buf) >= wrap] stays true, and it goes on queueing lines. *)
Theorem wrap_nonpositive_hangs (decode : list byte -> KxtMain.text) (fuel : nat)
    (wrap : Z) (linepre linepost : KxtMain.text)
    (c : list byte) (chunks : list (list byte)) (q : list KxtMain.text) :
  wrap <= 0 ->
  c <> [] ->
  KxtMain.type_stream decode fuel false wrap linepre linepost (c :: chunks) q = Timeout.
Proof.
  intros Hw Hc. unfold KxtMain.type_stream. destruct c as [|x c]; [congruence|].
  cbn [KxtMain.feed negb]. cbv zeta.
  now rewrite (wrap_loop_hangs wrap linepre linepost fuel ([] ++ decode (x :: c)) q Hw).
Qed.

Lemma wrap_nonpositive_hangs_witness :
  KxtMain.type_stream (fun c => Z_of_byte <$> c) 50 false 0 [] [] [[x41; x42]] [] = Timeout.
Proof.
  apply (wrap_nonpositive_hangs (fun c => Z_of_byte <$> c) 50 0 [] [] [x41; x42] [] []);
    [lia|discriminate].
Defined.

Lemma filter_segment (p : Z) (t : KxtMain.text) (segs : list KxtMain.text)
    (lst : KxtMain.text) (sep : Z) :
  Forall (fun c => c <> p) t ->
  t = concat ((fun l => l ++ [sep]) <$> segs) ++ lst ->
  Forall (fun c => c <> p) lst.
Proof.
  intros Hall ->. now apply Forall_app in Hall as [_ H].
Qed.

Lemma filter_keeps (p : Z) (t : list Z) :
  Forall (fun c => c <> p) t -> filter (fun c => c <> p) t = t.
Proof.
  induction 1 as [|c t Hc _ IH]; [reflexivity|].
  rewrite filter_cons. destruct (decide (c <> p)) as [_|Hn]; [now rewrite IH|contradiction].
Qed.

Lemma filter_clean (p : Z) (t : list Z) :
  Forall (fun c => c <> p) (filter (fun c => c <> p) t).
Proof.
  apply Forall_forall. intros c Hc. now apply list_elem_of_filter in Hc as [Hc _].
Qed.

(** The loop in plain mode: the complete lines of what has arrived are
    typed, the line under way is kept. *)
Lemma feed_plain (decode : list byte -> list Z) (fuel : nat) (wrap : Z)
    (pre post : KxtMain.text) (chunks : list (list byte)) :
  forall (left : list Z) (q : list (list Z)),
    Forall (fun c => c <> KxtMain.CR) left ->
    KxtMain.NL ∉ left ->
    exists segs lst,
      KxtMain.split KxtMain.NL
        (left ++ filter (fun c => c <> KxtMain.CR) (TypeSpec.text_of decode chunks))
      = segs ++ [lst]
      /\ KxtMain.feed decode fuel true wrap pre post chunks left q
         = Ok (lst, q ++ ((fun ln => ln ++ [KxtMain.NL]) <$> segs)).
Proof.
  unfold TypeSpec.text_of.
  assert (Hstop : forall (left : list Z) (q : list (list Z)),
            KxtMain.NL ∉ left ->
            exists segs lst,
              KxtMain.split KxtMain.NL (left ++ filter (fun c => c <> KxtMain.CR) [])
              = segs ++ [lst]
              /\ Ok (left, q) = Ok (lst, q ++ ((fun ln => ln ++ [KxtMain.NL]) <$> segs))).
  { intros left q Hnl. exists [], left. cbn [filter fmap list_fmap app].
    rewrite !app_nil_r. split; [now apply split_no_sep|reflexivity]. }
  induction chunks as [|c chunks IH]; intros left q Hcr Hnl.
  - cbn [TypeSpec.worked concat fmap list_fmap KxtMain.feed]. now apply Hstop.
  - destruct c as [|x c].
    { cbn [TypeSpec.worked concat fmap list_fmap KxtMain.feed]. now apply Hstop. }
    cbn [TypeSpec.worked fmap list_fmap concat]. rewrite filter_app.
    set (fc := filter (fun c => c <> KxtMain.CR) (decode (x :: c))).
    set (rest := filter (fun c => c <> KxtMain.CR) (concat (decode <$> TypeSpec.worked chunks))).
    destruct (split_segments KxtMain.NL (left ++ fc)) as (s1 & l1 & Hs1 & Ht1 & Hall1).
    apply Forall_app in Hall1 as [Hsegs Hlast]. rewrite Forall_singleton in Hlast.
    assert (Hstep : KxtMain.feed decode fuel true wrap pre post ((x :: c) :: chunks) left q
                    = KxtMain.feed decode fuel true wrap pre post chunks l1
                        (q ++ ((fun ln => ln ++ [KxtMain.NL]) <$> s1))).
    { cbn [KxtMain.feed negb]. cbv zeta.
      rewrite filter_app, (filter_keeps _ left Hcr). fold fc.
      rewrite Hs1, py_init_last, item_last, (put_all_lines s1 q Hsegs). reflexivity. }
    rewrite Hstep.
    assert (Hcr1 : Forall (fun c => c <> KxtMain.CR) l1).
    { apply (filter_segment KxtMain.CR (left ++ fc) s1 l1 KxtMain.NL); [|exact Ht1].
      apply Forall_app. split; [exact Hcr|apply filter_clean]. }
    destruct (IH l1 (q ++ ((fun ln => ln ++ [KxtMain.NL]) <$> s1)) Hcr1 Hlast)
      as (s2 & lst & Hs2 & Hfeed).
    fold rest in Hs2.
    exists (s1 ++ s2), lst. split.
    + destruct (split_segments KxtMain.NL rest) as (sr & lr & Hr & _).
      assert (Hr' : exists xb rb, KxtMain.split KxtMain.NL rest = xb :: rb).
      { rewrite Hr. destruct sr; cbn [app]; eauto. }
      destruct Hr' as (xb & rb & Hr').
      rewrite app_assoc, (split_app KxtMain.NL (left ++ fc) s1 l1 rest xb rb Hs1 Hr').
      rewrite (split_app KxtMain.NL l1 [] l1 rest xb rb (split_no_sep _ _ Hlast) Hr') in Hs2.
      cbn [app] in Hs2. rewrite Hs2, app_assoc. reflexivity.
    + rewrite Hfeed, fmap_app, app_assoc. reflexivity.
Qed.

(** X18: plain mode types the lines of the text.  In plain mode (where
    [main] leaves [linepre] and [linepost] empty) what is typed is the
    text of the stream without its carriage returns, line by line: every
    line with its newline, and a last line without one is given one.  The
    text is that of the chunks up to the first empty one, each decoded on
    its own and put one after the other: a line may run over any number of
    chunks, while a character whose bytes are in two chunks is left to
    what [decode] makes of each part. *)
Theorem plain_lines_typed (decode : list byte -> KxtMain.text) (fuel : nat) (wrap : Z)
    (chunks : list (list byte)) (q : list KxtMain.text) :
  exists segs lst,
    KxtMain.split KxtMain.NL
      (filter (fun c => c <> KxtMain.CR) (TypeSpec.text_of decode chunks))
    = segs ++ [lst]
    /\ KxtMain.type_stream decode fuel true wrap [] [] chunks q
       = Ok (q ++ ((fun ln => ln ++ [KxtMain.NL])
                     <$> (segs ++ match lst with [] => [] | _ :: _ => [lst] end))).
Proof.
  destruct (feed_plain decode fuel wrap [] [] chunks [] q) as (segs & lst & Hs & Hfeed);
    [constructor|apply not_elem_of_nil|].
  cbn [app] in Hs. exists segs, lst. split; [exact Hs|].
  unfold KxtMain.type_stream. rewrite Hfeed. cbn [bind].
  destruct lst as [|x lst]; [now rewrite app_nil_r|].
  cbn [app]. rewrite app_nil_r, put_line; [now rewrite fmap_app, <- app_assoc|].
  destruct (split_segments KxtMain.NL
              (filter (fun c => c <> KxtMain.CR) (TypeSpec.text_of decode chunks)))
    as (s' & l' & Hs' & _ & Hall).
  rewrite Hs in Hs'. apply app_inj_tail in Hs' as [-> ->].
  apply Forall_app in Hall as [_ Hl]. now rewrite Forall_singleton in Hl.
Qed.
